(* ===== verification/_CoqProject ===== *)
-Q . S2P
Prelude.v
Interfaces.v
Keccak.v
Eip712Spec.v
Double.v
Json.v
Amounts.v
PricePath.v
Monotone.v
Keys.v
Signing.v
Protocol.v
Auth.v
Codecs.v
AuthMessages.v
DepositWallet.v
TypedData.v
WriteQueue.v
WsClient.v
WsLog.v
WsLogSafe.v
Outbox.v
Tls.v
Runtime.v
Http.v
DepositRpc.v
Feeds.v
FeedClients.v
Delivery.v
FeedSync.v
FeedRace.v
UserSession.v
Rest.v
RestClients.v
Clob.v
ClobOps.v
PreparedOrders.v
Relayer.v
RelayerOps.v
