(* ===== verification/Prelude.v ===== *)
(** * polymarket-cpp: a verification library

    The repository is a C++23 SDK for the Polymarket exchange.  [src/net] holds
    the transports (a synchronous HTTPS client, a reconnecting WebSocket client
    with its bounded write queue, the TLS context); [src/pm] holds the exchange
    logic (amount arithmetic, keys and EIP-712 signing, market protocols, request
    authentication, REST and trading clients, deposit wallets and their relayer,
    streaming feeds).  This library translates that code into Rocq definitions
    and proves what makes it correct.

    ** How the parts interact

    A trade goes through [ClobClient::prepare_order]: the asset is validated
    ([Protocol]), the price is snapped and the integer amounts derived
    ([Amounts]), the order is hashed and signed ([Signing], [Keys]), authenticated
    ([Auth]) and posted once ([Http]).  Account and public reads build a target
    ([Rest]) and go through HTTPS clients of their own ([RestClients]).  Deposit
    wallets are derived, resolved on chain ([DepositWallet], over HTTPS in
    [DepositRpc]) and operated through the relayer ([Relayer]).  Feeds ([Feeds])
    keep a subscription and talk through the WebSocket client they own
    ([FeedClients], [WsClient]), which queues its frames ([WriteQueue]).  All
    HTTPS clients share one runtime ([Runtime]) and all transports one TLS
    context ([Tls]).

    ** The files

    - [Prelude]: exceptions and the error monad ([result], [throw_if], [inv_ok]),
      machine integers as [Z] with their wrap-around written out, strings and
      decimal text, with the lemmas the components share, and [ST], the state and
      exception monad of the operations that make network calls.
    - [Interfaces]: the libraries that are not part of the repository, as classes
      of operations with classes of their documented laws: [U256Lib], [Eip712Lib]
      (izan-crypto), [EcdsaLib] (trezor-crypto), [SodiumLib] (libsodium).
      [Keccak] gives reference instances, among them an executable Keccak-256
      against which the repository's test vectors are checked.  [Eip712Spec] is
      the EIP-712 encoding of the standard for any schema of structs.
    - [Double]: IEEE binary64 as the Standard Library specifies it, [std::stod]
      on plain decimals and the shortest form of [std::to_chars].
    - [Json]: glaze's untyped JSON value as an interface, [std::stoll] and
      [std::stoull].
    - [Amounts] ([pm/amounts.cpp]): decimals read from doubles, exact scaling
      with three rounding modes, limit, market and protected amounts.
      [PricePath] bounds the error of the double division in [snap_price] and
      compares the two ways a price reaches the amounts; [Monotone] orders doubles
      and shows that the amounts follow, and that no rule pays more than a dollar a
      share.
    - [Keys] ([pm/keys.cpp]), [Signing] ([pm/signing.cpp]), [Protocol]
      ([pm/protocol.cpp]), [Auth] ([pm/auth.cpp], [pm/codec.cpp]), with [Codecs],
      an executable libsodium instance (base64url, SHA-256, HMAC) that reproduces
      the test vectors, and [AuthMessages] on what an L2 signature stands for;
      [DepositWallet] ([pm/deposit_wallet.cpp], [pm/deposit_wallet_rpc.cpp]),
      with [DepositRpc] for the production endpoint [HttpsEthRpc].  [TypedData]
      compares the hand-written type strings and buffers of orders, attestations,
      nested wallet signatures and batches with [Eip712Spec].
    - [WriteQueue] ([net/ws_write_queue.hpp]) and [WsClient]
      ([net/ws_client.cpp]): the queue's operations; the client's state as a
      record, one function per method and completion handler, and the [step]
      relation in which the environment calls methods and completes pending
      operations in any order and with any outcome; the client has no log hook.  [Outbox] is the client's
      contract towards its owner, an abstract box of accepted texts that are
      delivered from the front, with the refinement theorem; [Delivery] shows that
      the client can always empty it.  [WsLog] is the client with its log hook,
      which may call back into it, and [WsLogSafe] says which hooks may.
    - [Tls] ([net/tls.cpp]): the shared context.  [Runtime] and [Http]
      ([net/http_client.cpp]): the runtime's workers, client count and promises;
      the HTTPS client against an arbitrary sequence of network attempts, with a
      log of what was connected and transmitted; all clients of a process.
    - [Feeds] ([pm/market_ws.cpp], [pm/user_ws.cpp], [pm/rtds.cpp]): the feeds;
      [FeedClients]: their composition with the WebSocket client as step
      relations.  [FeedSync] follows one connection of the market feed to the venue;
      [FeedRace] splits the market feed's [subscribe] and [send_initial] into critical
      section and posts and interleaves them; [UserSession] is a run of the user feed.
    - [Rest] ([pm/account_rest.cpp], [pm/public_rest.cpp], [pm/geoblock.cpp]),
      [RestClients] (the account and public clients with their HTTPS clients),
      [Clob] ([pm/clob.cpp]) and [Relayer] ([pm/relayer.cpp]): the clients.
      [ClobOps] and [RelayerOps] run any sequence of the public operations of the
      trading and the relayer client, [PreparedOrders] says what the orders the
      former prepares are.

    Data keeps the source's shape: a struct is a record with the source's field
    names (with a prefix where two structs share one), an enumeration an
    inductive type, a function that throws returns [result], a method that
    mutates its object returns the object it leaves, also when it throws.

    ** What is proved

    - Amounts: the text of every double reads back as its exact decimal value;
      scaling rounds exactly in each mode and refuses what does not fit 64 bits;
      the limit, market and protected amounts are the exact decimal products
      rounded as documented; the pre-signing check accepts exactly the ratios
      below protection plus one ten-thousandth; computing a limit order from the
      snapped double is equivalent to computing it from the price; a larger price
      or size never gives a smaller amount.
    - Signing: the hand-written digests are the EIP-712 digests of the declared
      structs, the nested one of a deposit wallet included, and the wrapped signature
      has the documented parts; digests commit to every field and to the exchange,
      up to explicit Keccak collisions; signatures recover the signer.
    - Authentication: an L2 signature stands for one timestamp, method, path and
      body, up to explicit HMAC collisions.
    - Trading: a prepared order's identifier, JSON body and signature describe one
      order, a buy or a sell as asked, whose fields fit their C++ types and which
      never pays or asks more than a dollar a share, and equal identifiers mean equal
      orders up to collisions; preparing sends only reads; placing transmits at
      most one POST; over any sequence of operations every request carries the
      credentials its endpoint asks for, computed over that very request.
    - HTTPS: at most one transmission for the once operations, with the log and
      the result of [post_once] determined for every behaviour of the network, the one
      replay of an unsent request included; bounded retries; every byte goes over a
      stream whose host check and TLS handshake succeeded; the process-wide
      client count is exact; URLs parse back.
    - WebSocket: with no log hook, or one that sends what it likes and stops the
      client from any but two of the notes, in every reachable state one read and at
      most one write are in flight on the current stream, nothing is written through a
      null stream, and stopping is final; stopping from one of the two notes makes the
      client use a null stream (a defect).  Without a hook the client never stalls,
      back-off stays in range, and the client refines the abstract outbox, so
      texts are delivered in order, none lost while it runs and none repeated;
      the queue is bounded and connection frames are never starved; no wakeup is
      lost, and from every state the queue can drain.
    - Feeds: over a connection that opens with nothing left from an earlier one,
      what the market feed wrote, queued and posted always leads the venue to the
      desired set, and the client can always get it out; when a retained
      subscription is left it can override the current one (a defect).  When
      [subscribe] races the open callback the frames posted are characterised exactly:
      with the full subscription first, every venue that does what is documented
      ends on the new set; but it can also be posted after the operations, outside
      what is documented (a defect).  The user feed authenticates before anything else and keeps no secret
      once stopped, but an operation of a dead session can follow the authentication
      of the next (a defect).  The RTDS feed replays its subscriptions on every
      connection.
    - REST: the targets of all account builders, and of the public reads with an
      identifier, parse back to their parameters; the CLOB host sees only reads
      that sign their own path and the data host no credential at all; position
      queries ask for the given conditions; the geoblock probe is one shot.
    - Wallets: resolution follows what the chain reports, over HTTPS with at most
      three calls, batch digests commit to the batch, batch texts determine it,
      a batch is submitted once with the owner's signature, and over any sequence
      of operations the relayer sees only credential-free reads and submissions
      authorised over their own text.
    - TLS: the context verifies peers, negotiates only TLS 1.2 and 1.3, and frees
      what it decodes.

    ** Bounds and fuel

    Loops over input are structural.  The decimal exponent search takes 310 steps
    up and 330 down, which covers every binary64 exponent, and the digit search 17
    steps, the number of digits that always identifies a binary64 value; both are
    proved sufficient.  [to_string] takes as much fuel as the number has bits.
    The nesting of log hooks that log again is bounded by a depth, which the
    theorems leave arbitrary.
    Connection generations and stream identities of the WebSocket client are
    unbounded integers where the source has 64-bit counters.  Timeouts are not
    modelled as durations: a timer is a pending completion that the environment
    may deliver at any moment.

    ** What is not modelled

    The scheduling of the runtime's worker threads: an asynchronous operation of
    the HTTPS client completes as one event, and handlers that race share the
    order the environment chooses.  A public call of a feed is one step of the composed
    relations ([FeedRace] alone looks inside).  The JSON text of typed frames (glaze), the
    cryptographic primitives, OpenSSL's stores and the network are parameters.
    The WebSocket message size limit (it decides which reads fail, which the
    environment chooses anyway), build files and test programs are left out.
    A failure policy is a pure function: it decides and makes no calls.  What the
    venue does with operations that precede the full subscription of a session is
    not documented; [Feeds.venue_step] assumes that it keeps them, [FeedRace] assumes
    nothing.  The check of a wrapped signature in [Signing.verify_1271] is a
    reading of its documented layout, not of contract code.
    In [WsLog] a hook finishes although [stop] has emptied the member it was
    called through.

    ** What is left

    Log hooks that kick the client; the outbox refinement with a log hook; the user feed's threads, whose open callback
    writes its frame in place on the strand instead of posting it; several callers of
    [subscribe] at once. *)

From Stdlib Require Import Ascii String ZArith Lia.
From stdpp Require Import base list strings numbers.

Open Scope Z_scope.

(** ** Exceptions and the error monad *)

(** The exception classes the sources throw, with the data a handler can
    observe: [what()] for the standard ones, the extra members for the SDK's
    own. *)
Inductive exn : Type :=
  | InvalidArgument (what : string)
  | OverflowError (what : string)
  | OutOfRange (what : string)
  | RuntimeError (what : string)
  | SystemError (what : string)
  | TransferFailure (stage : string) (transferred : Z)
  | HttpBodyLimitError (status : Z) (headers : list (string * string)) (limit : Z)
  | HeartbeatIdMismatchError (body expected_id : string)
  | RpcError (code : Z) (what : string)
  (** not an exception: the language leaves the behaviour undefined *)
  | Undefined (what : string).

#[export] Instance exn_eq_dec : EqDecision exn.
Proof. solve_decision. Defined.

Inductive result (A : Type) : Type :=
  | Ok (a : A)
  | Throw (e : exn).
Arguments Ok {A} a.
Arguments Throw {A} e.

#[export] Instance result_ret : MRet result := fun A a => Ok a.
#[export] Instance result_bind : MBind result := fun A B k m =>
  match m with Ok a => k a | Throw e => Throw e end.
#[export] Instance result_fmap : FMap result := fun A B f m =>
  match m with Ok a => Ok (f a) | Throw e => Throw e end.

(** [if (c) throw e;] *)
Definition throw_if (c : bool) (e : exn) : result unit :=
  if c then Throw e else Ok tt.

Definition is_ok {A} (m : result A) : bool :=
  match m with Ok _ => true | Throw _ => false end.

Definition of_option {A} (e : exn) (o : option A) : result A :=
  match o with Some a => Ok a | None => Throw e end.

Section ResultLemmas.
Context {A B : Type}.

Lemma bind_ok (m : result A) (k : A -> result B) b :
  m ≫= k = Ok b <-> exists a, m = Ok a /\ k a = Ok b.
Proof. destruct m; simpl; naive_solver. Qed.

Lemma bind_throw (m : result A) (k : A -> result B) e :
  m ≫= k = Throw e <-> m = Throw e \/ exists a, m = Ok a /\ k a = Throw e.
Proof. destruct m; simpl; naive_solver. Qed.

Lemma Ok_inj (a b : A) : Ok a = Ok b -> a = b.
Proof. congruence. Qed.

Lemma throw_if_ok c e u : throw_if c e = Ok u <-> c = false.
Proof. destruct c, u; simpl; naive_solver. Qed.

Lemma throw_if_false c e : c = false -> throw_if c e = Ok tt.
Proof. by intros ->. Qed.

Lemma throw_if_true c e : c = true -> throw_if c e = Throw e.
Proof. by intros ->. Qed.
End ResultLemmas.

(** ** State and exceptions

    A method of an object with state [S]: it returns or throws, and the object
    keeps what it did before a throw. *)
Definition ST (S A : Type) : Type := S -> result A * S.

#[export] Instance ST_ret {S} : MRet (ST S) := fun A a s => (Ok a, s).
#[export] Instance ST_bind {S} : MBind (ST S) := fun A B k m s =>
  match m s with (Ok a, s) => k a s | (Throw e, s) => (Throw e, s) end.

(** A call that does not touch the object. *)
Definition pure_call {S A} (r : result A) : ST S A := fun s => (r, s).

Lemma ST_bind_ok {S A B} (m : ST S A) (k : A -> ST S B) s b s' :
  (m ≫= k) s = (Ok b, s') <-> exists a s1, m s = (Ok a, s1) /\ k a s1 = (Ok b, s').
Proof. unfold mbind, ST_bind. destruct (m s) as [[a|e] s1]; naive_solver. Qed.

Lemma pure_call_ok {S A} (r : result A) (s s' : S) a : pure_call r s = (Ok a, s') <-> r = Ok a /\ s' = s.
Proof. unfold pure_call. naive_solver. Qed.

(** Invert a chain of binds that returned [Ok]: one equation per call. *)
Ltac inv_ok_step :=
  match goal with
  | H : _ ≫= _ = Ok _ |- _ =>
      let a := fresh "a" in let H1 := fresh "Hcall" in
      apply bind_ok in H as (a & H1 & H); cbv beta zeta in H
  | H : throw_if _ _ = Ok _ |- _ => apply throw_if_ok in H
  | H : Ok _ = Ok _ |- _ => apply Ok_inj in H
  | H : Throw _ = Ok _ |- _ => discriminate H
  | H : Ok _ = Throw _ |- _ => discriminate H
  | H : _ || _ = false |- _ => apply orb_false_iff in H as [? ?]
  | H : _ && _ = true |- _ => apply andb_true_iff in H as [? ?]
  | H : negb _ = false |- _ => apply negb_false_iff in H
  | H : negb _ = true |- _ => apply negb_true_iff in H
  end.
Ltac inv_ok := repeat inv_ok_step.

(** ** Machine integers *)

Definition u64_max : Z := 2 ^ 64 - 1.
Definition u64 (z : Z) : Z := z mod 2 ^ 64.
Definition u8 (z : Z) : Z := z mod 2 ^ 8.
Definition in_u64 (z : Z) : Prop := 0 <= z < 2 ^ 64.

Lemma u64_small z : in_u64 z -> u64 z = z.
Proof. intros H. apply Z.mod_small. exact H. Qed.

Lemma u64_range z : in_u64 (u64 z).
Proof. apply Z.mod_pos_bound. lia. Qed.

(** Quotient and remainder facts the arithmetic proofs share. *)
Lemma div_mod_id a b : 0 < b -> a = b * (a / b) + a mod b /\ 0 <= a mod b < b.
Proof. intros Hb. split; [apply Z.div_mod; lia | apply Z.mod_pos_bound; lia]. Qed.

Lemma pow10_pos n : 0 <= n -> 0 < 10 ^ n.
Proof. intros. apply Z.pow_pos_nonneg; lia. Qed.

Lemma pow10_add a b : 0 <= a -> 0 <= b -> 10 ^ (a + b) = 10 ^ a * 10 ^ b.
Proof. intros. apply Z.pow_add_r; lia. Qed.

(** ** Strings

    A [std::string] is a Rocq [string]; a [char] is an [ascii], with [code]
    its unsigned value. *)

Definition code (c : ascii) : Z := Z.of_N (N_of_ascii c).
Definition chr (z : Z) : ascii := ascii_of_N (Z.to_N z).

Lemma code_range c : 0 <= code c < 256.
Proof. destruct c as [[] [] [] [] [] [] [] []]; vm_compute; split; congruence. Qed.

Lemma chr_code c : chr (code c) = c.
Proof. unfold chr, code. rewrite N2Z.id. apply ascii_N_embedding. Qed.

Lemma code_chr z : 0 <= z < 256 -> code (chr z) = z.
Proof.
  intros H. unfold chr, code. rewrite N_ascii_embedding by lia. lia.
Qed.

#[global] Arguments String.append !_ _ : simpl nomatch.

Definition slen (s : string) : Z := Z.of_nat (String.length s).

Fixpoint str_all (p : ascii -> bool) (s : string) : bool :=
  match s with
  | EmptyString => true
  | String c s' => p c && str_all p s'
  end.

Fixpoint str_map (f : ascii -> ascii) (s : string) : string :=
  match s with
  | EmptyString => EmptyString
  | String c s' => String (f c) (str_map f s')
  end.

(** [s.substr(0, n)] and [s.substr(n)] for [n <= s.size()]. *)
Fixpoint str_take (n : nat) (s : string) : string :=
  match n, s with
  | S n', String c s' => String c (str_take n' s')
  | _, _ => EmptyString
  end.

Fixpoint str_drop (n : nat) (s : string) : string :=
  match n, s with
  | S n', String _ s' => str_drop n' s'
  | _, _ => s
  end.

(** [std::string(n, c)] *)
Fixpoint str_repeat (n : nat) (c : ascii) : string :=
  match n with
  | O => EmptyString
  | S n' => String c (str_repeat n' c)
  end.

(** Position of the first character satisfying [p] ([npos] is [None]);
    [find(c)] and [find_first_not_of(set)] are instances. *)
Fixpoint str_find (p : ascii -> bool) (s : string) : option nat :=
  match s with
  | EmptyString => None
  | String c s' => if p c then Some O else S <$> str_find p s'
  end.

Definition str_empty (s : string) : bool := String.eqb s "".
Definition str_contains (c : ascii) (s : string) : bool :=
  match str_find (Ascii.eqb c) s with Some _ => true | None => false end.
Definition starts_with (p s : string) : bool := String.prefix p s.
Definition ends_with (p s : string) : bool :=
  (String.length p <=? String.length s)%nat
  && String.eqb (str_drop (String.length s - String.length p) s) p.

Lemma str_app_nil_r s : s +:+ "" = s.
Proof. induction s; cbn; [done|]. by rewrite IHs. Qed.

Lemma str_app_assoc (a b c : string) : a +:+ (b +:+ c) = (a +:+ b) +:+ c.
Proof. induction a; [done|]. cbn. by f_equal. Qed.

Lemma length_str_app a b :
  String.length (a +:+ b) = (String.length a + String.length b)%nat.
Proof. induction a; [done|]. cbn. lia. Qed.

Lemma slen_app a b : slen (a +:+ b) = slen a + slen b.
Proof. unfold slen. rewrite length_str_app. lia. Qed.

Lemma slen_cons c s : slen (String c s) = 1 + slen s.
Proof. unfold slen. cbn [String.length]. lia. Qed.

Lemma slen_nil : slen "" = 0.
Proof. done. Qed.

(** Normalise the size of a concatenation. *)
Ltac slen_norm := rewrite ?slen_app, ?slen_cons, ?slen_nil.

Lemma slen_nonneg s : 0 <= slen s.
Proof. unfold slen. lia. Qed.

Lemma slen_nonempty s : 1 <= slen s -> s <> "".
Proof. by intros H ->. Qed.

Lemma slen_zero s : slen s = 0 -> s = "".
Proof. destruct s; [done|]. rewrite slen_cons. pose proof (slen_nonneg s). lia. Qed.

Lemma str_all_app p a b : str_all p (a +:+ b) = str_all p a && str_all p b.
Proof. induction a; [done|]. cbn. by rewrite IHa, andb_assoc. Qed.

Lemma str_all_repeat p n c : p c = true -> str_all p (str_repeat n c) = true.
Proof. intros H. induction n; [done|]. cbn. by rewrite H. Qed.

Lemma str_all_impl (p q : ascii -> bool) s :
  (forall c, p c = true -> q c = true) -> str_all p s = true -> str_all q s = true.
Proof.
  intros Hpq. induction s as [|c s IH]; [done|]. cbn.
  intros [Hc Hs]%andb_true_iff. rewrite (Hpq c Hc), IH; done.
Qed.

Lemma length_str_repeat n c : String.length (str_repeat n c) = n.
Proof. induction n; cbn; lia. Qed.

Lemma slen_repeat n c : slen (str_repeat n c) = Z.of_nat n.
Proof. unfold slen. by rewrite length_str_repeat. Qed.

Lemma str_take_drop n s : str_take n s +:+ str_drop n s = s.
Proof. revert s; induction n; intros [|c s]; cbn; [done..|]. by rewrite IHn. Qed.

Lemma length_str_take n s : (n <= String.length s)%nat -> String.length (str_take n s) = n.
Proof. revert s; induction n; intros [|c s]; cbn; [lia..|]. intros. rewrite IHn; lia. Qed.

Lemma length_str_drop n s : String.length (str_drop n s) = (String.length s - n)%nat.
Proof. revert s; induction n; intros [|c s]; cbn; try lia. apply IHn. Qed.

Lemma str_all_take p n s : str_all p s = true -> str_all p (str_take n s) = true.
Proof.
  revert s; induction n; intros [|c s]; cbn; try done.
  intros [-> H]%andb_true_iff. by apply IHn.
Qed.

Lemma str_all_drop p n s : str_all p s = true -> str_all p (str_drop n s) = true.
Proof.
  revert s; induction n; intros [|c s]; cbn; try done.
  intros [_ H]%andb_true_iff. by apply IHn.
Qed.

Lemma str_app_inj_l a b c : a +:+ b = a +:+ c -> b = c.
Proof. induction a; [done|]. cbn. intros [= H]. by apply IHa. Qed.

Lemma str_app_inj a b c d :
  String.length a = String.length c -> a +:+ b = c +:+ d -> a = c /\ b = d.
Proof.
  revert c; induction a as [|x a IH]; intros [|y c]; cbn; try done.
  intros [= Hl] [= -> H]. by destruct (IH c Hl H) as [-> ->].
Qed.

Lemma starts_with_app p s : starts_with p (p +:+ s) = true.
Proof.
  unfold starts_with. induction p as [|c p IH]; cbn; [by destruct s|].
  destruct (ascii_dec c c); [done|congruence].
Qed.

Lemma starts_with_split p s : starts_with p s = true -> s = p +:+ str_drop (String.length p) s.
Proof.
  unfold starts_with. revert s. induction p as [|c p IH]; intros [|d s]; cbn; try done.
  destruct (ascii_dec c d) as [->|]; [|done]. intros H. by rewrite <- IH.
Qed.

Lemma str_map_length f s : String.length (str_map f s) = String.length s.
Proof. induction s; cbn; congruence. Qed.

(** The double quote, and a JSON member separator spelling: [key] in quotes. *)
Definition quote : string := String (ascii_of_nat 34) "".
Definition quoted (s : string) : string := quote +:+ s +:+ quote.

(** ** Decimal digit strings *)

Definition is_digit (c : ascii) : bool := (48 <=? code c) && (code c <=? 57).
Definition digit_char (d : Z) : ascii := chr (48 + d).
Definition digit_val (c : ascii) : Z := code c - 48.

Fixpoint dval_acc (s : string) (acc : Z) : Z :=
  match s with
  | EmptyString => acc
  | String c s' => dval_acc s' (acc * 10 + digit_val c)
  end.

(** The number a digit string denotes. *)
Definition dval (s : string) : Z := dval_acc s 0.

(** [std::to_string] on an unsigned integer: the digits of [n], most
    significant first.  Each step divides by ten, so [Z.log2 n + 1] steps are
    enough. *)
Fixpoint dec_digits (fuel : nat) (n : Z) (acc : string) : string :=
  match fuel with
  | O => acc
  | S f =>
      if n <? 10 then String (digit_char n) acc
      else dec_digits f (n / 10) (String (digit_char (n mod 10)) acc)
  end.

Definition to_string (n : Z) : string :=
  dec_digits (S (Z.to_nat (Z.log2 n))) n "".

(** The maximal prefix of digits, which is what [std::from_chars] and
    [std::stoull] consume. *)
Fixpoint digit_prefix (s : string) : string :=
  match s with
  | String c s' => if is_digit c then String c (digit_prefix s') else ""
  | EmptyString => ""
  end.

(** [std::from_chars] into a [uint64_t]: no digits is [invalid_argument], a
    value that does not fit is [result_out_of_range]; both are [None]. *)
Definition from_chars_u64 (s : string) : option Z :=
  let d := digit_prefix s in
  if str_empty d then None
  else if dval d <=? u64_max then Some (dval d) else None.

#[global] Arguments to_string : simpl never.

Lemma digit_val_char d : 0 <= d < 10 -> digit_val (digit_char d) = d.
Proof. intros H. unfold digit_val, digit_char. rewrite code_chr; lia. Qed.

Lemma is_digit_char d : 0 <= d < 10 -> is_digit (digit_char d) = true.
Proof.
  intros H. unfold is_digit, digit_char. rewrite code_chr by lia.
  apply andb_true_iff. split; lia.
Qed.

Lemma digit_val_range c : is_digit c = true -> 0 <= digit_val c < 10.
Proof. unfold is_digit, digit_val. intros [? ?]%andb_true_iff. lia. Qed.

Lemma dval_acc_spec s acc : dval_acc s acc = acc * 10 ^ slen s + dval s.
Proof.
  unfold dval. revert acc. induction s as [|c s IH]; intros acc.
  - change (slen "") with 0. cbn [dval_acc]. lia.
  - cbn [dval_acc]. rewrite IH, (IH (0 * 10 + _)), slen_cons.
    rewrite pow10_add by (pose proof (slen_nonneg s); lia). ring.
Qed.

Lemma dval_cons c s : dval (String c s) = digit_val c * 10 ^ slen s + dval s.
Proof. unfold dval at 1. cbn [dval_acc]. rewrite dval_acc_spec. lia. Qed.

Lemma dval_app a b : dval (a +:+ b) = dval a * 10 ^ slen b + dval b.
Proof.
  induction a as [|c a IH]; cbn [String.append].
  - change (dval "") with 0. lia.
  - rewrite !dval_cons, IH, slen_app, pow10_add by apply slen_nonneg. ring.
Qed.

Lemma dval_range s : str_all is_digit s = true -> 0 <= dval s < 10 ^ slen s.
Proof.
  induction s as [|c s IH]; cbn [str_all]; [rewrite slen_nil; change (dval "") with 0; lia|].
  intros [Hc Hs]%andb_true_iff. specialize (IH Hs). apply digit_val_range in Hc.
  rewrite dval_cons, slen_cons, pow10_add by (pose proof (slen_nonneg s); lia). nia.
Qed.

Lemma dval_repeat_zero n : dval (str_repeat n "0"%char) = 0.
Proof. induction n; [done|]. cbn [str_repeat]. rewrite dval_cons, IHn. change (digit_val _) with 0. lia. Qed.

Lemma dec_digits_spec fuel n acc :
  fuel <> O -> 0 <= n -> n < 2 ^ Z.of_nat fuel ->
  exists d, dec_digits fuel n acc = d +:+ acc /\ dval d = n
    /\ str_all is_digit d = true /\ (n = 0 -> d = "0")
    /\ (0 < n -> 10 ^ (slen d - 1) <= n) /\ 1 <= slen d.
Proof.
  revert n acc. induction fuel as [|f IH]; intros n acc Hf Hn Hlt; [done|].
  cbn [dec_digits]. destruct (Z.ltb_spec n 10) as [Hs|Hs].
  - exists (String (digit_char n) ""). slen_norm. split; [done|].
    split; [rewrite dval_cons, digit_val_char, slen_nil by lia; change (dval "") with 0; lia|].
    split; [cbn; by rewrite is_digit_char by lia|].
    split; [by intros ->|]. change (10 ^ (1 + 0 - 1)) with 1. lia.
  - rewrite Nat2Z.inj_succ, Z.pow_succ_r in Hlt by lia.
    destruct (div_mod_id n 10) as [Hq Hr]; [lia|].
    destruct (IH (n / 10) (String (digit_char (n mod 10)) acc)) as (d & Hd & Hv & Ha & _ & Hlo & Hl);
      [intros ->; cbn in Hlt; lia|lia..|].
    exists (d +:+ String (digit_char (n mod 10)) "").
    split; [by rewrite Hd, <- str_app_assoc|].
    split; [rewrite dval_app, dval_cons, digit_val_char, Hv by lia; slen_norm; change (dval "") with 0; lia|].
    split; [rewrite str_all_app, Ha; cbn; by rewrite is_digit_char by lia|].
    split; [lia|]. slen_norm.
    split; [|lia]. intros _.
    replace (slen d + (1 + 0) - 1) with (1 + (slen d - 1)) by lia.
    rewrite pow10_add by lia. specialize (Hlo ltac:(lia)). lia.
Qed.

Lemma to_string_spec n :
  0 <= n -> dval (to_string n) = n /\ str_all is_digit (to_string n) = true
    /\ (n = 0 -> to_string n = "0") /\ (0 < n -> 10 ^ (slen (to_string n) - 1) <= n)
    /\ 1 <= slen (to_string n).
Proof.
  intros Hn. unfold to_string.
  destruct (dec_digits_spec (S (Z.to_nat (Z.log2 n))) n "") as (d & -> & H); [done..| |].
  - rewrite Nat2Z.inj_succ, Z2Nat.id by apply Z.log2_nonneg.
    destruct (Z.eq_dec n 0) as [->|]; [cbn; lia|]. apply Z.log2_spec. lia.
  - rewrite str_app_nil_r. tauto.
Qed.

Lemma dval_to_string n : 0 <= n -> dval (to_string n) = n.
Proof. intros H. apply (to_string_spec n H). Qed.

Lemma to_string_digits n : 0 <= n -> str_all is_digit (to_string n) = true.
Proof. intros H. apply (to_string_spec n H). Qed.

Lemma to_string_inj m n : 0 <= m -> 0 <= n -> to_string m = to_string n -> m = n.
Proof. intros Hm Hn H. apply (f_equal dval) in H. by rewrite !dval_to_string in H. Qed.

Lemma digit_prefix_all s : str_all is_digit s = true -> digit_prefix s = s.
Proof.
  induction s as [|c s IH]; [done|]. cbn. intros [-> Hs]%andb_true_iff. by rewrite IH.
Qed.

Lemma from_chars_u64_digits s :
  str_all is_digit s = true -> s <> "" ->
  from_chars_u64 s = if dval s <=? u64_max then Some (dval s) else None.
Proof.
  intros Hd Hne. unfold from_chars_u64. rewrite digit_prefix_all by done.
  unfold str_empty. by rewrite (proj2 (String.eqb_neq s "") Hne).
Qed.

(** [find_first_not_of(c)] splits a string into a run of [c]s and the rest. *)
Lemma str_find_not_split c s :
  match str_find (fun x => negb (Ascii.eqb x c)) s with
  | None => s = str_repeat (String.length s) c
  | Some i => (i < String.length s)%nat /\ s = str_repeat i c +:+ str_drop i s
              /\ exists x t, str_drop i s = String x t /\ x <> c
  end.
Proof.
  induction s as [|x s IH]; [done|]. cbn [str_find].
  destruct (Ascii.eqb_spec x c) as [->|Hne]; cbn [negb].
  - destruct (str_find _ s) as [i|]; cbn.
    + destruct IH as (Hi & Hs & Hx). split; [lia|]. split; [|done]. by rewrite <- Hs.
    + by rewrite <- IH.
  - cbn. split; [lia|]. split; [done|]. eauto.
Qed.
