(* ===== verification/Interfaces.v ===== *)
(** * External libraries

    The sources link against izan-crypto (256-bit integers, Keccak and the
    EIP-712 helpers), trezor-crypto (secp256k1), libsodium (base64, HMAC) and
    glaze (JSON).  None of them is part of the repository.  Each one is a
    class of operations, with a second class that states the documented
    behaviour the SDK relies on; a reference instance shows that the stated
    behaviour can hold. *)

From Stdlib Require Import Ascii String ZArith Lia.
From Stdlib Require Import Strings.Byte.
From stdpp Require Import base list strings numbers.
From S2P Require Import Prelude.

Open Scope Z_scope.

(** ** Bytes *)

Definition byte_Z (b : byte) : Z := Z.of_N (Byte.to_N b).
Definition Z_byte (z : Z) : byte :=
  match Byte.of_N (Z.to_N (u8 z)) with Some b => b | None => x00 end.

#[export] Instance byte_eq_dec : EqDecision byte := Byte.byte_eq_dec.

Lemma byte_Z_range b : 0 <= byte_Z b < 256.
Proof. unfold byte_Z. pose proof (Byte.to_N_bounded b). lia. Qed.

Lemma byte_Z_inj a b : byte_Z a = byte_Z b -> a = b.
Proof.
  unfold byte_Z. intros H%N2Z.inj.
  pose proof (Byte.of_to_N a). pose proof (Byte.of_to_N b). congruence.
Qed.

Lemma byte_Z_of z : byte_Z (Z_byte z) = u8 z.
Proof.
  unfold byte_Z, Z_byte. pose proof (Z.mod_pos_bound z (2 ^ 8) ltac:(lia)) as H. fold (u8 z) in H.
  destruct (Byte.of_N (Z.to_N (u8 z))) as [b|] eqn:E.
  - apply Byte.to_of_N in E. rewrite E. lia.
  - apply Byte.of_N_None_iff in E. lia.
Qed.

Lemma Z_byte_of b : Z_byte (byte_Z b) = b.
Proof.
  apply byte_Z_inj. rewrite byte_Z_of. apply Z.mod_small. pose proof (byte_Z_range b). lia.
Qed.

Abbreviation Bytes := (list byte).

(** Big-endian value of a byte string, and the [n]-byte encoding of a number. *)
Definition be_val (l : Bytes) : Z := fold_left (fun acc b => acc * 256 + byte_Z b) l 0.

Fixpoint be_encode (n : nat) (z : Z) : Bytes :=
  match n with
  | O => []
  | S n' => be_encode n' (z / 256) ++ [Z_byte z]
  end.

Lemma be_val_snoc l b : be_val (l ++ [b]) = be_val l * 256 + byte_Z b.
Proof. unfold be_val. by rewrite fold_left_app. Qed.

Lemma length_be_encode n z : length (be_encode n z) = n.
Proof. revert z. induction n; intros z; cbn; [done|]. rewrite length_app, IHn. cbn. lia. Qed.

Lemma be_val_encode n z : 0 <= z < 256 ^ Z.of_nat n -> be_val (be_encode n z) = z.
Proof.
  revert z. induction n as [|n IH]; intros z Hz; cbn [be_encode].
  - cbn in Hz |- *. lia.
  - rewrite Nat2Z.inj_succ, Z.pow_succ_r in Hz by lia.
    rewrite be_val_snoc, IH, byte_Z_of.
    { unfold u8. change (2 ^ 8) with 256. destruct (div_mod_id z 256); lia. }
    split; [apply Z.div_pos; lia|]. apply Z.div_lt_upper_bound; lia.
Qed.

Lemma be_encode_inj n a b :
  0 <= a < 256 ^ Z.of_nat n -> 0 <= b < 256 ^ Z.of_nat n -> be_encode n a = be_encode n b -> a = b.
Proof. intros Ha Hb H. apply (f_equal be_val) in H. by rewrite !be_val_encode in H. Qed.

Lemma be_val_range l : 0 <= be_val l < 256 ^ Z.of_nat (length l).
Proof.
  induction l as [|b l IH] using rev_ind; [cbn; lia|].
  rewrite be_val_snoc, length_app. cbn [length]. pose proof (byte_Z_range b).
  replace (Z.of_nat (length l + 1)) with (Z.succ (Z.of_nat (length l))) by lia.
  rewrite Z.pow_succ_r by lia. lia.
Qed.

Lemma be_encode_val n l : length l = n -> be_encode n (be_val l) = l.
Proof.
  revert n. induction l as [|b l IH] using rev_ind; intros n Hn; [by subst|].
  rewrite length_app in Hn. cbn in Hn. destruct n as [|n]; [lia|].
  cbn [be_encode]. rewrite be_val_snoc. pose proof (byte_Z_range b).
  rewrite Z.div_add_l, (Z.div_small (byte_Z b)), Z.add_0_r, IH by lia.
  f_equal. f_equal. apply byte_Z_inj. rewrite byte_Z_of. unfold u8. change (2 ^ 8) with 256.
  rewrite Z.add_comm, Z.mod_add, Z.mod_small by lia. done.
Qed.

Lemma be_val_inj a b : length a = length b -> be_val a = be_val b -> a = b.
Proof.
  intros Hl H. rewrite <- (be_encode_val (length a) a), <- (be_encode_val (length a) b) by done.
  by rewrite H.
Qed.

(** ** izan-crypto: 256-bit unsigned integers *)

(** [U256] is a struct around its 32 big-endian bytes [be], which the callers
    read and write directly. *)
Class U256Lib := {
  U256 : Type;
  u256_be : U256 -> Bytes;
  u256_of_be : Bytes -> U256;
  u256_from_u64 : Z -> U256;
  u256_checked_mul_u64 : U256 -> Z -> result U256;
  u256_ltb : U256 -> U256 -> bool;
  u256_to_dec : U256 -> string;
  u256_from_dec : string -> result U256;
}.

Definition u256_val `{U256Lib} (x : U256) : Z := be_val (u256_be x).

Class U256Laws `(L : U256Lib) := {
  u256_be_length x : length (u256_be x) = 32%nat;
  u256_be_of l : length l = 32%nat -> u256_be (u256_of_be l) = l;
  u256_val_range x : 0 <= u256_val x < 2 ^ 256;
  u256_from_u64_val z : in_u64 z -> u256_val (u256_from_u64 z) = z;
  u256_mul_ok x z : in_u64 z -> u256_val x * z < 2 ^ 256 ->
    exists y, u256_checked_mul_u64 x z = Ok y /\ u256_val y = u256_val x * z;
  u256_mul_overflow x z : in_u64 z -> 2 ^ 256 <= u256_val x * z ->
    is_ok (u256_checked_mul_u64 x z) = false;
  u256_ltb_val x y : u256_ltb x y = (u256_val x <? u256_val y);
  u256_to_dec_val x : u256_to_dec x = to_string (u256_val x);
  u256_from_dec_to_string z : 0 <= z < 2 ^ 256 ->
    exists x, u256_from_dec (to_string z) = Ok x /\ u256_val x = z;
}.

(** Reference instance: the value modulo [2^256], its bytes computed on demand. *)
Module RefU256.
Definition norm (z : Z) : Z := z mod 2 ^ 256.
Definition be (z : Z) : Bytes := be_encode 32 (norm z).
Definition mul (x z : Z) : result Z :=
  if norm x * z <? 2 ^ 256 then Ok (norm x * z) else Throw (OverflowError "U256 mul").
Definition ltb (x y : Z) : bool := norm x <? norm y.
Definition to_dec (x : Z) : string := to_string (norm x).
Definition from_dec (s : string) : result Z :=
  if negb (str_empty s) && str_all is_digit s && (dval s <? 2 ^ 256)
  then Ok (dval s) else Throw (InvalidArgument "U256 dec").

Lemma norm_range z : 0 <= norm z < 2 ^ 256.
Proof. apply Z.mod_pos_bound. reflexivity. Qed.

Lemma norm_small z : 0 <= z < 2 ^ 256 -> norm z = z.
Proof. apply Z.mod_small. Qed.

Lemma be_val_be z : be_val (be z) = norm z.
Proof. unfold be. apply be_val_encode. apply norm_range. Qed.

Lemma be_of l : length l = 32%nat -> be (be_val l) = l.
Proof.
  intros Hl. unfold be. pose proof (be_val_range l) as Hr. rewrite Hl in Hr.
  rewrite norm_small by exact Hr. by apply be_encode_val.
Qed.

Lemma mul_ok x z : in_u64 z -> norm x * z < 2 ^ 256 ->
  exists y, mul x z = Ok y /\ norm y = norm x * z.
Proof.
  intros Hz Hlt. unfold mul. rewrite (proj2 (Z.ltb_lt _ _) Hlt). eexists. split; [done|].
  apply norm_small. pose proof (norm_range x). unfold in_u64 in Hz. nia.
Qed.

Lemma mul_overflow x z : 2 ^ 256 <= norm x * z -> is_ok (mul x z) = false.
Proof. intros Hle. unfold mul. by rewrite (proj2 (Z.ltb_ge _ _) Hle). Qed.

Lemma from_dec_ok z : 0 <= z < 2 ^ 256 -> exists x, from_dec (to_string z) = Ok x /\ norm x = z.
Proof.
  intros Hz. unfold from_dec. rewrite dval_to_string, to_string_digits by lia.
  destruct (to_string_spec z ltac:(lia)) as (_ & _ & _ & _ & Hl).
  assert (E : str_empty (to_string z) = false).
  { apply String.eqb_neq. intros E. rewrite E, slen_nil in Hl. lia. }
  rewrite E, (proj2 (Z.ltb_lt z _)) by lia. eexists. split; [done|]. by apply norm_small.
Qed.
End RefU256.

#[export] Instance u256_reference : U256Lib := {|
  U256 := Z;
  u256_be := RefU256.be;
  u256_of_be := be_val;
  u256_from_u64 z := z;
  u256_checked_mul_u64 := RefU256.mul;
  u256_ltb := RefU256.ltb;
  u256_to_dec := RefU256.to_dec;
  u256_from_dec := RefU256.from_dec;
|}.

#[export] Instance u256_reference_laws : U256Laws u256_reference.
Proof.
  assert (HV : forall x : Z, u256_val (H := u256_reference) x = RefU256.norm x)
    by exact RefU256.be_val_be.
  split.
  - intros x. apply length_be_encode.
  - exact RefU256.be_of.
  - intros x. rewrite HV. apply RefU256.norm_range.
  - intros z Hz. rewrite HV. apply RefU256.norm_small. unfold in_u64 in Hz. lia.
  - intros x z Hz. rewrite HV. intros (y & Hy & Hn)%(RefU256.mul_ok x z Hz).
    exists y. by rewrite HV.
  - intros x z _. rewrite HV. apply RefU256.mul_overflow.
  - intros x y. by rewrite !HV.
  - intros x. by rewrite HV.
  - intros z (x & Hx & Hn)%RefU256.from_dec_ok. exists x. by rewrite HV.
Qed.

(** ** izan-crypto: Keccak-256 and the EIP-712 encoders *)

(** A [Hash32] and an [EthAddress] are byte strings of 32 and 20 bytes. *)
Definition bytes_of_string (s : string) : Bytes := String.list_byte_of_string s.

Class Eip712Lib `{U256Lib} := {
  keccak256 : Bytes -> Bytes;
  append_word : Bytes -> Bytes -> Bytes;
  append_u64 : Bytes -> Z -> Bytes;
  append_u8 : Bytes -> Z -> Bytes;
  append_address : Bytes -> Bytes -> Bytes;
  append_u256 : Bytes -> U256 -> Bytes;
  domain_separator : string -> string -> Z -> Bytes -> Bytes;
  domain_separator_nvc : string -> string -> Z -> Bytes;
  typed_digest : Bytes -> Bytes -> Bytes;
}.

(** One 32-byte word per value, and the two EIP-712 domain types in use. *)
Definition word_of (z : Z) : Bytes := be_encode 32 z.
Definition address_word (a : Bytes) : Bytes := repeat x00 12 ++ a.
Definition domain_type : string :=
  "EIP712Domain(string name,string version,uint256 chainId,address verifyingContract)".
Definition domain_type_nvc : string := "EIP712Domain(string name,string version,uint256 chainId)".

Class Eip712Laws `(L : U256Lib) (E : @Eip712Lib L) := {
  keccak256_length m : length (keccak256 m) = 32%nat;
  append_word_eq b w : append_word b w = b ++ w;
  append_u64_eq b z : in_u64 z -> append_u64 b z = b ++ word_of z;
  append_u8_eq b z : 0 <= z < 256 -> append_u8 b z = b ++ word_of z;
  append_address_eq b a : append_address b a = b ++ address_word a;
  append_u256_eq b x : append_u256 b x = b ++ u256_be x;
  domain_separator_eq n v c a : in_u64 c ->
    domain_separator n v c a =
      keccak256 (keccak256 (bytes_of_string domain_type) ++ keccak256 (bytes_of_string n)
                 ++ keccak256 (bytes_of_string v) ++ word_of c ++ address_word a);
  domain_separator_nvc_eq n v c : in_u64 c ->
    domain_separator_nvc n v c =
      keccak256 (keccak256 (bytes_of_string domain_type_nvc) ++ keccak256 (bytes_of_string n)
                 ++ keccak256 (bytes_of_string v) ++ word_of c);
  typed_digest_eq d s : typed_digest d s = keccak256 ([x19; x01] ++ d ++ s);
}.

(** ** trezor-crypto: ECDSA over secp256k1

    [None] stands for a non-zero return code. *)
Class EcdsaLib := {
  ecdsa_get_public_key65 : Bytes -> Bytes;
  ecdsa_sign_digest : Bytes -> Bytes -> option (Bytes * Z);
  ecdsa_recover_pub_from_sig : Bytes -> Bytes -> Z -> option Bytes;
}.

Class EcdsaLaws `(L : EcdsaLib) := {
  ecdsa_sign_shape k d sig pby : ecdsa_sign_digest k d = Some (sig, pby) ->
    length sig = 64%nat /\ 0 <= pby < 4;
  ecdsa_recover_sign k d sig pby : ecdsa_sign_digest k d = Some (sig, pby) ->
    ecdsa_recover_pub_from_sig sig d pby = Some (ecdsa_get_public_key65 k);
}.

(** ** Byte-list helpers *)

Lemma list_app_inj_length {A} (a b c d : list A) :
  length a = length c -> a ++ b = c ++ d -> a = c /\ b = d.
Proof. apply app_inj_1. Qed.

Lemma word_of_inj a b : in_u64 a -> in_u64 b -> word_of a = word_of b -> a = b.
Proof. unfold in_u64. intros Ha Hb. apply be_encode_inj; cbn; lia. Qed.

Lemma length_word_of z : length (word_of z) = 32%nat.
Proof. apply length_be_encode. Qed.

Lemma address_word_inj a b : address_word a = address_word b -> a = b.
Proof. apply app_inv_head. Qed.

Lemma length_address_word a : length a = 20%nat -> length (address_word a) = 32%nat.
Proof. intros H. unfold address_word. by rewrite length_app, H. Qed.



Lemma bytes_of_string_inj a b : bytes_of_string a = bytes_of_string b -> a = b.
Proof.
  intros H. rewrite <- (String.string_of_list_byte_of_string a), <- (String.string_of_list_byte_of_string b).
  unfold bytes_of_string in H. by rewrite H.
Qed.

(** ** libsodium: base64 and HMAC

    [sodium_bin2base64] is the text written before the terminator;
    [sodium_base642bin] is [None] on a non-zero return code. *)
Class SodiumLib := {
  sodium_base64_encoded_len : Z -> Z;
  sodium_bin2base64 : Bytes -> string;
  sodium_base642bin : string -> option Bytes;
  crypto_auth_hmacsha256 : Bytes -> Bytes -> Bytes;
}.

Class SodiumLaws `(S : SodiumLib) := {
  encoded_len_counts_nul data :
    sodium_base64_encoded_len (Z.of_nat (length data)) = slen (sodium_bin2base64 data) + 1;
  bin2base64_no_nul data :
    str_all (fun c => negb (Ascii.eqb c Ascii.zero)) (sodium_bin2base64 data) = true;
  base642bin_bin2base64 data : sodium_base642bin (sodium_bin2base64 data) = Some data;
}.
