(* ===== verification/Keccak.v ===== *)
(** * Keccak-256

    The hash behind [izan::crypto::eip712::keccak256] is a parameter of the
    model.  This file is an executable reference for it (Keccak-f[1600], rate
    136 bytes, padding byte 0x01), used to instantiate the parameter: the test
    vectors of the repository are evaluated with it. *)

From Stdlib Require Import ZArith NArith Lia List String Strings.Byte.
From S2P Require Import Prelude Interfaces.
Import ListNotations.

Module Keccak.
Local Open Scope N_scope.

Definition mask64 : N := 2 ^ 64 - 1.
Definition rotl64 (x : N) (n : N) : N :=
  N.lor (N.land (N.shiftl x n) mask64) (N.shiftr x (64 - n)).

Definition lane (st : list N) (i : nat) : N := nth i st 0.

(** [A x y] is at index [x + 5 * y]. *)
Definition idx (x y : nat) : nat := (x mod 5 + 5 * (y mod 5))%nat.

Definition theta (st : list N) : list N :=
  let c := map (fun x => fold_left N.lxor (map (fun y => lane st (idx x y)) (seq 0 5)) 0) (seq 0 5) in
  let d := map (fun x => N.lxor (nth ((x + 4) mod 5) c 0) (rotl64 (nth ((x + 1) mod 5) c 0) 1)) (seq 0 5) in
  map (fun i => N.lxor (lane st i) (nth (i mod 5) d 0)) (seq 0 25).

Definition rho_offsets : list N :=
  [ 0; 1; 62; 28; 27;  36; 44; 6; 55; 20;  3; 10; 43; 25; 39;  41; 45; 15; 21; 8;  18; 2; 61; 56; 14].

(** Target lane [(x, y)] comes from source [((x + 3 y) mod 5, x)]. *)
Definition rho_pi (st : list N) : list N :=
  map (fun i =>
    let x := (i mod 5)%nat in let y := (i / 5)%nat in
    let j := idx (x + 3 * y) x in
    rotl64 (lane st j) (nth j rho_offsets 0)) (seq 0 25).

Definition chi (st : list N) : list N :=
  map (fun i =>
    let x := (i mod 5)%nat in let y := (i / 5)%nat in
    N.lxor (lane st i) (N.land (N.lxor (lane st (idx (x + 1) y)) mask64) (lane st (idx (x + 2) y)))) (seq 0 25).

Definition iota (rc : N) (st : list N) : list N :=
  match st with a :: l => N.lxor a rc :: l | [] => [] end.

Definition round_constants : list N :=
  [0x0000000000000001; 0x0000000000008082; 0x800000000000808A; 0x8000000080008000;
   0x000000000000808B; 0x0000000080000001; 0x8000000080008081; 0x8000000000008009;
   0x000000000000008A; 0x0000000000000088; 0x0000000080008009; 0x000000008000000A;
   0x000000008000808B; 0x800000000000008B; 0x8000000000008089; 0x8000000000008003;
   0x8000000000008002; 0x8000000000000080; 0x000000000000800A; 0x800000008000000A;
   0x8000000080008081; 0x8000000000008080; 0x0000000080000001; 0x8000000080008008].

Definition permute (st : list N) : list N :=
  fold_left (fun st rc => iota rc (chi (rho_pi (theta st)))) round_constants st.

(** Little-endian lanes. *)
Fixpoint le_val (l : list byte) : N :=
  match l with [] => 0 | b :: l' => Byte.to_N b + 256 * le_val l' end.
Fixpoint le_bytes (n : nat) (x : N) : list byte :=
  match n with
  | O => []
  | S n' => match Byte.of_N (x mod 256) with Some b => b | None => x00 end :: le_bytes n' (x / 256)
  end.

Definition rate : nat := 136.

Definition pad (m : list byte) : list byte :=
  let k := (rate - List.length m mod rate)%nat in
  if Nat.eqb k 1 then m ++ [x81] else m ++ [x01] ++ repeat x00 (k - 2) ++ [x80].

Fixpoint lanes (n : nat) (l : list byte) : list N :=
  match n with O => [] | S n' => le_val (firstn 8 l) :: lanes n' (skipn 8 l) end.

Definition absorb_block (st : list N) (block : list byte) : list N :=
  let b := lanes 17 block in
  permute (map (fun i => N.lxor (lane st i) (nth i b 0)) (seq 0 25)).

Fixpoint absorb (blocks : nat) (st : list N) (m : list byte) : list N :=
  match blocks with
  | O => st
  | S n => absorb n (absorb_block st (firstn rate m)) (skipn rate m)
  end.

Definition keccak256 (m : list byte) : list byte :=
  let p := pad m in
  let st := absorb (List.length p / rate) (repeat 0 25) p in
  flat_map (fun i => le_bytes 8 (lane st i)) (seq 0 4).

Lemma length_le_bytes n x : List.length (le_bytes n x) = n.
Proof. revert x. induction n; intros x; cbn; [reflexivity|]. now rewrite IHn. Qed.

Lemma keccak256_length m : List.length (keccak256 m) = 32%nat.
Proof.
  unfold keccak256. cbn [seq flat_map]. rewrite !length_app, !length_le_bytes. reflexivity.
Qed.
End Keccak.

(** The Keccak-256 digest of the empty string. *)
Example keccak256_empty :
  be_val (Keccak.keccak256 [])
  = 0xc5d2460186f7233c927e7db2dcc703c0e500b653ca82273b7bfad8045d85a470%Z.
Proof. vm_compute. reflexivity. Qed.

(** The encoders over any hash with 32-byte digests; the reference takes
    Keccak-256, and a hash that only cuts its input serves where the digests
    themselves do not matter. *)
Definition eip712_with (hash : list byte -> list byte) : @Eip712Lib u256_reference := {|
  keccak256 := hash;
  append_word b w := b ++ w;
  append_u64 b z := b ++ word_of z;
  append_u8 b z := b ++ word_of z;
  append_address b a := b ++ address_word a;
  append_u256 b x := b ++ u256_be (U256Lib := u256_reference) x;
  domain_separator n v c a :=
    hash (hash (bytes_of_string domain_type) ++ hash (bytes_of_string n) ++ hash (bytes_of_string v)
          ++ word_of c ++ address_word a);
  domain_separator_nvc n v c :=
    hash (hash (bytes_of_string domain_type_nvc) ++ hash (bytes_of_string n) ++ hash (bytes_of_string v)
          ++ word_of c);
  typed_digest d s := hash ([x19; x01] ++ d ++ s);
|}.

Lemma eip712_with_laws hash : (forall m, List.length (hash m) = 32%nat) -> Eip712Laws u256_reference (eip712_with hash).
Proof. intros H. split; first [exact H | reflexivity]. Qed.

#[export] Instance eip712_reference : @Eip712Lib u256_reference := eip712_with Keccak.keccak256.
#[export] Instance eip712_reference_laws : Eip712Laws u256_reference eip712_reference.
Proof. apply eip712_with_laws, Keccak.keccak256_length. Qed.

Definition cut_hash (m : list byte) : list byte := firstn 32 (m ++ repeat x00 32).
Definition eip712_cut : @Eip712Lib u256_reference := eip712_with cut_hash.
Lemma eip712_cut_laws : Eip712Laws u256_reference eip712_cut.
Proof.
  apply eip712_with_laws. intros m. unfold cut_hash. rewrite length_firstn, length_app, repeat_length. lia.
Qed.

(** A key pair scheme with the shape of the ECDSA interface, not a secure one:
    the public key repeats the private key and the signature carries it. *)
Module ToyEcdsa.
Definition pub (k : list byte) : list byte := x04 :: k ++ k.
Definition sign (k d : list byte) : option (list byte * Z) :=
  if andb (Nat.eqb (List.length k) 32) (Nat.eqb (List.length d) 32) then Some (k ++ d, 1%Z) else None.
Definition recover (sig d : list byte) (recid : Z) : option (list byte) :=
  if list_eq_dec Byte.byte_eq_dec (skipn 32 sig) d then Some (pub (firstn 32 sig)) else None.
End ToyEcdsa.

#[export] Instance ecdsa_reference : EcdsaLib := {|
  ecdsa_get_public_key65 := ToyEcdsa.pub;
  ecdsa_sign_digest := ToyEcdsa.sign;
  ecdsa_recover_pub_from_sig := ToyEcdsa.recover;
|}.

#[export] Instance ecdsa_reference_laws : EcdsaLaws ecdsa_reference.
Proof.
  split; intros k d sig pby; cbn; unfold ToyEcdsa.sign, ToyEcdsa.recover;
    destruct (Nat.eqb_spec (List.length k) 32) as [Hk|]; try discriminate;
    destruct (Nat.eqb_spec (List.length d) 32) as [Hd|]; try discriminate; cbn [andb]; intros [= <- <-].
  - rewrite length_app. lia.
  - rewrite <- Hk, firstn_app, skipn_app, skipn_all, firstn_all, Nat.sub_diag.
    rewrite skipn_O, firstn_O, app_nil_r. cbn [app].
    destruct (list_eq_dec Byte.byte_eq_dec d d) as [|Hn]; [reflexivity|now contradiction Hn].
Qed.
