(* ===== verification/Eip712Spec.v ===== *)
(** * Typed structured data (EIP-712)

    The encoding of the standard, written once for any schema: the type text
    computed from the declared members and the structs they refer to, one
    32-byte word per member, structs by their hash, dynamic values by the hash
    of their contents.  Nothing here knows about the SDK's messages, whose
    type texts and buffers the sources write out by hand; the comparison is in
    [TypedData].  Only the hash is taken from the library interface. *)

From Stdlib Require Import Ascii String ZArith Lia.
From Stdlib Require Import Strings.Byte.
From stdpp Require Import base list strings numbers.
From S2P Require Import Prelude Interfaces Keccak.

Open Scope Z_scope.

(** ** Types and values *)

Inductive FieldType :=
| TUint (bits : Z)
| TAddress
| TBytes32
| TBytes
| TString
| TStruct (name : string)
| TArray (element : FieldType).

Record StructType := { struct_name : string; members : list (FieldType * string) }.
Abbreviation Schema := (list StructType).

(** [VHashed] is a struct of which only the hash is known. *)
Inductive TypedValue :=
| VUint (z : Z)
| VAddress (a : Bytes)
| VBytes32 (w : Bytes)
| VBytes (d : Bytes)
| VString (s : string)
| VStruct (fields : list TypedValue)
| VHashed (h : Bytes)
| VArray (elements : list TypedValue).

(** ** encodeType *)

Fixpoint type_text (t : FieldType) : string :=
  match t with
  | TUint bits => "uint" +:+ to_string bits
  | TAddress => "address"
  | TBytes32 => "bytes32"
  | TBytes => "bytes"
  | TString => "string"
  | TStruct n => n
  | TArray t' => type_text t' +:+ "[]"
  end.

Fixpoint struct_of (t : FieldType) : option string :=
  match t with TStruct n => Some n | TArray t' => struct_of t' | _ => None end.

Definition find_struct (sch : Schema) (n : string) : option StructType :=
  List.find (fun s => String.eqb (struct_name s) n) sch.

Definition join (sep : string) (l : list string) : string :=
  match l with [] => "" | s :: l' => fold_left (fun acc x => acc +:+ sep +:+ x) l' s end.

Definition struct_text (s : StructType) : string :=
  struct_name s +:+ "(" +:+ join "," (map (fun m => type_text m.1 +:+ " " +:+ m.2) (members s)) +:+ ")".

(** The structs reachable from [n]; each level of the walk adds one more, so
    the number of declared structs is enough fuel. *)
Fixpoint reach (sch : Schema) (fuel : nat) (seen : list string) (n : string) : list string :=
  match fuel with
  | O => seen
  | S fuel' =>
      if bool_decide (n ∈ seen) then seen
      else match find_struct sch n with
           | None => n :: seen
           | Some s => fold_left (reach sch fuel') (omap (fun m => struct_of m.1) (members s)) (n :: seen)
           end
  end.

Fixpoint insert_name (n : string) (l : list string) : list string :=
  match l with
  | [] => [n]
  | m :: l' => if String.leb n m then n :: l else m :: insert_name n l'
  end.
Definition sort_names (l : list string) : list string := foldr insert_name [] l.

(** The primary type first, the structs it refers to after it, by name. *)
Definition encode_type (sch : Schema) (primary : string) : option string :=
  let others := filter (fun n => n <> primary) (reach sch (S (length sch)) [] primary) in
  texts ← mapM (fun n => struct_text <$> find_struct sch n) (primary :: sort_names others);
  Some (fold_right String.append "" texts).

(** ** encodeData and hashStruct *)

Section Encoding.
Context `{EI : Eip712Lib} (sch : Schema).

Definition hash_text (s : string) : Bytes := keccak256 (bytes_of_string s).

(** The word of one member; [None] when the value does not have the type, a
    number out of range included.  Addresses, words and hashes are arrays of
    fixed size. *)
Fixpoint encode_field (t : FieldType) (v : TypedValue) {struct v} : option Bytes :=
  match t, v with
  | TUint bits, VUint z => if (0 <=? z) && (z <? 2 ^ bits) then Some (word_of z) else None
  | TAddress, VAddress a => Some (address_word a)
  | TBytes32, VBytes32 w => Some w
  | TBytes, VBytes d => Some (keccak256 d)
  | TString, VString s => Some (hash_text s)
  | TArray t', VArray elements =>
      let fix encode_elements (l : list TypedValue) : option Bytes :=
        match l with
        | [] => Some []
        | e :: l' => a ← encode_field t' e; b ← encode_elements l'; Some (a ++ b)
        end in
      keccak256 <$> encode_elements elements
  | TStruct n, VStruct fields =>
      let fix encode_members (ms : list (FieldType * string)) (l : list TypedValue) {struct l} : option Bytes :=
        match ms, l with
        | [], [] => Some []
        | (t', _) :: ms', f :: l' => a ← encode_field t' f; b ← encode_members ms' l'; Some (a ++ b)
        | _, _ => None
        end in
      s ← find_struct sch n;
      text ← encode_type sch n;
      d ← encode_members (members s) fields;
      Some (keccak256 (hash_text text ++ d))
  | TStruct _, VHashed h => Some h
  | _, _ => None
  end.

Definition hash_struct (n : string) (v : TypedValue) : option Bytes := encode_field (TStruct n) v.

(** The two inner loops, and the equations of the cases that use them. *)
Fixpoint encode_members (ms : list (FieldType * string)) (l : list TypedValue) {struct l} : option Bytes :=
  match ms, l with
  | [], [] => Some []
  | (t', _) :: ms', f :: l' => a ← encode_field t' f; b ← encode_members ms' l'; Some (a ++ b)
  | _, _ => None
  end.

Definition encode_elements (t : FieldType) : list TypedValue -> option Bytes :=
  fix go (l : list TypedValue) : option Bytes :=
    match l with
    | [] => Some []
    | e :: l' => a ← encode_field t e; b ← go l'; Some (a ++ b)
    end.

Lemma hash_struct_eq n fields s text d :
  find_struct sch n = Some s -> encode_type sch n = Some text -> encode_members (members s) fields = Some d ->
  hash_struct n (VStruct fields) = Some (keccak256 (hash_text text ++ d)).
Proof using.
  intros Hs Ht Hd. unfold hash_struct. cbn [encode_field]. fold encode_members. rewrite Hs, Ht. cbn [mbind option_bind]. by rewrite Hd.
Qed.

Lemma encode_array_eq t l d :
  encode_elements t l = Some d -> encode_field (TArray t) (VArray l) = Some (keccak256 d).
Proof using. intros Hd. cbn [encode_field]. fold (encode_elements t). by rewrite Hd. Qed.

Lemma encode_uint bits z : 0 <= z < 2 ^ bits -> encode_field (TUint bits) (VUint z) = Some (word_of z).
Proof using. intros Hz. cbn [encode_field]. rewrite (proj2 (Z.leb_le _ _)), (proj2 (Z.ltb_lt _ _)) by lia. done. Qed.

Lemma encode_members_cons t n ms f l a b :
  encode_field t f = Some a -> encode_members ms l = Some b ->
  encode_members ((t, n) :: ms) (f :: l) = Some (a ++ b).
Proof using. intros Ha Hb. cbn [encode_members]. by rewrite Ha, Hb. Qed.

Lemma encode_members_last t n f a :
  encode_field t f = Some a -> encode_members [(t, n)] [f] = Some a.
Proof using. intros Ha. rewrite <- (app_nil_r a). by apply encode_members_cons. Qed.
End Encoding.

(** Encode a struct member by member; numbers leave their range to prove. *)
Ltac encode_fields :=
  repeat first
    [ apply encode_members_last
    | apply encode_members_cons
    | apply encode_uint
    | reflexivity ].

(** ** The domain and the signed digest *)

(** A domain separator lists the members in use, in the order of the standard. *)
Record Eip712Domain := {
  domain_name : string;
  domain_version : string;
  domain_chain_id : Z;
  domain_contract : option Bytes;
}.

Definition domain_struct (d : Eip712Domain) : StructType :=
  {| struct_name := "EIP712Domain";
     members := [(TString, "name"); (TString, "version"); (TUint 256, "chainId")]
       ++ match domain_contract d with Some _ => [(TAddress, "verifyingContract")] | None => [] end |}.

Definition domain_value (d : Eip712Domain) : TypedValue :=
  VStruct ([VString (domain_name d); VString (domain_version d); VUint (domain_chain_id d)]
    ++ match domain_contract d with Some a => [VAddress a] | None => [] end).

Definition domain_hash `{EI : Eip712Lib} (d : Eip712Domain) : option Bytes :=
  hash_struct [domain_struct d] "EIP712Domain" (domain_value d).

Definition typed_data_digest `{EI : Eip712Lib} (d : Eip712Domain) (sch : Schema) (primary : string)
    (message : TypedValue) : option Bytes :=
  dh ← domain_hash d;
  mh ← hash_struct sch primary message;
  Some (keccak256 ([x19; x01] ++ dh ++ mh)).

(** ** The example of the standard

    Mail from Cow to Bob, with the hashes the standard prints. *)
Module MailExample.
Definition person : StructType :=
  {| struct_name := "Person"; members := [(TString, "name"); (TAddress, "wallet")] |}.
Definition mail : StructType :=
  {| struct_name := "Mail";
     members := [(TStruct "Person", "from"); (TStruct "Person", "to"); (TString, "contents")] |}.
Definition cow : Bytes := be_encode 20 0xCD2a3d9F938E13CD947Ec05AbC7FE734Df8DD826.
Definition bob : Bytes := repeat (Z_byte 0xbB) 20.
Definition domain : Eip712Domain :=
  {| domain_name := "Ether Mail"; domain_version := "1"; domain_chain_id := 1;
     domain_contract := Some (repeat (Z_byte 0xcC) 20) |}.
Definition message : TypedValue :=
  VStruct [VStruct [VString "Cow"; VAddress cow]; VStruct [VString "Bob"; VAddress bob]; VString "Hello, Bob!"].

Example mail_type :
  encode_type [person; mail] "Mail"
  = Some "Mail(Person from,Person to,string contents)Person(string name,address wallet)".
Proof. reflexivity. Qed.

Example mail_digest :
  be_val <$> domain_hash domain
    = Some 0xf2cee375fa42b42143804025fc449deafd50cc031ca257e0b194a650a912090f
  /\ be_val <$> hash_struct [person; mail] "Mail" message
    = Some 0xc52c0ee5d84264471806290a3f2c4cecfc5490626bf912d01f240d7a274b371e
  /\ be_val <$> typed_data_digest domain [person; mail] "Mail" message
    = Some 0xbe609aee343fb3c4b28e1df9e632fca64fcfaede20f02e86244efddf30957bd2.
Proof. split_and!; vm_compute; reflexivity. Qed.
End MailExample.
