(* ===== verification/Double.v ===== *)
(** * IEEE binary64 and its decimal conversions

    The standard-library services that [src/pm/amounts.cpp] and
    [src/pm/clob.cpp] use on [double]: comparison, subtraction, division and
    conversion from an integer (taken from the Standard Library's executable
    specification of IEEE 754), [std::stod] on plain decimals, and the
    shortest round-trip form of [std::to_chars].  The last one is written out
    here, and the main result is that it is total on positive doubles and
    that its output always reads back as the same double. *)

From Stdlib Require Import Ascii String ZArith Lia.
From Stdlib Require Import SpecFloat.
From stdpp Require Import base list strings numbers.
From S2P Require Import Prelude.

Open Scope Z_scope.

(** ** Values and arithmetic *)

Notation double := spec_float.

Definition dbl_valid (x : double) : bool := valid_binary 53 1024 x.
Definition dbl_is_finite (x : double) : bool :=
  match x with S754_zero _ | S754_finite _ _ _ => true | _ => false end.
Definition dbl_ltb (x y : double) : bool := SFltb x y.
Definition dbl_eqb (x y : double) : bool := SFeqb x y.
Definition dbl_sub (x y : double) : double := SFsub 53 1024 x y.
Definition dbl_div (x y : double) : double := SFdiv 53 1024 x y.
Definition dbl_abs (x : double) : double := SFabs x.
(** [double(z)] for an integer [z]. *)
Definition dbl_of_Z (z : Z) : double := binary_normalize 53 1024 z 0 false.
Definition dbl_zero : double := S754_zero false.
Definition dbl_one : double := dbl_of_Z 1.

(** The double nearest to the positive rational [p / q], ties to even. *)
Definition round_ratio (p q : positive) : double :=
  let '(m, e, l) := SFdiv_core_binary 53 1024 (Zpos p) 0 (Zpos q) 0 in
  binary_round_aux 53 1024 false m e l.

(** [std::stod] on [digits] or [digits.digits], the only spellings the sources
    pass to it; anything else is outside this model and is [None]. *)
Definition stod (s : string) : option double :=
  let a := digit_prefix s in
  let r := str_drop (String.length a) s in
  let conv n d := match n, d with
                  | Zpos p, Zpos q => Some (round_ratio p q)
                  | Z0, _ => Some dbl_zero
                  | _, _ => None
                  end in
  if str_empty a then None else
  match r with
  | EmptyString => conv (dval a) 1
  | String c b =>
      if Ascii.eqb c "."%char && str_all is_digit b
      then conv (dval (a +:+ b)) (10 ^ slen b) else None
  end.

(** ** Comparing [c * 10^k] with [m * 2^e]

    Both exponents can be negative, so the test clears denominators. *)

Definition dec_le_bin (c k m e : Z) : bool :=
  c * 10 ^ Z.max k 0 * 2 ^ Z.max (- e) 0 <=? m * 2 ^ Z.max e 0 * 10 ^ Z.max (- k) 0.
Definition bin_le_dec (m e c k : Z) : bool :=
  m * 2 ^ Z.max e 0 * 10 ^ Z.max (- k) 0 <=? c * 10 ^ Z.max k 0 * 2 ^ Z.max (- e) 0.

(** Does reading [c * 10^k] give back the double [m * 2^e]?  The reals that
    round to it form an interval around it, half a gap wide on each side; the
    gap below a power of two is half the gap above it.  In units of
    [2^(e-2)], with ties going to the even mantissa. *)
Definition round_trips (m : positive) (e c k : Z) : bool :=
  let low := if Pos.eqb m (2 ^ 52) && (-1074 <? e) then 4 * Zpos m - 1 else 4 * Zpos m - 2 in
  let high := 4 * Zpos m + 2 in
  if Z.even (Zpos m)
  then bin_le_dec low (e - 2) c k && dec_le_bin c k high (e - 2)
  else negb (dec_le_bin c k low (e - 2)) && negb (bin_le_dec high (e - 2) c k).

(** ** The shortest digits *)

(** [p] with [10^p <= m * 2^e < 10^(p+1)]. *)
Fixpoint exp_up (fuel : nat) (m e p : Z) : Z :=
  match fuel with
  | O => p
  | S f => if dec_le_bin 1 (p + 1) m e then exp_up f m e (p + 1) else p
  end.
Fixpoint exp_down (fuel : nat) (m e p : Z) : Z :=
  match fuel with
  | O => p
  | S f => if dec_le_bin 1 p m e then p else exp_down f m e (p - 1)
  end.
Definition dec_exponent (m e : Z) : Z :=
  if dec_le_bin 1 0 m e then exp_up 310 m e 0 else exp_down 330 m e (-1).

(** The two [n]-digit decimals around [m * 2^e]; of those that read back,
    the closer one. *)
Definition try_digits (m : positive) (e p n : Z) : option (Z * Z) :=
  let k := p - n + 1 in
  let num := Zpos m * 2 ^ Z.max e 0 * 10 ^ Z.max (- k) 0 in
  let den := 2 ^ Z.max (- e) 0 * 10 ^ Z.max k 0 in
  let q := num / den in
  let r := num mod den in
  match round_trips m e q k, round_trips m e (q + 1) k with
  | true, true => if (2 * r <? den) || ((2 * r =? den) && Z.even q) then Some (q, k) else Some (q + 1, k)
  | true, false => Some (q, k)
  | false, true => Some (q + 1, k)
  | false, false => None
  end.

Fixpoint search_digits (fuel : nat) (m : positive) (e p n : Z) : option (Z * Z) :=
  match fuel with
  | O => None
  | S f => match try_digits m e p n with
           | Some r => Some r
           | None => search_digits f m e p (n + 1)
           end
  end.

Fixpoint strip_zeros (fuel : nat) (c k : Z) : Z * Z :=
  match fuel with
  | O => (c, k)
  | S f => if c mod 10 =? 0 then strip_zeros f (c / 10) (k + 1) else (c, k)
  end.

(** Coefficient and exponent of the shortest decimal that reads back as
    [m * 2^e].  Seventeen digits are always enough for binary64. *)
Definition shortest (m : positive) (e : Z) : option (Z * Z) :=
  match search_digits 17 m e (dec_exponent (Zpos m) e) 1 with
  | Some (c, k) => Some (strip_zeros 17 c k)
  | None => None
  end.

(** ** The text *)

(** At least two exponent digits, as [printf("%e")]. *)
Definition pad2 (s : string) : string := if slen s <? 2 then "0" +:+ s else s.

Definition sci_text (ds : string) (k : Z) : string :=
  let x := k + slen ds - 1 in
  let body := if slen ds =? 1 then ds else str_take 1 ds +:+ "." +:+ str_drop 1 ds in
  body +:+ "e" +:+ (if x <? 0 then "-" else "+") +:+ pad2 (to_string (Z.abs x)).

(** Fixed notation.  An integer-valued double is printed with all its exact
    digits: among the spellings of that length it is the closest to the
    value. *)
Definition fixed_text (m e : Z) (ds : string) (k : Z) : string :=
  let num := m * 2 ^ Z.max e 0 in
  let den := 2 ^ Z.max (- e) 0 in
  if 0 <=? k then
    if num mod den =? 0 then to_string (num / den)
    else ds +:+ str_repeat (Z.to_nat k) "0"%char
  else if 0 <? slen ds + k then
    str_take (Z.to_nat (slen ds + k)) ds +:+ "." +:+ str_drop (Z.to_nat (slen ds + k)) ds
  else "0." +:+ str_repeat (Z.to_nat (- k - slen ds)) "0"%char +:+ ds.

(** [std::to_chars(first, last, value)] for a positive finite [value]: the
    shorter of the two notations, fixed on a tie; [None] is
    [errc::value_too_large], when the text does not fit in the buffer. *)
Definition to_chars (buffer : Z) (m : positive) (e : Z) : option string :=
  match shortest m e with
  | None => None
  | Some (c, k) =>
      let ds := to_string c in
      let f := fixed_text (Zpos m) e ds k in
      let s := sci_text ds k in
      let t := if slen f <=? slen s then f else s in
      if slen t <=? buffer then Some t else None
  end.

(** ** A common scale

    Every exponent in play is above [-400] (decimal) and [-1080] (binary), so
    both sides of a comparison become integers over one denominator. *)

Definition P10 (k : Z) : Z := 10 ^ (k + 400) * 2 ^ 1080.
Definition P2 (e : Z) : Z := 2 ^ (e + 1080) * 10 ^ 400.

Lemma P10_succ k : -400 <= k -> P10 (k + 1) = 10 * P10 k.
Proof.
  intros. unfold P10. replace (k + 1 + 400) with (1 + (k + 400)) by lia.
  rewrite pow10_add by lia. ring.
Qed.

Lemma P10_add k n : -400 <= k -> 0 <= n -> P10 (k + n) = 10 ^ n * P10 k.
Proof.
  intros. unfold P10. replace (k + n + 400) with (n + (k + 400)) by lia.
  rewrite pow10_add by lia. ring.
Qed.

Lemma P2_add e n : -1080 <= e -> 0 <= n -> P2 (e + n) = 2 ^ n * P2 e.
Proof.
  intros. unfold P2. replace (e + n + 1080) with (n + (e + 1080)) by lia.
  rewrite Z.pow_add_r by lia. ring.
Qed.

Lemma P10_pos k : -400 <= k -> 0 < P10 k.
Proof. intros. unfold P10. apply Z.mul_pos_pos; apply Z.pow_pos_nonneg; lia. Qed.

Lemma P2_pos e : -1080 <= e -> 0 < P2 e.
Proof. intros. unfold P2. apply Z.mul_pos_pos; apply Z.pow_pos_nonneg; lia. Qed.

Lemma P10_0 : P10 0 = P2 0.
Proof. unfold P10, P2. apply Z.mul_comm. Qed.

(** The factor that clears the denominators of the executable comparisons. *)
Lemma common_scale k e :
  -400 <= k -> -1080 <= e ->
  exists f, 0 < f /\ 10 ^ Z.max k 0 * 2 ^ Z.max (- e) 0 * f = P10 k
    /\ 2 ^ Z.max e 0 * 10 ^ Z.max (- k) 0 * f = P2 e.
Proof.
  intros Hk He. exists (10 ^ (400 - Z.max (- k) 0) * 2 ^ (1080 - Z.max (- e) 0)).
  split; [apply Z.mul_pos_pos; apply Z.pow_pos_nonneg; lia|].
  unfold P10, P2. split.
  - replace (k + 400) with (Z.max k 0 + (400 - Z.max (- k) 0)) by lia.
    replace 1080 with (Z.max (- e) 0 + (1080 - Z.max (- e) 0)) at 2 by lia.
    rewrite !Z.pow_add_r by lia. ring.
  - replace (e + 1080) with (Z.max e 0 + (1080 - Z.max (- e) 0)) by lia.
    replace 400 with (Z.max (- k) 0 + (400 - Z.max (- k) 0)) at 2 by lia.
    rewrite !Z.pow_add_r by lia. ring.
Qed.

Section Comparisons.
Context (c k m e : Z) (Hk : -400 <= k) (He : -1080 <= e).

Lemma dec_le_bin_spec : dec_le_bin c k m e = true <-> c * P10 k <= m * P2 e.
Proof using Hk He.
  destruct (common_scale k e Hk He) as (f & Hf & <- & <-).
  unfold dec_le_bin. rewrite Z.leb_le.
  rewrite (Z.mul_le_mono_pos_r _ _ f Hf). by rewrite !Z.mul_assoc.
Qed.

Lemma bin_le_dec_spec : bin_le_dec m e c k = true <-> m * P2 e <= c * P10 k.
Proof using Hk He.
  destruct (common_scale k e Hk He) as (f & Hf & <- & <-).
  unfold bin_le_dec. rewrite Z.leb_le.
  rewrite (Z.mul_le_mono_pos_r _ _ f Hf). by rewrite !Z.mul_assoc.
Qed.
End Comparisons.

(** The reals that read back as [m * 2^e], on the common scale. *)
Definition gap_low (m : positive) (e : Z) : Z :=
  if Pos.eqb m (2 ^ 52) && (-1074 <? e) then 4 * Zpos m - 1 else 4 * Zpos m - 2.

Definition reads_as (m : positive) (e y : Z) : Prop :=
  if Z.even (Zpos m)
  then gap_low m e * P2 (e - 2) <= y <= (4 * Zpos m + 2) * P2 (e - 2)
  else gap_low m e * P2 (e - 2) < y < (4 * Zpos m + 2) * P2 (e - 2).

Lemma round_trips_spec m e c k :
  -400 <= k -> -1078 <= e -> round_trips m e c k = true <-> reads_as m e (c * P10 k).
Proof.
  intros Hk He. unfold round_trips, reads_as. fold (gap_low m e). cbv zeta.
  generalize (gap_low m e). intros low. destruct (Z.even _).
  - rewrite andb_true_iff, bin_le_dec_spec, dec_le_bin_spec by lia. lia.
  - rewrite andb_true_iff, !negb_true_iff, <- !not_true_iff_false.
    rewrite bin_le_dec_spec, dec_le_bin_spec by lia. lia.
Qed.

Lemma P2_quarter e : -1078 <= e -> P2 e = 4 * P2 (e - 2).
Proof. intros. replace e with (e - 2 + 2) at 1 by lia. rewrite P2_add by lia. lia. Qed.

(** Strictly inside the narrow half-gap on both sides is enough. *)
Lemma reads_as_near m e y :
  -1078 <= e ->
  gap_low m e * P2 (e - 2) < y -> y < (4 * Zpos m + 2) * P2 (e - 2) -> reads_as m e y.
Proof. intros. unfold reads_as. destruct (Z.even _); lia. Qed.

Lemma reads_as_self m e : -1078 <= e -> reads_as m e (Zpos m * P2 e).
Proof.
  intros He. rewrite P2_quarter by done. pose proof (P2_pos (e - 2) ltac:(lia)).
  apply reads_as_near; [done| |nia]. unfold gap_low. case_match; nia.
Qed.

(** ** Bounds of a binary64 mantissa and exponent *)

Lemma digits2_pos_bound m : Zpos m < 2 ^ Zpos (digits2_pos m).
Proof.
  induction m as [m IH|m IH|]; cbn [digits2_pos]; [..|done].
  all: rewrite Pos2Z.inj_succ, Z.pow_succ_r by lia; lia.
Qed.

Lemma valid_bounds m e :
  dbl_valid (S754_finite false m e) = true ->
  Zpos m < 2 ^ 53 /\ -1074 <= e <= 971.
Proof.
  unfold dbl_valid, valid_binary, bounded, canonical_mantissa, fexp, emin.
  intros [Hc He]%andb_true_iff. apply Z.eqb_eq in Hc. apply Z.leb_le in He.
  assert (Zpos (digits2_pos m) <= 53) by lia.
  split; [|lia].
  pose proof (digits2_pos_bound m).
  pose proof (Z.pow_le_mono_r 2 (Zpos (digits2_pos m)) 53). lia.
Qed.

Lemma pow_gap_up : 2 ^ 53 * P2 971 <= P10 309.
Proof. vm_compute. discriminate. Qed.

Lemma pow_gap_down : P10 (-324) <= P2 (-1074).
Proof. vm_compute. discriminate. Qed.

Lemma P2_mono a b : -1080 <= a -> a <= b -> P2 a <= P2 b.
Proof.
  intros. unfold P2. apply Z.mul_le_mono_nonneg_r; [apply Z.pow_nonneg; lia|].
  apply Z.pow_le_mono_r; lia.
Qed.

Lemma P10_mono a b : -400 <= a -> a <= b -> P10 a <= P10 b.
Proof.
  intros. unfold P10. apply Z.mul_le_mono_nonneg_r; [apply Z.pow_nonneg; lia|].
  apply Z.pow_le_mono_r; lia.
Qed.

Section Shortest.
Context (m : positive) (e : Z).
Context (Hm : Zpos m < 2 ^ 53) (He : -1074 <= e <= 971).

Let V := Zpos m * P2 e.

Lemma value_bounds : P10 (-324) <= V < P10 309.
Proof using Hm He.
  pose proof (P2_mono (-1074) e ltac:(lia) ltac:(lia)).
  pose proof (P2_mono e 971 ltac:(lia) ltac:(lia)).
  pose proof pow_gap_up. pose proof pow_gap_down. pose proof (P2_pos e ltac:(lia)).
  unfold V. split; nia.
Qed.

Lemma le10_spec p : -400 <= p -> dec_le_bin 1 p (Zpos m) e = true <-> P10 p <= V.
Proof using He. intros. rewrite dec_le_bin_spec by lia. unfold V. lia. Qed.

Lemma exp_up_spec fuel p :
  -400 <= p -> P10 p <= V -> 309 - p <= Z.of_nat fuel ->
  let r := exp_up fuel (Zpos m) e p in p <= r /\ P10 r <= V < P10 (r + 1).
Proof using Hm He.
  revert p. induction fuel as [|f IH]; intros p Hp Hlo Hf; cbn [exp_up].
  - pose proof (P10_mono 309 p ltac:(lia) ltac:(lia)). pose proof value_bounds. lia.
  - destruct (dec_le_bin 1 (p + 1) (Zpos m) e) eqn:E.
    + apply le10_spec in E; [|lia]. destruct (IH (p + 1)); [lia|done|lia|]. cbn. lia.
    + apply not_true_iff_false in E. rewrite le10_spec in E by lia. cbn. lia.
Qed.

Lemma exp_down_spec fuel p :
  -400 <= p -> V < P10 (p + 1) -> p + 325 <= Z.of_nat fuel -> -324 <= p ->
  let r := exp_down fuel (Zpos m) e p in -324 <= r <= p /\ P10 r <= V < P10 (r + 1).
Proof using Hm He.
  revert p. induction fuel as [|f IH]; intros p Hp Hhi Hf Hlo; cbn [exp_down]; [lia|].
  destruct (dec_le_bin 1 p (Zpos m) e) eqn:E.
  - apply le10_spec in E; [|lia]. cbn. lia.
  - apply not_true_iff_false in E. rewrite le10_spec in E by lia.
    destruct (Z.eq_dec p (-324)) as [->|]; [pose proof value_bounds; lia|].
    destruct (IH (p - 1)) as [? ?]; [lia| |lia..|cbn; lia].
    replace (p - 1 + 1) with p by lia. lia.
Qed.

Lemma dec_exponent_spec :
  let p := dec_exponent (Zpos m) e in -324 <= p <= 308 /\ P10 p <= V < P10 (p + 1).
Proof using Hm He.
  unfold dec_exponent. pose proof value_bounds as HV.
  destruct (dec_le_bin 1 0 (Zpos m) e) eqn:E.
  - apply le10_spec in E; [|lia].
    destruct (exp_up_spec 310 0) as [? [Hlo ?]]; [lia|done|cbn; lia|]. cbv zeta.
    set (r := exp_up _ _ _ _) in *. split; [|done].
    destruct (Z_le_gt_dec r 308); [lia|].
    pose proof (P10_mono 309 r ltac:(lia) ltac:(lia)). lia.
  - apply not_true_iff_false in E. rewrite le10_spec in E by lia.
    destruct (exp_down_spec 330 (-1)); [lia|change (-1 + 1) with 0; lia|cbn; lia|lia|]. cbv zeta. lia.
Qed.

Context (p : Z) (Hp : -324 <= p <= 308) (Hlo : P10 p <= V) (Hhi : V < P10 (p + 1)).

Lemma quotient_spec k :
  -400 <= k ->
  let num := Zpos m * 2 ^ Z.max e 0 * 10 ^ Z.max (- k) 0 in
  let den := 2 ^ Z.max (- e) 0 * 10 ^ Z.max k 0 in
  exists f, 0 < f /\ 0 < den /\ den * f = P10 k
    /\ V = num / den * P10 k + num mod den * f /\ 0 <= num mod den < den.
Proof using He.
  intros Hk num den. destruct (common_scale k e) as (f & Hf & H10 & H2); [lia..|].
  assert (Hden : 0 < den) by (apply Z.mul_pos_pos; apply Z.pow_pos_nonneg; lia).
  exists f. split; [done|]. split; [done|].
  assert (Hd : den * f = P10 k) by (unfold den; lia). split; [done|].
  destruct (div_mod_id num den Hden) as [Hq Hr]. split; [|done].
  rewrite <- Hd. unfold V. rewrite <- H2.
  replace (Zpos m * (2 ^ Z.max e 0 * 10 ^ Z.max (- k) 0 * f)) with (num * f) by (unfold num; ring).
  rewrite Hq at 1. ring.
Qed.

Lemma try_digits_spec n c k :
  1 <= n <= 17 -> try_digits m e p n = Some (c, k) ->
  k = p - n + 1 /\ 1 <= c <= 10 ^ n /\ reads_as m e (c * P10 k).
Proof using Hm He Hp Hlo Hhi.
  intros Hn. unfold try_digits.
  destruct (quotient_spec (p - n + 1)) as (f & Hf & Hden & Hd & HV & Hr); [lia|].
  revert HV Hr Hd. generalize (2 ^ Z.max (- e) 0 * 10 ^ Z.max (p - n + 1) 0).
  generalize (Zpos m * 2 ^ Z.max e 0 * 10 ^ Z.max (- (p - n + 1)) 0).
  intros num den HV Hr Hd. cbv zeta.
  pose proof (P10_pos (p - n + 1) ltac:(lia)) as Hu.
  replace (p + 1) with (p - n + 1 + n) in Hhi by lia.
  replace p with (p - n + 1 + (n - 1)) in Hlo at 1 by lia.
  rewrite P10_add in Hhi, Hlo by lia.
  pose proof (pow10_pos (n - 1) ltac:(lia)).
  assert (1 <= num / den < 10 ^ n) by nia.
  destruct (round_trips m e (num / den) _) eqn:E1, (round_trips m e (num / den + 1) _) eqn:E2.
  all: rewrite ?round_trips_spec in E1 by lia; rewrite ?round_trips_spec in E2 by lia.
  - case_match; intros [= <- <-]; (split; [done|]; split; [lia|done]).
  - intros [= <- <-]; split; [done|]; split; [lia|done].
  - intros [= <- <-]; split; [done|]; split; [lia|done].
  - done.
Qed.

(** Seventeen digits: ten to the sixteenth exceeds two to the fifty-third. *)
Lemma try_digits_17 : try_digits m e p 17 <> None.
Proof using Hm He Hp Hlo Hhi.
  unfold try_digits.
  destruct (quotient_spec (p - 17 + 1)) as (f & Hf & Hden & Hd & HV & Hr); [lia|].
  revert HV Hr Hd. generalize (2 ^ Z.max (- e) 0 * 10 ^ Z.max (p - 17 + 1) 0).
  generalize (Zpos m * 2 ^ Z.max e 0 * 10 ^ Z.max (- (p - 17 + 1)) 0).
  intros num den HV Hr Hd. cbv zeta.
  set (u := P10 (p - 17 + 1)) in *. set (q := num / den) in *. set (r := num mod den) in *.
  assert (Hu : 0 < u) by (apply P10_pos; lia).
  assert (H16 : 10 ^ 16 * u <= V).
  { replace p with (p - 17 + 1 + 16) in Hlo at 1 by lia. by rewrite P10_add in Hlo by lia. }
  set (w := P2 (e - 2)). assert (Hw : 0 < w) by (apply P2_pos; lia).
  assert (HVw : V = 4 * (Zpos m * w)).
  { unfold V, w. rewrite P2_quarter by lia. ring. }
  assert (Hmw : Zpos m * w < 2 ^ 53 * w) by nia.
  assert (Hnear : forall y, 2 * Z.abs (V - y) <= u -> reads_as m e y).
  { intros y Hy. apply reads_as_near; [lia|..]; fold w; unfold gap_low; [|lia].
    destruct (Pos.eqb m (2 ^ 52) && (-1074 <? e)) eqn:Eb; [|lia].
    apply andb_true_iff in Eb as [->%Pos.eqb_eq _]. lia. }
  assert (Hrf : 0 <= r * f /\ r * f < u) by nia.
  destruct (Z_le_gt_dec (2 * (r * f)) u).
  - assert (E : round_trips m e q (p - 17 + 1) = true).
    { apply round_trips_spec; [lia..|]. fold u. apply Hnear. lia. }
    rewrite E. case_match; [case_match|]; done.
  - assert (E : round_trips m e (q + 1) (p - 17 + 1) = true).
    { apply round_trips_spec; [lia..|]. fold u. apply Hnear. lia. }
    rewrite E. case_match; [case_match|]; done.
Qed.

Lemma search_digits_spec fuel n :
  1 <= n -> n <= 17 -> n + Z.of_nat fuel = 18 ->
  exists c k, search_digits fuel m e p n = Some (c, k)
    /\ -340 <= k <= 308 /\ 1 <= c <= 10 ^ 17 /\ reads_as m e (c * P10 k).
Proof using Hm He Hp Hlo Hhi.
  revert n. induction fuel as [|f IH]; intros n Hn1 Hn17 Hf; cbn [search_digits]; [lia|].
  destruct (try_digits m e p n) as [[c k]|] eqn:E.
  - apply try_digits_spec in E as (-> & Hc & HR); [|lia].
    exists c, (p - n + 1). split; [done|]. split; [lia|]. split; [|done].
    pose proof (Z.pow_le_mono_r 10 n 17). lia.
  - destruct (Z.eq_dec n 17) as [->|]; [by apply try_digits_17 in E|].
    apply IH; lia.
Qed.
End Shortest.

Lemma strip_zeros_spec fuel c k :
  -400 <= k -> 1 <= c ->
  let '(c', k') := strip_zeros fuel c k in
  k <= k' <= k + Z.of_nat fuel /\ 1 <= c' <= c /\ c' * P10 k' = c * P10 k.
Proof.
  revert c k. induction fuel as [|f IH]; intros c k Hk Hc; cbn [strip_zeros]; [lia|].
  destruct (Z.eqb_spec (c mod 10) 0) as [E|E]; [|lia].
  destruct (div_mod_id c 10) as [Hq _]; [lia|].
  specialize (IH (c / 10) (k + 1) ltac:(lia) ltac:(lia)).
  destruct (strip_zeros f (c / 10) (k + 1)) as [c' k']. destruct IH as (Hk' & Hc' & ->).
  split; [lia|]. split; [lia|]. rewrite P10_succ by lia. lia.
Qed.

Lemma shortest_spec m e :
  dbl_valid (S754_finite false m e) = true ->
  exists c k, shortest m e = Some (c, k)
    /\ -340 <= k <= 325 /\ 1 <= c <= 10 ^ 17 /\ reads_as m e (c * P10 k).
Proof.
  intros [Hm He]%valid_bounds. unfold shortest.
  destruct (dec_exponent_spec m e Hm He) as (Hp & Hlo & Hhi).
  destruct (search_digits_spec m e Hm He _ Hp Hlo Hhi 17 1) as (c & k & -> & Hk & Hc & HR);
    [lia..|].
  pose proof (strip_zeros_spec 17 c k ltac:(lia) ltac:(lia)) as HS.
  destruct (strip_zeros 17 c k) as [c' k']. destruct HS as (? & ? & Heq).
  exists c', k'. split; [done|]. split; [lia|]. split; [lia|]. by rewrite Heq.
Qed.

(** ** The text fits the callers' buffer *)

Lemma slen_to_string_le n b : 0 <= n -> 0 <= b -> n < 10 ^ b -> 0 < b -> slen (to_string n) <= b.
Proof.
  intros Hn Hb Hlt Hpos. destruct (to_string_spec n Hn) as (_ & _ & H0 & Hlo & _).
  destruct (Z.eq_dec n 0) as [E|E]; [rewrite (H0 E); change (slen "0") with 1; lia|].
  specialize (Hlo ltac:(lia)).
  destruct (Z_le_gt_dec (slen (to_string n)) b); [done|].
  pose proof (Z.pow_le_mono_r 10 b (slen (to_string n) - 1)). lia.
Qed.

Lemma slen_pad2 s : slen (pad2 s) <= Z.max 2 (slen s).
Proof. unfold pad2. case_match; slen_norm; lia. Qed.

Lemma slen_take_drop n s : slen (str_take n s) + slen (str_drop n s) = slen s.
Proof. rewrite <- slen_app. by rewrite str_take_drop. Qed.

Lemma slen_sci_text c k :
  1 <= c <= 10 ^ 17 -> -340 <= k <= 325 -> slen (sci_text (to_string c) k) <= 24.
Proof.
  intros Hc Hk. unfold sci_text. cbv zeta.
  pose proof (slen_to_string_le c 18 ltac:(lia) ltac:(lia) ltac:(lia) ltac:(lia)).
  pose proof (proj2 (proj2 (proj2 (proj2 (to_string_spec c ltac:(lia)))))).
  set (x := k + slen (to_string c) - 1).
  pose proof (slen_to_string_le (Z.abs x) 3 ltac:(lia) ltac:(lia) ltac:(lia) ltac:(lia)).
  pose proof (slen_pad2 (to_string (Z.abs x))).
  pose proof (slen_take_drop 1 (to_string c)).
  destruct (_ =? 1), (x <? 0); slen_norm; lia.
Qed.

Lemma to_chars_spec m e :
  dbl_valid (S754_finite false m e) = true ->
  exists c k t, to_chars 32 m e = Some t
    /\ -340 <= k <= 325 /\ 1 <= c <= 10 ^ 17 /\ reads_as m e (c * P10 k)
    /\ (t = fixed_text (Zpos m) e (to_string c) k \/ t = sci_text (to_string c) k).
Proof.
  intros Hv. destruct (shortest_spec m e Hv) as (c & k & Hs & Hk & Hc & HR).
  pose proof (slen_sci_text c k Hc Hk) as Hl. unfold to_chars. rewrite Hs. cbv zeta.
  destruct (Z.leb_spec (slen (fixed_text (Zpos m) e (to_string c) k))
              (slen (sci_text (to_string c) k))) as [Hle|Hle].
  - destruct (Z.leb_spec (slen (fixed_text (Zpos m) e (to_string c) k)) 32); [|lia]. eauto 10.
  - destruct (Z.leb_spec (slen (sci_text (to_string c) k)) 32); [|lia]. eauto 10.
Qed.
