(* ===== verification/Json.v ===== *)
(** * Untyped JSON and numeric text

    [glz::generic], the untyped JSON value of glaze that [clob.cpp] and
    [relayer.cpp] read replies into, is an external interface; [std::stoll] and
    [std::stoull], which they apply to fields of it, are written out. *)

From Stdlib Require Import Ascii String ZArith Lia.
From stdpp Require Import base list strings numbers.
From S2P Require Import Prelude Double.

Open Scope Z_scope.

(** ** glaze *)

(** [None] from [read_json] is a parse error; [field] is [operator[]], and it and
    the accessors throw on a value of another type. *)
Class JsonLib := {
  generic : Type;
  read_json : string -> option generic;
  field : generic -> string -> result generic;
  contains : generic -> string -> bool;
  is_string : generic -> bool;
  is_number : generic -> bool;
  is_boolean : generic -> bool;
  is_object : generic -> bool;
  get_string : generic -> result string;
  get_number : generic -> result double;
  get_boolean : generic -> result bool;
}.

(** Values without a parser: every text is read as one string value. *)
Module RefJson.
Inductive value :=
  | JString (s : string)
  | JNumber (d : double)
  | JBoolean (b : bool)
  | JObject (l : list (string * value)).
Definition lookup (v : value) (k : string) : option value :=
  match v with
  | JObject l => snd <$> List.find (fun p => String.eqb (fst p) k) l
  | _ => None
  end.
Definition bad : exn := RuntimeError "bad_variant_access".
End RefJson.

#[export] Instance json_reference : JsonLib := {|
  generic := RefJson.value;
  read_json s := Some (RefJson.JString s);
  field v k := of_option RefJson.bad (RefJson.lookup v k);
  contains v k := match RefJson.lookup v k with Some _ => true | None => false end;
  is_string v := match v with RefJson.JString _ => true | _ => false end;
  is_number v := match v with RefJson.JNumber _ => true | _ => false end;
  is_boolean v := match v with RefJson.JBoolean _ => true | _ => false end;
  is_object v := match v with RefJson.JObject _ => true | _ => false end;
  get_string v := match v with RefJson.JString s => Ok s | _ => Throw RefJson.bad end;
  get_number v := match v with RefJson.JNumber d => Ok d | _ => Throw RefJson.bad end;
  get_boolean v := match v with RefJson.JBoolean b => Ok b | _ => Throw RefJson.bad end;
|}.

(** ** Integers from text *)

(** [isspace] in the C locale. *)
Definition is_space (c : ascii) : bool := (code c =? 32) || ((9 <=? code c) && (code c <=? 13)).

Fixpoint skip_space (s : string) : string :=
  match s with
  | String c rest => if is_space c then skip_space rest else s
  | EmptyString => s
  end.

(** Optional white space, an optional sign, then the digits; what follows them
    is ignored. *)
Definition split_sign (s : string) : bool * string :=
  match skip_space s with
  | String c rest =>
      if Ascii.eqb c "-" then (true, rest)
      else if Ascii.eqb c "+" then (false, rest) else (false, String c rest)
  | EmptyString => (false, "")
  end.

Definition stoll (s : string) : result Z :=
  let '(negative, rest) := split_sign s in
  let ds := digit_prefix rest in
  throw_if (str_empty ds) (InvalidArgument "stoll");;
  let v := if negative then - dval ds else dval ds in
  throw_if ((v <? - 2 ^ 63) || (2 ^ 63 - 1 <? v)) (OutOfRange "stoll");;
  Ok v.

(** The range check is on the magnitude; a minus sign then negates in the
    unsigned type. *)
Definition stoull (s : string) : result Z :=
  let '(negative, rest) := split_sign s in
  let ds := digit_prefix rest in
  throw_if (str_empty ds) (InvalidArgument "stoull");;
  throw_if (u64_max <? dval ds) (OutOfRange "stoull");;
  Ok (u64 (if negative then - dval ds else dval ds)).

(** [static_cast<std::uint64_t>(d)]: truncation, undefined out of range. *)
Definition u64_of_double (d : double) : result Z :=
  let truncated := match d with
                   | SpecFloat.S754_zero _ => Some 0
                   | SpecFloat.S754_finite s m e =>
                       let v := Z.shiftl (Zpos m) e in Some (if s then - v else v)
                   | _ => None
                   end in
  match truncated with
  | Some v => if (0 <=? v) && (v <=? u64_max) then Ok v else Throw (Undefined "double to uint64_t")
  | None => Throw (Undefined "double to uint64_t")
  end.

(** Whatever [to_string] prints, both readers read back. *)
Lemma stoull_to_string z : in_u64 z -> stoull (to_string z) = Ok z.
Proof.
  intros Hz. unfold in_u64 in Hz. pose proof (to_string_digits z ltac:(lia)) as Hd.
  pose proof (dval_to_string z ltac:(lia)) as Hv.
  destruct (to_string_spec z ltac:(lia)) as (_ & _ & _ & _ & Hl).
  assert (Hs : split_sign (to_string z) = (false, to_string z)).
  { destruct (to_string z) as [|c s] eqn:E; [done|]. cbn [str_all] in Hd. apply andb_true_iff in Hd as [Hc _].
    unfold split_sign. cbn [skip_space]. destruct c as [[] [] [] [] [] [] [] []]; vm_compute in Hc; done. }
  unfold stoull. rewrite Hs, digit_prefix_all, Hv by done.
  assert (Hne : str_empty (to_string z) = false).
  { apply String.eqb_neq. intros E. rewrite E, slen_nil in Hl. lia. }
  rewrite Hne. cbn [throw_if mbind result_bind]. rewrite (proj2 (Z.ltb_ge _ _)) by (unfold u64_max; lia). cbn.
  by rewrite u64_small.
Qed.
