(* ===== verification/Amounts.v ===== *)
(** * Order amounts ([src/pm/amounts.cpp])

    The rounding table, the decimal reading of a [double], the string-based
    scaling routine, and the three amount builders with the final price check.
    The U256 product and its decimal rendering belong to an external library
    and come in through the [U256Lib] interface. *)

From Stdlib Require Import Ascii String ZArith Lia.
From Stdlib Require Import SpecFloat.
From stdpp Require Import base list strings numbers.
From S2P Require Import Prelude Interfaces Double.

Open Scope Z_scope.

(** ** Data *)

(** [enum class Side]: any [uint8_t] can be cast to it, so the invalid values
    are representable. *)
Inductive Side := Buy | Sell | OtherSide (raw : Z).

#[export] Instance Side_eq_dec : EqDecision Side.
Proof. solve_decision. Defined.

Record RoundConfig := { rc_price : Z; rc_size : Z; rc_amount : Z }.

Definition rounding_config : list (string * RoundConfig) :=
  [ ("0.1",    {| rc_price := 1; rc_size := 2; rc_amount := 3 |});
    ("0.01",   {| rc_price := 2; rc_size := 2; rc_amount := 4 |});
    ("0.005",  {| rc_price := 3; rc_size := 2; rc_amount := 5 |});
    ("0.0025", {| rc_price := 4; rc_size := 2; rc_amount := 6 |});
    ("0.001",  {| rc_price := 3; rc_size := 2; rc_amount := 5 |});
    ("0.0001", {| rc_price := 4; rc_size := 2; rc_amount := 6 |}) ].

Fixpoint assoc_find {A} (key : string) (l : list (string * A)) : option A :=
  match l with
  | [] => None
  | (k, v) :: l' => if String.eqb k key then Some v else assoc_find key l'
  end.

Definition valid_tick_size (tick : string) : bool :=
  match assoc_find tick rounding_config with Some _ => true | None => false end.

Definition config_for (tick : string) : result RoundConfig :=
  of_option (InvalidArgument ("pm: bad tick size: " +:+ tick)) (assoc_find tick rounding_config).

Record Decimal := { digits : string; exponent : Z }.

Inductive Rounding := Down | Up | Nearest.

(** ** [decimal]: the shortest decimal of a double *)

(** [std::from_chars] into an [int], which must consume the whole range. *)
Definition from_chars_int (s : string) : option Z :=
  let '(neg, d) := match s with
                   | String c t => if Ascii.eqb c "-"%char then (true, t) else (false, s)
                   | EmptyString => (false, s)
                   end in
  let v := if neg : bool then - dval d else dval d in
  if str_empty d || negb (str_all is_digit d) then None
  else if (- 2 ^ 31 <=? v) && (v <? 2 ^ 31) then Some v else None.

Definition strip_plus (s : string) : string :=
  match s with
  | String c t => if Ascii.eqb c "+"%char then t else s
  | EmptyString => s
  end.

(** The character loop of [decimal]. *)
Fixpoint decimal_loop (text : string) (fraction : bool) (out : Decimal) : result Decimal :=
  match text with
  | EmptyString => Ok out
  | String c rest =>
      if Ascii.eqb c "e"%char || Ascii.eqb c "E"%char then
        x ← of_option (InvalidArgument "pm: amount exponent conversion failed")
              (from_chars_int (strip_plus rest));
        Ok {| digits := digits out; exponent := exponent out + x |}
      else if Ascii.eqb c "."%char then decimal_loop rest true out
      else decimal_loop rest fraction
             {| digits := digits out +:+ String c "";
                exponent := if fraction then exponent out - 1 else exponent out |}
  end.

Definition decimal (value : double) : result Decimal :=
  _ ← throw_if (negb (dbl_is_finite value) || dbl_ltb value dbl_zero)
        (InvalidArgument "pm: amount must be finite and nonnegative");
  match value with
  | S754_finite false m e =>
      text ← of_option (InvalidArgument "pm: amount conversion failed") (to_chars 32 m e);
      decimal_loop text false {| digits := ""; exponent := 0 |}
  | _ => Ok {| digits := "0"; exponent := 0 |}
  end.

(** ** [scaled]: [value * 10^places] as an integer, on the digit string *)

Definition overflow : exn := OverflowError "pm: token amount overflow".

Definition not_zero_char (c : ascii) : bool := negb (Ascii.eqb c "0"%char).

(** [value.digits[cut]], in range at the only use. *)
Definition char_at (i : nat) (s : string) : ascii :=
  match str_drop i s with String c _ => c | EmptyString => "000"%char end.

(** The part of [scaled] after the leading zeros are erased. *)
Definition scaled_body (ds : string) (shift : Z) (rounding : Rounding) : result Z :=
  '(ds', increment) ←
    (if 0 <=? shift then
       _ ← throw_if (20 <? slen ds + shift) overflow;
       Ok (ds +:+ str_repeat (Z.to_nat shift) "0"%char, false)
     else
       let retained := slen ds + shift in
       let cut := Z.to_nat (Z.max 0 retained) in
       let increment :=
         match rounding with
         | Up => match str_find not_zero_char (str_drop cut ds) with
                 | Some _ => true | None => false end
         | Nearest => (0 <=? retained) && (code "5"%char <=? code (char_at cut ds))
         | Down => false
         end in
       Ok (if (cut =? 0)%nat then "0" else str_take cut ds, increment));
  units ← of_option overflow (from_chars_u64 ds');
  _ ← throw_if (increment && (units =? u64_max)) overflow;
  Ok (units + if increment : bool then 1 else 0).

Definition scaled (value : Decimal) (places : Z) (rounding : Rounding) : result Z :=
  match str_find not_zero_char (digits value) with
  | None => Ok 0
  | Some first =>
      scaled_body (str_drop first (digits value)) (exponent value + places) rounding
  end.

Definition token_units (hundredths : Z) : result Z :=
  _ ← throw_if (u64_max / 10000 <? hundredths) overflow;
  Ok (hundredths * 10000).

Definition validate_price (price : double) : result unit :=
  throw_if (negb (dbl_is_finite price) || dbl_ltb price dbl_zero || dbl_ltb dbl_one price)
    (InvalidArgument "pm: price must be finite and between zero and one").

(** [while (places-- > 0) value *= 10], on [uint64_t]. *)
Fixpoint power10_loop (n : nat) (value : Z) : Z :=
  match n with O => value | S n' => power10_loop n' (u64 (value * 10)) end.
Definition power10 (places : Z) : Z := power10_loop (Z.to_nat places) 1.

(** Long division of a decimal string by a small integer. *)
Fixpoint divide_down_loop (numerator : string) (denominator remainder : Z) : string :=
  match numerator with
  | EmptyString => EmptyString
  | String c rest =>
      let r := u64 (remainder * 10 + digit_val c) in
      String (chr (48 + r / denominator))
        (divide_down_loop rest denominator (r mod denominator))
  end.
Definition divide_down (numerator : string) (denominator : Z) : string :=
  divide_down_loop numerator denominator 0.

(** [std::stod(tick)] *)
Definition tick_double (tick : string) : result double :=
  of_option (InvalidArgument "stod") (stod tick).

Definition snap_price (price : double) (tick : string) : result double :=
  _ ← validate_price price;
  rc ← config_for tick;
  d ← decimal price;
  units ← scaled d (rc_price rc) Nearest;
  Ok (dbl_div (dbl_of_Z units) (dbl_of_Z (10 ^ rc_price rc))).

Section Builders.
Context `{L : U256Lib}.

(** [U256::from_u64(a).checked_mul_u64(b)] *)
Definition product (a b : Z) : result U256 := u256_checked_mul_u64 (u256_from_u64 a) b.

Definition order_amounts (side : Side) (size price : double) (tick : string) : result (Z * Z) :=
  rc ← config_for tick;
  _ ← validate_price price;
  _ ← throw_if (negb (bool_decide (side = Buy)) && negb (bool_decide (side = Sell)))
        (InvalidArgument "pm: invalid order side");
  ds ← decimal size;
  shares ← scaled ds (rc_size rc) Down;
  dp ← decimal price;
  price_units ← scaled dp (rc_price rc) Nearest;
  prod ← product shares price_units;
  cash ← scaled {| digits := u256_to_dec prod; exponent := - rc_amount rc |} 6 Down;
  tokens ← token_units shares;
  Ok (if bool_decide (side = Buy) then (cash, tokens) else (tokens, cash)).

Definition market_buy_amounts (size price : double) : result (Z * Z) :=
  _ ← validate_price price;
  ds ← decimal size;
  shares ← scaled ds 2 Down;
  tokens ← token_units shares;
  p ← decimal price;
  coefficient ← scaled {| digits := digits p; exponent := 0 |} 0 Down;
  prod ← product shares coefficient;
  cents ← scaled {| digits := u256_to_dec prod; exponent := exponent p |} 0 Up;
  cash ← token_units cents;
  Ok (cash, tokens).

(** The tick in units of [10^-places], and the price floored to it. *)
Definition tick_increment (rc : RoundConfig) (tick : string) : result Z :=
  t ← tick_double tick;
  d ← decimal t;
  scaled d (rc_price rc) Down.

Definition floored_price (rc : RoundConfig) (increment : Z) (price : double) : result Z :=
  d ← decimal price;
  units ← scaled d (rc_price rc) Down;
  Ok (u64 (units - units mod increment)).

Definition protected_market_buy_amounts (size price : double) (tick : string) : result (Z * Z) :=
  _ ← validate_price price;
  rc ← config_for tick;
  let scale := power10 (rc_price rc) in
  increment ← tick_increment rc tick;
  price_units ← floored_price rc increment price;
  _ ← throw_if ((price_units <? increment) || (u64 (scale - increment) <? price_units))
        (InvalidArgument "pm: protection price out of range for tick size");
  ds ← decimal size;
  shares ← scaled ds 2 Down;
  prod ← product shares price_units;
  cents ← scaled {| digits := u256_to_dec prod; exponent := - rc_price rc |} 0 Up;
  cash ← token_units cents;
  n1 ← product cents scale;
  numerator ← u256_checked_mul_u64 n1 (power10 (rc_amount rc));
  tokens ← scaled {| digits := divide_down (u256_to_dec numerator) (u64 (100 * price_units));
                     exponent := - rc_amount rc |} 6 Down;
  _ ← throw_if ((cash =? 0) || (tokens =? 0))
        (InvalidArgument "pm: protected market BUY must have positive amounts");
  signed_cash ← product cash scale;
  floor_value ← product tokens price_units;
  next_value ← product tokens (u64 (price_units + increment));
  _ ← throw_if (u256_ltb signed_cash floor_value || negb (u256_ltb signed_cash next_value))
        (InvalidArgument "pm: protected market BUY tick bound failed");
  Ok (cash, tokens).

Definition validate_protected_market_buy_price (cash tokens : Z) (price : double) (tick : string)
    : result unit :=
  _ ← validate_price price;
  rc ← config_for tick;
  let scale := power10 (rc_price rc) in
  increment ← tick_increment rc tick;
  protection ← floored_price rc increment price;
  _ ← throw_if ((protection <? increment) || (u64 (scale - increment) <? protection)
                || (cash =? 0) || (tokens =? 0))
        (InvalidArgument "pm: invalid protected market BUY amounts");
  let next := u64 (protection * (10000 / scale) + 1) in
  lhs ← product cash 10000;
  rhs ← product tokens next;
  throw_if (negb (u256_ltb lhs rhs))
    (InvalidArgument "pm: protected market BUY exceeds finest tick price bound").
End Builders.

(** ** The decimal reading of a double *)

(** A digit string with at least one digit. *)
Definition wf_decimal (d : Decimal) : Prop :=
  str_all is_digit (digits d) = true /\ digits d <> "".

Lemma wf_decimal_mk s k :
  str_all is_digit s = true -> s <> "" -> wf_decimal {| digits := s; exponent := k |}.
Proof. by split. Qed.

Lemma digit_plain c :
  is_digit c = true ->
  Ascii.eqb c "e"%char = false /\ Ascii.eqb c "E"%char = false /\ Ascii.eqb c "."%char = false
  /\ Ascii.eqb c "-"%char = false /\ Ascii.eqb c "+"%char = false.
Proof. destruct c as [[] [] [] [] [] [] [] []]; vm_compute; intuition congruence. Qed.

Lemma decimal_loop_digits a t fr out :
  str_all is_digit a = true ->
  decimal_loop (a +:+ t) fr out
  = decimal_loop t fr {| digits := digits out +:+ a;
                         exponent := exponent out - if fr then slen a else 0 |}.
Proof.
  revert out. induction a as [|c a IH]; intros out Ha.
  - rewrite slen_nil, str_app_nil_r.
    replace (exponent out - (if fr then 0 else 0)) with (exponent out) by (destruct fr; lia).
    by destruct out.
  - cbn [str_all] in Ha. apply andb_true_iff in Ha as [Hc Ha].
    destruct (digit_plain c Hc) as (E1 & E2 & E3 & _).
    cbn [String.append decimal_loop]. rewrite E1, E2, E3. cbn [orb].
    rewrite IH by done. cbn [digits exponent]. rewrite <- str_app_assoc, slen_cons.
    cbn [String.append]. do 2 f_equal. destruct fr; lia.
Qed.

Lemma str_all_pad2 s : str_all is_digit s = true -> str_all is_digit (pad2 s) = true.
Proof. intros H. unfold pad2. case_match; [|done]. by rewrite str_all_app, H. Qed.

Lemma dval_pad2 s : dval (pad2 s) = dval s.
Proof. unfold pad2. case_match; [|done]. rewrite dval_app. change (dval "0") with 0. lia. Qed.

Lemma slen_str_empty s : 1 <= slen s -> str_empty s = false.
Proof. intros H. apply String.eqb_neq. intros ->. rewrite slen_nil in H. lia. Qed.

Lemma exponent_text x :
  -1000 < x < 1000 ->
  from_chars_int (strip_plus ((if x <? 0 then "-" else "+") +:+ pad2 (to_string (Z.abs x)))) = Some x.
Proof.
  intros Hx. destruct (to_string_spec (Z.abs x) ltac:(lia)) as (Hv & Hd & _ & _ & Hl).
  assert (Hlp : 1 <= slen (pad2 (to_string (Z.abs x)))).
  { unfold pad2. case_match; slen_norm; lia. }
  pose proof (str_all_pad2 _ Hd) as Hdp. rewrite <- dval_pad2 in Hv.
  destruct (pad2 (to_string (Z.abs x))) as [|c t] eqn:Ep; [rewrite slen_nil in Hlp; lia|].
  destruct (digit_plain c) as (_ & _ & _ & Em & Es).
  { cbn [str_all] in Hdp. by apply andb_true_iff in Hdp as [? _]. }
  pose proof (slen_str_empty _ Hlp) as Hne.
  destruct (Z.ltb_spec x 0); cbn [String.append strip_plus]; change (Ascii.eqb "-" "+") with false;
    change (Ascii.eqb "+" "+") with true; unfold from_chars_int; rewrite ?Em;
    change (Ascii.eqb "-" "-") with true; cbv iota; rewrite Hne, Hdp, Hv; cbn [orb negb];
    rewrite !(proj2 (Z.leb_le _ _)), !(proj2 (Z.ltb_lt _ _)) by lia; cbn [andb]; f_equal; lia.
Qed.

Lemma sci_text_parse ds k :
  str_all is_digit ds = true -> 1 <= slen ds <= 18 -> -340 <= k <= 325 ->
  decimal_loop (sci_text ds k) false {| digits := ""; exponent := 0 |}
  = Ok {| digits := ds; exponent := k |}.
Proof.
  intros Hd Hl Hk. unfold sci_text. cbv zeta. set (x := k + slen ds - 1).
  assert (Htail : forall fr out,
    decimal_loop ("e" +:+ (if x <? 0 then "-" else "+") +:+ pad2 (to_string (Z.abs x))) fr out
    = Ok {| digits := digits out; exponent := exponent out + x |}).
  { intros fr out. cbn [String.append decimal_loop]. change (Ascii.eqb "e" "e") with true. cbn [orb].
    by rewrite exponent_text by lia. }
  destruct (Z.eqb_spec (slen ds) 1) as [E|E].
  - rewrite decimal_loop_digits, Htail by done. cbn [digits exponent String.append].
    f_equal. f_equal. lia.
  - rewrite <- !str_app_assoc, decimal_loop_digits by (by apply str_all_take).
    cbn [String.append]. cbn [decimal_loop]. change (Ascii.eqb "." "e") with false.
    change (Ascii.eqb "." "E") with false. change (Ascii.eqb "." ".") with true. cbn [orb].
    rewrite decimal_loop_digits by (by apply str_all_drop). rewrite Htail. cbn [digits exponent String.append].
    rewrite str_take_drop. f_equal. f_equal. unfold slen at 1. rewrite length_str_drop.
    unfold slen in *. lia.
Qed.

Lemma plain_digits_parse t :
  str_all is_digit t = true ->
  decimal_loop t false {| digits := ""; exponent := 0 |} = Ok {| digits := t; exponent := 0 |}.
Proof.
  intros H. rewrite <- (str_app_nil_r t) at 1. rewrite decimal_loop_digits by done. done.
Qed.

Lemma point_parse a b :
  str_all is_digit a = true -> str_all is_digit b = true ->
  decimal_loop (a +:+ "." +:+ b) false {| digits := ""; exponent := 0 |}
  = Ok {| digits := a +:+ b; exponent := - slen b |}.
Proof.
  intros Ha Hb. rewrite decimal_loop_digits by done. cbn [String.append decimal_loop].
  change (Ascii.eqb "." "e") with false. change (Ascii.eqb "." "E") with false.
  change (Ascii.eqb "." ".") with true. cbn [orb].
  rewrite <- (str_app_nil_r b) at 1. rewrite decimal_loop_digits by done.
  cbn [decimal_loop digits exponent]. done.
Qed.

Lemma slen_drop n s : slen (str_drop (Z.to_nat n) s) = slen s - Z.min (Z.max n 0) (slen s).
Proof. unfold slen. rewrite length_str_drop. lia. Qed.

(** What the loop makes of a fixed-notation text: the same value. *)
Lemma fixed_text_parse m e ds k :
  str_all is_digit ds = true -> 1 <= slen ds -> -340 <= k <= 325 -> -1074 <= e <= 971 ->
  exists d, decimal_loop (fixed_text (Zpos m) e ds k) false {| digits := ""; exponent := 0 |} = Ok d
    /\ wf_decimal d /\ -340 <= exponent d <= 325
    /\ (dval (digits d) * P10 (exponent d) = dval ds * P10 k
        \/ dval (digits d) * P10 (exponent d) = Zpos m * P2 e).
Proof.
  intros Hd Hl Hk He. pose proof (slen_nonempty ds Hl) as Hne.
  unfold fixed_text. cbv zeta. destruct (Z.leb_spec 0 k) as [Hk0|Hk0].
  - destruct (Z.eqb_spec (Zpos m * 2 ^ Z.max e 0 mod 2 ^ Z.max (- e) 0) 0) as [Hex|_].
    + set (num := Zpos m * 2 ^ Z.max e 0) in *. set (den := 2 ^ Z.max (- e) 0) in *.
      assert (Hden : 0 < den) by (apply Z.pow_pos_nonneg; lia).
      assert (Hnum : 0 < num) by (apply Z.mul_pos_pos; [lia|apply Z.pow_pos_nonneg; lia]).
      destruct (div_mod_id num den Hden) as [Hq _]. rewrite Hex in Hq.
      assert (Hq0 : 0 < num / den) by nia.
      destruct (to_string_spec (num / den) ltac:(lia)) as (Hv & Ha & _ & _ & Hs).
      eexists. split; [by apply plain_digits_parse|]. cbn [digits exponent].
      split; [apply wf_decimal_mk; [done|by apply slen_nonempty]|].
      split; [lia|]. right. rewrite Hv.
      destruct (common_scale 0 e) as (f & _ & <- & <-); [lia..|]. fold den.
      change (Z.max 0 0) with 0. change (Z.max (- 0) 0) with 0. change (10 ^ 0) with 1.
      transitivity (den * (num / den) * f); [ring|].
      replace (den * (num / den)) with num by lia. unfold num. ring.
    + eexists. split.
      { apply plain_digits_parse. by rewrite str_all_app, Hd, str_all_repeat. }
      cbn [digits exponent]. split; [apply wf_decimal_mk; [by rewrite str_all_app, Hd, str_all_repeat|by destruct ds]|].
      split; [lia|]. left. rewrite dval_app, dval_repeat_zero.
      rewrite slen_repeat, Z2Nat.id by lia.
      replace k with (0 + k) at 2 by lia. rewrite (P10_add 0 k) by lia. ring.
  - destruct (Z.ltb_spec 0 (slen ds + k)).
    + eexists. split; [apply point_parse; [by apply str_all_take|by apply str_all_drop]|].
      cbn [digits exponent]. rewrite str_take_drop, slen_drop.
      replace (- _) with k by lia. split; [done|]. split; [lia|]. by left.
    + change ("0." +:+ str_repeat (Z.to_nat (- k - slen ds)) "0" +:+ ds)
        with ("0" +:+ "." +:+ (str_repeat (Z.to_nat (- k - slen ds)) "0" +:+ ds)).
      eexists. split; [apply point_parse; [done|by rewrite str_all_app, Hd, str_all_repeat]|].
      cbn [digits exponent]. rewrite slen_app, slen_repeat, Z2Nat.id by lia.
      replace (- (- k - slen ds + slen ds)) with k by lia. split.
      { apply wf_decimal_mk; [by rewrite !str_all_app, Hd, str_all_repeat|done]. }
      split; [lia|]. left. rewrite !dval_app, dval_repeat_zero. change (dval "0") with 0. f_equal.
Qed.

(** Reading a positive double never fails, and the decimal it yields is one
    that reads back as the same double. *)
Lemma decimal_finite m e :
  dbl_valid (S754_finite false m e) = true ->
  exists d, decimal (S754_finite false m e) = Ok d
    /\ wf_decimal d /\ -340 <= exponent d <= 325
    /\ reads_as m e (dval (digits d) * P10 (exponent d)).
Proof.
  intros Hv. pose proof (valid_bounds m e Hv) as [_ He].
  destruct (to_chars_spec m e Hv) as (c & k & t & Ht & Hk & Hc & HR & Hshape).
  destruct (to_string_spec c ltac:(lia)) as (Hval & Hdig & _ & _ & Hlen).
  pose proof (slen_to_string_le c 18 ltac:(lia) ltac:(lia) ltac:(lia) ltac:(lia)).
  unfold decimal. rewrite Ht. cbn [throw_if dbl_is_finite dbl_ltb negb orb mbind result_bind of_option].
  change (throw_if _ _) with (Ok tt). cbn [mbind result_bind].
  destruct Hshape as [->| ->].
  - destruct (fixed_text_parse m e (to_string c) k) as (d & Hd & Hwf & Hx & Hval2); [done..|].
    exists d. split; [done|]. split; [done|]. split; [done|].
    destruct Hval2 as [->| ->]; [by rewrite Hval|]. apply reads_as_self. lia.
  - eexists. split; [by apply sci_text_parse|]. cbn [digits exponent]. rewrite Hval.
    split; [apply wf_decimal_mk; [done|by apply slen_nonempty]|]. done.
Qed.

(** ** [scaled] against its reference definition *)

(** [v * 10^s] rounded to an integer: down, up, or to nearest with halves up. *)
Definition round_spec (r : Rounding) (v s : Z) : Z :=
  if 0 <=? s then v * 10 ^ s
  else let d := 10 ^ (- s) in
       match r with
       | Down => v / d
       | Up => (v + d - 1) / d
       | Nearest => (2 * v + d) / (2 * d)
       end.

Lemma round_split r v d :
  0 < d -> 0 <= v ->
  let inc := match r with
             | Down => false
             | Up => negb (v mod d =? 0)
             | Nearest => d <=? 2 * (v mod d)
             end in
  match r with
  | Down => v / d
  | Up => (v + d - 1) / d
  | Nearest => (2 * v + d) / (2 * d)
  end = v / d + (if inc : bool then 1 else 0).
Proof.
  intros Hd Hv. destruct (div_mod_id v d Hd) as [Hq Hr].
  revert Hq Hr. generalize (v / d) (v mod d). intros q b Hq Hr. cbv zeta. destruct r.
  - lia.
  - symmetry. destruct (Z.eqb_spec b 0); cbn [negb].
    + apply Z.div_unique with (d - 1); lia.
    + apply Z.div_unique with (b - 1); lia.
  - symmetry. destruct (Z.leb_spec d (2 * b)).
    + apply Z.div_unique with (2 * b - d); lia.
    + apply Z.div_unique with (2 * b + d); lia.
Qed.

Lemma round_spec_zero r s : round_spec r 0 s = 0.
Proof.
  unfold round_spec. destruct (Z.leb_spec 0 s); [lia|]. pose proof (pow10_pos (- s) ltac:(lia)) as Hp.
  cbv zeta. rewrite round_split by lia. rewrite Z.div_0_l, Z.mod_0_l by lia.
  destruct r; cbn [Z.eqb negb]; [lia..|]. destruct (Z.leb_spec (10 ^ - s) (2 * 0)); lia.
Qed.

(** A digit string is all zeros exactly when its value is zero. *)
Lemma str_find_nonzero s :
  str_all is_digit s = true ->
  match str_find not_zero_char s with Some _ => true | None => false end = negb (dval s =? 0).
Proof.
  intros Hd. pose proof (str_find_not_split "0"%char s) as H.
  change (fun x => negb (Ascii.eqb x "0")) with not_zero_char in H.
  destruct (str_find not_zero_char s) as [i|].
  - destruct H as (_ & Hs & x & t & Ht & Hx).
    assert (Hdx : is_digit x = true /\ str_all is_digit t = true).
    { rewrite Hs, Ht, str_all_app in Hd. cbn [str_all] in Hd.
      apply andb_true_iff in Hd as [_ Hd]. by apply andb_true_iff in Hd. }
    destruct Hdx as [Hdx Hdt].
    assert (1 <= digit_val x).
    { pose proof (digit_val_range x Hdx). destruct (Z.eq_dec (digit_val x) 0) as [E|]; [|lia].
      exfalso. apply Hx. rewrite <- (chr_code x). unfold digit_val in E. by replace (code x) with 48 by lia. }
    assert (0 < dval s).
    { rewrite Hs, Ht, dval_app, dval_repeat_zero, dval_cons.
      pose proof (dval_range t Hdt). pose proof (pow10_pos (slen t) (slen_nonneg t)). nia. }
    symmetry. apply negb_true_iff, Z.eqb_neq. lia.
  - rewrite H, dval_repeat_zero. done.
Qed.

(** The leading digit decides whether the rest is at least half. *)
Lemma leading_half s :
  str_all is_digit s = true -> s <> "" ->
  (code "5"%char <=? code (char_at 0 s)) = (10 ^ slen s <=? 2 * dval s).
Proof.
  intros Hd Hne. destruct s as [|c t]; [done|]. cbn [str_all] in Hd.
  apply andb_true_iff in Hd as [Hc Ht]. pose proof (dval_range t Ht) as Hr.
  pose proof (pow10_pos (slen t) (slen_nonneg t)).
  rewrite dval_cons, slen_cons, pow10_add by (pose proof (slen_nonneg t); lia).
  change (char_at 0 (String c t)) with c. change (code "5") with 53. unfold digit_val.
  destruct (Z.leb_spec 53 (code c)), (Z.leb_spec (10 ^ 1 * 10 ^ slen t) (2 * ((code c - 48) * 10 ^ slen t + dval t))); nia.
Qed.

Lemma char_at_drop i s : char_at i s = char_at 0 (str_drop i s).
Proof. unfold char_at. by destruct (str_drop i s). Qed.

(** Splitting [V] at the cut: the retained digits and the dropped ones. *)
Lemma cut_split ds shift :
  str_all is_digit ds = true -> 1 <= slen ds -> shift < 0 ->
  let cut := Z.to_nat (Z.max 0 (slen ds + shift)) in
  let d := 10 ^ (- shift) in
  dval (if (cut =? 0)%nat then "0" else str_take cut ds) = dval ds / d
  /\ dval (str_drop cut ds) = dval ds mod d
  /\ (0 <= slen ds + shift -> slen (str_drop cut ds) = - shift).
Proof.
  intros Hd Hl Hs cut d. pose proof (dval_range ds Hd) as Hr.
  assert (Hdp : 0 < d) by (apply pow10_pos; lia).
  destruct (Z_lt_le_dec (slen ds + shift) 0) as [Hneg|Hpos].
  - assert (Hcut : cut = O) by (unfold cut; lia). rewrite Hcut. cbn [Nat.eqb str_drop].
    assert (Hsm : dval ds < d).
    { pose proof (Z.pow_le_mono_r 10 (slen ds) (- shift)). unfold d. lia. }
    rewrite Z.div_small, Z.mod_small by lia. split; [done|]. split; [done|lia].
  - assert (Hlen : slen (str_drop cut ds) = - shift) by (unfold cut; rewrite slen_drop; lia).
    pose proof (dval_range _ (str_all_drop is_digit cut ds Hd)) as Hr2. rewrite Hlen in Hr2.
    assert (Hv : dval ds = d * dval (str_take cut ds) + dval (str_drop cut ds)).
    { rewrite <- (str_take_drop cut ds) at 1. rewrite dval_app, Hlen. fold d. ring. }
    split; [|split; [|done]].
    + transitivity (dval (str_take cut ds)).
      * destruct (Nat.eqb_spec cut 0) as [->|]; done.
      * apply Z.div_unique with (dval (str_drop cut ds)); [fold d in Hr2; lia|done].
    + apply Z.mod_unique with (dval (str_take cut ds)); [fold d in Hr2; lia|done].
Qed.

(** The rounding decision taken on the dropped characters. *)
Lemma increment_spec r ds shift :
  str_all is_digit ds = true -> 1 <= slen ds -> shift < 0 ->
  let retained := slen ds + shift in
  let cut := Z.to_nat (Z.max 0 retained) in
  let d := 10 ^ (- shift) in
  match r with
  | Up => match str_find not_zero_char (str_drop cut ds) with Some _ => true | None => false end
  | Nearest => (0 <=? retained) && (code "5"%char <=? code (char_at cut ds))
  | Down => false
  end
  = match r with
    | Down => false
    | Up => negb (dval ds mod d =? 0)
    | Nearest => d <=? 2 * (dval ds mod d)
    end.
Proof.
  intros Hd Hl Hs retained cut d.
  destruct (cut_split ds shift Hd Hl Hs) as (_ & Hm & Hlen). fold retained cut d in Hm, Hlen.
  destruct r; [done| |].
  - rewrite <- Hm. by apply str_find_nonzero, str_all_drop.
  - destruct (Z.leb_spec 0 retained) as [Hp|Hn]; cbn [andb].
    + rewrite char_at_drop, leading_half.
      * by rewrite Hlen, Hm by done.
      * by apply str_all_drop.
      * apply slen_nonempty. rewrite Hlen by done. lia.
    + symmetry. apply Z.leb_gt. pose proof (dval_range ds Hd).
      assert (d = 10 * 10 ^ (- shift - 1)).
      { unfold d. replace (- shift) with (1 + (- shift - 1)) at 1 by lia. by rewrite pow10_add by lia. }
      pose proof (Z.pow_le_mono_r 10 (slen ds) (- shift - 1)).
      rewrite Z.mod_small; unfold retained in *; lia.
Qed.

(** The parse of the retained digits and the checked increment. *)
Lemma finish_units A inc :
  0 <= A ->
  (units ← of_option overflow (if A <=? u64_max then Some A else None);
   _ ← throw_if (inc && (units =? u64_max)) overflow;
   Ok (units + if inc : bool then 1 else 0))
  = let z := A + (if inc then 1 else 0) in if z <=? u64_max then Ok z else Throw overflow.
Proof.
  intros HA. cbv zeta. destruct (Z.leb_spec A u64_max) as [Hle|Hgt]; cbn [of_option mbind result_bind].
  - destruct inc; cbn [andb].
    + destruct (Z.eqb_spec A u64_max); cbn [throw_if mbind result_bind].
      * by rewrite (proj2 (Z.leb_gt _ _)) by lia.
      * by rewrite (proj2 (Z.leb_le _ _)) by lia.
    + cbn [throw_if mbind result_bind]. by rewrite (proj2 (Z.leb_le (A + 0) _)) by lia.
  - by rewrite (proj2 (Z.leb_gt _ _)) by (destruct inc; lia).
Qed.

Lemma leading_nonzero x t :
  str_all is_digit (String x t) = true -> x <> "0"%char -> 10 ^ slen t <= dval (String x t).
Proof.
  cbn [str_all]. intros [Hdx Hdt]%andb_true_iff Hx. rewrite dval_cons.
  pose proof (dval_range t Hdt). pose proof (digit_val_range x Hdx).
  assert (digit_val x <> 0).
  { unfold digit_val. intros E. apply Hx. rewrite <- (chr_code x). by replace (code x) with 48 by lia. }
  nia.
Qed.

Section ScaledBody.
Context (ds : string) (shift : Z) (r : Rounding).
Context (Hd : str_all is_digit ds = true) (Hl : 1 <= slen ds).
Context (Hlo : 10 ^ (slen ds - 1) <= dval ds).

Let R := round_spec r (dval ds) shift.

Lemma scaled_body_up :
  0 <= shift -> scaled_body ds shift r = if R <=? u64_max then Ok R else Throw overflow.
Proof using Hd Hl Hlo.
  intros Hsh. unfold scaled_body, R, round_spec. rewrite (proj2 (Z.leb_le 0 shift)) by done.
  destruct (Z.ltb_spec 20 (slen ds + shift)) as [Hbig|Hfit]; cbn [throw_if mbind result_bind].
  - rewrite (proj2 (Z.leb_gt _ _)); [done|].
    pose proof (Z.pow_le_mono_r 10 20 (slen ds - 1 + shift)) as Hp.
    rewrite pow10_add in Hp by lia. pose proof (pow10_pos shift Hsh). unfold u64_max in *. nia.
  - rewrite from_chars_u64_digits; [|by rewrite str_all_app, Hd, str_all_repeat|].
    + rewrite dval_app, dval_repeat_zero, slen_repeat, Z2Nat.id, Z.add_0_r by done.
      etransitivity; [apply (finish_units _ false)|cbv zeta; by rewrite Z.add_0_r].
      pose proof (dval_range ds Hd). pose proof (pow10_pos shift Hsh). nia.
    + apply slen_nonempty. slen_norm. rewrite slen_repeat. lia.
Qed.

Lemma scaled_body_down :
  shift < 0 -> scaled_body ds shift r = if R <=? u64_max then Ok R else Throw overflow.
Proof using Hd Hl.
  intros Hsh. destruct (cut_split ds shift Hd Hl Hsh) as (HA & _ & _).
  pose proof (dval_range ds Hd) as Hr. pose proof (pow10_pos (- shift) ltac:(lia)).
  unfold scaled_body, R, round_spec. rewrite (proj2 (Z.leb_gt 0 shift)) by done.
  rewrite increment_spec by done. cbv zeta in *. rewrite round_split by lia.
  set (inc := match r with Down => false | Up => _ | Nearest => _ end). clearbody inc.
  cbn [mbind result_bind]. rewrite from_chars_u64_digits, HA.
  - apply finish_units. apply Z.div_pos; lia.
  - destruct (_ =? 0)%nat; [done|by apply str_all_take].
  - destruct (Nat.eqb_spec (Z.to_nat (Z.max 0 (slen ds + shift))) 0); [done|].
    apply slen_nonempty. unfold slen. rewrite length_str_take; unfold slen in *; lia.
Qed.
End ScaledBody.

(** [scaled] is exact: it returns the rounded value whenever that fits in a
    [uint64_t] and throws [overflow_error] otherwise. *)
Lemma scaled_exact d places r :
  str_all is_digit (digits d) = true ->
  scaled d places r =
    if round_spec r (dval (digits d)) (exponent d + places) <=? u64_max
    then Ok (round_spec r (dval (digits d)) (exponent d + places)) else Throw overflow.
Proof.
  intros Hall. pose proof (str_find_not_split "0"%char (digits d)) as H.
  change (fun x => negb (Ascii.eqb x "0")) with not_zero_char in H. unfold scaled.
  destruct (str_find not_zero_char (digits d)) as [i|]; cycle 1.
  { rewrite H, dval_repeat_zero, round_spec_zero. done. }
  destruct H as (_ & Hs & x & t & Ht & Hx).
  replace (dval (digits d)) with (dval (str_drop i (digits d)))
    by (rewrite Hs at 2; rewrite dval_app, dval_repeat_zero; lia).
  assert (Hd : str_all is_digit (str_drop i (digits d)) = true) by (by apply str_all_drop).
  rewrite Ht in *. pose proof (slen_nonneg t).
  destruct (Z_lt_le_dec (exponent d + places) 0).
  - apply scaled_body_down; [done|rewrite slen_cons; lia|done].
  - apply scaled_body_up; [done|rewrite slen_cons; lia| |done].
    rewrite slen_cons. replace (1 + slen t - 1) with (slen t) by lia. by apply leading_nonzero.
Qed.

Lemma scaled_ok d places r z :
  str_all is_digit (digits d) = true -> scaled d places r = Ok z ->
  z = round_spec r (dval (digits d)) (exponent d + places) /\ z <= u64_max.
Proof.
  intros Hd. rewrite scaled_exact by done.
  destruct (Z.leb_spec (round_spec r (dval (digits d)) (exponent d + places)) u64_max); [|done].
  by intros [= <-].
Qed.

Lemma round_spec_nonneg r v s : 0 <= v -> 0 <= round_spec r v s.
Proof.
  intros Hv. unfold round_spec. destruct (Z.leb_spec 0 s).
  - pose proof (pow10_pos s). nia.
  - pose proof (pow10_pos (- s) ltac:(lia)). cbv zeta. rewrite round_split by lia.
    pose proof (Z.div_pos v (10 ^ - s)). case_match; lia.
Qed.

Lemma decimal_wf x d : dbl_valid x = true -> decimal x = Ok d -> wf_decimal d.
Proof.
  intros Hv. destruct x as [s|s| |[] m e].
  - intros H. cbn in H. injection H as <-. by split.
  - done.
  - done.
  - done.
  - destruct (decimal_finite m e Hv) as (d' & -> & Hwf & _). by intros [= <-].
Qed.

(** A validated price is at most one, so its decimal has no positive exponent. *)
Lemma price_at_most_one m e :
  dbl_valid (S754_finite false m e) = true ->
  validate_price (S754_finite false m e) = Ok tt -> Zpos m * P2 e <= P2 0.
Proof.
  intros Hv. destruct (valid_bounds m e Hv) as [Hm He]. unfold validate_price. intros H. inv_ok.
  match goal with H : dbl_ltb dbl_one _ = false |- _ => rename H into Hone end.
  change dbl_one with (S754_finite false 4503599627370496 (-52)) in Hone.
  unfold dbl_ltb, SFltb, SFcompare in Hone.
  replace (P2 0) with (2 ^ (- e) * P2 e).
  2: { destruct (Z.compare_spec (-52) e); [|done|]; rewrite <- P2_add by lia; f_equal; lia. }
  pose proof (P2_pos e ltac:(lia)). apply Z.mul_le_mono_nonneg_r; [lia|].
  destruct (Z.compare_spec (-52) e) as [<-|Hlt|Hgt]; [|discriminate Hone|].
  - change (Pos.compare_cont Eq 4503599627370496 m) with (4503599627370496 ?= m)%positive in Hone.
    change (2 ^ - -52) with 4503599627370496.
    destruct (4503599627370496 ?= m)%positive eqn:Ec; [|discriminate Hone|].
    + apply Pos.compare_eq in Ec. rewrite <- Ec. apply Z.le_refl.
    + apply Pos.compare_gt_iff in Ec. apply Pos2Z.pos_le_pos, Pos.lt_le_incl, Ec.
  - pose proof (Z.pow_le_mono_r 2 53 (- e)). lia.
Qed.

Lemma decimal_price_bound x d :
  dbl_valid x = true -> validate_price x = Ok tt -> decimal x = Ok d ->
  exponent d <= 0 /\ dval (digits d) <= 2 * 10 ^ (- exponent d).
Proof.
  intros Hv Hp. destruct x as [s|s| |[] m e]; try done.
  { intros H. cbn in H. injection H as <-. done. }
  destruct (decimal_finite m e Hv) as (d' & Hd & [Hall _] & Hx & HR). rewrite Hd. intros [= <-].
  pose proof (price_at_most_one m e Hv Hp) as H1. destruct (valid_bounds m e Hv) as [_ He].
  pose proof (P2_pos (e - 2) ltac:(lia)) as Hw. rewrite P2_quarter in H1 by lia.
  assert (HU : 0 < dval (digits d') * P10 (exponent d') <= 2 * P2 0).
  { unfold reads_as, gap_low in HR. destruct (Z.even _), (_ && _); nia. }
  destruct (Z_le_gt_dec (exponent d') 0) as [Hle|Hpos]; [split; [done|]|exfalso].
  { assert (H0 : P10 0 = 10 ^ (- exponent d') * P10 (exponent d')).
    { rewrite <- P10_add by lia. f_equal. lia. }
    rewrite <- P10_0, H0 in HU. pose proof (P10_pos (exponent d') ltac:(lia)). nia. }
  pose proof (P10_mono 1 (exponent d') ltac:(lia) ltac:(lia)) as Hmono.
  change 1 with (0 + 1) in Hmono. rewrite P10_succ, P10_0 in Hmono by lia. pose proof (P2_pos 0 ltac:(lia)).
  assert (1 <= dval (digits d')) by nia. nia.
Qed.

Lemma price_units_small x d n :
  dbl_valid x = true -> validate_price x = Ok tt -> decimal x = Ok d -> 0 <= n ->
  round_spec Down (dval (digits d)) (exponent d + n) <= 2 * 10 ^ n.
Proof.
  intros Hv Hp Hd Hn. destruct (decimal_price_bound x d Hv Hp Hd) as [Hx Hb].
  unfold round_spec. destruct (Z.leb_spec 0 (exponent d + n)) as [Hs|Hs].
  - pose proof (pow10_pos _ Hs). transitivity (2 * 10 ^ (- exponent d) * 10 ^ (exponent d + n));
      [apply Z.mul_le_mono_nonneg_r; lia|].
    rewrite <- Z.mul_assoc, <- pow10_add by lia. by replace (- exponent d + (exponent d + n)) with n by lia.
  - cbv zeta. apply Z.div_le_upper_bound; [apply pow10_pos; lia|].
    rewrite Z.mul_comm, <- Z.mul_assoc, <- pow10_add by lia.
    by replace (n + - (exponent d + n)) with (- exponent d) by lia.
Qed.

(** ** The rounding table and the ticks *)

Lemma config_cases tick rc :
  config_for tick = Ok rc -> In (tick, rc) rounding_config.
Proof.
  unfold config_for. destruct (assoc_find tick rounding_config) as [rc'|] eqn:E; [|done].
  intros [= ->]. revert E. generalize rounding_config. induction l as [|[k v] l IH]; [done|].
  cbn [assoc_find]. destruct (String.eqb_spec k tick) as [->|]; [intros [= ->]; by left|].
  intros H. right. by apply IH.
Qed.

(** What every row of the table satisfies: the amount budget is the sum of the
    other two, and the tick is a whole number of price units that divides the
    scale. *)
Record tick_facts (tick : string) (rc : RoundConfig) (inc : Z) : Prop := {
  tf_price : 1 <= rc_price rc <= 4;
  tf_size : rc_size rc = 2;
  tf_amount : rc_amount rc = 2 + rc_price rc;
  tf_inc : tick_increment rc tick = Ok inc;
  tf_inc_range : 1 <= inc < 10 ^ rc_price rc;
  tf_scale : power10 (rc_price rc) = 10 ^ rc_price rc;
  tf_amount_scale : power10 (rc_amount rc) = 10 ^ rc_amount rc;
}.

Lemma tick_table tick rc : config_for tick = Ok rc -> exists inc, tick_facts tick rc inc.
Proof.
  intros H%config_cases. cbn [rounding_config In] in H.
  repeat match goal with H : _ \/ _ |- _ => destruct H as [H|H] end; try done.
  all: injection H as <- <-.
  all: lazymatch goal with |- exists _, tick_facts _ ?rc _ =>
    lazymatch goal with |- exists _, tick_facts ?t _ _ =>
      let i := eval vm_compute in (tick_increment rc t) in
      lazymatch i with Ok ?z => exists z end end end.
  all: split; vm_compute; try done; split; congruence.
Qed.

Section AmountLaws.
Context `{L : U256Lib} {HL : U256Laws L}.

Lemma product_ok a b :
  in_u64 a -> in_u64 b ->
  exists y, product a b = Ok y /\ u256_val y = a * b /\ u256_to_dec y = to_string (a * b).
Proof using HL.
  intros Ha Hb. unfold product.
  destruct (u256_mul_ok (u256_from_u64 a) b Hb) as (y & Hy & Hv).
  - rewrite u256_from_u64_val by done. unfold in_u64 in *. nia.
  - rewrite u256_from_u64_val in Hv by done. exists y. by rewrite u256_to_dec_val, Hv.
Qed.

(** A product re-read as a scaled decimal. *)
Lemma product_scaled a b x places r :
  in_u64 a -> in_u64 b ->
  (prod ← product a b; scaled {| digits := u256_to_dec prod; exponent := x |} places r)
  = let z := round_spec r (a * b) (x + places) in if z <=? u64_max then Ok z else Throw overflow.
Proof using HL.
  intros Ha Hb. destruct (product_ok a b Ha Hb) as (y & -> & _ & Hd).
  cbn [mbind result_bind]. rewrite Hd.
  assert (0 <= a * b) by (unfold in_u64 in *; nia).
  rewrite scaled_exact by (cbn [digits]; by apply to_string_digits).
  cbn [digits exponent]. by rewrite dval_to_string.
Qed.

Lemma token_units_spec h :
  0 <= h -> token_units h = if h * 10000 <=? u64_max then Ok (h * 10000) else Throw overflow.
Proof using.
  intros Hh. unfold token_units. change (u64_max / 10000) with 1844674407370955.
  change u64_max with 18446744073709551615.
  destruct (Z.ltb_spec 1844674407370955 h), (Z.leb_spec (h * 10000) 18446744073709551615);
    cbn; first [done | lia].
Qed.
End AmountLaws.

(** ** What the builders compute *)

(** Hundredths of a share, and the price in units of [10^-rc_price]. *)
Definition shares_of (size : Decimal) : Z :=
  round_spec Down (dval (digits size)) (exponent size + 2).
Definition price_units_of (rc : RoundConfig) (price : Decimal) : Z :=
  round_spec Nearest (dval (digits price)) (exponent price + rc_price rc).

Lemma in_u64_le z : 0 <= z -> z <= u64_max -> in_u64 z.
Proof. unfold in_u64, u64_max. lia. Qed.

Lemma wf_dval_nonneg d : wf_decimal d -> 0 <= dval (digits d).
Proof. intros [H _]. by apply dval_range. Qed.

Lemma shares_nonneg d : wf_decimal d -> 0 <= shares_of d.
Proof. intros H. by apply round_spec_nonneg, wf_dval_nonneg. Qed.

Lemma price_units_nonneg rc d : wf_decimal d -> 0 <= price_units_of rc d.
Proof. intros H. by apply round_spec_nonneg, wf_dval_nonneg. Qed.

(** The exact product has at most six decimals, so scaling it to micro-units
    multiplies by a power of ten. *)
Lemma round_spec_micro rc v :
  1 <= rc_price rc <= 4 -> rc_amount rc = 2 + rc_price rc ->
  round_spec Down v (- rc_amount rc + 6) = v * 10 ^ (4 - rc_price rc).
Proof.
  intros Hp Ha. unfold round_spec. rewrite Ha.
  replace (- (2 + rc_price rc) + 6) with (4 - rc_price rc) by lia.
  by rewrite (proj2 (Z.leb_le 0 (4 - rc_price rc))) by lia.
Qed.

Section OrderAmounts.
Context `{L : U256Lib} {HL : U256Laws L}.
Context (size price : double) (Hsize : dbl_valid size = true) (Hprice : dbl_valid price = true).
Context (ds dp : Decimal) (Hds : decimal size = Ok ds) (Hdp : decimal price = Ok dp).

Lemma order_amounts_closed side tick rc :
  config_for tick = Ok rc -> validate_price price = Ok tt -> side = Buy \/ side = Sell ->
  let shares := shares_of ds in
  let units := price_units_of rc dp in
  let cash := shares * units * 10 ^ (4 - rc_price rc) in
  let tokens := shares * 10000 in
  order_amounts side size price tick =
    if (shares <=? u64_max) && (units <=? u64_max) && (cash <=? u64_max) && (tokens <=? u64_max)
    then Ok (if bool_decide (side = Buy) then (cash, tokens) else (tokens, cash))
    else Throw overflow.
Proof using HL Hsize Hprice Hds Hdp.
  intros Hrc Hvp Hside shares units cash tokens.
  destruct (tick_table tick rc Hrc) as (inc & TF).
  pose proof (decimal_wf _ _ Hsize Hds) as Hws. pose proof (decimal_wf _ _ Hprice Hdp) as Hwp.
  pose proof (shares_nonneg ds Hws) as Hs0. pose proof (price_units_nonneg rc dp Hwp) as Hu0.
  unfold order_amounts. rewrite Hrc, Hvp, Hds, Hdp. cbn [mbind result_bind].
  rewrite throw_if_false by (destruct Hside as [->| ->]; done). cbn [mbind result_bind].
  rewrite (tf_size _ _ _ TF), (scaled_exact ds) by apply Hws. fold (shares_of ds). fold shares.
  destruct (Z.leb_spec shares u64_max) as [Hs|Hs]; cbn [andb mbind result_bind]; [|done].
  rewrite (scaled_exact dp) by apply Hwp. fold (price_units_of rc dp). fold units.
  destruct (Z.leb_spec units u64_max) as [Hu|Hu]; cbn [andb mbind result_bind]; [|done].
  destruct (product_ok shares units) as (y & -> & _ & Hdec);
    [apply in_u64_le; [exact Hs0|done]|apply in_u64_le; [exact Hu0|done]|].
  cbn [mbind result_bind]. assert (Hprod : 0 <= shares * units) by (fold shares in Hs0; fold units in Hu0; nia).
  rewrite Hdec, scaled_exact by (cbn [digits]; by apply to_string_digits).
  cbn [digits exponent]. rewrite dval_to_string, round_spec_micro by (try apply TF; done). fold cash.
  destruct (Z.leb_spec cash u64_max); cbn [andb mbind result_bind]; [|done].
  rewrite token_units_spec by done. fold tokens.
  by destruct (Z.leb_spec tokens u64_max).
Qed.

Lemma market_buy_amounts_closed :
  validate_price price = Ok tt ->
  let shares := shares_of ds in
  let coefficient := dval (digits dp) in
  let cents := round_spec Up (shares * coefficient) (exponent dp) in
  market_buy_amounts size price =
    if (shares <=? u64_max) && (shares * 10000 <=? u64_max) && (coefficient <=? u64_max)
       && (cents <=? u64_max) && (cents * 10000 <=? u64_max)
    then Ok (cents * 10000, shares * 10000)
    else Throw overflow.
Proof using HL Hsize Hprice Hds Hdp.
  intros Hvp shares coefficient cents.
  pose proof (decimal_wf _ _ Hsize Hds) as Hws. pose proof (decimal_wf _ _ Hprice Hdp) as Hwp.
  pose proof (shares_nonneg ds Hws) as Hs0. pose proof (wf_dval_nonneg dp Hwp) as Hc0.
  unfold market_buy_amounts. rewrite Hvp, Hds, Hdp. cbn [mbind result_bind].
  rewrite (scaled_exact ds) by apply Hws. fold (shares_of ds). fold shares.
  destruct (Z.leb_spec shares u64_max) as [Hs|Hs]; cbn [andb mbind result_bind]; [|done].
  rewrite token_units_spec by done.
  destruct (Z.leb_spec (shares * 10000) u64_max); cbn [andb mbind result_bind]; [|done].
  rewrite scaled_exact by apply Hwp. cbn [digits exponent].
  change (round_spec Down (dval (digits dp)) (0 + 0)) with (coefficient * 1). rewrite Z.mul_1_r.
  destruct (Z.leb_spec coefficient u64_max) as [Hc|Hc]; cbn [andb mbind result_bind]; [|done].
  destruct (product_ok shares coefficient) as (y & -> & _ & Hdec);
    [apply in_u64_le; [exact Hs0|done]|apply in_u64_le; [exact Hc0|done]|].
  cbn [mbind result_bind]. assert (Hprod : 0 <= shares * coefficient) by (fold shares in Hs0; fold coefficient in Hc0; nia).
  rewrite Hdec, scaled_exact by (cbn [digits]; by apply to_string_digits).
  cbn [digits exponent]. rewrite dval_to_string, Z.add_0_r by done. fold cents.
  destruct (Z.leb_spec cents u64_max); cbn [andb mbind result_bind]; [|done].
  rewrite token_units_spec by (by apply round_spec_nonneg).
  by destruct (Z.leb_spec (cents * 10000) u64_max).
Qed.
End OrderAmounts.

(** ** Long division on the decimal string *)

Lemma divide_down_spec s d r :
  str_all is_digit s = true -> 0 < d -> d * 10 <= 2 ^ 64 -> 0 <= r < d ->
  str_all is_digit (divide_down_loop s d r) = true
  /\ slen (divide_down_loop s d r) = slen s
  /\ dval (divide_down_loop s d r) = (r * 10 ^ slen s + dval s) / d.
Proof.
  intros Hs Hd Hd64. revert r. induction s as [|c s IH]; intros r Hr.
  - cbn [divide_down_loop]. rewrite slen_nil. change (dval "") with 0.
    split; [done|]. split; [done|]. rewrite Z.div_small; lia.
  - cbn [str_all] in Hs. apply andb_true_iff in Hs as [Hc Hs]. apply digit_val_range in Hc.
    cbn [divide_down_loop]. rewrite u64_small by (unfold in_u64; lia).
    set (t := r * 10 + digit_val c). destruct (div_mod_id t d Hd) as [Ht Hm].
    assert (Hq : 0 <= t / d < 10) by (unfold t in *; split; nia).
    destruct (IH Hs (t mod d) Hm) as (Ha & Hl & Hv). fold (digit_char (t / d)).
    split; [cbn [str_all]; by rewrite is_digit_char, Ha by done|].
    split; [by rewrite !slen_cons, Hl|].
    rewrite dval_cons, digit_val_char, Hl, Hv by done. rewrite dval_cons, slen_cons.
    rewrite pow10_add by (pose proof (slen_nonneg s); lia). change (10 ^ 1) with 10.
    rewrite <- Z.div_add_l by lia. f_equal. unfold t in *. nia.
Qed.

(** ** Marketable buys: the cash cap covers the shares, by less than a cent *)

Lemma round_up_bounds v s :
  0 <= v -> s <= 0 ->
  let z := round_spec Up v s in v <= z * 10 ^ (- s) /\ z * 10 ^ (- s) < v + 10 ^ (- s).
Proof.
  intros Hv Hs z. unfold z, round_spec. destruct (Z.leb_spec 0 s) as [H|H].
  - replace s with 0 by lia. change (10 ^ - 0) with 1. change (10 ^ 0) with 1. lia.
  - cbv zeta. pose proof (pow10_pos (- s) ltac:(lia)) as Hp. revert Hp. generalize (10 ^ - s). intros d Hp.
    destruct (div_mod_id (v + d - 1) d Hp). nia.
Qed.

Lemma round_down_bounds v s :
  0 <= v -> s <= 0 ->
  let z := round_spec Down v s in z * 10 ^ (- s) <= v /\ v < (z + 1) * 10 ^ (- s).
Proof.
  intros Hv Hs z. unfold z, round_spec. destruct (Z.leb_spec 0 s) as [H|H].
  - replace s with 0 by lia. change (10 ^ - 0) with 1. change (10 ^ 0) with 1. lia.
  - cbv zeta. pose proof (pow10_pos (- s) ltac:(lia)) as Hp. revert Hp. generalize (10 ^ - s). intros d Hp.
    destruct (div_mod_id v d Hp). nia.
Qed.

(** ** Floored protection price *)

Section Protected.
Context `{L : U256Lib} {HL : U256Laws L}.

(** The price in units, cut down to a whole number of ticks. *)
Definition protection_of (rc : RoundConfig) (inc : Z) (price : Decimal) : Z :=
  let u := round_spec Down (dval (digits price)) (exponent price + rc_price rc) in u - u mod inc.

Lemma floored_price_ok rc inc price dp p :
  dbl_valid price = true -> decimal price = Ok dp -> 1 <= inc ->
  floored_price rc inc price = Ok p -> p = protection_of rc inc dp /\ in_u64 p.
Proof using.
  intros Hv Hd Hinc. unfold floored_price. rewrite Hd. cbn [mbind result_bind].
  pose proof (decimal_wf _ _ Hv Hd) as [Hall _].
  rewrite (scaled_exact dp) by done.
  pose proof (round_spec_nonneg Down _ (exponent dp + rc_price rc) (proj1 (dval_range _ Hall))) as H0.
  fold (protection_of rc inc dp). unfold protection_of.
  revert H0. generalize (round_spec Down (dval (digits dp)) (exponent dp + rc_price rc)). intros u H0.
  destruct (Z.leb_spec u u64_max); [|done]. cbn [mbind result_bind].
  destruct (div_mod_id u inc) as [Hq Hr]; [lia|]. pose proof (Z.div_pos u inc ltac:(lia) ltac:(lia)).
  assert (Hin : in_u64 (u - u mod inc)) by (apply in_u64_le; [nia|unfold u64_max in *; lia]).
  intros [= <-]. by rewrite u64_small.
Qed.

Lemma protection_tick rc inc price :
  wf_decimal price -> 1 <= inc ->
  let u := round_spec Down (dval (digits price)) (exponent price + rc_price rc) in
  let p := protection_of rc inc price in
  (inc | p) /\ p <= u < p + inc /\ 0 <= p.
Proof using.
  intros Hw Hinc u p. unfold p, protection_of. fold u.
  pose proof (round_spec_nonneg Down _ (exponent price + rc_price rc) (wf_dval_nonneg _ Hw)) as H0. fold u in H0.
  destruct (div_mod_id u inc) as [Hq Hr]; [lia|]. pose proof (Z.div_pos u inc ltac:(lia) ltac:(lia)).
  split; [exists (u / inc); nia|nia].
Qed.

(** The token amount: cash over protection price, floored to the amount
    digits, in micro-units. *)
Definition protected_tokens (rc : RoundConfig) (cents p : Z) : Z :=
  cents * 10 ^ rc_price rc * 10 ^ rc_amount rc / (100 * p) * 10 ^ (6 - rc_amount rc).

(** Everything a successful run establishes before its last check. *)
Record protected_run (size price : double) (tick : string) (cash tokens : Z)
    (rc : RoundConfig) (inc p shares cents : Z) : Prop := {
  pr_config : config_for tick = Ok rc;
  pr_tick : tick_facts tick rc inc;
  pr_range : inc <= p <= 10 ^ rc_price rc - inc;
  pr_price : exists dp, decimal price = Ok dp /\ p = protection_of rc inc dp;
  pr_size : exists ds, decimal size = Ok ds /\ shares = shares_of ds;
  pr_shares : 0 <= shares <= u64_max;
  pr_cents : cents = round_spec Up (shares * p) (- rc_price rc);
  pr_cash : cash = cents * 10000 /\ in_u64 cash;
  pr_tokens : tokens = protected_tokens rc cents p /\ in_u64 tokens;
  pr_positive : 0 < cash /\ 0 < tokens;
  pr_upper : cash * 10 ^ rc_price rc < tokens * (p + inc);
}.

Lemma pow10_price_cases rc : 1 <= rc_price rc <= 4 ->
  10 <= 10 ^ rc_price rc <= 10000.
Proof using.
  intros H. pose proof (Z.pow_le_mono_r 10 1 (rc_price rc)). pose proof (Z.pow_le_mono_r 10 (rc_price rc) 4). lia.
Qed.

(** The derived token amount, through the string division. *)
Lemma derived_tokens rc inc tick p cents n1 numerator tokens :
  tick_facts tick rc inc -> 1 <= p <= 10 ^ rc_price rc -> in_u64 cents ->
  product cents (power10 (rc_price rc)) = Ok n1 ->
  u256_checked_mul_u64 n1 (power10 (rc_amount rc)) = Ok numerator ->
  scaled {| digits := divide_down (u256_to_dec numerator) (u64 (100 * p));
            exponent := - rc_amount rc |} 6 Down = Ok tokens ->
  tokens = protected_tokens rc cents p /\ in_u64 tokens.
Proof using HL.
  intros TF Hp Hc Hn1 Hnum Htok. destruct TF as [Hpr _ Ha _ _ Hsc Hasc].
  pose proof (pow10_price_cases rc Hpr) as Hpc. rewrite Hsc in Hn1. rewrite Hasc in Hnum.
  set (S := 10 ^ rc_price rc) in *.
  assert (HA : 10 ^ rc_amount rc = 100 * S) by (rewrite Ha, pow10_add by lia; done).
  rewrite HA in Hnum. destruct (product_ok cents S) as (y & Hy & Hv & _);
    [done|unfold in_u64; lia|]. rewrite Hn1 in Hy. injection Hy as <-. unfold in_u64 in Hc.
  destruct (u256_mul_ok n1 (100 * S)) as (y & Hy & Hv2); [unfold in_u64; lia|rewrite Hv; nia|].
  rewrite Hnum in Hy. injection Hy as <-. rewrite Hv in Hv2.
  rewrite u64_small in Htok by (unfold in_u64; lia).
  rewrite u256_to_dec_val, Hv2 in Htok. assert (0 <= cents * S * (100 * S)) by nia.
  unfold divide_down in Htok.
  destruct (divide_down_spec (to_string (cents * S * (100 * S))) (100 * p) 0) as (Hall & _ & Hdv);
    [by apply to_string_digits|lia..|].
  apply scaled_ok in Htok as [Htok Hmax]; [|done]. cbn [digits exponent] in Htok.
  rewrite Hdv, Z.mul_0_l, Z.add_0_l, dval_to_string in Htok by done.
  unfold round_spec in Htok. rewrite (proj2 (Z.leb_le 0 _)) in Htok by lia.
  replace (- rc_amount rc + 6) with (6 - rc_amount rc) in Htok by lia.
  assert (Htp : tokens = protected_tokens rc cents p).
  { rewrite Htok. unfold protected_tokens. fold S. by rewrite HA. }
  split; [done|]. apply in_u64_le; [|done]. rewrite Htok.
  apply Z.mul_nonneg_nonneg; [apply Z.div_pos; lia|apply Z.pow_nonneg; lia].
Qed.

Lemma protected_inv size price tick cash tokens :
  dbl_valid size = true -> dbl_valid price = true ->
  protected_market_buy_amounts size price tick = Ok (cash, tokens) ->
  exists rc inc p shares cents, protected_run size price tick cash tokens rc inc p shares cents.
Proof using HL.
  intros Hvs Hvp H. unfold protected_market_buy_amounts in H. inv_ok. injection H as <- <-.
  rename a0 into rc, a1 into inc, a2 into p, a4 into ds, a5 into shares, a7 into cents, a8 into cash, a11 into tokens.
  destruct (tick_table tick rc Hcall0) as (inc' & TF).
  assert (inc' = inc) as -> by (pose proof (tf_inc _ _ _ TF); congruence).
  pose proof TF as [Hpr _ _ _ Hir Hsc _]. pose proof (pow10_price_cases rc Hpr) as Hpc.
  destruct (decimal price) as [dp|] eqn:Hdp; [|by unfold floored_price in Hcall2; rewrite Hdp in Hcall2].
  destruct (floored_price_ok rc inc price dp p Hvp Hdp ltac:(lia) Hcall2) as [Hp Hp64].
  match goal with H : (u64 _ <? p) = false |- _ => rewrite Hsc, u64_small in H by (unfold in_u64; lia) end.
  repeat match goal with H : (_ <? _) = false |- _ => apply Z.ltb_ge in H
                       | H : (_ =? _) = false |- _ => apply Z.eqb_neq in H end.
  pose proof (decimal_wf _ _ Hvs Hcall4) as Hwf.
  apply scaled_ok in Hcall5 as [Hsh Hsmax]; [|by destruct Hwf]. fold (shares_of ds) in Hsh.
  pose proof (shares_nonneg ds Hwf) as Hs0. rewrite <- Hsh in Hs0.
  destruct (product_ok shares p) as (y & Hy & _ & Hdec); [by apply in_u64_le|done|].
  rewrite Hcall6 in Hy. injection Hy as <-.
  assert (Hsp : 0 <= shares * p) by (unfold in_u64 in Hp64; nia).
  rewrite Hdec in Hcall7. apply scaled_ok in Hcall7 as [Hce Hcmax]; [|cbn; by apply to_string_digits].
  cbn [digits exponent] in Hce. rewrite dval_to_string, Z.add_0_r in Hce by done.
  assert (Hce0 : 0 <= cents) by (rewrite Hce; by apply round_spec_nonneg).
  rewrite token_units_spec in Hcall8 by done.
  destruct (Z.leb_spec (cents * 10000) u64_max); [|done]. injection Hcall8 as <-.
  destruct (derived_tokens rc inc tick p cents a9 a10 tokens) as [Htk Htk64];
    [done|lia|by apply in_u64_le|done..|].
  destruct (product_ok (cents * 10000) (power10 (rc_price rc))) as (y & Hy & Hyv & _);
    [apply in_u64_le; lia|rewrite Hsc; unfold in_u64; lia|].
  rewrite Hcall13 in Hy. injection Hy as <-.
  assert (Hpi : in_u64 (p + inc)) by (unfold in_u64; lia).
  destruct (product_ok tokens (u64 (p + inc))) as (y & Hy & Hzv & _); [done|by rewrite u64_small|].
  rewrite Hcall15 in Hy. injection Hy as <-. rewrite u64_small in Hzv by done.
  match goal with H : u256_ltb a13 _ = true |- _ => rewrite u256_ltb_val, Hyv, Hzv, Hsc in H; apply Z.ltb_lt in H end.
  exists rc, inc, p, shares, cents. unfold in_u64 in *. split; eauto; unfold in_u64; unfold u64_max in *; lia.
Qed.
End Protected.

(** ** The properties *)

(** A decimal literal as a double. *)
Definition lit (s : string) : double := match stod s with Some x => x | None => dbl_zero end.

(** C21: [decimal] is total and faithful.  On every binary64 value: zero reads as
    ["0"]; a positive finite value yields a non-empty digit string and an
    exponent whose decimal reads back as that very double; negative, infinite
    and NaN values throw [invalid_argument]. *)
Theorem decimal_reads_back (x : double) :
  dbl_valid x = true ->
  match x with
  | S754_zero _ => decimal x = Ok {| digits := "0"; exponent := 0 |}
  | S754_finite false m e =>
      exists d, decimal x = Ok d /\ wf_decimal d
        /\ round_trips m e (dval (digits d)) (exponent d) = true
  | _ => decimal x = Throw (InvalidArgument "pm: amount must be finite and nonnegative")
  end.
Proof.
  intros Hv. destruct x as [s|s| |[] m e]; try done.
  destruct (decimal_finite m e Hv) as (d & Hd & Hwf & Hx & HR).
  exists d. split; [done|]. split; [done|].
  destruct (valid_bounds m e Hv). apply round_trips_spec; [lia..|done].
Qed.

Lemma decimal_reads_back_witness :
  exists d, decimal (lit "0.3") = Ok d /\ wf_decimal d
    /\ round_trips 5404319552844595 (-54) (dval (digits d)) (exponent d) = true.
Proof.
  exact (decimal_reads_back (S754_finite false 5404319552844595 (-54)) eq_refl).
Defined.

(** C40: [scaled] against exact arithmetic.  For any digit string, exponent and
    number of places there is one integer [z] that is [V * 10^shift] rounded in
    the requested direction (down, up, or to nearest with halves up), and
    [scaled] returns it when it fits a [uint64_t] and throws [overflow_error]
    otherwise. *)
Theorem scaled_rounds_exactly (d : Decimal) (places : Z) (r : Rounding) :
  str_all is_digit (digits d) = true ->
  let v := dval (digits d) in
  let s := exponent d + places in
  exists z, scaled d places r = (if z <=? u64_max then Ok z else Throw overflow)
    /\ (0 <= s -> z = v * 10 ^ s)
    /\ (s < 0 -> let q := 10 ^ (- s) in
        match r with
        | Down => z * q <= v < (z + 1) * q
        | Up => (z - 1) * q < v <= z * q
        | Nearest => (2 * z - 1) * q <= 2 * v < (2 * z + 1) * q
        end).
Proof.
  intros Hd v s. exists (round_spec r v s). split; [by apply scaled_exact|].
  pose proof (dval_range _ Hd) as Hr. fold v in Hr. unfold round_spec. split; intros Hs.
  - by rewrite (proj2 (Z.leb_le 0 s)).
  - rewrite (proj2 (Z.leb_gt 0 s)) by done. cbv zeta. pose proof (pow10_pos (- s) ltac:(lia)) as Hq.
    revert Hq. generalize (10 ^ - s). intros q Hq. destruct r.
    + destruct (div_mod_id v q Hq). nia.
    + destruct (div_mod_id (v + q - 1) q Hq). nia.
    + destruct (div_mod_id (2 * v + q) (2 * q) ltac:(lia)). nia.
Qed.

Lemma scaled_rounds_exactly_witness :
  exists z, scaled {| digits := "0145"; exponent := -3 |} 2 Nearest
            = (if z <=? u64_max then Ok z else Throw overflow)
    /\ (0 <= -1 -> z = 145 * 10 ^ (-1))
    /\ (-1 < 0 -> (2 * z - 1) * 10 <= 2 * 145 < (2 * z + 1) * 10).
Proof.
  exact (scaled_rounds_exactly {| digits := "0145"; exponent := -3 |} 2 Nearest eq_refl).
Defined.

(** ** Machine ranges

    Every quantity comes out of [scaled] or [token_units], whose results fit a
    [uint64_t] whatever they were given. *)

Lemma digit_prefix_digits s : str_all is_digit (digit_prefix s) = true.
Proof. induction s as [|c s IH]; cbn; [done|]. destruct (is_digit c) eqn:E; cbn; [by rewrite E|done]. Qed.

Lemma from_chars_u64_range s z : from_chars_u64 s = Some z -> in_u64 z.
Proof.
  unfold from_chars_u64. cbv zeta. destruct (str_empty _); [done|].
  destruct (Z.leb_spec (dval (digit_prefix s)) u64_max); [|done]. intros [= <-].
  pose proof (dval_range (digit_prefix s) (digit_prefix_digits s)). unfold in_u64, u64_max in *. lia.
Qed.

Lemma scaled_u64 v places r z : scaled v places r = Ok z -> in_u64 z.
Proof.
  unfold scaled. destruct (str_find _ _); [|intros H; apply Ok_inj in H; subst; unfold in_u64; lia].
  unfold scaled_body. intros H. apply bind_ok in H as ([ds inc] & _ & H). apply bind_ok in H as (units & Hu & H).
  apply bind_ok in H as ([] & Ht & H). apply Ok_inj in H. subst z. apply throw_if_ok in Ht.
  destruct (from_chars_u64 ds) as [u|] eqn:E; [|done]. apply Ok_inj in Hu. subst u.
  apply from_chars_u64_range in E. unfold in_u64, u64_max in *.
  destruct inc; cbn in Ht; [apply Z.eqb_neq in Ht|]; lia.
Qed.

Lemma token_units_u64 h z : 0 <= h -> token_units h = Ok z -> in_u64 z.
Proof.
  intros Hh H. unfold token_units in H. inv_ok. subst z.
  match goal with H : (_ <? _) = false |- _ => apply Z.ltb_ge in H end.
  pose proof (Z.mul_div_le u64_max 10000 ltac:(lia)). apply in_u64_le; lia.
Qed.

Lemma amounts_u64 `{L : U256Lib} side size price tick mk tk :
  order_amounts side size price tick = Ok (mk, tk) \/ market_buy_amounts size price = Ok (mk, tk)
    \/ protected_market_buy_amounts size price tick = Ok (mk, tk) ->
  in_u64 mk /\ in_u64 tk.
Proof.
  intros [H|[H|H]]; [unfold order_amounts in H|unfold market_buy_amounts in H|unfold protected_market_buy_amounts in H];
    repeat (apply bind_ok in H as (? & ? & H); cbv beta zeta in H); apply Ok_inj in H.
  - case_match; injection H as <- <-; split; try (by eapply scaled_u64);
      (eapply token_units_u64; [|eassumption]); by eapply scaled_u64.
  - injection H as <- <-; split; (eapply token_units_u64; [|eassumption]); by eapply scaled_u64.
  - injection H as <- <-; split; try (by eapply scaled_u64).
    eapply token_units_u64; [|eassumption]. by eapply scaled_u64.
Qed.

Section AmountClaims.
Context `{L : U256Lib} {HL : U256Laws L}.

(** C3: limit orders.  On a known tick, a price in [0,1] and a real side,
    [order_amounts] returns the shares cut to hundredths and their exact
    product with the snapped price, in maker/taker order by side, so the
    signed cash/token ratio is the snapped price with no residue; it throws
    [overflow_error] exactly when one of the quantities does not fit a
    [uint64_t]. *)
Theorem order_amounts_correct side size price tick rc ds dp :
  dbl_valid size = true -> dbl_valid price = true ->
  decimal size = Ok ds -> decimal price = Ok dp ->
  config_for tick = Ok rc -> validate_price price = Ok tt -> side = Buy \/ side = Sell ->
  let shares := shares_of ds in
  let units := price_units_of rc dp in
  let cash := shares * units * 10 ^ (4 - rc_price rc) in
  let tokens := shares * 10000 in
  order_amounts side size price tick =
    (if (shares <=? u64_max) && (units <=? u64_max) && (cash <=? u64_max) && (tokens <=? u64_max)
     then Ok (if bool_decide (side = Buy) then (cash, tokens) else (tokens, cash))
     else Throw overflow)
  /\ cash * 10 ^ rc_price rc = tokens * units.
Proof using HL.
  intros Hvs Hvp Hds Hdp Hrc Hval Hside shares units cash tokens. split.
  - by apply (order_amounts_closed size price Hvs Hvp ds dp Hds Hdp).
  - destruct (tick_table tick rc Hrc) as (inc & TF). pose proof (tf_price _ _ _ TF).
    unfold cash, tokens. rewrite <- Z.mul_assoc, <- pow10_add by lia.
    replace (4 - rc_price rc + rc_price rc) with 4 by lia. ring.
Qed.

(** C34: marketable buys.  The tokens are the shares cut to hundredths; the
    cash is whole cents, enough to pay for those shares at the exact decimal
    price and less than one cent more; overflow throws. *)
Theorem market_buy_amounts_correct size price ds dp :
  dbl_valid size = true -> dbl_valid price = true ->
  decimal size = Ok ds -> decimal price = Ok dp ->
  validate_price price = Ok tt ->
  let shares := shares_of ds in
  let coefficient := dval (digits dp) in
  exists cents,
    market_buy_amounts size price =
      (if (shares <=? u64_max) && (shares * 10000 <=? u64_max) && (coefficient <=? u64_max)
          && (cents <=? u64_max) && (cents * 10000 <=? u64_max)
       then Ok (cents * 10000, shares * 10000) else Throw overflow)
    /\ shares * coefficient <= cents * 10 ^ (- exponent dp) < shares * coefficient + 10 ^ (- exponent dp).
Proof using HL.
  intros Hvs Hvp Hds Hdp Hval shares coefficient.
  destruct (decimal_price_bound price dp Hvp Hval Hdp) as [Hx _].
  exists (round_spec Up (shares * coefficient) (exponent dp)). split.
  - by apply (market_buy_amounts_closed size price Hvs Hvp ds dp Hds Hdp).
  - pose proof (shares_nonneg ds (decimal_wf _ _ Hvs Hds)).
    pose proof (wf_dval_nonneg dp (decimal_wf _ _ Hvp Hdp)).
    apply round_up_bounds; [unfold shares, coefficient; nia|done].
Qed.
End AmountClaims.

Lemma order_amounts_correct_witness :
  order_amounts Sell (lit "2.5") (lit "0.4") "0.01" = Ok (2500000, 1000000)
  /\ 1000000 * 10 ^ 2 = 2500000 * 40.
Proof.
  exact (order_amounts_correct Sell (lit "2.5") (lit "0.4") "0.01"
    {| rc_price := 2; rc_size := 2; rc_amount := 4 |}
    {| digits := "25"; exponent := -1 |} {| digits := "04"; exponent := -1 |}
    eq_refl eq_refl eq_refl eq_refl eq_refl eq_refl (or_intror eq_refl)).
Defined.

Lemma market_buy_amounts_correct_witness :
  exists cents, market_buy_amounts (lit "1.4275") (lit "0.43") =
      (if (142 <=? u64_max) && (1420000 <=? u64_max) && (43 <=? u64_max)
          && (cents <=? u64_max) && (cents * 10000 <=? u64_max)
       then Ok (cents * 10000, 1420000) else Throw overflow)
    /\ 6106 <= cents * 100 < 6106 + 100.
Proof.
  exact (market_buy_amounts_correct (lit "1.4275") (lit "0.43")
    {| digits := "14275"; exponent := -4 |} {| digits := "043"; exponent := -2 |}
    eq_refl eq_refl eq_refl eq_refl eq_refl).
Defined.

Section ProtectedClaims.
Context `{L : U256Lib} {HL : U256Laws L}.

Lemma protected_floor_bound rc inc tick cents p :
  tick_facts tick rc inc -> 1 <= p -> 0 <= cents ->
  protected_tokens rc cents p * p <= cents * 10000 * 10 ^ rc_price rc.
Proof using.
  intros [Hpr _ Ha _ _ _ _] Hp Hc. unfold protected_tokens. pose proof (pow10_price_cases rc Hpr).
  assert (H6 : 10 ^ rc_amount rc * 10 ^ (6 - rc_amount rc) = 1000000).
  { rewrite <- pow10_add by lia. by replace (rc_amount rc + (6 - rc_amount rc)) with 6 by lia. }
  pose proof (pow10_pos (6 - rc_amount rc) ltac:(lia)) as HB. revert H6 HB.
  generalize (10 ^ rc_amount rc) (10 ^ (6 - rc_amount rc)) (10 ^ rc_price rc). intros A B S H6 HB. destruct (div_mod_id (cents * S * A) (100 * p)) as [Hq Hr]; [lia|].
  revert Hq Hr. generalize (cents * S * A / (100 * p)) (cents * S * A mod (100 * p)). intros t r Hq Hr.
  assert (H1 : t * (100 * p) <= cents * S * A) by lia.
  apply (Z.mul_le_mono_nonneg_r _ _ B) in H1; [|lia].
  replace (cents * S * A * B) with (cents * S * (A * B)) in H1 by ring. rewrite H6 in H1. lia.
Qed.

Lemma protected_covers_shares rc inc tick shares p :
  tick_facts tick rc inc -> 1 <= p -> 0 <= shares ->
  shares * 10000 <= protected_tokens rc (round_spec Up (shares * p) (- rc_price rc)) p.
Proof using.
  intros [Hpr _ Ha _ _ _ _] Hp Hs. unfold protected_tokens.
  destruct (round_up_bounds (shares * p) (- rc_price rc)) as [Hup _]; [nia|lia|].
  rewrite Z.opp_involutive in Hup. revert Hup.
  generalize (round_spec Up (shares * p) (- rc_price rc)). intros cents Hup.
  assert (HA : 10 ^ rc_amount rc = 100 * 10 ^ rc_price rc) by (rewrite Ha, pow10_add by lia; done).
  assert (H4 : 10 ^ rc_price rc * 10 ^ (6 - rc_amount rc) = 10000).
  { rewrite <- pow10_add by lia. by replace (rc_price rc + (6 - rc_amount rc)) with 4 by lia. }
  rewrite HA. pose proof (pow10_pos (6 - rc_amount rc) ltac:(lia)).
  pose proof (pow10_pos (rc_price rc) ltac:(lia)) as HS.
  assert (Hq : shares * 10 ^ rc_price rc <= cents * 10 ^ rc_price rc * (100 * 10 ^ rc_price rc) / (100 * p)).
  { apply Z.div_le_lower_bound; [lia|]. nia. }
  nia.
Qed.

(** C14: a protected market buy.  When the builder returns, the protection
    price is the caller's price floored to a whole tick strictly inside the
    grid; the cash is the cent-rounded cost of the requested shares at that
    price; the signed tokens are at least the requested shares; and the signed
    ratio permits the protection tick and excludes the next higher one. *)
Theorem protected_market_buy_bounds size price tick cash tokens :
  dbl_valid size = true -> dbl_valid price = true ->
  protected_market_buy_amounts size price tick = Ok (cash, tokens) ->
  exists rc inc ds dp,
    config_for tick = Ok rc /\ tick_increment rc tick = Ok inc
    /\ decimal size = Ok ds /\ decimal price = Ok dp /\
    let scale := 10 ^ rc_price rc in
    let units := round_spec Down (dval (digits dp)) (exponent dp + rc_price rc) in
    let p := protection_of rc inc dp in
    (inc | p) /\ p <= units < p + inc /\ inc <= p <= scale - inc
    /\ cash = 10000 * round_spec Up (shares_of ds * p) (- rc_price rc)
    /\ shares_of ds * 10000 <= tokens
    /\ tokens * p <= cash * scale < tokens * (p + inc)
    /\ in_u64 cash /\ in_u64 tokens.
Proof using HL.
  intros Hvs Hvp H.
  destruct (protected_inv _ _ _ _ _ Hvs Hvp H) as (rc & inc & p & shares & cents & R).
  destruct R as [Hrc TF Hrange (dp & Hdp & Hp) (ds & Hds & Hsh) Hs Hce [Hcash Hc64] [Htok Ht64] Hpos Hup].
  exists rc, inc, ds, dp. split; [done|]. split; [apply TF|]. split; [done|]. split; [done|].
  pose proof (tf_inc_range _ _ _ TF) as Hir.
  destruct (protection_tick rc inc dp (decimal_wf _ _ Hvp Hdp) ltac:(lia)) as (Hdiv & Hfl & _).
  cbv zeta in *. rewrite <- Hp in Hdiv, Hfl |- *. rewrite <- Hsh, <- Hce. split; [done|]. split; [done|]. split; [done|].
  split; [lia|]. split; [rewrite Htok, Hce; eapply protected_covers_shares; [done|lia|lia]|].
  split; [|done]. split; [|done].
  rewrite Hcash, Htok. eapply protected_floor_bound; [done|lia|].
  unfold in_u64 in Hc64. lia.
Qed.

(** C10: the final pre-signing check accepts exactly the amounts whose ratio
    stays strictly below the protection price plus [0.0001], the finest tick;
    every other input with a valid price and tick throws
    [invalid_argument]. *)
Theorem validate_protected_exact cash tokens price tick rc inc dp :
  dbl_valid price = true -> validate_price price = Ok tt ->
  config_for tick = Ok rc -> tick_increment rc tick = Ok inc -> decimal price = Ok dp ->
  in_u64 cash -> in_u64 tokens ->
  let scale := 10 ^ rc_price rc in
  let p := protection_of rc inc dp in
  let accept := inc <= p <= scale - inc /\ 0 < cash /\ 0 < tokens
                /\ cash * 10000 < tokens * (p * (10000 / scale) + 1) in
  (validate_protected_market_buy_price cash tokens price tick = Ok tt <-> accept)
  /\ (~ accept -> exists why,
        validate_protected_market_buy_price cash tokens price tick = Throw (InvalidArgument why)).
Proof using HL.
  intros Hv Hval Hrc Hinc Hdp Hc Ht scale p accept.
  destruct (tick_table tick rc Hrc) as (inc' & TF).
  assert (inc' = inc) as -> by (pose proof (tf_inc _ _ _ TF); congruence).
  pose proof TF as [Hpr _ _ _ Hir Hsc _]. pose proof (pow10_price_cases rc Hpr) as Hpc.
  pose proof (decimal_wf _ _ Hv Hdp) as Hwf.
  pose proof (price_units_small price dp (rc_price rc) Hv Hval Hdp ltac:(lia)) as Hsm.
  destruct (protection_tick rc inc dp Hwf ltac:(lia)) as (_ & Hfl & Hp0). fold p in Hfl, Hp0.
  assert (Hfloor : floored_price rc inc price = Ok p).
  { unfold floored_price. rewrite Hdp. cbn [mbind result_bind]. rewrite (scaled_exact dp) by apply Hwf.
    rewrite (proj2 (Z.leb_le _ _)) by (unfold u64_max; lia). cbn [mbind result_bind].
    f_equal. apply u64_small. unfold in_u64. fold (protection_of rc inc dp). fold p. lia. }
  unfold validate_protected_market_buy_price. rewrite Hval, Hrc. cbn [mbind result_bind].
  rewrite Hinc. cbn [mbind result_bind]. rewrite Hfloor, Hsc. cbn [mbind result_bind].
  fold scale in Hir, Hpc, Hsm |- *. rewrite (u64_small (scale - inc)) by (unfold in_u64; lia).
  assert (Hdiv : 0 <= 10000 / scale <= 10000).
  { split; [apply Z.div_pos; lia|apply Z.div_le_upper_bound; lia]. }
  assert (Hnext : in_u64 (p * (10000 / scale) + 1)) by (unfold in_u64; nia).
  rewrite (u64_small (p * _ + 1)) by done.
  destruct (product_ok cash 10000 Hc ltac:(unfold in_u64; lia)) as (y & -> & Hy & _).
  destruct (product_ok tokens _ Ht Hnext) as (y2 & -> & Hy2 & _). cbn [mbind result_bind].
  rewrite u256_ltb_val, Hy, Hy2. unfold accept, in_u64 in *. clear accept.
  destruct (Z.ltb_spec p inc), (Z.ltb_spec (scale - inc) p), (Z.eqb_spec cash 0), (Z.eqb_spec tokens 0);
    cbn [orb throw_if mbind result_bind]; try (split; [split; [done|lia]|eauto]).
  destruct (Z.ltb_spec (cash * 10000) (tokens * (p * (10000 / scale) + 1))); cbn [negb throw_if].
  - split; [split; [lia|done]|lia].
  - split; [split; [done|lia]|eauto].
Qed.
End ProtectedClaims.

Lemma protected_market_buy_bounds_witness :
  exists rc inc ds dp,
    config_for "0.0025" = Ok rc /\ tick_increment rc "0.0025" = Ok inc
    /\ decimal (lit "1") = Ok ds /\ decimal (lit "0.523") = Ok dp /\
    let scale := 10 ^ rc_price rc in
    let units := round_spec Down (dval (digits dp)) (exponent dp + rc_price rc) in
    let p := protection_of rc inc dp in
    (inc | p) /\ p <= units < p + inc /\ inc <= p <= scale - inc
    /\ 530000 = 10000 * round_spec Up (shares_of ds * p) (- rc_price rc)
    /\ shares_of ds * 10000 <= 1014354
    /\ 1014354 * p <= 530000 * scale < 1014354 * (p + inc)
    /\ in_u64 530000 /\ in_u64 1014354.
Proof.
  assert (H : protected_market_buy_amounts (L := u256_reference) (lit "1") (lit "0.523") "0.0025"
              = Ok (530000, 1014354)) by (vm_compute; reflexivity).
  exact (protected_market_buy_bounds (L := u256_reference) (lit "1") (lit "0.523") "0.0025" 530000 1014354
    eq_refl eq_refl H).
Defined.

Lemma validate_protected_exact_witness :
  let accept := 1 <= 7 <= 10 - 1 /\ 0 < 700100 /\ 0 < 1000000
                /\ 700100 * 10000 < 1000000 * (7 * (10000 / 10) + 1) in
  (validate_protected_market_buy_price 700100 1000000 (lit "0.7") "0.1" = Ok tt <-> accept)
  /\ (~ accept -> exists why,
        validate_protected_market_buy_price 700100 1000000 (lit "0.7") "0.1" = Throw (InvalidArgument why)).
Proof.
  exact (validate_protected_exact 700100 1000000 (lit "0.7") "0.1"
    {| rc_price := 1; rc_size := 2; rc_amount := 3 |} 1 {| digits := "07"; exponent := -1 |}
    eq_refl eq_refl eq_refl eq_refl eq_refl ltac:(unfold in_u64; lia) ltac:(unfold in_u64; lia)).
Defined.
