(* ===== verification/PricePath.v ===== *)
(** * A price goes through a double twice ([src/pm/amounts.cpp])

    [prepare_order] snaps the price to the tick and gives the snapped [double]
    to [order_amounts], which reads and rounds it again.  This file bounds the
    error of the division in [snap_price] and shows that the second rounding
    finds the units of the first, so that the detour does not change an
    amount. *)

From Stdlib Require Import Ascii String ZArith Lia.
From Stdlib Require Import SpecFloat.
From stdpp Require Import base list strings numbers.
From S2P Require Import Prelude Interfaces Double Amounts.

Open Scope Z_scope.

(** ** Normal mantissas *)

(** A mantissa of exactly 53 bits. *)
Definition normal (m : Z) : Prop := 2 ^ 52 <= m < 2 ^ 53.

Lemma digits2_pos_lower m : 2 ^ (Zpos (digits2_pos m) - 1) <= Zpos m.
Proof.
  induction m as [m IH|m IH|]; cbn [digits2_pos]; [..|done].
  all: rewrite Pos2Z.inj_succ; replace (Z.succ (Zpos (digits2_pos m)) - 1) with (Z.succ (Zpos (digits2_pos m) - 1)) by lia;
    rewrite Z.pow_succ_r by lia; lia.
Qed.

Lemma Zdigits2_unique m d : 0 < d -> 2 ^ (d - 1) <= m < 2 ^ d -> Zdigits2 m = d.
Proof.
  intros Hd [Hlo Hhi]. pose proof (Z.pow_pos_nonneg 2 (d - 1)).
  destruct m as [|p|p]; [lia| |lia]. cbn [Zdigits2].
  pose proof (digits2_pos_lower p) as Hl. pose proof (digits2_pos_bound p) as Hu.
  destruct (Z.lt_trichotomy (Zpos (digits2_pos p)) d) as [Hc|[Hc|Hc]]; [|done|].
  - pose proof (Z.pow_le_mono_r 2 (Zpos (digits2_pos p)) (d - 1)). lia.
  - pose proof (Z.pow_le_mono_r 2 d (Zpos (digits2_pos p) - 1)). lia.
Qed.

Lemma normal_digits m : normal m -> Zdigits2 m = 53.
Proof. intros H. by apply Zdigits2_unique. Qed.

Lemma normal_valid m e : normal (Zpos m) -> -1074 <= e <= 971 -> dbl_valid (S754_finite false m e) = true.
Proof.
  intros Hm He. unfold dbl_valid, valid_binary, bounded, canonical_mantissa, fexp, emin.
  pose proof (normal_digits _ Hm) as Hd. cbn [Zdigits2] in Hd. rewrite Hd.
  apply andb_true_iff. split; [apply Z.eqb_eq|apply Z.leb_le]; lia.
Qed.

(** ** One rounding *)

(** A normal mantissa is left alone, one bit more is shifted out. *)
Lemma shr_fexp_normal m e l :
  normal m -> -1074 <= e -> shr_fexp 53 1024 m e l = (shr_record_of_loc m l, e).
Proof.
  intros Hm He. unfold shr_fexp, fexp, emin. rewrite (normal_digits m Hm).
  replace (_ - e) with 0 by lia. done.
Qed.

Lemma shr_fexp_wide m e l :
  2 ^ 53 <= m < 2 ^ 54 -> -1074 <= e -> shr_fexp 53 1024 m e l = (shr_1 (shr_record_of_loc m l), e + 1).
Proof.
  intros Hm He. unfold shr_fexp, fexp, emin. rewrite (Zdigits2_unique m 54) by lia.
  replace (_ - e) with 1 by lia. done.
Qed.

Lemma shr_1_half m l : 0 <= m -> shr_m (shr_1 (shr_record_of_loc m l)) = m / 2.
Proof.
  intros Hm. rewrite <- Z.div2_div. destruct l as [|[]]; destruct m as [|[p|p|]|p]; done || lia.
Qed.

Lemma round_nearest_even_near m l : m <= round_nearest_even m l <= m + 1.
Proof. destruct l as [|[]]; cbn; try case_match; lia. Qed.

(** Rounding a quotient of 53 or 54 bits moves it by at most two units and
    gives a normal result. *)
Lemma binary_round_aux_near q e l :
  2 ^ 52 <= q < 2 ^ 54 -> -1074 <= e <= 900 ->
  exists m j, binary_round_aux 53 1024 false q e l = S754_finite false m (e + j)
    /\ normal (Zpos m) /\ 0 <= j <= 2 /\ q - 2 <= Zpos m * 2 ^ j <= q + 2.
Proof.
  intros Hq He.
  assert (Hfin : forall r e', 2 ^ 52 <= r <= 2 ^ 53 -> -1074 <= e' <= 902 ->
    exists m j, (let '(mrs, e'') := shr_fexp 53 1024 r e' loc_Exact in
      match shr_m mrs with
      | Z0 => S754_zero false
      | Zpos m => if e'' <=? 1024 - 53 then S754_finite false m e'' else S754_infinity false
      | Zneg _ => S754_nan
      end) = S754_finite false m (e' + j) /\ normal (Zpos m) /\ 0 <= j <= 1 /\ Zpos m * 2 ^ j = r).
  { intros r e' Hr He'. destruct (Z.eq_dec r (2 ^ 53)) as [->|Hne].
    - rewrite shr_fexp_wide by lia. cbn [shr_1 shr_record_of_loc].
      change (2 ^ 53) with (Zpos (2 ^ 52)~0). cbn [shr_m]. rewrite (proj2 (Z.leb_le _ _)) by lia.
      exists (2 ^ 52)%positive, 1. split; [done|]. split; [done|]. done.
    - rewrite shr_fexp_normal by (unfold normal; lia). cbn [shr_m shr_record_of_loc].
      destruct r as [|m|m]; [lia| |lia]. rewrite (proj2 (Z.leb_le _ _)) by lia.
      exists m, 0. rewrite Z.add_0_r. split; [done|]. unfold normal. lia. }
  unfold binary_round_aux. destruct (Z_lt_le_dec q (2 ^ 53)) as [Hlt|Hge].
  - rewrite shr_fexp_normal by (unfold normal; lia).
    pose proof (round_nearest_even_near (shr_m (shr_record_of_loc q l)) (loc_of_shr_record (shr_record_of_loc q l))) as Hn.
    replace (shr_m (shr_record_of_loc q l)) with q in * by (by destruct l as [|[]]).
    destruct (Hfin (round_nearest_even q (loc_of_shr_record (shr_record_of_loc q l))) e) as (m & j & H & Hm & Hj & Hv); [lia..|].
    exists m, j. split; [exact H|]. split; [done|]. lia.
  - rewrite shr_fexp_wide by lia. set (s := shr_1 _).
    pose proof (round_nearest_even_near (shr_m s) (loc_of_shr_record s)) as Hn.
    assert (Hs : shr_m s = q / 2) by (apply shr_1_half; lia). rewrite Hs in *.
    pose proof (Z.div_mod q 2 ltac:(lia)). pose proof (Z.mod_pos_bound q 2 ltac:(lia)).
    destruct (Hfin (round_nearest_even (q / 2) (loc_of_shr_record s)) (e + 1)) as (m & j & H1 & Hm & Hj & Hv); [lia..|].
    exists m, (j + 1). replace (e + (j + 1)) with (e + 1 + j) by lia. split; [exact H1|]. split; [done|].
    rewrite Z.pow_add_r by lia. lia.
Qed.

(** ** Conversion and division *)

Lemma pos_iter_xO m d : Zpos (Pos.iter xO m d) = Zpos m * 2 ^ Zpos d.
Proof.
  induction d as [|d IH] using Pos.peano_ind; [cbn; lia|].
  rewrite Pos.iter_succ, Pos2Z.inj_succ, Z.pow_succ_r by lia.
  change (Zpos (Pos.iter xO m d)~0) with (2 * Zpos (Pos.iter xO m d)). rewrite IH. ring.
Qed.

(** An integer below [2^53] converts exactly. *)
Lemma dbl_of_Z_exact z :
  0 < z < 2 ^ 53 ->
  exists m e, dbl_of_Z z = S754_finite false m e /\ normal (Zpos m) /\ -52 <= e <= 0 /\ Zpos m = z * 2 ^ (- e).
Proof.
  intros Hz. destruct z as [|p|p]; [lia| |lia]. unfold dbl_of_Z, binary_normalize, binary_round.
  pose proof (digits2_pos_lower p) as Hl. pose proof (digits2_pos_bound p) as Hu.
  set (d := Zpos (digits2_pos p)) in *.
  assert (Hd : 1 <= d <= 53).
  { split; [unfold d; lia|]. destruct (Z_le_gt_dec d 53); [done|].
    pose proof (Z.pow_le_mono_r 2 53 (d - 1)). lia. }
  assert (Hmz : exists m, shl_align p 0 (fexp 53 1024 (d + 0)) = (m, d - 53) /\ Zpos m = Zpos p * 2 ^ (53 - d)).
  { unfold shl_align, fexp, emin. replace (_ - 0) with (d - 53) by lia.
    destruct (d - 53) as [|x|x] eqn:E; [|lia|].
    - exists p. replace (53 - d) with 0 by lia. split; [done|]. lia.
    - exists (Pos.iter xO p x). rewrite pos_iter_xO. replace (53 - d) with (Zpos x) by lia. split; [f_equal; lia|done]. }
  destruct Hmz as (m & -> & Hm).
  assert (Hn : normal (Zpos m)).
  { unfold normal. rewrite Hm. replace 52 with (d - 1 + (53 - d)) by lia. rewrite Z.pow_add_r by lia.
    replace (2 ^ 53) with (2 ^ d * 2 ^ (53 - d)) by (rewrite <- Z.pow_add_r by lia; f_equal; lia).
    pose proof (Z.pow_pos_nonneg 2 (53 - d)). nia. }
  exists m, (d - 53). split; [|split; [done|split; [lia|by replace (- (d - 53)) with (53 - d) by lia]]].
  unfold binary_round_aux. rewrite shr_fexp_normal by (done || lia).
  cbn [shr_record_of_loc shr_m loc_of_shr_record round_nearest_even].
  rewrite shr_fexp_normal by (done || lia). cbn [shr_record_of_loc shr_m].
  by rewrite (proj2 (Z.leb_le _ _)) by lia.
Qed.

(** The quotient of two normal doubles, in units of [2^(e1-e2-53)]. *)
Lemma dbl_div_near m1 e1 m2 e2 :
  normal (Zpos m1) -> normal (Zpos m2) -> -500 <= e1 <= 0 -> -500 <= e2 <= 0 ->
  exists m j, dbl_div (S754_finite false m1 e1) (S754_finite false m2 e2) = S754_finite false m (e1 - e2 - 53 + j)
    /\ normal (Zpos m) /\ 0 <= j <= 2
    /\ Zpos m1 * 2 ^ 53 - 3 * Zpos m2 <= Zpos m2 * (Zpos m * 2 ^ j) <= Zpos m1 * 2 ^ 53 + 2 * Zpos m2.
Proof.
  intros H1 H2 He1 He2. unfold dbl_div, SFdiv, SFdiv_core_binary, fexp, emin.
  rewrite (normal_digits _ H1), (normal_digits _ H2).
  replace (Z.min _ _) with (e1 - e2 - 53) by lia.
  replace (e1 - e2 - (e1 - e2 - 53)) with 53 by lia. rewrite Z.shiftl_mul_pow2 by lia.
  pose proof (Z_div_mod (Zpos m1 * 2 ^ 53) (Zpos m2) ltac:(lia)) as Hdm.
  destruct (Z.div_eucl (Zpos m1 * 2 ^ 53) (Zpos m2)) as [q r]. destruct Hdm as [Hq Hr].
  unfold normal in H1, H2.
  destruct (binary_round_aux_near q (e1 - e2 - 53) (new_location (Zpos m2) r)) as (m & j & Hb & Hm & Hj & Hv); [nia|lia|].
  exists m, j. split; [exact Hb|]. split; [done|]. split; [done|]. nia.
Qed.

(** The double closest to [u / 10^k], as [snap_price] computes it. *)
Definition ratio (u k : Z) : double := dbl_div (dbl_of_Z u) (dbl_of_Z (10 ^ k)).

Lemma pow10_small k : 1 <= k <= 4 -> 10 <= 10 ^ k <= 10000.
Proof.
  intros Hk. pose proof (Z.pow_le_mono_r 10 1 k). pose proof (Z.pow_le_mono_r 10 k 4). lia.
Qed.

Lemma ratio_near u k :
  1 <= k <= 4 -> 0 < u <= 10 ^ k ->
  exists m e, ratio u k = S754_finite false m e /\ normal (Zpos m) /\ -200 <= e <= -52
    /\ Z.abs (Zpos m * 10 ^ k - u * 2 ^ (- e)) <= 3 * 10 ^ k.
Proof.
  intros Hk Hu. pose proof (pow10_small k Hk) as HT. unfold ratio.
  destruct (dbl_of_Z_exact u) as (m1 & e1 & -> & N1 & He1 & V1); [lia|].
  destruct (dbl_of_Z_exact (10 ^ k)) as (m2 & e2 & -> & N2 & He2 & V2); [lia|].
  destruct (dbl_div_near m1 e1 m2 e2 N1 N2) as (m & j & -> & Nm & Hj & Hv); [lia..|].
  exists m, (e1 - e2 - 53 + j). split; [done|]. split; [done|].
  set (E := 53 - e1 + e2). set (T := 10 ^ k) in *.
  assert (Hclose : u * 2 ^ E - 3 * T <= T * (Zpos m * 2 ^ j) <= u * 2 ^ E + 2 * T).
  { rewrite V1, V2 in Hv. pose proof (Z.pow_pos_nonneg 2 (- e2)) as Hp.
    assert (HE : 2 ^ E * 2 ^ (- e2) = 2 ^ (- e1) * 2 ^ 53)
      by (rewrite <- !Z.pow_add_r by (unfold E; lia); f_equal; unfold E; lia).
    assert (u * 2 ^ (- e1) * 2 ^ 53 = u * 2 ^ E * 2 ^ (- e2)) by lia. nia. }
  assert (HEj : 52 + j <= E).
  { destruct (Z_le_gt_dec (52 + j) E); [done|exfalso].
    pose proof (Z.pow_le_mono_r 2 E (51 + j) ltac:(lia) ltac:(lia)) as HpE.
    assert (Hj2 : 2 ^ (51 + j) = 2 ^ 51 * 2 ^ j) by (apply Z.pow_add_r; lia).
    pose proof (Z.pow_pos_nonneg 2 j). pose proof (Z.pow_nonneg 2 E). unfold normal in Nm.
    assert (T * (Zpos m * 2 ^ j) <= T * (2 ^ 51 * 2 ^ j + 2)) by nia.
    assert (Zpos m * 2 ^ j <= 2 ^ 51 * 2 ^ j + 2) by nia. nia. }
  assert (Hneg : - (e1 - e2 - 53 + j) = E - j) by (unfold E; lia). rewrite Hneg.
  split; [unfold E in HEj; lia|].
  replace E with (E - j + j) in Hclose by lia. rewrite Z.pow_add_r in Hclose by lia.
  pose proof (Z.pow_pos_nonneg 2 j). assert (1 <= 2 ^ j) by lia.
  apply Z.abs_le. split; nia.
Qed.

(** ** Rounding what was read *)

(** Half a unit decides, on the common scale. *)
Lemma round_nearest_bounds v x k u :
  0 <= v -> -340 <= x <= 325 -> 0 <= k ->
  (2 * (v * P10 x) * 10 ^ k < (2 * u + 1) * P10 0 -> round_spec Nearest v (x + k) <= u)
  /\ ((2 * u - 1) * P10 0 < 2 * (v * P10 x) * 10 ^ k -> u <= round_spec Nearest v (x + k)).
Proof.
  intros Hv Hx Hk. pose proof (P10_pos 0 ltac:(lia)) as H0.
  assert (Hs : P10 x * 10 ^ k = P10 (x + k)) by (rewrite P10_add by lia; ring).
  replace (2 * (v * P10 x) * 10 ^ k) with (2 * v * P10 (x + k)) by (rewrite <- Hs; ring).
  unfold round_spec. destruct (Z.leb_spec 0 (x + k)) as [Hp|Hn].
  - replace (P10 (x + k)) with (10 ^ (x + k) * P10 0) by (rewrite <- P10_add by lia; f_equal; lia).
    pose proof (pow10_pos (x + k) Hp). split; intros; nia.
  - pose proof (P10_pos (x + k) ltac:(lia)) as Hq.
    replace (P10 0) with (10 ^ (- (x + k)) * P10 (x + k)) by (rewrite <- P10_add by lia; f_equal; lia).
    cbv zeta. pose proof (pow10_pos (- (x + k)) ltac:(lia)) as Hd. revert Hd. generalize (10 ^ - (x + k)). intros d Hd.
    pose proof (Z.div_mod (2 * v + d) (2 * d) ltac:(lia)). pose proof (Z.mod_pos_bound (2 * v + d) (2 * d) ltac:(lia)).
    revert Hq. generalize (P10 (x + k)). intros w Hq.
    split; intros Hb.
    + assert (2 * v < (2 * u + 1) * d) by nia. nia.
    + assert ((2 * u - 1) * d < 2 * v) by nia. nia.
Qed.

(** What is read lies within half a gap of the double. *)
Lemma reads_as_half m e y : -1074 <= e -> reads_as m e y -> 2 * Z.abs (y - Zpos m * P2 e) <= P2 e.
Proof.
  intros He HR. rewrite P2_quarter by lia. pose proof (P2_pos (e - 2) ltac:(lia)).
  unfold reads_as, gap_low in HR. destruct (Z.even _), (_ && _); lia.
Qed.

Lemma P2_down e : -200 <= e <= 0 -> P10 0 = 2 ^ (- e) * P2 e.
Proof. intros. rewrite P10_0, <- P2_add by lia. f_equal. lia. Qed.

(** ** The snapped price *)

(** A double that [order_amounts] takes for [u] units of [10^-k]. *)
Record stands_for (x : double) (u k : Z) : Prop := {
  sf_valid : dbl_valid x = true;
  sf_price : validate_price x = Ok tt;
  sf_units : exists d, decimal x = Ok d /\ wf_decimal d
               /\ round_spec Nearest (dval (digits d)) (exponent d + k) = u;
}.

Lemma small_price m e : e <= -53 -> validate_price (S754_finite false m e) = Ok tt.
Proof.
  intros He. unfold validate_price. apply throw_if_false.
  change dbl_one with (S754_finite false 4503599627370496 (-52)). unfold dbl_ltb, SFltb, SFcompare.
  by rewrite (proj2 (Z.compare_gt_iff (-52) e)) by lia.
Qed.

Lemma near_units m e u k d :
  1 <= k <= 4 -> -200 <= e <= -52 -> 0 <= dval (digits d) -> -340 <= exponent d <= 325 ->
  Z.abs (Zpos m * 10 ^ k - u * 2 ^ (- e)) <= 3 * 10 ^ k ->
  reads_as m e (dval (digits d) * P10 (exponent d)) ->
  round_spec Nearest (dval (digits d)) (exponent d + k) = u.
Proof.
  intros Hk He Hv Hx Hn HR. apply reads_as_half in HR; [|lia].
  pose proof (pow10_small k Hk) as HT. pose proof (P2_pos e ltac:(lia)) as Hw.
  destruct (round_nearest_bounds (dval (digits d)) (exponent d) k u) as [Hu Hl]; [lia..|].
  rewrite (P2_down e) in Hu, Hl by lia. pose proof (Z.pow_le_mono_r 2 52 (- e) ltac:(lia) ltac:(lia)) as H52.
  revert HR Hu Hl. generalize (dval (digits d) * P10 (exponent d)). intros y HR Hu Hl.
  revert Hn Hu Hl HT H52. generalize (10 ^ k) (2 ^ (- e)) (P2 e) Hw HR. intros T D w Hw' HR' Hn Hu Hl HT H52.
  assert (Hd : Z.abs (y * T - u * D * w) <= 4 * T * w).
  { replace (y * T - u * D * w) with ((y - Zpos m * w) * T + (Zpos m * T - u * D) * w) by ring. nia. }
  assert (Hsm : 8 * T * w < D * w) by nia.
  apply Z.le_antisymm; [apply Hu|apply Hl]; lia.
Qed.

Lemma ratio_stands_for u k : 1 <= k <= 4 -> 0 <= u <= 10 ^ k -> stands_for (ratio u k) u k.
Proof.
  intros Hk Hu. destruct (Z.eq_dec u 0) as [->|Hu0]; [|destruct (Z.eq_dec u (10 ^ k)) as [->|Hu1]].
  - assert (Hz : ratio 0 k = dbl_zero).
    { unfold ratio. destruct (dbl_of_Z_exact (10 ^ k)) as (m & e & -> & _); [pose proof (pow10_small k Hk); lia|done]. }
    rewrite Hz. split; [done..|]. exists {| digits := "0"; exponent := 0 |}. split; [done|]. split; [by split|].
    apply round_spec_zero.
  - assert (Hz : ratio (10 ^ k) k = dbl_one).
    { assert (k = 1 \/ k = 2 \/ k = 3 \/ k = 4) as [-> |[-> |[-> | ->]]] by lia; vm_compute; reflexivity. }
    rewrite Hz. split; [done..|]. exists {| digits := "1"; exponent := 0 |}. split; [vm_compute; reflexivity|]. split; [by split|].
    unfold round_spec. cbn [digits exponent]. rewrite (proj2 (Z.leb_le _ _)) by lia. change (dval "1") with 1. rewrite Z.add_0_l. lia.
  - destruct (ratio_near u k Hk) as (m & e & Hr & Nm & He & Hn); [lia|]. rewrite Hr.
    pose proof (pow10_small k Hk) as HT. pose proof (normal_valid m e Nm ltac:(lia)) as Hval.
    destruct (decimal_finite m e Hval) as (d & Hd & Hwf & Hx & HR). split; [done| |].
    + apply small_price. destruct (Z.eq_dec e (-52)) as [->|]; [exfalso|lia].
      change (2 ^ - -52) with (2 ^ 52) in Hn. unfold normal in Nm. nia.
    + exists d. split; [done|]. split; [done|]. eapply near_units; [done|done|by apply wf_dval_nonneg|done..].
Qed.

(** A validated price has at most [10^k] units. *)
Lemma price_units_le_scale x d k :
  dbl_valid x = true -> validate_price x = Ok tt -> decimal x = Ok d -> 1 <= k <= 4 ->
  round_spec Nearest (dval (digits d)) (exponent d + k) <= 10 ^ k.
Proof.
  intros Hv Hp Hd Hk. pose proof (pow10_small k Hk) as HT. destruct x as [s|s| |[] m e]; try done.
  { cbn in Hd. injection Hd as <-. rewrite round_spec_zero. lia. }
  destruct (decimal_finite m e Hv) as (d' & Hd' & Hwf & Hx & HR). rewrite Hd' in Hd. injection Hd as ->.
  destruct (valid_bounds m e Hv) as [_ He]. pose proof (price_at_most_one m e Hv Hp) as H1.
  apply reads_as_half in HR; [|lia].
  assert (Hgap : 2 ^ 52 * P2 e <= P2 0).
  { destruct (Z.eq_dec e (-1074)) as [->|Hne]; [vm_compute; discriminate|].
    assert (2 ^ 52 <= Zpos m); [|pose proof (P2_pos e ltac:(lia)); nia].
    revert Hv. unfold dbl_valid, valid_binary, bounded, canonical_mantissa, fexp, emin.
    intros [Hc _]%andb_true_iff. apply Z.eqb_eq in Hc. pose proof (digits2_pos_lower m) as Hl.
    replace (Zpos (digits2_pos m)) with 53 in Hl by lia. exact Hl. }
  apply round_nearest_bounds; [by apply wf_dval_nonneg|done|lia|]. rewrite P10_0.
  pose proof (P2_pos e ltac:(lia)) as Hw.
  revert HR. generalize (dval (digits d) * P10 (exponent d)). intros y HR.
  revert HR H1 Hgap Hw HT. generalize (P2 e) (P2 0) (10 ^ k). intros w o T HR H1 Hgap Hw HT.
  assert (2 * y <= 2 * o + w) by lia. nia.
Qed.

Lemma snap_price_ratio price tick rc d :
  dbl_valid price = true -> validate_price price = Ok tt -> config_for tick = Ok rc -> decimal price = Ok d ->
  let u := round_spec Nearest (dval (digits d)) (exponent d + rc_price rc) in
  scaled d (rc_price rc) Nearest = Ok u /\ snap_price price tick = Ok (ratio u (rc_price rc))
  /\ stands_for (ratio u (rc_price rc)) u (rc_price rc).
Proof.
  intros Hv Hp Hrc Hd u. destruct (tick_table tick rc Hrc) as (inc & TF). pose proof (tf_price _ _ _ TF) as Hk.
  pose proof (decimal_wf _ _ Hv Hd) as Hwf.
  assert (Hu : 0 <= u <= 10 ^ rc_price rc).
  { split; [by apply round_spec_nonneg, wf_dval_nonneg|by eapply price_units_le_scale]. }
  assert (Hs : scaled d (rc_price rc) Nearest = Ok u).
  { rewrite scaled_exact by apply Hwf. fold u. rewrite (proj2 (Z.leb_le _ _)); [done|].
    pose proof (pow10_small _ Hk). unfold u64_max. lia. }
  split; [done|]. split; [|by apply ratio_stands_for].
  unfold snap_price. rewrite Hp, Hrc, Hd. cbn [mbind result_bind]. by rewrite Hs.
Qed.

Lemma stands_for_scaled x u k :
  stands_for x u k -> 0 <= u <= u64_max -> exists d, decimal x = Ok d /\ scaled d k Nearest = Ok u.
Proof.
  intros [_ _ (d & Hd & Hwf & Hu)] Hr. exists d. split; [done|].
  rewrite scaled_exact by apply Hwf. rewrite Hu. by rewrite (proj2 (Z.leb_le _ _)) by lia.
Qed.

Lemma order_amounts_units `{L : U256Lib} side size p q tick rc dp dq u :
  config_for tick = Ok rc -> validate_price p = Ok tt -> validate_price q = Ok tt ->
  decimal p = Ok dp -> scaled dp (rc_price rc) Nearest = Ok u ->
  decimal q = Ok dq -> scaled dq (rc_price rc) Nearest = Ok u ->
  order_amounts side size p tick = order_amounts side size q tick.
Proof.
  intros Hrc Hp Hq Hdp Hsp Hdq Hsq. unfold order_amounts. rewrite Hrc, Hp, Hq. cbn [mbind result_bind].
  by rewrite Hdp, Hdq; cbn [mbind result_bind]; rewrite Hsp, Hsq.
Qed.

(** The amounts of a limit order the way [prepare_order] gets them: the snapped
    price goes to [order_amounts]. *)
Definition limit_amounts `{L : U256Lib} (side : Side) (size price : double) (tick : string) : result (Z * Z) :=
  sp ← snap_price price tick; order_amounts side size sp tick.

(** C8: snapping is transparent.  Computing a limit order from the snapped
    price, as the trading client does, gives for every side, size, price and
    known tick the very result (amounts or exception) of computing it from the
    price itself: the second reading of the divided double finds the same price
    units.  And snapping a snapped price changes nothing. *)
Theorem snapping_is_transparent `{L : U256Lib} side size price tick :
  dbl_valid price = true -> valid_tick_size tick = true ->
  limit_amounts side size price tick = order_amounts side size price tick
  /\ (sp ← snap_price price tick; snap_price sp tick) = snap_price price tick.
Proof.
  intros Hv Ht. unfold valid_tick_size in Ht. unfold limit_amounts.
  assert (exists rc, config_for tick = Ok rc) as [rc Hrc].
  { unfold config_for. destruct (assoc_find tick rounding_config) as [rc|]; [by exists rc|done]. }
  destruct (validate_price price) as [[]|ex] eqn:Hp.
  2: { unfold snap_price, order_amounts. rewrite Hrc, Hp. done. }
  destruct (decimal price) as [d|ex] eqn:Hd.
  2: { destruct price as [s|s| |[] m e]; try discriminate Hp; try discriminate Hd.
       destruct (decimal_finite m e Hv) as (d' & Hd' & _). rewrite Hd' in Hd. discriminate Hd. }
  destruct (snap_price_ratio price tick rc d Hv Hp Hrc Hd) as (Hs & Hsnap & SF).
  set (u := round_spec _ _ _) in *. set (x := ratio u _) in *. rewrite Hsnap. cbn [mbind result_bind].
  assert (Hu : 0 <= u <= u64_max) by (apply scaled_u64 in Hs; unfold in_u64, u64_max in *; lia).
  destruct (stands_for_scaled x u _ SF Hu) as (dx & Hdx & Hsx). pose proof (sf_price _ _ _ SF) as Hpx. split.
  - by eapply order_amounts_units.
  - unfold snap_price. rewrite Hpx, Hrc, Hdx. cbn [mbind result_bind]. by rewrite Hsx.
Qed.

(** One third of a dollar: the snapped price is the double nearest to 0.333. *)
Lemma snapping_is_transparent_witness :
  limit_amounts Buy (lit "12.5") (lit "0.33333") "0.001"
    = order_amounts Buy (lit "12.5") (lit "0.33333") "0.001"
  /\ order_amounts Buy (lit "12.5") (lit "0.33333") "0.001" = Ok (4162500, 12500000).
Proof.
  split; [|vm_compute; reflexivity].
  apply (snapping_is_transparent Buy (lit "12.5") (lit "0.33333") "0.001"); vm_compute; reflexivity.
Defined.
