(* ===== verification/Monotone.v ===== *)
(** * Amounts grow with size and price ([src/pm/amounts.cpp])

    The builders go from doubles through their shortest decimals to rounded
    integers.  Every stage is monotone, which is not obvious for the first one:
    the shortest decimal of a double is any decimal inside its rounding
    interval, and the intervals of neighbouring doubles meet. *)

From Stdlib Require Import Ascii String ZArith Lia.
From Stdlib Require Import SpecFloat.
From stdpp Require Import base list strings numbers.
From S2P Require Import Prelude Interfaces Double Amounts PricePath.

Open Scope Z_scope.

Definition dbl_leb (x y : double) : bool := SFleb x y.

(** ** Reading *)

(** A valid double above the smallest exponent has 53 bits. *)
Lemma valid_normal m e :
  dbl_valid (S754_finite false m e) = true -> -1074 < e -> 2 ^ 52 <= Zpos m.
Proof.
  unfold dbl_valid, valid_binary, bounded, canonical_mantissa, fexp, emin.
  intros [Hc _]%andb_true_iff He. apply Z.eqb_eq in Hc. pose proof (digits2_pos_lower m) as Hl.
  replace (Zpos (digits2_pos m)) with 53 in Hl by lia. exact Hl.
Qed.

(** The interval of a smaller double ends where that of a larger one begins,
    or before. *)
Lemma intervals_ordered m1 e1 m2 e2 :
  dbl_valid (S754_finite false m1 e1) = true -> dbl_valid (S754_finite false m2 e2) = true ->
  dbl_ltb (S754_finite false m1 e1) (S754_finite false m2 e2) = true ->
  (4 * Zpos m1 + 2) * P2 (e1 - 2) <= gap_low m2 e2 * P2 (e2 - 2).
Proof.
  intros V1 V2 Hlt. destruct (valid_bounds m1 e1 V1) as [B1 E1], (valid_bounds m2 e2 V2) as [B2 E2].
  pose proof (P2_pos (e1 - 2) ltac:(lia)) as Hw. unfold dbl_ltb, SFltb, SFcompare in Hlt.
  destruct (Z.compare_spec e1 e2) as [<-|He|He]; [| |done].
  - change (Pos.compare_cont Eq m1 m2) with (m1 ?= m2)%positive in Hlt.
    destruct (Pos.compare_spec m1 m2) as [|Hm|]; [done| |done].
    apply Z.mul_le_mono_nonneg_r; [lia|]. unfold gap_low. case_match; lia.
  - pose proof (valid_normal m2 e2 V2 ltac:(lia)) as N2.
    replace (e2 - 2) with (e1 - 2 + (e2 - e1)) by lia. rewrite P2_add by lia.
    pose proof (Z.pow_le_mono_r 2 1 (e2 - e1)) as Hp.
    assert (Hg : 2 ^ 54 - 1 <= gap_low m2 e2).
    { unfold gap_low. destruct (Pos.eqb_spec m2 (2 ^ 52)) as [->|Hne]; cbn [andb].
      - rewrite (proj2 (Z.ltb_lt _ _)) by lia. done.
      - lia. }
    rewrite Z.mul_assoc. apply Z.mul_le_mono_nonneg_r; [lia|].
    transitivity (2 * (2 ^ 54 - 1)); [lia|]. rewrite Z.mul_comm.
    apply Z.mul_le_mono_nonneg; lia.
Qed.

Lemma decimal_exponent x d : dbl_valid x = true -> decimal x = Ok d -> -340 <= exponent d <= 325.
Proof.
  intros Vx Hx. destruct x as [s|s| |[] m e]; try done; [cbn in Hx; injection Hx as <-; cbn; lia|].
  destruct (decimal_finite m e Vx) as (d' & Hd' & _ & Hr & _). rewrite Hx in Hd'. by injection Hd' as ->.
Qed.

(** Reading is monotone. *)
Lemma decimal_monotone x y dx dy :
  dbl_valid x = true -> dbl_valid y = true -> dbl_leb dbl_zero x = true -> dbl_leb x y = true ->
  decimal x = Ok dx -> decimal y = Ok dy ->
  dval (digits dx) * P10 (exponent dx) <= dval (digits dy) * P10 (exponent dy).
Proof.
  intros Vx Vy H0 Hle Hx Hy. pose proof (decimal_wf _ _ Vy Hy) as Wy.
  assert (Hpos : 0 <= dval (digits dy) * P10 (exponent dy)).
  { apply Z.mul_nonneg_nonneg; [by apply wf_dval_nonneg|]. pose proof (P10_pos (exponent dy)).
    pose proof (decimal_exponent y dy Vy Hy). lia. }
  destruct x as [s|s| |[] m1 e1]; try done; [cbn in Hx; injection Hx as <-; done|].
  destruct y as [s|s| |[] m2 e2]; try done.
  destruct (decimal_finite m1 e1 Vx) as (d1 & Hd1 & _ & _ & R1). rewrite Hx in Hd1. injection Hd1 as <-.
  destruct (decimal_finite m2 e2 Vy) as (d2 & Hd2 & _ & _ & R2). rewrite Hy in Hd2. injection Hd2 as <-.
  destruct (dbl_ltb (S754_finite false m1 e1) (S754_finite false m2 e2)) eqn:Hlt.
  - pose proof (intervals_ordered _ _ _ _ Vx Vy Hlt) as Ho. unfold reads_as in R1, R2.
    fold (gap_low m1 e1) (gap_low m2 e2) in R1, R2. destruct (Z.even (Zpos m1)), (Z.even (Zpos m2)); lia.
  - assert (E : m1 = m2 /\ e1 = e2).
    { unfold dbl_leb, SFleb in Hle. unfold dbl_ltb, SFltb in Hlt. unfold SFcompare in Hle, Hlt.
      destruct (Z.compare_spec e1 e2) as [->|?|?]; [|done|done].
      change (Pos.compare_cont Eq m1 m2) with (m1 ?= m2)%positive in *.
      destruct (Pos.compare_spec m1 m2) as [->|?|?]; done. }
    destruct E as [-> ->]. rewrite Hx in Hy. injection Hy as ->. lia.
Qed.

(** ** Rounding *)

Lemma round_spec_bounds r v x k :
  0 <= v -> -340 <= x <= 325 -> 0 <= k ->
  let z := round_spec r v (x + k) in
  let V := v * P10 x * 10 ^ k in
  match r with
  | Down => z * P10 0 <= V < (z + 1) * P10 0
  | Up => (z - 1) * P10 0 < V <= z * P10 0
  | Nearest => (2 * z - 1) * P10 0 <= 2 * V < (2 * z + 1) * P10 0
  end.
Proof.
  intros Hv Hx Hk. cbv zeta. pose proof (P10_pos 0 ltac:(lia)) as H0.
  replace (v * P10 x * 10 ^ k) with (v * P10 (x + k)) by (rewrite P10_add by lia; ring).
  unfold round_spec. destruct (Z.leb_spec 0 (x + k)) as [Hp|Hn].
  - replace (P10 (x + k)) with (10 ^ (x + k) * P10 0) by (rewrite <- P10_add by lia; f_equal; lia).
    pose proof (pow10_pos (x + k) Hp). destruct r; nia.
  - pose proof (P10_pos (x + k) ltac:(lia)) as Hq.
    replace (P10 0) with (10 ^ (- (x + k)) * P10 (x + k)) by (rewrite <- P10_add by lia; f_equal; lia).
    cbv zeta. pose proof (pow10_pos (- (x + k)) ltac:(lia)) as Hd. revert Hd Hq.
    generalize (10 ^ - (x + k)) (P10 (x + k)). intros d w Hd Hw. destruct r; rewrite !Z.mul_assoc.
    + destruct (div_mod_id v d Hd). split; [apply Z.mul_le_mono_nonneg_r|apply Z.mul_lt_mono_pos_r]; nia.
    + destruct (div_mod_id (v + d - 1) d Hd). split; [apply Z.mul_lt_mono_pos_r|apply Z.mul_le_mono_nonneg_r]; nia.
    + destruct (div_mod_id (2 * v + d) (2 * d) ltac:(lia)).
      split; [apply Z.mul_le_mono_nonneg_r|apply Z.mul_lt_mono_pos_r]; nia.
Qed.

Lemma round_spec_monotone r v x v' x' k :
  0 <= v -> 0 <= v' -> -340 <= x <= 325 -> -340 <= x' <= 325 -> 0 <= k ->
  v * P10 x <= v' * P10 x' -> round_spec r v (x + k) <= round_spec r v' (x' + k).
Proof.
  intros Hv Hv' Hx Hx' Hk Hle. pose proof (P10_pos 0 ltac:(lia)) as H0. pose proof (pow10_pos k Hk) as Ht.
  assert (HV : v * P10 x * 10 ^ k <= v' * P10 x' * 10 ^ k) by (apply Z.mul_le_mono_nonneg_r; lia).
  pose proof (round_spec_bounds r v x k Hv Hx Hk) as B. pose proof (round_spec_bounds r v' x' k Hv' Hx' Hk) as B'.
  cbv zeta in B, B'. revert HV B B'. generalize (v * P10 x * 10 ^ k) (v' * P10 x' * 10 ^ k).
  generalize (round_spec r v (x + k)) (round_spec r v' (x' + k)) (P10 0) H0. intros z z' o Ho V V' HV B B'.
  destruct r; nia.
Qed.

(** ** Readable and valid below *)

Lemma decimal_below x y d' :
  dbl_valid x = true -> dbl_leb dbl_zero x = true -> dbl_leb x y = true -> decimal y = Ok d' ->
  exists d, decimal x = Ok d.
Proof.
  intros Vx H0 Hle Hy. destruct x as [s|[]| |[] m e]; try done; [by eexists|by destruct y as [|[]| |[]]|].
  destruct (decimal_finite m e Vx) as (d & Hd & _). by exists d.
Qed.

Lemma validate_below x y :
  dbl_leb dbl_zero x = true -> dbl_leb x y = true -> validate_price y = Ok tt -> validate_price x = Ok tt.
Proof.
  intros H0 Hle Hy. unfold validate_price in Hy. inv_ok.
  match goal with H : dbl_ltb dbl_one y = false |- _ => rename H into H1 end.
  unfold validate_price. apply throw_if_false. change dbl_one with (S754_finite false 4503599627370496 (-52)) in *.
  destruct x as [s|[]| |[] m1 e1]; try done; [by destruct y as [|[]| |[]]|].
  destruct y as [s|[]| |[] m2 e2]; try done. cbn [dbl_is_finite negb orb].
  unfold dbl_leb, SFleb in Hle. unfold dbl_ltb, SFltb in *. unfold SFcompare in *.
  change (Pos.compare_cont Eq) with Pos.compare in *. revert H1. generalize 4503599627370496%positive. intros c H1.
  destruct (Z.compare_spec e1 e2), (Z.compare_spec (-52) e2), (Z.compare_spec (-52) e1); subst; try done; try lia.
  all: destruct (Pos.compare_spec m1 m2), (Pos.compare_spec c m2), (Pos.compare_spec c m1);
    subst; try done; lia.
Qed.

Lemma rounded_monotone x y dx dy r k :
  dbl_valid x = true -> dbl_valid y = true -> dbl_leb dbl_zero x = true -> dbl_leb x y = true ->
  decimal x = Ok dx -> decimal y = Ok dy -> 0 <= k ->
  0 <= round_spec r (dval (digits dx)) (exponent dx + k) <= round_spec r (dval (digits dy)) (exponent dy + k).
Proof.
  intros Vx Vy H0 Hle Hx Hy Hk.
  pose proof (wf_dval_nonneg dx (decimal_wf _ _ Vx Hx)). pose proof (wf_dval_nonneg dy (decimal_wf _ _ Vy Hy)).
  split; [by apply round_spec_nonneg|]. apply round_spec_monotone; [done..| | |done|].
  - exact (decimal_exponent _ _ Vx Hx).
  - exact (decimal_exponent _ _ Vy Hy).
  - exact (decimal_monotone _ _ _ _ Vx Vy H0 Hle Hx Hy).
Qed.

(** What an accepted order had. *)
Lemma order_amounts_accepts `{L : U256Lib} side size price tick a b :
  order_amounts side size price tick = Ok (a, b) ->
  exists rc ds dp, config_for tick = Ok rc /\ validate_price price = Ok tt /\ (side = Buy \/ side = Sell)
    /\ decimal size = Ok ds /\ decimal price = Ok dp.
Proof.
  unfold order_amounts. intros H. apply bind_ok in H as (rc & Hrc & H). apply bind_ok in H as ([] & Hv & H).
  apply bind_ok in H as (u & Hs & H). apply bind_ok in H as (ds & Hds & H). apply bind_ok in H as (? & _ & H).
  apply bind_ok in H as (dp & Hdp & _). apply throw_if_ok in Hs. exists rc, ds, dp. do 2 (split; [done|]).
  split; [|done]. destruct (bool_decide_reflect (side = Buy)); [by left|].
  destruct (bool_decide_reflect (side = Sell)); [by right|done].
Qed.

(** ** The properties *)

Section Claims.
Context `{L : U256Lib} {HL : U256Laws L}.
Context (size size' price price' : double).
Context (Vs : dbl_valid size = true) (Vs' : dbl_valid size' = true).
Context (Vp : dbl_valid price = true) (Vp' : dbl_valid price' = true).
Context (Hs0 : dbl_leb dbl_zero size = true) (Hs : dbl_leb size size' = true).
Context (Hp0 : dbl_leb dbl_zero price = true) (Hp : dbl_leb price price' = true).

Lemma shares_monotone ds ds' : decimal size = Ok ds -> decimal size' = Ok ds' -> 0 <= shares_of ds <= shares_of ds'.
Proof using Vs Vs' Hs0 Hs. intros Hd Hd'. by apply (rounded_monotone size size'). Qed.

Lemma units_monotone rc dp dp' : 0 <= rc_price rc -> decimal price = Ok dp -> decimal price' = Ok dp' ->
  0 <= price_units_of rc dp <= price_units_of rc dp'.
Proof using Vp Vp' Hp0 Hp. intros Hk Hd Hd'. by apply (rounded_monotone price price'). Qed.

(** C16: amounts are monotone.  If a limit order can be built for a size and a
    price, it can be built on the same tick for every smaller size and price,
    and neither of its amounts is larger: a caller that lowers its size or its
    price never signs for more cash or more tokens, in spite of the two
    roundings and of reading doubles through their shortest decimals. *)
Theorem order_amounts_monotone side tick a' b' :
  order_amounts side size' price' tick = Ok (a', b') ->
  exists a b, order_amounts side size price tick = Ok (a, b) /\ a <= a' /\ b <= b'.
Proof using HL Vs Vs' Vp Vp' Hs0 Hs Hp0 Hp.
  intros H. pose proof (order_amounts_accepts side size' price' tick a' b' H) as (rc & ds' & dp' & Hrc & Hv' & Hside & Hds' & Hdp').
  destruct (decimal_below size size' ds' Vs Hs0 Hs Hds') as (ds & Hds).
  destruct (decimal_below price price' dp' Vp Hp0 Hp Hdp') as (dp & Hdp).
  pose proof (validate_below price price' Hp0 Hp Hv') as Hv.
  destruct (tick_table tick rc Hrc) as (inc & TF). pose proof (tf_price _ _ _ TF) as Hk.
  pose proof (shares_monotone ds ds' Hds Hds') as Ms. pose proof (units_monotone rc dp dp' ltac:(lia) Hdp Hdp') as Mu.
  rewrite (order_amounts_closed size' price' Vs' Vp' ds' dp' Hds' Hdp' side tick rc Hrc Hv' Hside) in H.
  rewrite (order_amounts_closed size price Vs Vp ds dp Hds Hdp side tick rc Hrc Hv Hside).
  pose proof (pow10_pos (4 - rc_price rc) ltac:(lia)) as Ht. revert H Ms Mu.
  generalize (shares_of ds) (shares_of ds') (price_units_of rc dp) (price_units_of rc dp').
  intros n n' u u' H Ms Mu. revert Ht H. generalize (10 ^ (4 - rc_price rc)). intros t Ht H.
  destruct ((n' <=? u64_max) && _ && _ && _) eqn:E; [|done]. rewrite !andb_true_iff, !Z.leb_le in E.
  destruct E as [[[E1 E2] E3] E4]. assert (Hm : n * u <= n' * u') by nia. assert (Hc : n * u * t <= n' * u' * t) by nia.
  assert (E' : (n <=? u64_max) && (u <=? u64_max) && (n * u * t <=? u64_max) && (n * 10000 <=? u64_max) = true).
  { rewrite !andb_true_iff, !Z.leb_le. lia. }
  rewrite E'. apply Ok_inj in H. destruct (bool_decide (side = Buy)); injection H as <- <-; do 2 eexists;
    (split; [reflexivity|lia]).
Qed.

(** The same for marketable buys.  Only the amounts are compared: whether the
    digits of a price fit 64 bits does not depend on its value. *)
Lemma market_buy_monotone a b a' b' :
  market_buy_amounts size price = Ok (a, b) -> market_buy_amounts size' price' = Ok (a', b') -> a <= a' /\ b <= b'.
Proof using HL Vs Vs' Vp Vp' Hs0 Hs Hp0 Hp.
  assert (Hinv : forall x y r, market_buy_amounts x y = Ok r -> exists dx dy,
    validate_price y = Ok tt /\ decimal x = Ok dx /\ decimal y = Ok dy).
  { intros x y r H. unfold market_buy_amounts in H. apply bind_ok in H as ([] & Hv & H).
    apply bind_ok in H as (dx & Hdx & H). do 2 (apply bind_ok in H as (? & _ & H)).
    apply bind_ok in H as (dy & Hdy & _). by exists dx, dy. }
  intros H H'. destruct (Hinv _ _ _ H) as (ds & dp & Hv & Hds & Hdp), (Hinv _ _ _ H') as (ds' & dp' & Hv' & Hds' & Hdp').
  rewrite (market_buy_amounts_closed size price Vs Vp ds dp Hds Hdp Hv) in H.
  rewrite (market_buy_amounts_closed size' price' Vs' Vp' ds' dp' Hds' Hdp' Hv') in H'.
  destruct (_ && _) in H; [|done]. destruct (_ && _) in H'; [|done]. injection H as <- <-. injection H' as <- <-.
  pose proof (shares_monotone ds ds' Hds Hds') as Ms.
  pose proof (wf_dval_nonneg dp (decimal_wf _ _ Vp Hdp)) as Hc. pose proof (wf_dval_nonneg dp' (decimal_wf _ _ Vp' Hdp')) as Hc'.
  pose proof (decimal_monotone _ _ _ _ Vp Vp' Hp0 Hp Hdp Hdp') as Mp.
  pose proof (decimal_exponent _ _ Vp Hdp) as Ex. pose proof (decimal_exponent _ _ Vp' Hdp') as Ex'.
  pose proof (P10_pos (exponent dp) ltac:(lia)). split; [|lia].
  rewrite <- (Z.add_0_r (exponent dp)), <- (Z.add_0_r (exponent dp')).
  apply Z.mul_le_mono_nonneg_r; [lia|]. apply round_spec_monotone; [nia|nia|lia..|].
  rewrite <- !Z.mul_assoc. apply Z.mul_le_mono_nonneg; [lia|lia|nia|lia].
Qed.
End Claims.

(** ** At most a dollar a share

    A validated price is at most one, and none of the roundings takes the cash above
    the tokens. *)

Section Dollar.
Context `{L : U256Lib} {UL : U256Laws L}.

Lemma leb_not_ltb m e c k : dbl_ltb (S754_finite false c k) (S754_finite false m e) = false ->
  dbl_leb (S754_finite false m e) (S754_finite false c k) = true.
Proof using.
  unfold dbl_leb, dbl_ltb, SFleb, SFltb, SFcompare. change (Pos.compare_cont Eq) with Pos.compare.
  destruct (Z.compare_spec k e), (Z.compare_spec e k); subst; try done; try lia.
  destruct (Pos.compare_spec c m), (Pos.compare_spec m c); subst; try done; lia.
Qed.

Lemma validated_range price : validate_price price = Ok tt -> dbl_leb dbl_zero price = true /\ dbl_leb price dbl_one = true.
Proof using.
  unfold validate_price. intros H. apply throw_if_ok in H. apply orb_false_iff in H as [H H1].
  apply orb_false_iff in H as [Hf H0]. destruct price as [[]|[]| |[] m e]; try done. split; [done|].
  by apply (leb_not_ltb m e 4503599627370496 (-52)).
Qed.

Lemma order_amounts_dollar sd size price tick a b :
  dbl_valid size = true -> dbl_valid price = true -> order_amounts sd size price tick = Ok (a, b) ->
  (sd = Buy /\ a <= b) \/ (sd = Sell /\ b <= a).
Proof using UL.
  intros Hvs Hvp H. pose proof H as H0. unfold order_amounts in H0.
  apply bind_ok in H0 as (rc & Hrc & H0). apply bind_ok in H0 as ([] & Hval & H0).
  apply bind_ok in H0 as (u & Hside & H0). apply bind_ok in H0 as (ds & Hds & H0).
  apply bind_ok in H0 as (sh & _ & H0). apply bind_ok in H0 as (dp & Hdp & _).
  apply throw_if_ok in Hside.
  assert (Hs : sd = Buy \/ sd = Sell).
  { destruct (bool_decide_reflect (sd = Buy)); [by left|]. destruct (bool_decide_reflect (sd = Sell)); [by right|done]. }
  rewrite (order_amounts_closed size price Hvs Hvp ds dp Hds Hdp sd tick rc Hrc Hval Hs) in H. cbv zeta in H.
  destruct (_ && _); [|done]. apply Ok_inj in H.
  destruct (tick_table tick rc Hrc) as (inc & TF). pose proof (tf_price _ _ _ TF) as Hk.
  pose proof (price_units_le_scale price dp (rc_price rc) Hvp Hval Hdp Hk) as Hu.
  pose proof (shares_nonneg ds (decimal_wf _ _ Hvs Hds)) as Hsh.
  assert (Hle : shares_of ds * price_units_of rc dp * 10 ^ (4 - rc_price rc) <= shares_of ds * 10000).
  { change 10000 with (10 ^ 4). replace 4 with (rc_price rc + (4 - rc_price rc)) at 2 by lia.
    rewrite pow10_add, <- Z.mul_assoc by lia. apply Z.mul_le_mono_nonneg_l; [lia|].
    apply Z.mul_le_mono_nonneg_r; [apply Z.lt_le_incl, pow10_pos; lia|exact Hu]. }
  destruct Hs as [-> | ->]; cbn in H; injection H as <- <-; auto.
Qed.

Lemma market_buy_dollar size price a b :
  dbl_valid size = true -> dbl_valid price = true -> market_buy_amounts size price = Ok (a, b) -> a <= b.
Proof using UL.
  intros Hvs Hvp H. pose proof H as H0. unfold market_buy_amounts in H0.
  apply bind_ok in H0 as ([] & Hval & H0). apply bind_ok in H0 as (ds & Hds & H0).
  apply bind_ok in H0 as (sh & _ & H0). apply bind_ok in H0 as (tk & _ & H0). apply bind_ok in H0 as (dp & Hdp & _).
  rewrite (market_buy_amounts_closed size price Hvs Hvp ds dp Hds Hdp Hval) in H. cbv zeta in H.
  destruct (_ && _); [|done]. apply Ok_inj in H. injection H as <- <-.
  destruct (decimal_price_bound price dp Hvp Hval Hdp) as [Hx _].
  assert (Hone : dval (digits dp) <= 10 ^ (- exponent dp)).
  { assert (Hle : dbl_leb dbl_zero price = true /\ dbl_leb price dbl_one = true) by (by apply validated_range).
    pose proof (decimal_monotone price dbl_one dp {| digits := "1"; exponent := 0 |} Hvp eq_refl (proj1 Hle) (proj2 Hle) Hdp
      ltac:(vm_compute; reflexivity)) as Hm. cbn [digits exponent] in Hm. change (dval "1") with 1 in Hm.
    pose proof (decimal_exponent _ _ Hvp Hdp) as He.
    replace (P10 0) with (10 ^ (- exponent dp) * P10 (exponent dp)) in Hm.
    2: { rewrite <- P10_add by lia. f_equal. lia. }
    pose proof (P10_pos (exponent dp) ltac:(lia)). nia. }
  pose proof (shares_nonneg ds (decimal_wf _ _ Hvs Hds)) as Hsh.
  apply Z.mul_le_mono_nonneg_r; [lia|]. pose proof (wf_dval_nonneg dp (decimal_wf _ _ Hvp Hdp)) as Hc.
  unfold round_spec. destruct (Z.leb_spec 0 (exponent dp)).
  - replace (exponent dp) with 0 in * by lia. cbn in *. nia.
  - pose proof (pow10_pos (- exponent dp) ltac:(lia)). apply Z.lt_succ_r, Z.div_lt_upper_bound; nia.
Qed.

Lemma protected_dollar size price tick a b :
  dbl_valid size = true -> dbl_valid price = true -> protected_market_buy_amounts size price tick = Ok (a, b) -> a <= b.
Proof using UL.
  intros Hvs Hvp H. destruct (protected_inv _ _ _ _ _ Hvs Hvp H) as (rc & inc & p & sh & cents & [_ TF Hr _ _ _ _ _ _ [Ha Hb] Hu]).
  pose proof (pow10_pos (rc_price rc) ltac:(pose proof (tf_price _ _ _ TF); lia)). nia.
Qed.
End Dollar.

(** Ten shares at 0.5 against twelve and a half at 0.517. *)
Lemma order_amounts_monotone_witness :
  exists a b, order_amounts Buy (lit "10") (lit "0.5") "0.001" = Ok (a, b) /\ a <= 6462500 /\ b <= 12500000.
Proof.
  apply (order_amounts_monotone (lit "10") (lit "12.5") (lit "0.5") (lit "0.517")); vm_compute; reflexivity.
Defined.
