(* ===== verification/Keys.v ===== *)
(** * Hex codec and signing keys ([src/pm/keys.cpp], [keys.hpp], [types.hpp])

    The hexadecimal printer and parser, the length-checked address and key
    parsers, and the wrappers around the ECDSA library. *)

From Stdlib Require Import Ascii String ZArith Lia.
From Stdlib Require Import Strings.Byte.
From stdpp Require Import base list strings numbers.
From S2P Require Import Prelude Interfaces Keccak.

Open Scope Z_scope.

(** ** Hexadecimal text *)

(** [digits[i]] of the table ["0123456789abcdef"]. *)
Definition hex_digits : string := "0123456789abcdef".
Definition hex_digit (i : Z) : ascii :=
  match String.get (Z.to_nat i) hex_digits with Some c => c | None => "0"%char end.

Fixpoint to_hex (data : Bytes) : string :=
  match data with
  | [] => ""
  | b :: rest =>
      String (hex_digit (Z.shiftr (byte_Z b) 4)) (String (hex_digit (Z.land (byte_Z b) 15)) (to_hex rest))
  end.
Definition to_hex0x (data : Bytes) : string := "0x" +:+ to_hex data.

Definition nib (c : ascii) : Z :=
  if (48 <=? code c) && (code c <=? 57) then code c - 48
  else if (97 <=? code c) && (code c <=? 102) then code c - 97 + 10
  else if (65 <=? code c) && (code c <=? 70) then code c - 65 + 10
  else -1.

(** The loop over pairs; a lone last character cannot be reached, the caller
    has checked that the length is even. *)
Fixpoint from_hex_loop (hex : string) : result Bytes :=
  match hex with
  | String a (String b rest) =>
      let hi := nib a in
      let lo := nib b in
      throw_if ((hi <? 0) || (lo <? 0)) (InvalidArgument "from_hex: bad character");;
      out ← from_hex_loop rest;
      Ok (Z_byte (Z.lor (Z.shiftl hi 4) lo) :: out)
  | String _ EmptyString => Throw (OutOfRange "from_hex")
  | EmptyString => Ok []
  end.

Definition strip_0x (hex : string) : string :=
  if starts_with "0x" hex || starts_with "0X" hex then str_drop 2 hex else hex.

Definition from_hex (hex : string) : result Bytes :=
  let hex := strip_0x hex in
  throw_if (negb (slen hex mod 2 =? 0)) (InvalidArgument "from_hex: odd length");;
  from_hex_loop hex.

Definition eth_address_from_hex (hex : string) : result Bytes :=
  b ← from_hex hex;
  throw_if (negb (length b =? 20)%nat) (InvalidArgument "EthAddress: need 20 bytes");;
  Ok b.

(** ** Keys *)

Record PrivKey := { k_ : Bytes }.

Definition PrivKey_from_hex (hex : string) : result PrivKey :=
  b ← from_hex hex;
  throw_if (negb (length b =? 32)%nat) (InvalidArgument "PrivKey: need 32 bytes");;
  Ok {| k_ := b |}.

Section Keys.
Context `{EI : Eip712Lib} `{EC : EcdsaLib}.

(** The last 20 bytes of the hash of the 64-byte point. *)
Definition address_of_pub (pub : Bytes) : Bytes := drop 12 (keccak256 (drop 1 pub)).

Definition address (key : PrivKey) : Bytes := address_of_pub (ecdsa_get_public_key65 (k_ key)).

Definition sign_digest (key : PrivKey) (digest : Bytes) : result Bytes :=
  match ecdsa_sign_digest (k_ key) digest with
  | Some (sig, pby) => Ok (take 64 sig ++ [Z_byte (27 + pby)])
  | None => Throw (RuntimeError "ecdsa_sign_digest failed")
  end.

Definition recover_eth_address (sig digest : Bytes) : result Bytes :=
  let v := match sig !! 64%nat with Some b => byte_Z b | None => 0 end in
  throw_if (v <? 27) (InvalidArgument "recover: v must be 27/28");;
  match ecdsa_recover_pub_from_sig (take 64 sig) digest (v - 27) with
  | Some pub => Ok (address_of_pub pub)
  | None => Throw (RuntimeError "recover: invalid signature")
  end.
End Keys.

(** ** Nibbles *)

Definition lower (c : ascii) : ascii :=
  if (65 <=? code c) && (code c <=? 90) then chr (code c + 32) else c.
Definition is_hex (c : ascii) : bool := 0 <=? nib c.

Lemma nib_digit i : 0 <= i < 16 -> nib (hex_digit i) = i.
Proof.
  intros H. assert (E : In i (map Z.of_nat (seq 0 16))).
  { rewrite in_map_iff. exists (Z.to_nat i). rewrite in_seq. lia. }
  cbn in E. by repeat destruct E as [<-|E].
Qed.

Lemma hex_digit_nib c : is_hex c = true -> hex_digit (nib c) = lower c.
Proof. destruct c as [[] [] [] [] [] [] [] []]; vm_compute; congruence. Qed.

Lemma nib_range c : is_hex c = true -> 0 <= nib c < 16.
Proof. unfold is_hex, nib. repeat case_match; repeat inv_ok_step; lia. Qed.

Lemma nibbles b : 0 <= Z.shiftr (byte_Z b) 4 < 16 /\ 0 <= Z.land (byte_Z b) 15 < 16
  /\ Z_byte (Z.lor (Z.shiftl (Z.shiftr (byte_Z b) 4) 4) (Z.land (byte_Z b) 15)) = b.
Proof. destruct b; vm_compute; repeat split; congruence. Qed.

(** A pair of nibbles and the byte they make. *)
Lemma byte_of_nibbles h l : 0 <= h < 16 -> 0 <= l < 16 ->
  Z.shiftr (byte_Z (Z_byte (Z.lor (Z.shiftl h 4) l))) 4 = h
  /\ Z.land (byte_Z (Z_byte (Z.lor (Z.shiftl h 4) l))) 15 = l.
Proof.
  assert (HH : forall n, In n (seq 0 16) -> forall m, In m (seq 0 16) ->
    let z := Z.lor (Z.shiftl (Z.of_nat n) 4) (Z.of_nat m) in
    Z.shiftr (byte_Z (Z_byte z)) 4 = Z.of_nat n /\ Z.land (byte_Z (Z_byte z)) 15 = Z.of_nat m).
  { intros n Hn m Hm. cbn in Hn, Hm.
    repeat destruct Hn as [<-|Hn]; try done; repeat destruct Hm as [<-|Hm]; try done; vm_compute; done. }
  intros Hh Hl. specialize (HH (Z.to_nat h) ltac:(apply in_seq; lia) (Z.to_nat l) ltac:(apply in_seq; lia)).
  by rewrite !Z2Nat.id in HH by lia.
Qed.

Lemma from_hex_to_hex data : from_hex_loop (to_hex data) = Ok data.
Proof.
  induction data as [|b data IH]; [done|]. cbn [to_hex from_hex_loop]. destruct (nibbles b) as (H1 & H2 & H3).
  cbv zeta. rewrite !nib_digit, (proj2 (Z.ltb_ge _ 0)), (proj2 (Z.ltb_ge _ 0)) by lia. cbn [orb throw_if].
  rewrite IH. cbn. by rewrite H3.
Qed.

Lemma slen_to_hex data : slen (to_hex data) = 2 * Z.of_nat (length data).
Proof. induction data as [|b data IH]; [done|]. cbn [to_hex]. slen_norm. rewrite IH. cbn [length]. lia. Qed.

Lemma string_pair_ind (P : string -> Prop) :
  P "" -> (forall a, P (String a "")) -> (forall a b s, P s -> P (String a (String b s))) -> forall s, P s.
Proof.
  intros H0 H1 H2. assert (H : forall s, P s /\ forall a, P (String a s)).
  { induction s as [|c s [IH1 IH2]]; auto. }
  intros s. apply H.
Qed.

(** What the loop accepts, and what it returns. *)
Lemma from_hex_loop_spec s :
  slen s mod 2 = 0 ->
  (exists data, from_hex_loop s = Ok data /\ str_all is_hex s = true /\ to_hex data = str_map lower s)
  \/ (from_hex_loop s = Throw (InvalidArgument "from_hex: bad character") /\ str_all is_hex s = false).
Proof.
  induction s as [|a|a b s IH] using string_pair_ind; intros Hlen.
  - left. by exists [].
  - done.
  - assert (Hl : slen s mod 2 = 0).
    { rewrite <- Hlen. slen_norm. replace (1 + (1 + slen s)) with (slen s + 1 * 2) by lia. by rewrite Z.mod_add. }
    cbn [from_hex_loop str_all str_map]. cbv zeta.
    assert (Hn : forall c, (nib c <? 0) = negb (is_hex c)).
    { intros c. unfold is_hex. rewrite Z.leb_antisym. by rewrite negb_involutive. }
    rewrite !Hn. destruct (is_hex a) eqn:Ea; [|by right]. destruct (is_hex b) eqn:Eb; [|by right].
    cbn [negb orb throw_if andb mbind result_bind].
    destruct (IH Hl) as [(data & -> & Hs & Hd)|[-> Hs]]; [left|by right].
    eexists. split; [done|]. split; [done|]. cbn [to_hex].
    pose proof (nib_range a Ea) as Ra. pose proof (nib_range b Eb) as Rb.
    destruct (byte_of_nibbles _ _ Ra Rb) as [-> ->]. by rewrite !hex_digit_nib, Hd.
Qed.

Lemma hex_round_trip_left data : from_hex (to_hex0x data) = Ok data.
Proof.
  unfold from_hex, to_hex0x, strip_0x. rewrite starts_with_app. cbn [orb].
  change (str_drop 2 ("0x" +:+ to_hex data)) with (to_hex data).
  cbv zeta. rewrite slen_to_hex, Z.mul_comm, Z.mod_mul by lia. apply from_hex_to_hex.
Qed.

Lemma to_hex0x_inj a b : to_hex0x a = to_hex0x b -> a = b.
Proof. intros H. apply (f_equal from_hex) in H. rewrite !hex_round_trip_left in H. by apply Ok_inj in H. Qed.

(** Shared by every caller of [sign_digest]. *)
Lemma signed_recovers `{EI : Eip712Lib} `{EcdsaLaws} key digest sig :
  sign_digest key digest = Ok sig ->
  length sig = 65%nat /\ recover_eth_address sig digest = Ok (address key).
Proof.
  unfold sign_digest. destruct (ecdsa_sign_digest (k_ key) digest) as [[s pby]|] eqn:E; [|done].
  intros [= <-]. destruct (ecdsa_sign_shape _ _ _ _ E) as [Hl Hp]. rewrite take_ge by lia.
  split; [rewrite length_app; cbn; lia|]. unfold recover_eth_address.
  rewrite lookup_app_r by lia. rewrite Hl. cbn [Nat.sub lookup list_lookup].
  rewrite byte_Z_of. unfold u8. rewrite Z.mod_small by lia. cbv zeta.
  rewrite (proj2 (Z.ltb_ge _ 27)) by lia. cbn [throw_if mbind result_bind].
  rewrite take_app_length' by done. replace (27 + pby - 27) with pby by lia.
  by rewrite (ecdsa_recover_sign _ _ _ _ E).
Qed.

(** ** The properties *)

(** Printing bytes and parsing the text gives the bytes back, whatever
    they are; conversely a text is accepted exactly when, its optional 0x
    prefix aside, it is an even number of hex digits, and printing the parsed
    bytes gives the text in lower case. *)
Theorem hex_round_trip (data : Bytes) (hex : string) :
  from_hex (to_hex0x data) = Ok data
  /\ (is_ok (from_hex hex) = true <->
      slen (strip_0x hex) mod 2 = 0 /\ str_all is_hex (strip_0x hex) = true)
  /\ (forall out, from_hex hex = Ok out -> to_hex0x out = "0x" +:+ str_map lower (strip_0x hex)).
Proof.
  split; [apply hex_round_trip_left|].
  unfold from_hex. cbv zeta. destruct (Z.eqb_spec (slen (strip_0x hex) mod 2) 0) as [E|E]; cbn.
  - destruct (from_hex_loop_spec (strip_0x hex) E) as [(d & -> & Hs & Hd)|[-> Hs]]; cbn.
    + split; [done|]. intros out [= <-]. unfold to_hex0x. cbn. by rewrite Hd.
    + split; [|done]. rewrite Hs. split; [done|]. by intros [_ ?].
  - split; [|done]. split; [done|]. by intros [? _].
Qed.

(** The private key and address of [pm_test.cpp]'s key tests. *)
Example short_key_rejected :
  PrivKey_from_hex "abcd" = Throw (InvalidArgument "PrivKey: need 32 bytes")
  /\ eth_address_from_hex "0x1234" = Throw (InvalidArgument "EthAddress: need 20 bytes").
Proof. split; reflexivity. Qed.
