(* ===== verification/Signing.v ===== *)
(** * Order signing ([src/pm/signing.cpp], [signing.hpp])

    The EIP-712 digests of a V2 order and of the CLOB attestation, and the
    ERC-1271 wrapper of a deposit wallet.  Hash and encoders are the external
    interface; the test vectors are evaluated with the reference Keccak. *)

From Stdlib Require Import Ascii String ZArith Lia.
From Stdlib Require Import Strings.Byte.
From stdpp Require Import base list strings numbers.
From S2P Require Import Prelude Interfaces Keccak Eip712Spec Keys Amounts.

Open Scope Z_scope.

(** ** Chain constants *)

Definition kChainId : Z := 137.
Definition kExchangeV2 : string := "0xE111180000d2663C0091e4f400237545B87B996B".
Definition kNegRiskExchangeV2 : string := "0xe2222d279d744050d28e00520010520000310F59".
Definition kExchangeV3 : string := "0xe3333700CA9D93003F00f0f71F8515005F6c00AA".
Definition kPositionManager : string := "0x006f54F7F9A22E0000CC2ab60031000000aE9Fef".

(** A scoped enumeration over [uint8_t]: the two enumerators, and any other
    value a cast can produce. *)
Inductive OrderProtocol := ctf_v2 | position_v3 | unnamed_protocol (v : Z).
#[export] Instance OrderProtocol_eq_dec : EqDecision OrderProtocol.
Proof. solve_decision. Defined.

Definition kOrderTypeString : string :=
  "Order(uint256 salt,address maker,address signer,uint256 tokenId," +:+
  "uint256 makerAmount,uint256 takerAmount,uint8 side," +:+
  "uint8 signatureType,uint256 timestamp,bytes32 metadata," +:+
  "bytes32 builder)".

Definition side_u8 (s : Side) : Z := match s with Buy => 0 | Sell => 1 | OtherSide raw => raw end.

(** ** Orders *)

Record OrderV2 `{U256Lib} := {
  salt : Z;
  maker : Bytes;
  signer : Bytes;
  token_id : U256;
  maker_amount : Z;
  taker_amount : Z;
  side : Side;
  signature_type : Z;
  timestamp_ms : Z;
  metadata : Bytes;
  builder : Bytes;
}.

Section Signing.
Context `{EI : Eip712Lib} `{EC : EcdsaLib}.

Definition keccak_string (s : string) : Bytes := keccak256 (bytes_of_string s).

Definition exchange_domain (protocol : OrderProtocol) (neg_risk : bool) : result Bytes :=
  v2 ← eth_address_from_hex kExchangeV2;
  nr ← eth_address_from_hex kNegRiskExchangeV2;
  v3 ← eth_address_from_hex kExchangeV3;
  let kDomain := domain_separator "Polymarket CTF Exchange" "2" kChainId v2 in
  let kDomainNegRisk := domain_separator "Polymarket CTF Exchange" "2" kChainId nr in
  let kPositionDomain := domain_separator "Polymarket CTF Exchange" "3" kChainId v3 in
  if bool_decide (protocol = position_v3) then Ok kPositionDomain
  else
    throw_if (negb (bool_decide (protocol = ctf_v2))) (InvalidArgument "pm: unsupported order protocol");;
    Ok (if neg_risk then kDomainNegRisk else kDomain).

Definition exchange_domain_v2 (neg_risk : bool) : result Bytes := exchange_domain ctf_v2 neg_risk.

(** The buffer that is hashed, field after field. *)
Definition order_buffer (o : OrderV2) : Bytes :=
  let kTypeHash := keccak_string kOrderTypeString in
  let buf := append_word [] kTypeHash in
  let buf := append_u64 buf (salt o) in
  let buf := append_address buf (maker o) in
  let buf := append_address buf (signer o) in
  let buf := append_u256 buf (token_id o) in
  let buf := append_u64 buf (maker_amount o) in
  let buf := append_u64 buf (taker_amount o) in
  let buf := append_u8 buf (side_u8 (side o)) in
  let buf := append_u8 buf (signature_type o) in
  let buf := append_u64 buf (timestamp_ms o) in
  let buf := append_word buf (metadata o) in
  append_word buf (builder o).

Definition order_struct_hash_v2 (o : OrderV2) : Bytes := keccak256 (order_buffer o).

Definition order_digest (o : OrderV2) (protocol : OrderProtocol) (neg_risk : bool) : result Bytes :=
  d ← exchange_domain protocol neg_risk;
  Ok (typed_digest d (order_struct_hash_v2 o)).

Definition order_digest_v2 (o : OrderV2) (neg_risk : bool) : result Bytes := order_digest o ctf_v2 neg_risk.

Definition sign_order (key : PrivKey) (o : OrderV2) (protocol : OrderProtocol) (neg_risk : bool) : result Bytes :=
  d ← order_digest o protocol neg_risk;
  sign_digest key d.

Definition sign_order_v2 (key : PrivKey) (o : OrderV2) (neg_risk : bool) : result Bytes :=
  d ← order_digest_v2 o neg_risk;
  sign_digest key d.

(** The nested struct of [sign_order_1271]. *)
Definition typed_data_sign_hash (contents_hash wallet : Bytes) : Bytes :=
  let kTypedDataSignHash := keccak_string
    ("TypedDataSign(Order contents,string name,string version," +:+
     "uint256 chainId,address verifyingContract,bytes32 salt)" +:+ kOrderTypeString) in
  let kNameHash := keccak_string "DepositWallet" in
  let kVersionHash := keccak_string "1" in
  let buf := append_word [] kTypedDataSignHash in
  let buf := append_word buf contents_hash in
  let buf := append_word buf kNameHash in
  let buf := append_word buf kVersionHash in
  let buf := append_u64 buf kChainId in
  let buf := append_address buf wallet in
  let buf := append_word buf (repeat x00 32) in
  keccak256 buf.

Definition sign_order_1271 (owner_key : PrivKey) (o : OrderV2) (wallet : Bytes)
    (protocol : OrderProtocol) (neg_risk : bool) : result Bytes :=
  let contents_hash := order_struct_hash_v2 o in
  app_domain ← exchange_domain protocol neg_risk;
  let tds_hash := typed_data_sign_hash contents_hash wallet in
  let digest := typed_digest app_domain tds_hash in
  inner ← sign_digest owner_key digest;
  let type_str := bytes_of_string kOrderTypeString in
  let size := Z.of_nat (length type_str) in
  Ok (inner ++ app_domain ++ contents_hash ++ type_str
      ++ [Z_byte (Z.shiftr size 8)] ++ [Z_byte (Z.land size 255)]).

Definition sign_order_v2_1271 (owner_key : PrivKey) (o : OrderV2) (wallet : Bytes) (neg_risk : bool) : result Bytes :=
  sign_order_1271 owner_key o wallet ctf_v2 neg_risk.

Definition clob_auth_digest (address : Bytes) (timestamp_s nonce : Z) : Bytes :=
  let kTypeHash := keccak_string
    ("ClobAuth(address address,string timestamp,uint256 nonce," +:+ "string message)") in
  let kMsgHash := keccak_string "This message attests that I control the given wallet" in
  let buf := append_word [] kTypeHash in
  let buf := append_address buf address in
  let buf := append_word buf (keccak_string (to_string timestamp_s)) in
  let buf := append_u64 buf nonce in
  let buf := append_word buf kMsgHash in
  let struct_hash := keccak256 buf in
  let kDomain := domain_separator_nvc "ClobAuthDomain" "1" kChainId in
  typed_digest kDomain struct_hash.

Definition sign_clob_auth (key : PrivKey) (address : Bytes) (timestamp_s nonce : Z) : result Bytes :=
  sign_digest key (clob_auth_digest address timestamp_s nonce).
End Signing.

(** ** The vectors of the test suite *)

Module Vectors.
Definition get {A} (d : A) (r : result A) : A := match r with Ok a => a | Throw _ => d end.
Definition wallet : Bytes := get [] (eth_address_from_hex "0x70997970C51812dc3A010C7d01b50e0d17dc79C8").
Definition golden_order : @OrderV2 u256_reference :=
  @Build_OrderV2 u256_reference 479249096354 wallet wallet
    11015470973684177829729219287262166995141226048267452380376916846738070274970
    12345678 23456789 Buy 0 1752900000000 (repeat x00 32) (repeat x00 32).

Example struct_hash_vector :
  to_hex (order_struct_hash_v2 golden_order)
  = "3dbe7deb28c61b44108024ca66c022f3cfa238b9748110020f49a5af1d8ae99e".
Proof. vm_compute. reflexivity. Qed.

Example digest_vectors :
  to_hex <$> order_digest_v2 golden_order false
    = Ok "178ebeb04fcf7289a65eb078edaf4e88d3fd09cbb469fff4f4be561b2ac89897"
  /\ to_hex <$> order_digest_v2 golden_order true
    = Ok "2bf3e4087e053a06ae3ab3efd43a4ee2997afedd5ea7daa8a99234d18da2c0c3".
Proof. split; vm_compute; reflexivity. Qed.
End Vectors.

(** ** What a digest commits to *)

Definition side_ok (s : Side) : Prop := match s with OtherSide r => 2 <= r < 256 | _ => True end.

(** The ranges of the C++ field types. *)
Record order_ok `{U256Lib} (o : OrderV2) : Prop := {
  ok_salt : in_u64 (salt o);
  ok_maker : length (maker o) = 20%nat;
  ok_signer : length (signer o) = 20%nat;
  ok_maker_amount : in_u64 (maker_amount o);
  ok_taker_amount : in_u64 (taker_amount o);
  ok_side : side_ok (side o);
  ok_signature_type : 0 <= signature_type o < 256;
  ok_timestamp : in_u64 (timestamp_ms o);
  ok_metadata : length (metadata o) = 32%nat;
  ok_builder : length (builder o) = 32%nat;
}.

(** The same order: a [U256] is its 32 bytes. *)
Definition same_order `{U256Lib} (o o' : OrderV2) : Prop :=
  salt o = salt o' /\ maker o = maker o' /\ signer o = signer o'
  /\ u256_be (token_id o) = u256_be (token_id o')
  /\ maker_amount o = maker_amount o' /\ taker_amount o = taker_amount o'
  /\ side o = side o' /\ signature_type o = signature_type o'
  /\ timestamp_ms o = timestamp_ms o' /\ metadata o = metadata o' /\ builder o = builder o'.

(** Version string and contract a digest is bound to. *)
Definition exchange_of (p : OrderProtocol) (neg_risk : bool) : string * string :=
  match p with
  | position_v3 => ("3", kExchangeV3)
  | _ => ("2", if neg_risk then kNegRiskExchangeV2 else kExchangeV2)
  end.

Lemma side_u8_range s : side_ok s -> 0 <= side_u8 s < 256.
Proof. destruct s; cbn; lia. Qed.

Lemma side_u8_inj s s' : side_ok s -> side_ok s' -> side_u8 s = side_u8 s' -> s = s'.
Proof. destruct s, s'; cbn; try done; try lia. by intros _ _ ->. Qed.

(** Split an equation between concatenations of fields of equal size. *)
Ltac split_fields H :=
  repeat (let H1 := fresh "Hf" in
    apply list_app_inj_length in H as [H1 H];
    [|rewrite ?length_word_of, ?keccak256_length, ?length_address_word, ?u256_be_length by done; congruence]).

Section Commitment.
Context `{L : U256Lib} {E : @Eip712Lib L} `{UL : !U256Laws L} `{EL : !Eip712Laws L E}.

Definition collides (m m' : Bytes) : Prop := m <> m' /\ keccak256 m = keccak256 m'.

Lemma collides_or_eq m m' : keccak256 m = keccak256 m' -> m = m' \/ collides m m'.
Proof using. intros H. destruct (decide (m = m')); [by left|by right]. Qed.

Lemma order_buffer_eq o : order_ok o ->
  order_buffer o = keccak_string kOrderTypeString ++ word_of (salt o) ++ address_word (maker o)
    ++ address_word (signer o) ++ u256_be (token_id o) ++ word_of (maker_amount o)
    ++ word_of (taker_amount o) ++ word_of (side_u8 (side o)) ++ word_of (signature_type o)
    ++ word_of (timestamp_ms o) ++ metadata o ++ builder o.
Proof using EL.
  intros []. pose proof (side_u8_range _ ok_side0). unfold order_buffer.
  rewrite !append_word_eq, !append_u64_eq, !append_u8_eq, !append_address_eq, !append_u256_eq by done.
  by rewrite <- !app_assoc.
Qed.

Lemma order_buffer_inj o o' : order_ok o -> order_ok o' -> order_buffer o = order_buffer o' -> same_order o o'.
Proof using EL UL.
  intros Ho Ho' H. rewrite !order_buffer_eq in H by done. destruct Ho, Ho'.
  unfold keccak_string in H. split_fields H.
  assert (Hu8 : forall z, 0 <= z < 256 -> in_u64 z) by (unfold in_u64; lia).
  repeat split; try done; try (by apply word_of_inj; auto); try by apply address_word_inj.
  apply side_u8_inj; [done..|]. apply word_of_inj; auto using side_u8_range.
Qed.

(** The encoded domain struct of an exchange, and the text under a digest. *)
Definition exchange_address (x : string * string) : Bytes := Vectors.get [] (eth_address_from_hex (snd x)).
Definition domain_buffer (x : string * string) : Bytes :=
  keccak_string domain_type ++ keccak_string "Polymarket CTF Exchange" ++ keccak_string (fst x)
    ++ word_of kChainId ++ address_word (exchange_address x).
Definition digest_buffer (x : string * string) (struct_hash : Bytes) : Bytes :=
  [x19; x01] ++ keccak256 (domain_buffer x) ++ struct_hash.

Lemma exchange_domain_eq p nr :
  exchange_domain p nr =
    match p with
    | unnamed_protocol _ => Throw (InvalidArgument "pm: unsupported order protocol")
    | _ => Ok (keccak256 (domain_buffer (exchange_of p nr)))
    end.
Proof using EL.
  unfold exchange_domain.
  rewrite (eq_refl : eth_address_from_hex kExchangeV2 = Ok (exchange_address ("2", kExchangeV2))).
  rewrite (eq_refl : eth_address_from_hex kNegRiskExchangeV2 = Ok (exchange_address ("2", kNegRiskExchangeV2))).
  rewrite (eq_refl : eth_address_from_hex kExchangeV3 = Ok (exchange_address ("3", kExchangeV3))).
  cbn [mbind result_bind]. cbv zeta. rewrite !domain_separator_eq by (unfold in_u64, kChainId; lia).
  destruct p, nr; done.
Qed.

Lemma order_digest_eq o p nr h :
  order_digest o p nr = Ok h -> h = keccak256 (digest_buffer (exchange_of p nr) (order_struct_hash_v2 o)).
Proof using EL.
  unfold order_digest. rewrite exchange_domain_eq. destruct p; cbn; [|..]; try done;
    intros [= <-]; by rewrite typed_digest_eq.
Qed.

Lemma exchange_address_length p nr : length (exchange_address (exchange_of p nr)) = 20%nat.
Proof using. destruct p, nr; reflexivity. Qed.

(** The three exchanges have three addresses. *)
Lemma exchange_address_inj p nr p' nr' :
  exchange_address (exchange_of p nr) = exchange_address (exchange_of p' nr') ->
  exchange_of p nr = exchange_of p' nr'.
Proof using. destruct p, nr, p', nr'; try done; vm_compute; congruence. Qed.
End Commitment.

(** ** The messages, as typed data

    The structs the header names, in the terms of the standard, and the
    values a call fills them with. *)
Definition order_struct : StructType :=
  {| struct_name := "Order";
     members := [(TUint 256, "salt"); (TAddress, "maker"); (TAddress, "signer"); (TUint 256, "tokenId");
                 (TUint 256, "makerAmount"); (TUint 256, "takerAmount"); (TUint 8, "side");
                 (TUint 8, "signatureType"); (TUint 256, "timestamp"); (TBytes32, "metadata");
                 (TBytes32, "builder")] |}.

Definition order_value `{U256Lib} (o : OrderV2) : TypedValue :=
  VStruct [VUint (salt o); VAddress (maker o); VAddress (signer o); VUint (u256_val (token_id o));
           VUint (maker_amount o); VUint (taker_amount o); VUint (side_u8 (side o));
           VUint (signature_type o); VUint (timestamp_ms o); VBytes32 (metadata o); VBytes32 (builder o)].

(** Solady's nested struct: the contents, then the wallet's own domain. *)
Definition nested_struct : StructType :=
  {| struct_name := "TypedDataSign";
     members := [(TStruct "Order", "contents"); (TString, "name"); (TString, "version");
                 (TUint 256, "chainId"); (TAddress, "verifyingContract"); (TBytes32, "salt")] |}.
Definition nested_types : Schema := [order_struct; nested_struct].
Definition nested_value (contents : TypedValue) (wallet : Bytes) : TypedValue :=
  VStruct [contents; VString "DepositWallet"; VString "1"; VUint 137; VAddress wallet; VBytes32 (repeat x00 32)].

Definition clob_auth_struct : StructType :=
  {| struct_name := "ClobAuth";
     members := [(TAddress, "address"); (TString, "timestamp"); (TUint 256, "nonce"); (TString, "message")] |}.
Definition clob_auth_value (address : Bytes) (timestamp_s nonce : Z) : TypedValue :=
  VStruct [VAddress address; VString (to_string timestamp_s); VUint nonce;
           VString "This message attests that I control the given wallet"].

(** ** The wallet's side of the 1271 wrapper

    A reading of the layout the header of [sign_order_v2_1271] describes: the
    last two bytes are the length of the type string, before it lie the
    contents hash, the application domain and the owner's signature.  The check
    holds when the hash asked about is the digest of the two and the owner signed
    the nested typed data, hashed here by the standard's encoding. *)
Section Wallet.
Context `{EI : Eip712Lib} `{EC : EcdsaLib}.

Definition verify_1271 (owner wallet hash sig : Bytes) : bool :=
  let n := length sig in
  let size := Z.to_nat (be_val (drop (n - 2) sig)) in
  let body := take (n - 2 - size) sig in
  let type_str := take size (drop (n - 2 - size) sig) in
  let inner := take 65 body in
  let app_domain := take 32 (drop 65 body) in
  let contents := drop 97 body in
  (length body =? 129)%nat
  && bool_decide (Some type_str = bytes_of_string <$> encode_type [order_struct] "Order")
  && bool_decide (keccak256 ([x19; x01] ++ app_domain ++ contents) = hash)
  && match hash_struct nested_types "TypedDataSign" (nested_value (VHashed contents) wallet) with
     | None => false
     | Some nested =>
         match recover_eth_address inner (keccak256 ([x19; x01] ++ app_domain ++ nested)) with
         | Ok a => bool_decide (a = owner)
         | Throw _ => false
         end
     end.
End Wallet.

Lemma take_drop_exact {A} (a b c : list A) n m :
  length a = n -> length b = m -> take m (drop n (a ++ b ++ c)) = b.
Proof. intros <- <-. by rewrite drop_app_length, take_app_length. Qed.

Lemma order_type_size : Z.of_nat (length (bytes_of_string kOrderTypeString)) = 186.
Proof. reflexivity. Qed.

Section SigningClaims.
Context `{L : U256Lib} {E : @Eip712Lib L} {UL : U256Laws L} {EL : Eip712Laws L E}.

(** The texts hashed for two orders, when two of them share a hash. *)
Definition order_collision (o o' : OrderV2) (p p' : OrderProtocol) (nr nr' : bool) : Prop :=
  collides (order_buffer o) (order_buffer o')
  \/ collides (domain_buffer (exchange_of p nr)) (domain_buffer (exchange_of p' nr'))
  \/ collides (digest_buffer (exchange_of p nr) (order_struct_hash_v2 o))
              (digest_buffer (exchange_of p' nr') (order_struct_hash_v2 o')).

Lemma order_digest_inj o o' p p' nr nr' h :
  order_ok o -> order_ok o' -> order_digest o p nr = Ok h -> order_digest o' p' nr' = Ok h ->
  (same_order o o' /\ exchange_of p nr = exchange_of p' nr') \/ order_collision o o' p p' nr nr'.
Proof using EL UL.
  intros Ho Ho' H%order_digest_eq H'%order_digest_eq. rewrite H in H'. unfold order_collision.
  destruct (collides_or_eq _ _ H') as [Hd|Hc]; [|by auto]. unfold digest_buffer in Hd.
  apply app_inv_head in Hd. split_fields Hd.
  destruct (collides_or_eq _ _ Hf) as [Hdom|Hc]; [|by auto].
  destruct (collides_or_eq _ _ Hd) as [Hbuf|Hc]; [|by auto]. left.
  split; [by apply order_buffer_inj|]. unfold domain_buffer, keccak_string in Hdom.
  split_fields Hdom. by apply exchange_address_inj.
Qed.

(** C7: a digest commits to the whole order and to the exchange.  If two
    orders, with any protocol and neg-risk flag each, have the same digest, then
    all eleven fields agree and both are bound to the same exchange contract and
    version, unless the two struct encodings, the two domain encodings or the
    two digest preimages are themselves a Keccak collision. *)
Theorem order_digest_commits o o' p p' nr nr' h :
  order_ok o -> order_ok o' ->
  order_digest o p nr = Ok h -> order_digest o' p' nr' = Ok h ->
  (same_order o o' /\ exchange_of p nr = exchange_of p' nr')
  \/ collides (order_buffer o) (order_buffer o')
  \/ collides (domain_buffer (exchange_of p nr)) (domain_buffer (exchange_of p' nr'))
  \/ collides (digest_buffer (exchange_of p nr) (order_struct_hash_v2 o))
              (digest_buffer (exchange_of p' nr') (order_struct_hash_v2 o')).
Proof using EL UL. apply order_digest_inj. Qed.

Lemma typed_data_sign_spec contents w h :
  hash_struct nested_types "Order" contents = Some h ->
  hash_struct nested_types "TypedDataSign" (nested_value contents w) = Some (typed_data_sign_hash h w).
Proof using EL.
  intros Hc. unfold typed_data_sign_hash.
  rewrite !append_word_eq, append_u64_eq, append_address_eq by (unfold in_u64, kChainId; lia).
  rewrite <- !app_assoc. eapply hash_struct_eq; [reflexivity|reflexivity|].
  encode_fields; [exact Hc|done].
Qed.

(** Shared by the callers of [sign_order_1271]. *)
Lemma sign_order_1271_accepted `{EC : EcdsaLib} {ECL : EcdsaLaws EC} key o wallet p nr sig h :
  sign_order_1271 key o wallet p nr = Ok sig -> order_digest o p nr = Ok h ->
  length sig = 317%nat /\ verify_1271 (address key) wallet h sig = true.
Proof using EL.
  unfold sign_order_1271, order_digest. cbv zeta. intros Hs Hd.
  apply bind_ok in Hs as (dom & Hdom & Hs). rewrite Hdom in Hd. cbn in Hd. apply Ok_inj in Hd.
  apply bind_ok in Hs as (inner & Hin & Hs). apply Ok_inj in Hs.
  assert (Hdl : length dom = 32%nat).
  { rewrite exchange_domain_eq in Hdom. destruct p; try done; apply Ok_inj in Hdom; subst dom;
      apply keccak256_length. }
  destruct (signed_recovers key _ _ Hin) as [Hl Hr].
  set (type_str := bytes_of_string kOrderTypeString) in *.
  assert (Ht : length type_str = 186%nat) by reflexivity.
  set (contents := order_struct_hash_v2 o) in *.
  assert (Hcl : length contents = 32%nat) by apply keccak256_length.
  set (body := inner ++ dom ++ contents).
  assert (Hb : length body = 129%nat) by (unfold body; rewrite !length_app; lia).
  set (tail := [Z_byte (Z.shiftr (Z.of_nat (length type_str)) 8)]
               ++ [Z_byte (Z.land (Z.of_nat (length type_str)) 255)]) in *.
  assert (Htl : length tail = 2%nat) by reflexivity.
  assert (Hsz : Z.to_nat (be_val tail) = 186%nat) by reflexivity.
  assert (Hsig : sig = body ++ type_str ++ tail) by (subst sig; unfold body; by rewrite <- !app_assoc).
  assert (Hn : length sig = 317%nat) by (rewrite Hsig, !length_app; lia).
  split; [done|]. unfold verify_1271. rewrite Hn, Hsig. cbv zeta.
  replace (drop (317 - 2) (body ++ type_str ++ tail)) with tail
    by (rewrite app_assoc, drop_app_length'; [done|rewrite length_app; lia]).
  rewrite Hsz. change (317 - 2 - 186)%nat with 129%nat.
  rewrite take_app_length', take_drop_exact, Hb by done. unfold body.
  rewrite take_app_length', (take_drop_exact _ _ _ 65 32) by done.
  rewrite (app_assoc inner), drop_app_length' by (rewrite length_app; lia).
  rewrite (typed_data_sign_spec (VHashed contents) _ contents) by done.
  rewrite typed_digest_eq in Hr, Hd. rewrite Hr, !bool_decide_eq_true_2 by done. reflexivity.
Qed.

End SigningClaims.

Lemma order_digest_commits_witness :
  let o := Vectors.golden_order in
  same_order o o \/ collides (order_buffer o) (order_buffer o)
  \/ collides (domain_buffer (exchange_of ctf_v2 false)) (domain_buffer (exchange_of ctf_v2 false))
  \/ collides (digest_buffer (exchange_of ctf_v2 false) (order_struct_hash_v2 o))
              (digest_buffer (exchange_of ctf_v2 false) (order_struct_hash_v2 o)).
Proof.
  cbv zeta. edestruct (order_digest_commits (L := u256_reference) Vectors.golden_order Vectors.golden_order
    ctf_v2 ctf_v2 false false) as [[H _]|H]; [| |vm_compute; reflexivity..|by left|by right].
  - split; cbn; unfold in_u64; done || lia || reflexivity.
  - split; cbn; unfold in_u64; done || lia || reflexivity.
Defined.
