(* ===== verification/Protocol.v ===== *)
(** * Market protocols and position identifiers ([src/pm/protocol.cpp])

    Which ledger and exchange a market trades on, and the structural checks on
    condition and position identifiers. *)

From Stdlib Require Import Ascii String ZArith Lia.
From Stdlib Require Import Strings.Byte.
From stdpp Require Import base list strings numbers.
From S2P Require Import Prelude Interfaces Keccak Keys Amounts Signing.

Open Scope Z_scope.

Definition require (ok : bool) : result unit :=
  throw_if (negb ok) (InvalidArgument "pm: unsupported market/asset protocol identity").

Definition protocol (p : OrderProtocol) : result unit :=
  require (bool_decide (p = ctf_v2) || bool_decide (p = position_v3)).

Definition market_protocol (version : string) : result OrderProtocol :=
  if String.eqb version "v1" then Ok ctf_v2
  else if String.eqb version "v2" then Ok position_v3
  else Throw (InvalidArgument "pm: missing or unsupported Gamma market version").

(** Membership in ["0123456789abcdefABCDEF"]. *)
Definition hex_char (c : ascii) : bool :=
  str_contains c "0123456789abcdefABCDEF".

Definition lower_hex (c : ascii) : ascii :=
  if (65 <=? code c) && (code c <=? 70) then chr (code c + 32) else c.

Definition canonical_condition (value : string) (p : OrderProtocol) : result string :=
  protocol p;;
  require (starts_with "0x" value
    && ((slen value =? 66) || (bool_decide (p = position_v3) && (slen value =? 64))));;
  require (match str_find (fun c => negb (hex_char c)) (str_drop 2 value) with None => true | Some _ => false end);;
  let result := str_map lower_hex value in
  let result := if slen result =? 64 then result +:+ "00" else result in
  (if bool_decide (p = position_v3) then require (ends_with "00" result) else Ok tt);;
  Ok result.

Section Positions.
Context `{L : U256Lib}.

(** [asset.be[i]]. *)
Definition be_at (l : Bytes) (i : nat) : Z := byte_Z (default x00 (l !! i)).

Definition position_condition (value : string) : result string :=
  require (negb (str_empty value) && (slen value <=? 78));;
  asset ← u256_from_dec value;
  let be := u256_be asset in
  require (String.eqb (u256_to_dec asset) value && (1 <=? be_at be 0) && (be_at be 0 <=? 3)
    && forallb (fun b => byte_Z b =? 0) (take 8 (drop 19 be)) && (be_at be 31 <=? 1));;
  Ok (to_hex0x (<[31%nat := x00]> be)).

Definition validate_order_asset (asset : string) (p : OrderProtocol) : result unit :=
  protocol p;;
  require (negb (str_empty asset) && (slen asset <=? 78));;
  a ← u256_from_dec asset;
  require (String.eqb (u256_to_dec a) asset);;
  if bool_decide (p = position_v3) then position_condition asset;; Ok tt else Ok tt.
End Positions.

Definition balance_asset_type (p : OrderProtocol) : result string :=
  protocol p;;
  Ok (if bool_decide (p = position_v3) then "CONDITIONAL-V2" else "CONDITIONAL").

Definition outcome_ledger (p : OrderProtocol) : result string :=
  protocol p;;
  Ok (if bool_decide (p = position_v3) then kPositionManager
      else "0x4D97DCd97eC945f40cF65F87097ACe5EA0476045").

Definition exchange_contract (p : OrderProtocol) (neg_risk : bool) : result string :=
  protocol p;;
  Ok (if bool_decide (p = position_v3) then kExchangeV3
      else if neg_risk then kNegRiskExchangeV2 else kExchangeV2).

(** ** The cases of the protocol test *)

Example condition_padded :
  let condition := "0x01" +:+ str_repeat 36 "1" +:+ str_repeat 26 "0" in
  canonical_condition (str_take 64 condition) position_v3 = Ok condition
  /\ is_ok (canonical_condition (str_take 64 condition) ctf_v2) = false.
Proof. split; vm_compute; reflexivity. Qed.

Example position_vector :
  let condition := "0x01" +:+ str_repeat 36 "1" +:+ str_repeat 26 "0" in
  let v := be_val (Vectors.get [] (from_hex condition)) in
  position_condition (to_string v) = Ok condition
  /\ is_ok (validate_order_asset "1" position_v3) = false
  /\ is_ok (validate_order_asset "01" ctf_v2) = false.
Proof. repeat split; vm_compute; reflexivity. Qed.

(** ** Characters *)

Lemma hex_char_is_hex c : hex_char c = is_hex c.
Proof. destruct c as [[] [] [] [] [] [] [] []]; reflexivity. Qed.

Lemma lower_hex_idem c : lower_hex (lower_hex c) = lower_hex c.
Proof. destruct c as [[] [] [] [] [] [] [] []]; reflexivity. Qed.

Lemma hex_char_lower c : hex_char c = true -> hex_char (lower_hex c) = true.
Proof. destruct c as [[] [] [] [] [] [] [] []]; vm_compute; congruence. Qed.

Lemma str_find_none p s : str_find p s = None <-> str_all (fun c => negb (p c)) s = true.
Proof.
  induction s as [|c s IH]; [done|]. cbn. destruct (p c); cbn; [done|].
  destruct (str_find p s); cbn; [|tauto]. split; [done|]. intros H. by apply IH in H.
Qed.

Lemma str_map_app f a b : str_map f (a +:+ b) = str_map f a +:+ str_map f b.
Proof. induction a; cbn; [done|]. by f_equal. Qed.

Lemma str_map_idem f s : (forall c, f (f c) = f c) -> str_map f (str_map f s) = str_map f s.
Proof. intros H. induction s; cbn; [done|]. by rewrite H, IHs. Qed.

Lemma str_all_map p f s : (forall c, p c = true -> p (f c) = true) -> str_all p s = true ->
  str_all p (str_map f s) = true.
Proof.
  intros H. induction s as [|c s IH]; cbn; [done|]. intros [H1 H2]%andb_true_iff. by rewrite H, IH.
Qed.

Lemma slen_map f s : slen (str_map f s) = slen s.
Proof. unfold slen. by rewrite str_map_length. Qed.

Lemma ends_with_app p s : ends_with p (s +:+ p) = true.
Proof.
  unfold ends_with. rewrite length_str_app. rewrite (proj2 (Nat.leb_le _ _)) by lia. cbn.
  replace (String.length s + String.length p - String.length p)%nat with (String.length s) by lia.
  apply String.eqb_eq. induction s; cbn; [by destruct p|done].
Qed.

(** ** Canonical conditions *)

Definition canonical_form (p : OrderProtocol) (r : string) : Prop :=
  (p = ctf_v2 \/ p = position_v3) /\ slen r = 66 /\ starts_with "0x" r = true
  /\ str_all hex_char (str_drop 2 r) = true /\ str_map lower_hex r = r
  /\ (p = position_v3 -> ends_with "00" r = true).

Lemma protocol_ok p u : protocol p = Ok u <-> p = ctf_v2 \/ p = position_v3.
Proof. destruct u, p; cbn; naive_solver. Qed.

Lemma hex_scan_ok s :
  match str_find (fun c => negb (hex_char c)) s with None => true | Some _ => false end = true
  <-> str_all hex_char s = true.
Proof.
  assert (H : str_all (fun c => negb (negb (hex_char c))) s = str_all hex_char s).
  { induction s as [|c s IH]; cbn; [done|]. by rewrite negb_involutive, IH. }
  rewrite <- H, <- str_find_none. by case_match.
Qed.

Lemma require_ok b u : require b = Ok u <-> b = true.
Proof. destruct b, u; cbn; naive_solver. Qed.

Lemma require_true b : b = true -> require b = Ok tt.
Proof. by intros ->. Qed.

(** Canonical identifiers are accepted unchanged. *)
Lemma canonical_fixed p r : canonical_form p r -> canonical_condition r p = Ok r.
Proof.
  intros (Hp & Hl & Hs & Hh & Hm & He). unfold canonical_condition.
  rewrite (proj2 (protocol_ok p tt) Hp). cbn [mbind result_bind].
  rewrite Hs, Hl. cbn [andb orb Z.eqb Pos.eqb require throw_if negb mbind result_bind].
  rewrite (require_true _ (proj2 (hex_scan_ok _) Hh)). cbn [mbind result_bind]. cbv zeta.
  rewrite Hm, Hl. change (66 =? 64) with false. cbn iota. destruct (bool_decide_reflect (p = position_v3)); [|done].
  by rewrite (require_true _ (He e)).
Qed.

Lemma lower_hex_00 : str_map lower_hex "00" = "00".
Proof. reflexivity. Qed.

(** [canonical_condition] only returns 0x followed by 64 lower-case hex
    digits, ending in 00 for a position ledger, and is idempotent; the result is
    the input in lower case, or, for a 31-byte position condition, the input in
    lower case followed by 00. *)
Theorem canonical_condition_canonical value p r :
  canonical_condition value p = Ok r ->
  canonical_form p r /\ canonical_condition r p = Ok r
  /\ (r = str_map lower_hex value
      \/ (p = position_v3 /\ slen value = 64 /\ r = str_map lower_hex value +:+ "00")).
Proof.
  intros H. assert (Hform : canonical_form p r /\ (r = str_map lower_hex value
      \/ (p = position_v3 /\ slen value = 64 /\ r = str_map lower_hex value +:+ "00"))).
  { unfold canonical_condition in H. inv_ok.
    apply protocol_ok in Hcall. apply require_ok in Hcall0, Hcall1. apply hex_scan_ok in Hcall1.
    apply andb_true_iff in Hcall0 as [Hs Hl].
    pose proof (starts_with_split _ _ Hs) as Hv. cbn [String.length] in Hv. set (t := str_drop 2 value) in *.
    assert (Hr : str_map lower_hex value = "0x" +:+ str_map lower_hex t) by (rewrite Hv at 1; apply str_map_app).
    assert (Hh : str_all hex_char (str_map lower_hex t) = true) by (by apply str_all_map; [apply hex_char_lower|]).
    assert (Hend : p = position_v3 -> ends_with "00" r = true).
    { intros ->. cbn in Hcall2. subst r. by apply require_ok in Hcall2. }
    clear Hcall2. rewrite slen_map in H.
    assert (Hfin : forall tail, r = "0x" +:+ tail -> str_all hex_char tail = true -> str_map lower_hex tail = tail ->
              slen r = 66 -> canonical_form p r).
    { intros tail -> H1 H2 H3. repeat split; try done; [apply starts_with_app|].
      rewrite str_map_app, H2. reflexivity. }
    destruct (Z.eqb_spec (slen value) 64) as [E|E].
    - assert (Hp : p = position_v3).
      { rewrite E in Hl. cbn in Hl. apply andb_true_iff in Hl as [Hl _]. by apply bool_decide_eq_true in Hl. }
      split; [|by auto]. apply (Hfin (str_map lower_hex t +:+ "00")).
      + by rewrite <- H, Hr.
      + by rewrite str_all_app, Hh.
      + by rewrite str_map_app, str_map_idem by apply lower_hex_idem.
      + rewrite <- H. slen_norm. rewrite slen_map. lia.
    - split; [|by auto]. apply (Hfin (str_map lower_hex t)).
      + by rewrite <- H, Hr.
      + done.
      + apply str_map_idem, lower_hex_idem.
      + rewrite <- H, slen_map. apply orb_true_iff in Hl as [Hl|[_ Hl]%andb_true_iff]; lia. }
  destruct Hform as [Hf Hv]. split; [done|]. split; [by apply canonical_fixed|done].
Qed.

Lemma canonical_condition_canonical_witness :
  let v := "0x01" +:+ str_repeat 36 "B" +:+ str_repeat 24 "0" in
  exists r, canonical_condition v position_v3 = Ok r /\ canonical_form position_v3 r.
Proof.
  eexists. split; [reflexivity|].
  refine (proj1 (canonical_condition_canonical ("0x01" +:+ str_repeat 36 "B" +:+ str_repeat 24 "0") _ _ _)).
  reflexivity.
Defined.

(** ** Positions *)

(** The layout of a position identifier, on the 32 bytes of its value. *)
Definition position_layout (be : Bytes) : bool :=
  (1 <=? be_at be 0) && (be_at be 0 <=? 3)
  && forallb (fun b => byte_Z b =? 0) (take 8 (drop 19 be)) && (be_at be 31 <=? 1).

Lemma dec_size v : 0 <= v < 2 ^ 256 -> negb (str_empty (to_string v)) && (slen (to_string v) <=? 78) = true.
Proof.
  intros Hv. destruct (to_string_spec v ltac:(lia)) as (_ & _ & Hz & Hlo & Hl).
  apply andb_true_iff. split.
  - apply negb_true_iff, String.eqb_neq. intros E. rewrite E in Hl. rewrite slen_nil in Hl. lia.
  - apply Z.leb_le. destruct (Z.eq_dec v 0) as [->|]; [by rewrite Hz|].
    specialize (Hlo ltac:(lia)). destruct (Z.le_gt_cases (slen (to_string v)) 78) as [|Hgt]; [done|].
    assert (10 ^ 78 <= 10 ^ (slen (to_string v) - 1)) by (apply Z.pow_le_mono_r; lia).
    assert (2 ^ 256 < 10 ^ 78) by reflexivity. lia.
Qed.

Lemma str_all_is_hex_to_hex l : str_all hex_char (to_hex l) = true /\ str_map lower_hex (to_hex l) = to_hex l.
Proof.
  assert (Hd : forall i, 0 <= i < 16 -> hex_char (hex_digit i) = true /\ lower_hex (hex_digit i) = hex_digit i).
  { intros i Hi. assert (E : In i (map Z.of_nat (seq 0 16))).
    { rewrite in_map_iff. exists (Z.to_nat i). rewrite in_seq. lia. }
    cbn in E. by repeat destruct E as [<-|E]. }
  induction l as [|b l [IH1 IH2]]; [done|]. cbn [to_hex str_all str_map]. destruct (nibbles b) as (H1 & H2 & _).
  destruct (Hd _ H1) as [-> ->], (Hd _ H2) as [-> ->]. by rewrite IH1, IH2.
Qed.

Lemma to_hex_app a b : to_hex (a ++ b) = to_hex a +:+ to_hex b.
Proof. induction a as [|x a IH]; [done|]. cbn [app to_hex]. rewrite IH. done. Qed.

(** Clearing the last byte makes the text end in 00. *)
Lemma to_hex_cleared be : length be = 32%nat ->
  ends_with "00" (to_hex0x (<[31%nat := x00]> be)) = true.
Proof.
  intros Hl. assert (E : <[31%nat := x00]> be = take 31 be ++ [x00]).
  { rewrite insert_take_drop by lia. by rewrite drop_ge by lia. }
  unfold to_hex0x. rewrite E, to_hex_app. change (to_hex [x00]) with "00".
  rewrite str_app_assoc. apply ends_with_app.
Qed.

Lemma be_cleared_val be : length be = 32%nat ->
  be_val (<[31%nat := x00]> be) = be_val be - be_at be 31 /\ be_val be mod 256 = be_at be 31.
Proof.
  intros Hl. assert (E : <[31%nat := x00]> be = take 31 be ++ [x00]).
  { rewrite insert_take_drop by lia. by rewrite drop_ge by lia. }
  destruct (lookup_lt_is_Some_2 be 31) as [b Hb]; [lia|].
  assert (Hbe : be = take 31 be ++ [b]).
  { rewrite <- (take_drop 31 be) at 1. f_equal. apply drop_S in Hb. rewrite Hb, drop_ge by lia. done. }
  assert (Hval : be_val be = be_val (take 31 be) * 256 + byte_Z b) by (rewrite Hbe at 1; apply be_val_snoc).
  unfold be_at. rewrite Hb, E, be_val_snoc, Hval. change (default x00 (Some b)) with b. change (byte_Z x00) with 0. pose proof (byte_Z_range b). split; [lia|].
  rewrite Z.add_comm, Z.mod_add, Z.mod_small by lia. done.
Qed.

Section PositionClaims.
Context `{L : U256Lib} {UL : U256Laws L}.

(** C37: [position_condition] accepts exactly the canonical decimal texts of
    256-bit values laid out as a position (module 1 to 3 in the top byte, eight
    zero bytes, outcome 0 or 1 in the last byte).  The result is the
    identifier with its outcome byte cleared, as hex text that parses back to
    that value and that [canonical_condition] accepts unchanged as a position
    condition. *)
Theorem position_condition_exact s c :
  position_condition s = Ok c <->
  exists v, 0 <= v < 2 ^ 256 /\ s = to_string v /\ position_layout (be_encode 32 v) = true
    /\ c = to_hex0x (be_encode 32 (v - v mod 256))
    /\ from_hex c = Ok (be_encode 32 (v - v mod 256))
    /\ canonical_condition c position_v3 = Ok c.
Proof using UL.
  assert (Henc : forall a, u256_be a = be_encode 32 (u256_val a)).
  { intros a. unfold u256_val. symmetry. apply be_encode_val, u256_be_length. }
  assert (Hclear : forall v, 0 <= v < 2 ^ 256 ->
    <[31%nat := x00]> (be_encode 32 v) = be_encode 32 (v - v mod 256)
    /\ 0 <= v - v mod 256 < 2 ^ 256).
  { intros v Hv. destruct (be_cleared_val (be_encode 32 v)) as [H1 H2]; [apply length_be_encode|].
    rewrite be_val_encode in H1, H2 by done. destruct (div_mod_id v 256) as [Hq Hr]; [lia|]. split.
    - apply be_val_inj; [by rewrite length_insert, !length_be_encode|].
      rewrite H1, be_val_encode; [lia|]. rewrite <- H2 in *. change (256 ^ Z.of_nat 32) with (2 ^ 256).
      pose proof (Z.div_pos v 256). lia.
    - pose proof (Z.div_pos v 256). lia. }
  unfold position_condition. split.
  - intros H. inv_ok. apply require_ok in Hcall, Hcall1. set (v := u256_val a0) in *.
    pose proof (u256_val_range a0) as Hv. fold v in Hv. rewrite Henc in *. fold v in Hcall1, H.
    rewrite <- !andb_assoc in Hcall1. apply andb_true_iff in Hcall1 as [Hs Hlay].
    apply String.eqb_eq in Hs. rewrite u256_to_dec_val in Hs. fold v in Hs.
    destruct (Hclear v Hv) as [Hc Hr]. rewrite Hc in H.
    exists v. split; [done|]. split; [done|]. split; [unfold position_layout; by rewrite <- !andb_assoc|].
    split; [done|]. subst c. split; [apply hex_round_trip_left|].
    apply canonical_fixed. unfold canonical_form. rewrite <- Hc.
    pose proof (str_all_is_hex_to_hex (<[31%nat:=x00]> (be_encode 32 v))) as [Hh Hm].
    split; [by right|]. split.
    { unfold to_hex0x. rewrite slen_app, slen_to_hex, length_insert, length_be_encode. reflexivity. }
    split; [apply starts_with_app|]. split; [exact Hh|].
    split; [unfold to_hex0x; rewrite str_map_app, Hm; reflexivity|].
    intros _. apply to_hex_cleared, length_be_encode.
  - intros (v & Hv & -> & Hlay & -> & _ & _). rewrite (require_true _ (dec_size v Hv)). cbn [mbind result_bind].
    destruct (u256_from_dec_to_string v Hv) as (a & -> & Ha). cbn [mbind result_bind]. cbv zeta.
    rewrite Henc, u256_to_dec_val, Ha, String.eqb_refl. unfold position_layout in Hlay. cbn [andb].
    rewrite (require_true _ Hlay). cbn [mbind result_bind]. by rewrite (proj1 (Hclear v Hv)).
Qed.
End PositionClaims.

(** The two places that choose an exchange agree: the contract
    [exchange_contract] names is the verifying contract of the domain orders are
    signed under, on chain 137, with version 3 for positions and 2 otherwise; an
    unknown protocol is rejected by both. *)
Lemma exchange_contract_is_signed_domain `{L : U256Lib} {E : @Eip712Lib L} {EL : Eip712Laws L E} p nr :
  match exchange_contract p nr with
  | Ok c => exists a, eth_address_from_hex c = Ok a
              /\ exchange_domain p nr
                 = Ok (domain_separator "Polymarket CTF Exchange"
                         (if bool_decide (p = position_v3) then "3" else "2") 137 a)
  | Throw _ => p <> ctf_v2 /\ p <> position_v3 /\ is_ok (exchange_domain p nr) = false
  end.
Proof.
  rewrite exchange_domain_eq.
  assert (H137 : in_u64 137) by (unfold in_u64; lia).
  destruct p, nr; cbn; [eexists; split; [reflexivity|]; rewrite domain_separator_eq by done; reflexivity..|done|done].
Qed.

Lemma position_condition_exact_witness :
  exists v c, position_condition (to_string v) = Ok c /\ position_layout (be_encode 32 v) = true.
Proof.
  exists (be_val (x01 :: repeat x11 18 ++ repeat x00 12 ++ [x01])), ("0x01" +:+ str_repeat 36 "1" +:+ str_repeat 26 "0").
  assert (H : position_condition (to_string (be_val (x01 :: repeat x11 18 ++ repeat x00 12 ++ [x01])))
              = Ok ("0x01" +:+ str_repeat 36 "1" +:+ str_repeat 26 "0")) by (vm_compute; reflexivity).
  split; [exact H|].
  destruct (proj1 (position_condition_exact (L := u256_reference) _ _) H) as (v & Hv & Hs & Hl & _).
  apply to_string_inj in Hs; [by rewrite Hs|vm_compute; discriminate|lia].
Defined.

