(* ===== verification/Auth.v ===== *)
(** * Codecs and request authentication ([src/pm/codec.cpp], [auth.cpp])

    The base64url and HMAC wrappers around libsodium and the two header sets
    of the venue. *)

From Stdlib Require Import Ascii String ZArith Lia.
From Stdlib Require Import Strings.Byte.
From stdpp Require Import base list strings numbers.
From S2P Require Import Prelude Interfaces Keccak Keys Amounts Signing.

Open Scope Z_scope.

Record ApiCreds := { api_key : string; secret : string; passphrase : string }.

Section Codec.
Context `{SL : SodiumLib}.

(** The buffer is sized with the terminator and starts as NULs; the text is
    written over its start, and the string is cut at the first NUL. *)
Definition b64url_encode (data : Bytes) : string :=
  let size := Z.to_nat (sodium_base64_encoded_len (Z.of_nat (length data))) in
  let text := sodium_bin2base64 data in
  let out := text +:+ str_repeat (size - String.length text) Ascii.zero in
  match str_find (Ascii.eqb Ascii.zero) out with
  | Some nul => str_take nul out
  | None => out
  end.

Definition b64url_decode (s : string) : result Bytes :=
  of_option (InvalidArgument "b64url_decode: invalid input") (sodium_base642bin s).

Definition hmac_sha256 (key : Bytes) (msg : string) : Bytes :=
  crypto_auth_hmacsha256 key (bytes_of_string msg).
End Codec.

Section AuthHeaders.
Context `{L : U256Lib} {EI : @Eip712Lib L} `{EC : EcdsaLib} `{SL : SodiumLib}.

Definition l1_headers (key : PrivKey) (timestamp_s nonce : Z) : result (list (string * string)) :=
  let addr := address key in
  sig ← sign_clob_auth key addr timestamp_s nonce;
  Ok [("POLY_ADDRESS", to_hex0x addr); ("POLY_SIGNATURE", to_hex0x sig);
      ("POLY_TIMESTAMP", to_string timestamp_s); ("POLY_NONCE", to_string nonce)].

Definition l2_headers (creds : ApiCreds) (addr : Bytes) (timestamp_s : Z) (method path body : string) :
    result (list (string * string)) :=
  let ts := to_string timestamp_s in
  let msg := ts +:+ method +:+ path +:+ body in
  key ← b64url_decode (secret creds);
  let mac := hmac_sha256 key msg in
  Ok [("POLY_ADDRESS", to_hex0x addr); ("POLY_SIGNATURE", b64url_encode mac); ("POLY_TIMESTAMP", ts);
      ("POLY_API_KEY", api_key creds); ("POLY_PASSPHRASE", passphrase creds)].
End AuthHeaders.

(** Hex text has the shape of the codec interface: an instance of its laws. *)
#[export] Instance sodium_reference : SodiumLib := {|
  sodium_base64_encoded_len n := 2 * n + 1;
  sodium_bin2base64 := to_hex;
  sodium_base642bin s := match from_hex_loop s with Ok d => Some d | Throw _ => None end;
  crypto_auth_hmacsha256 k m := take 32 (k ++ m ++ repeat x00 32);
|}.

#[export] Instance sodium_reference_laws : SodiumLaws sodium_reference.
Proof.
  split; intros d; cbn.
  - by rewrite slen_to_hex.
  - induction d as [|b d IH]; [done|]. cbn [to_hex str_all].
    assert (Hd : forall i, 0 <= i < 16 -> Ascii.eqb (hex_digit i) Ascii.zero = false).
    { intros i Hi. assert (E : In i (map Z.of_nat (seq 0 16))).
      { rewrite in_map_iff. exists (Z.to_nat i). rewrite in_seq. lia. }
      cbn in E. by repeat destruct E as [<-|E]. }
    destruct (nibbles b) as (H1 & H2 & _). rewrite !Hd by done. done.
  - by rewrite from_hex_to_hex.
Qed.

(** ** The properties *)

(** The codec returns exactly the library's text, without the terminator
    or padding NULs, and decoding it gives the bytes back. *)
Lemma b64url_round_trip `{SLL : SodiumLaws} (data : Bytes) :
  b64url_encode data = sodium_bin2base64 data /\ b64url_decode (b64url_encode data) = Ok data.
Proof.
  assert (E : b64url_encode data = sodium_bin2base64 data).
  { unfold b64url_encode. cbv zeta. rewrite encoded_len_counts_nul.
    set (t := sodium_bin2base64 data).
    replace (Z.to_nat (slen t + 1) - String.length t)%nat with 1%nat by (unfold slen; lia).
    pose proof (bin2base64_no_nul data) as Hn. fold t in Hn. clearbody t.
    assert (Hf : forall s, str_all (fun c => negb (Ascii.eqb c Ascii.zero)) s = true ->
      str_find (Ascii.eqb Ascii.zero) (s +:+ str_repeat 1 Ascii.zero) = Some (String.length s)
      /\ str_take (String.length s) (s +:+ str_repeat 1 Ascii.zero) = s).
    { induction s as [|c s IH]; [done|]. cbn [str_all]. intros [Hc Hs]%andb_true_iff.
      destruct (IH Hs) as [H1 H2]. apply negb_true_iff in Hc. rewrite Ascii.eqb_sym in Hc.
      cbn [String.append str_find String.length str_take]. rewrite Hc, H1, H2. done. }
    destruct (Hf t Hn) as [-> ->]. done. }
  split; [done|]. rewrite E. unfold b64url_decode. by rewrite base642bin_bin2base64.
Qed.

(** The L1 header set verifies against itself.  Whenever the headers are
    produced, the address header parses to the key's address, and the signature
    header parses to a signature that recovers that address from the attestation
    digest of the timestamp and nonce in the other two headers. *)
Theorem l1_headers_verify `{L : U256Lib} {EI : @Eip712Lib L} `{ECL : EcdsaLaws} key ts nonce hs :
  l1_headers key ts nonce = Ok hs ->
  exists sig, hs = [("POLY_ADDRESS", to_hex0x (address key)); ("POLY_SIGNATURE", to_hex0x sig);
                    ("POLY_TIMESTAMP", to_string ts); ("POLY_NONCE", to_string nonce)]
    /\ from_hex (to_hex0x (address key)) = Ok (address key)
    /\ from_hex (to_hex0x sig) = Ok sig
    /\ length sig = 65%nat
    /\ recover_eth_address sig (clob_auth_digest (address key) ts nonce) = Ok (address key).
Proof.
  unfold l1_headers. cbv zeta. intros Hs. apply bind_ok in Hs as (sig & Hsig & Hs). apply Ok_inj in Hs.
  exists sig. unfold sign_clob_auth in Hsig. destruct (signed_recovers _ _ _ Hsig) as [Hl Hr].
  repeat split; auto using hex_round_trip_left.
Qed.

Lemma l1_headers_verify_witness :
  let key := {| k_ := repeat x01 32 |} in
  exists hs sig, l1_headers (EI := eip712_reference) key 1752900000 0 = Ok hs
    /\ recover_eth_address sig (clob_auth_digest (address key) 1752900000 0)
       = Ok (address (EI := eip712_reference) key).
Proof.
  cbv zeta. destruct (l1_headers (EI := eip712_reference) {| k_ := repeat x01 32 |} 1752900000 0) as [hs|e] eqn:E;
    [|vm_compute in E; discriminate E].
  destruct (l1_headers_verify (EI := eip712_reference) _ _ _ _ E) as (sig & _ & _ & _ & _ & Hr).
  exists hs, sig. split; [reflexivity|exact Hr].
Defined.
