(* ===== verification/Codecs.v ===== *)
(** * Reference codecs: base64url, SHA-256 and HMAC

    An executable instance of the libsodium interface, written from RFC 4648
    (the URL-safe alphabet with padding), FIPS 180-4 and RFC 2104.  Its laws are
    proved here, and it reproduces the codec, HMAC and L2 header values that
    [src/tests/pm_test.cpp] pins. *)

From Stdlib Require Import Ascii String ZArith Lia.
From Stdlib Require Import Strings.Byte.
From stdpp Require Import base list strings numbers.
From S2P Require Import Prelude Interfaces Keccak Keys Amounts Signing Auth.

Open Scope Z_scope.

(** ** base64url *)

Module Base64.
Definition alphabet : string := "ABCDEFGHIJKLMNOPQRSTUVWXYZabcdefghijklmnopqrstuvwxyz0123456789-_".

Definition char_of (i : Z) : ascii :=
  match str_drop (Z.to_nat i) alphabet with String c _ => c | EmptyString => "="%char end.
Definition value_of (c : ascii) : option Z :=
  Z.of_nat <$> str_find (Ascii.eqb c) alphabet.

(** Three bytes are four sextets; a shorter last group is padded. *)
Fixpoint encode (data : Bytes) : string :=
  match data with
  | [] => ""
  | [a] =>
      let n := byte_Z a * 16 in
      String (char_of (n / 64)) (String (char_of (n mod 64)) "==")
  | [a; b] =>
      let n := (byte_Z a * 256 + byte_Z b) * 4 in
      String (char_of (n / 4096)) (String (char_of (n / 64 mod 64)) (String (char_of (n mod 64)) "="))
  | a :: b :: c :: rest =>
      let n := (byte_Z a * 256 + byte_Z b) * 256 + byte_Z c in
      String (char_of (n / 262144)) (String (char_of (n / 4096 mod 64))
        (String (char_of (n / 64 mod 64)) (String (char_of (n mod 64)) (encode rest))))
  end.

(** Canonical input only: full groups, exact padding, no stray bits. *)
Fixpoint decode (s : string) : option Bytes :=
  match s with
  | EmptyString => Some []
  | String c1 (String c2 (String c3 (String c4 rest))) =>
      v1 ← value_of c1; v2 ← value_of c2;
      if Ascii.eqb c3 "="%char && Ascii.eqb c4 "="%char && str_empty rest then
        if v2 mod 16 =? 0 then Some [Z_byte (v1 * 4 + v2 / 16)] else None
      else
        v3 ← value_of c3;
        if Ascii.eqb c4 "="%char && str_empty rest then
          if v3 mod 4 =? 0
          then let n := (v1 * 64 + v2) * 16 + v3 / 4 in Some [Z_byte (n / 256); Z_byte (n mod 256)]
          else None
        else
          v4 ← value_of c4;
          let n := ((v1 * 64 + v2) * 64 + v3) * 64 + v4 in
          tail ← decode rest;
          Some (Z_byte (n / 65536) :: Z_byte (n / 256 mod 256) :: Z_byte (n mod 256) :: tail)
  | _ => None
  end.

Lemma value_of_char i : 0 <= i < 64 ->
  value_of (char_of i) = Some i /\ Ascii.eqb (char_of i) "="%char = false /\ Ascii.eqb (char_of i) Ascii.zero = false.
Proof.
  intros Hi. assert (E : In i (map Z.of_nat (seq 0 64))).
  { rewrite in_map_iff. exists (Z.to_nat i). rewrite in_seq. lia. }
  cbn in E. repeat (destruct E as [<-|E]; [by vm_compute|]). done.
Qed.

(** Groups of three. *)
Lemma bytes3_ind (P : Bytes -> Prop) :
  P [] -> (forall a, P [a]) -> (forall a b, P [a; b]) ->
  (forall a b c rest, P rest -> P (a :: b :: c :: rest)) -> forall l, P l.
Proof.
  intros H0 H1 H2 H3. fix IH 1. intros [|a [|b [|c rest]]]; [done|apply H1|apply H2|apply H3, IH].
Qed.

(** Quotients and remainders by constants. *)
Ltac euclid := Z.to_euclidean_division_equations; lia.

Ltac sextets := repeat match goal with
  | |- context [value_of (char_of ?i)] => rewrite (proj1 (value_of_char i ltac:(euclid)))
  | |- context [Ascii.eqb (char_of ?i) "="%char] => rewrite (proj1 (proj2 (value_of_char i ltac:(euclid))))
  end.

Lemma Z_byte_is z b : z = byte_Z b -> Z_byte z = b.
Proof. intros ->. apply Z_byte_of. Qed.

Lemma decode_encode data : decode (encode data) = Some data.
Proof.
  induction data as [|a|a b|a b c rest IH] using bytes3_ind; [done|..].
  - pose proof (byte_Z_range a). cbn [encode decode]. cbv zeta. sextets.
    cbn [mbind option_bind]. rewrite (proj2 (Z.eqb_eq _ 0)) by euclid.
    cbn. do 2 f_equal. apply Z_byte_is. euclid.
  - pose proof (byte_Z_range a). pose proof (byte_Z_range b). cbn [encode decode]. cbv zeta. sextets.
    cbn [mbind option_bind andb]. sextets. cbn [mbind option_bind]. rewrite (proj2 (Z.eqb_eq _ 0)) by euclid.
    cbn. do 2 f_equal; [|f_equal]; apply Z_byte_is; euclid.
  - pose proof (byte_Z_range a). pose proof (byte_Z_range b). pose proof (byte_Z_range c).
    cbn [encode decode]. cbv zeta. sextets. cbn [mbind option_bind andb]. rewrite IH. cbn [mbind option_bind].
    do 2 f_equal; [|f_equal; [|f_equal]]; apply Z_byte_is; euclid.
Qed.

Lemma encode_length data : slen (encode data) = (Z.of_nat (length data) + 2) / 3 * 4.
Proof.
  induction data as [|a|a b|a b c rest IH] using bytes3_ind; [done..|].
  cbn [encode length]. cbv zeta. rewrite !slen_cons, IH.
  replace (Z.of_nat (S (S (S (length rest)))) + 2) with (1 * 3 + (Z.of_nat (length rest) + 2)) by lia.
  rewrite Z.div_add_l by lia. lia.
Qed.

Lemma encode_no_nul data : str_all (fun c => negb (Ascii.eqb c Ascii.zero)) (encode data) = true.
Proof.
  assert (Hc : forall i s, 0 <= i < 64 -> str_all (fun c => negb (Ascii.eqb c Ascii.zero)) s = true ->
    str_all (fun c => negb (Ascii.eqb c Ascii.zero)) (String (char_of i) s) = true).
  { intros i s Hi Hs. cbn. by rewrite (proj2 (proj2 (value_of_char i Hi))). }
  induction data as [|a|a b|a b c rest IH] using bytes3_ind; [done|..]; cbn [encode]; cbv zeta;
    pose proof (byte_Z_range a).
  - apply Hc; [euclid|]. by apply Hc; [euclid|].
  - pose proof (byte_Z_range b). apply Hc; [euclid|]. apply Hc; [euclid|]. by apply Hc; [euclid|].
  - pose proof (byte_Z_range b). pose proof (byte_Z_range c). do 4 (apply Hc; [euclid|]). done.
Qed.
End Base64.

(** ** SHA-256 (FIPS 180-4) *)

Module Sha256.
(** The constants are fractional parts of roots of the first primes. *)
Definition is_prime (n : nat) : bool := forallb (fun d => negb (Nat.eqb (n mod d) 0)) (seq 2 (n - 2)).
Definition primes : list Z := map Z.of_nat (List.filter is_prime (seq 2 310)).
(** The largest [r + j] with [j < 2 ^ n] whose cube is at most [x]. *)
Fixpoint cube_root (n : nat) (x r : Z) : Z :=
  match n with
  | O => r
  | S n => let next := r + 2 ^ Z.of_nat n in cube_root n x (if next * next * next <=? x then next else r)
  end.
Definition K : list Z := Eval vm_compute in
  map (fun p => cube_root 36 (p * 2 ^ 96) 0 mod 2 ^ 32) primes.
Definition H0 : list Z := Eval vm_compute in map (fun p => Z.sqrt (p * 2 ^ 64) mod 2 ^ 32) (take 8 primes).

Example K_count : length K = 64%nat.
Proof. reflexivity. Qed.

Definition word32 (x : Z) : Z := Z.land x 0xffffffff.
Definition rotr (n x : Z) : Z := Z.lor (Z.shiftr x n) (word32 (Z.shiftl x (32 - n))).
Definition ch (x y z : Z) : Z := Z.lxor (Z.land x y) (Z.land (Z.lxor x 0xffffffff) z).
Definition maj (x y z : Z) : Z := Z.lxor (Z.lxor (Z.land x y) (Z.land x z)) (Z.land y z).
Definition Sigma0 (x : Z) : Z := Z.lxor (Z.lxor (rotr 2 x) (rotr 13 x)) (rotr 22 x).
Definition Sigma1 (x : Z) : Z := Z.lxor (Z.lxor (rotr 6 x) (rotr 11 x)) (rotr 25 x).
Definition sigma0 (x : Z) : Z := Z.lxor (Z.lxor (rotr 7 x) (rotr 18 x)) (Z.shiftr x 3).
Definition sigma1 (x : Z) : Z := Z.lxor (Z.lxor (rotr 17 x) (rotr 19 x)) (Z.shiftr x 10).

(** A one bit, zeros to 448 modulo 512, and the length in bits: whole blocks. *)
Definition pad (m : Bytes) : Bytes :=
  let len := Z.of_nat (length m) in
  m ++ [x80] ++ repeat x00 (Z.to_nat ((55 - len) mod 64)) ++ be_encode 8 (8 * len).

(** The 64 rounds: [w] is a window of the schedule, its next word first. *)
Fixpoint rounds (ks w : list Z) (a b c d e f g h : Z) : list Z :=
  match ks with
  | [] => [a; b; c; d; e; f; g; h]
  | k :: ks =>
      let w0 := nth 0 w 0 in
      let t1 := h + Sigma1 e + ch e f g + k + w0 in
      let t2 := Sigma0 a + maj a b c in
      let next := word32 (sigma1 (nth 14 w 0) + nth 9 w 0 + sigma0 (nth 1 w 0) + w0) in
      rounds ks (tl w ++ [next]) (word32 (t1 + t2)) a b c (word32 (d + t1)) e f g
  end.

Definition compress (hs w : list Z) : list Z :=
  match hs with
  | [a; b; c; d; e; f; g; h] => zip_with (fun x y => word32 (x + y)) hs (rounds K w a b c d e f g h)
  | _ => hs
  end.

(** Sixteen big-endian words per block. *)
Fixpoint words (l : Bytes) : list Z :=
  match l with
  | a :: b :: c :: d :: rest => be_val [a; b; c; d] :: words rest
  | _ => []
  end.
Fixpoint blocks (n : nat) (ws hs : list Z) : list Z :=
  match n with
  | O => hs
  | S n => blocks n (drop 16 ws) (compress hs (take 16 ws))
  end.

Definition sha256 (m : Bytes) : Bytes :=
  let ws := words (pad m) in
  blocks (length ws / 16) ws H0 ≫= be_encode 4.

(** HMAC (RFC 2104): a key longer than a block is hashed first. *)
Definition block_key (k : Bytes) : Bytes :=
  let k := if Nat.leb (length k) 64 then k else sha256 k in
  k ++ repeat x00 (64 - length k).
Definition xor_byte (x : Z) (b : byte) : byte := Z_byte (Z.lxor (byte_Z b) x).
Definition hmac (k m : Bytes) : Bytes :=
  sha256 (map (xor_byte 0x5c) (block_key k) ++ sha256 (map (xor_byte 0x36) (block_key k) ++ m)).

Lemma length_pad m : (length (pad m) mod 64 = 0)%nat.
Proof.
  unfold pad. cbv zeta. rewrite !length_app, repeat_length, length_be_encode. cbn [length].
  apply Nat2Z.inj. rewrite Nat2Z.inj_mod, !Nat2Z.inj_add, Z2Nat.id by (apply Z.mod_pos_bound; lia).
  Z.to_euclidean_division_equations; lia.
Qed.

Lemma length_rounds ks w a b c d e f g h : length (rounds ks w a b c d e f g h) = 8%nat.
Proof. revert w a b c d e f g h. induction ks as [|k ks IH]; intros; [done|]. apply IH. Qed.

Lemma length_compress hs w : length hs = 8%nat -> length (compress hs w) = 8%nat.
Proof.
  intros H. do 8 (destruct hs as [|? hs]; [discriminate H|]). destruct hs; [|discriminate H].
  cbn [compress]. by rewrite length_zip_with, length_rounds.
Qed.

Lemma length_blocks n ws hs : length hs = 8%nat -> length (blocks n ws hs) = 8%nat.
Proof. revert ws hs. induction n as [|n IH]; intros ws hs H; [done|]. by apply IH, length_compress. Qed.

Lemma length_sha256 m : length (sha256 m) = 32%nat.
Proof.
  unfold sha256. cbv zeta.
  assert (Hb : forall l, length (l ≫= be_encode 4) = (4 * length l)%nat).
  { induction l as [|x l IH]; [done|]. rewrite bind_cons, length_app, length_be_encode, IH. cbn [length]. lia. }
  by rewrite Hb, length_blocks.
Qed.
End Sha256.

(** ** The library *)

Definition sodium_rfc : SodiumLib := {|
  sodium_base64_encoded_len n := (n + 2) / 3 * 4 + 1;
  sodium_bin2base64 := Base64.encode;
  sodium_base642bin := Base64.decode;
  crypto_auth_hmacsha256 := Sha256.hmac;
|}.

Lemma sodium_rfc_laws : SodiumLaws sodium_rfc.
Proof.
  split; intros d; cbn.
  - by rewrite Base64.encode_length.
  - apply Base64.encode_no_nul.
  - apply Base64.decode_encode.
Qed.

(** ** The pinned values *)

Module CodecVectors.
Definition creds : ApiCreds := {| api_key := "test-key"; secret := "SmVmZQ=="; passphrase := "test-pass" |}.
Definition addr : Bytes := Vectors.get [] (eth_address_from_hex "0xf39fd6e51aad88f6f4ce6ab8827279cfffb92266").
(** An object with one string member. *)
Definition heartbeat (id : string) : string := "{" +:+ quoted "heartbeat_id" +:+ ":" +:+ quoted id +:+ "}".
Definition signature (bdy : string) : option string :=
  match l2_headers (SL := sodium_rfc) creds addr 1752900000 "POST" "/v1/heartbeats" bdy with
  | Ok [_; (_, s); _; _; _] => Some s
  | _ => None
  end.

Example sha256_abc : to_hex (Sha256.sha256 (bytes_of_string "abc")) =
  "ba7816bf8f01cfea414140de5dae2223b00361a396177a9cb410ff61f20015ad".
Proof. vm_compute. reflexivity. Qed.

(** A message of two blocks. *)
Example sha256_two_blocks :
  to_hex (Sha256.sha256 (bytes_of_string "abcdbcdecdefdefgefghfghighijhijkijkljklmklmnlmnomnopnopq")) =
  "248d6a61d20638b8e5c026930c3e6039a33ce45964ff2167f6ecedd419db06c1".
Proof. vm_compute. reflexivity. Qed.

Example hmac_jefe :
  to_hex (hmac_sha256 (SL := sodium_rfc) (bytes_of_string "Jefe") "what do ya want for nothing?") =
  "5bdcc146bf60754e6a042426089575c75a003f089d2739839dec58b964ec3843".
Proof. vm_compute. reflexivity. Qed.

Example base64_vectors :
  b64url_encode (SL := sodium_rfc) [xfb; xff; x00; x10] = "-_8AEA=="
  /\ b64url_decode (SL := sodium_rfc) "-_8AEA==" = Ok [xfb; xff; x00; x10]
  /\ is_ok (b64url_decode (SL := sodium_rfc) "!not/base64+") = false.
Proof. vm_compute. repeat split. Qed.

Example heartbeat_signatures :
  signature (heartbeat "") = Some "jjmrWzPb2PTlwq55iGI6h_l1EGUfbdQ3AILkFDVR4vw="
  /\ signature (heartbeat "hb-123") = Some "gDHOTxFv3Z-ntfk_YT9gxIbKxPyXNj0rISWNo34NH3w=".
Proof. vm_compute. repeat split. Qed.
End CodecVectors.
