(* ===== verification/AuthMessages.v ===== *)
(** * What an L2 signature authorises ([src/pm/auth.cpp])

    The venue's L2 scheme signs the concatenation of timestamp, method, path and
    body, with nothing between them.  This file says when the concatenation can
    be taken apart again, and so when a signature stands for one request. *)

From Stdlib Require Import Ascii String ZArith Lia.
From Stdlib Require Import Strings.Byte.
From stdpp Require Import base list strings numbers.
From S2P Require Import Prelude Interfaces Keccak Keys Amounts Signing Auth Codecs.

Open Scope Z_scope.

(** ** Splitting at the first character of another kind *)

(** [s] is empty or starts with a character outside [P]. *)
Definition stops (P : ascii -> bool) (s : string) : bool :=
  match s with EmptyString => true | String c _ => negb (P c) end.

Lemma span_unique P a a' b b' :
  str_all P a = true -> str_all P a' = true -> stops P b = true -> stops P b' = true ->
  a +:+ b = a' +:+ b' -> a = a' /\ b = b'.
Proof.
  revert a'. induction a as [|c a IH]; intros [|c' a'] Ha Ha' Hb Hb' Heq; cbn in *.
  - done.
  - subst b. cbn in Hb. apply andb_true_iff in Ha' as [Hc _]. by rewrite Hc in Hb.
  - subst b'. cbn in Hb'. apply andb_true_iff in Ha as [Hc _]. by rewrite Hc in Hb'.
  - apply andb_true_iff in Ha as [_ Ha], Ha' as [_ Ha']. injection Heq as <- Heq.
    destruct (IH a' Ha Ha' Hb Hb' Heq) as [-> ->]. done.
Qed.

(** ** The shape of a request *)

Definition upper (c : ascii) : bool := (65 <=? code c) && (code c <=? 90).
Definition slash (c : ascii) : bool := Ascii.eqb c "/"%char.
(** The two ways a JSON document of the venue starts. *)
Definition opens_json (c : ascii) : bool := Ascii.eqb c "{"%char || Ascii.eqb c "["%char.

Record L2Request := { q_timestamp : Z; q_method : string; q_path : string; q_body : string }.

(** A method in capitals, an absolute path without a bracket, and a body that is
    empty or a JSON object or array. *)
Definition l2_shape (q : L2Request) : bool :=
  (0 <=? q_timestamp q) && str_all upper (q_method q) && negb (str_empty (q_method q))
  && (match q_path q with String c _ => slash c | EmptyString => false end)
  && str_all (fun c => negb (opens_json c)) (q_path q)
  && (match q_body q with String c _ => opens_json c | EmptyString => true end).

(** [msg] of [l2_headers]. *)
Definition l2_message (q : L2Request) : string :=
  to_string (q_timestamp q) +:+ q_method q +:+ q_path q +:+ q_body q.

Lemma upper_not_digit c : upper c = true -> negb (is_digit c) = true.
Proof. destruct c as [[] [] [] [] [] [] [] []]; vm_compute; congruence. Qed.
Lemma slash_not_upper c : slash c = true -> negb (upper c) = true.
Proof. destruct c as [[] [] [] [] [] [] [] []]; vm_compute; congruence. Qed.

(** A message of that shape says what it authorises. *)
Lemma l2_message_inj q q' : l2_shape q = true -> l2_shape q' = true -> l2_message q = l2_message q' -> q = q'.
Proof.
  destruct q as [ts m p b], q' as [ts' m' p' b']. unfold l2_shape, l2_message. cbn.
  rewrite !andb_true_iff. intros [[[[[H1 H2] H3] H4] H5] H6] [[[[[K1 K2] K3] K4] K5] K6] Heq.
  apply Z.leb_le in H1, K1.
  assert (Hstop : forall m p b, str_all upper m = true -> negb (str_empty m) = true ->
    stops is_digit (m +:+ p +:+ b) = true).
  { intros [|c x] y z Hu Hn; [done|]. cbn in *. apply andb_true_iff in Hu as [Hu _]. by apply upper_not_digit. }
  assert (Hstop2 : forall p b, match p with String c _ => slash c | EmptyString => false end = true ->
    stops upper (p +:+ b) = true).
  { intros [|c x] y Hs; [done|]. by apply slash_not_upper. }
  assert (Hstop3 : forall b, match b with String c _ => opens_json c | EmptyString => true end = true ->
    stops (fun c => negb (opens_json c)) b = true).
  { intros [|c x] Hb; [done|]. cbn. by rewrite Hb. }
  apply (span_unique is_digit) in Heq as [Ets Heq]; [|by apply to_string_digits|by apply to_string_digits|auto..].
  apply (span_unique upper) in Heq as [-> Heq]; [|auto..].
  apply (span_unique (fun c => negb (opens_json c))) in Heq as [-> ->]; [|auto..].
  apply to_string_inj in Ets; [|done..]. by subst.
Qed.

(** ** The property *)

Section Binding.
Context `{SL : SodiumLib} {SLL : SodiumLaws SL}.

Definition l2_headers_for (creds : ApiCreds) (addr : Bytes) (q : L2Request) : result (list (string * string)) :=
  l2_headers creds addr (q_timestamp q) (q_method q) (q_path q) (q_body q).

(** The value of a header. *)
Definition header_value (name : string) (hs : list (string * string)) : option string :=
  snd <$> find (fun h => String.eqb (fst h) name) hs.

Lemma b64url_encode_inj a b : b64url_encode a = b64url_encode b -> a = b.
Proof using SLL.
  intros H. apply (f_equal b64url_decode) in H. rewrite !(proj2 (b64url_round_trip _)) in H. by apply Ok_inj in H.
Qed.

(** Two different texts with the same MAC under one key. *)
Definition mac_collision (key : Bytes) (x y : string) : Prop := x <> y /\ hmac_sha256 key x = hmac_sha256 key y.

(** C12: an L2 signature authorises one request.  If two header sets made with
    one secret carry the same signature, for requests with a method in capitals,
    an absolute path without brackets and a body that is empty or JSON, then the
    requests have the same timestamp, method, path and body, unless their
    messages are an HMAC collision under the decoded secret: a signature cannot
    be replayed for another endpoint, body or second. *)
Theorem l2_signature_binds creds addr addr' q q' hs hs' :
  l2_shape q = true -> l2_shape q' = true ->
  l2_headers_for creds addr q = Ok hs -> l2_headers_for creds addr' q' = Ok hs' ->
  header_value "POLY_SIGNATURE" hs = header_value "POLY_SIGNATURE" hs' ->
  q = q' \/ exists key, b64url_decode (secret creds) = Ok key /\ mac_collision key (l2_message q) (l2_message q').
Proof using SLL.
  intros S1 S2 H1 H2 Heq. unfold l2_headers_for, l2_headers in H1, H2. cbv zeta in H1, H2.
  apply bind_ok in H1 as (key & Hk & H1). apply bind_ok in H2 as (key' & Hk' & H2).
  rewrite Hk in Hk'. apply Ok_inj in Hk', H1, H2. subst key' hs hs'.
  cbn in Heq. injection Heq as Heq. apply b64url_encode_inj in Heq.
  destruct (String.eqb_spec (l2_message q) (l2_message q')) as [E|E].
  - left. by apply l2_message_inj.
  - right. exists key. done.
Qed.

(** Without the shape the boundary between path and body is lost. *)
Lemma l2_boundary_ambiguous creds addr ts method path more bdy :
  l2_headers creds addr ts method path (more +:+ bdy) = l2_headers creds addr ts method (path +:+ more) bdy.
Proof using. unfold l2_headers. cbv zeta. by rewrite <- !str_app_assoc. Qed.
End Binding.

(** ** A concrete pair of requests *)

Module DemoBinding.
Definition beat : L2Request :=
  {| q_timestamp := 1752900000; q_method := "POST"; q_path := "/v1/heartbeats"; q_body := CodecVectors.heartbeat "hb-123" |}.
Definition headers_from (addr : Bytes) : list (string * string) :=
  Vectors.get [] (l2_headers_for (SL := sodium_rfc) CodecVectors.creds addr beat).
End DemoBinding.

Lemma l2_signature_binds_witness :
  l2_shape DemoBinding.beat = true
  /\ header_value "POLY_SIGNATURE" (DemoBinding.headers_from CodecVectors.addr)
     = Some "gDHOTxFv3Z-ntfk_YT9gxIbKxPyXNj0rISWNo34NH3w="
  /\ (DemoBinding.beat = DemoBinding.beat \/ exists key, b64url_decode (SL := sodium_rfc) (secret CodecVectors.creds) = Ok key
      /\ mac_collision (SL := sodium_rfc) key (l2_message DemoBinding.beat) (l2_message DemoBinding.beat)).
Proof.
  split; [reflexivity|]. split; [vm_compute; reflexivity|].
  apply (l2_signature_binds (SL := sodium_rfc) (SLL := sodium_rfc_laws) CodecVectors.creds CodecVectors.addr (repeat x00 20)
    DemoBinding.beat DemoBinding.beat (DemoBinding.headers_from CodecVectors.addr)
    (DemoBinding.headers_from (repeat x00 20))); vm_compute; reflexivity.
Defined.
