(* ===== verification/DepositWallet.v ===== *)
(** * Deposit wallets ([src/pm/deposit_wallet.cpp], [deposit_wallet_rpc.cpp])

    CREATE2 address derivation, the EIP-712 batch digest, and the choice of the
    wallet from the chain's answers.  The JSON-RPC transport is a callback; it
    may answer differently on every call. *)

From Stdlib Require Import Ascii String ZArith Lia.
From Stdlib Require Import Strings.Byte.
From stdpp Require Import base list sets strings numbers.
From S2P Require Import Prelude Interfaces Keccak Keys Amounts Signing.

Open Scope Z_scope.

(** ** Constants and data *)

Definition kDepositWalletFactory : string := "0x00000000000Fb5C9ADea0298D729A0CB3823Cc07".
Definition kDepositWalletUupsImplementation : string := "0x58CA52ebe0DadfdF531Cde7062e76746de4Db1eB".
Definition kCloneConst1 : string := "cc3735a920a3ca505d382bbc545af43d6000803e6038573d6000fd5b3d6000f3".
Definition kCloneConst2 : string := "5155f3363d3d373d3d363d7f360894a13ba1a3210667c828492db98dca3e2076".
Definition kBeaconConst1 : string := "b3582b35133d50545afa5036515af43d6000803e604d573d6000fd5b3d6000f3".
Definition kBeaconConst2 : string := "1b60e01b36527fa3f0ad74e5423aebfd80d3ef4346578335a9a72aeaee59ff6c".
Definition kBeaconConst3 : string := "60195155f3363d3d373d3d363d602036600436635c60da".
Definition kFactoryBeaconSelector : string := "0x49493a4d".

Record DepositWalletCandidates := { uups : Bytes; beacon : Bytes }.
Record DepositWalletCall `{U256Lib} := { target : Bytes; value : U256; data : Bytes }.

(** ** Derivation *)

(** The output loop: byte [index] of [low], most significant first. *)
Definition u64_be (low : Z) : Bytes :=
  map (fun index => Z_byte (Z.shiftr low (8 * (7 - Z.of_nat index)))) (seq 0 8).

Definition clone_prefix (is_beacon : bool) (argument_size : Z) : Bytes :=
  let high := 0x6100 in
  let low := if is_beacon then 0x523D8160233D3973 else 0x3D3D8160233D3973 in
  let low := u64 (low + u64 (Z.shiftl argument_size 56)) in
  [Z_byte (Z.shiftr high 8); Z_byte (Z.land high 255)] ++ u64_be low.

Section Derivation.
Context `{EI : Eip712Lib}.

Definition deposit_wallet_arguments (factory owner : Bytes) : Bytes :=
  append_address (append_address [] factory) owner.

Definition uups_init_code_hash (implementation arguments : Bytes) : result Bytes :=
  let code := clone_prefix false (Z.of_nat (length arguments)) ++ implementation ++ [Z_byte 0x60] ++ [Z_byte 0x09] in
  c2 ← from_hex kCloneConst2;
  c1 ← from_hex kCloneConst1;
  Ok (keccak256 (code ++ c2 ++ c1 ++ arguments)).

Definition beacon_init_code_hash (b arguments : Bytes) : result Bytes :=
  let code := clone_prefix true (Z.of_nat (length arguments)) ++ b in
  c3 ← from_hex kBeaconConst3;
  c2 ← from_hex kBeaconConst2;
  c1 ← from_hex kBeaconConst1;
  Ok (keccak256 (code ++ c3 ++ c2 ++ c1 ++ arguments)).

Definition create2_address (factory salt init_code_hash : Bytes) : Bytes :=
  drop 12 (keccak256 ([Z_byte 0xff] ++ factory ++ salt ++ init_code_hash)).

Definition derive_deposit_wallet_uups (owner : Bytes) : result Bytes :=
  factory ← eth_address_from_hex kDepositWalletFactory;
  let arguments := deposit_wallet_arguments factory owner in
  implementation ← eth_address_from_hex kDepositWalletUupsImplementation;
  h ← uups_init_code_hash implementation arguments;
  Ok (create2_address factory (keccak256 arguments) h).

Definition derive_deposit_wallet_beacon (owner b : Bytes) : result Bytes :=
  factory ← eth_address_from_hex kDepositWalletFactory;
  let arguments := deposit_wallet_arguments factory owner in
  h ← beacon_init_code_hash b arguments;
  Ok (create2_address factory (keccak256 arguments) h).

Definition derive_deposit_wallet_candidates (owner b : Bytes) : result DepositWalletCandidates :=
  u ← derive_deposit_wallet_uups owner;
  w ← derive_deposit_wallet_beacon owner b;
  Ok {| uups := u; beacon := w |}.

(** ** The batch digest *)

Definition call_type : string := "Call(address target,uint256 value,bytes data)".
Definition batch_type : string :=
  "Batch(address wallet,uint256 nonce,uint256 deadline,Call[] calls)" +:+
  "Call(address target,uint256 value,bytes data)".

Definition call_buffer (call : DepositWalletCall) : Bytes :=
  let b := append_word [] (keccak_string call_type) in
  let b := append_address b (target call) in
  let b := append_u256 b (value call) in
  append_word b (keccak256 (data call)).

Definition encoded_calls (calls : list DepositWalletCall) : Bytes :=
  fold_left (fun acc call => acc ++ keccak256 (call_buffer call)) calls [].

Definition batch_buffer (wallet : Bytes) (nonce deadline : Z) (calls : list DepositWalletCall) : Bytes :=
  let b := append_word [] (keccak_string batch_type) in
  let b := append_address b wallet in
  let b := append_u64 b nonce in
  let b := append_u64 b deadline in
  append_word b (keccak256 (encoded_calls calls)).

Definition deposit_wallet_batch_digest (chain_id : Z) (wallet : Bytes) (nonce deadline : Z)
    (calls : list DepositWalletCall) : Bytes :=
  let struct_hash := keccak256 (batch_buffer wallet nonce deadline calls) in
  let domain := domain_separator "DepositWallet" "1" chain_id wallet in
  typed_digest domain struct_hash.

Definition sign_deposit_wallet_batch `{EC : EcdsaLib} (owner_key : PrivKey) (chain_id : Z) (wallet : Bytes)
    (nonce deadline : Z) (calls : list DepositWalletCall) : result Bytes :=
  sign_digest owner_key (deposit_wallet_batch_digest chain_id wallet nonce deadline calls).
End Derivation.

(** ** Reading the chain *)

Inductive DepositWalletKind := Uups | Beacon.
#[export] Instance DepositWalletKind_eq_dec : EqDecision DepositWalletKind.
Proof. solve_decision. Defined.

Record DepositWalletResolution := {
  owner : Bytes;
  factory_beacon : Bytes;
  candidates : DepositWalletCandidates;
  uups_deployed : bool;
  beacon_deployed : bool;
  selected_kind : DepositWalletKind;
  selected : Bytes;
}.

Definition selected_deployed (r : DepositWalletResolution) : bool :=
  if bool_decide (selected_kind r = Uups) then uups_deployed r else beacon_deployed r.

Definition deposit_wallet_kind_name (kind : DepositWalletKind) : string :=
  match kind with Uups => "uups" | Beacon => "beacon" end.

Definition zero_address : Bytes := repeat x00 20.
Definition is_zero_address (a : Bytes) : bool := forallb (fun b => byte_Z b =? 0) a.

Definition decode_abi_address (d : string) : result Bytes :=
  if slen d <? 66 then Ok zero_address
  else eth_address_from_hex ("0x" +:+ str_drop (String.length d - 40) d).

Fixpoint code_scan (code : string) (nonzero : bool) : result bool :=
  match code with
  | EmptyString => Ok nonzero
  | String digit rest =>
      let hexadecimal := ((48 <=? Prelude.code digit) && (Prelude.code digit <=? 57))
        || ((97 <=? Prelude.code digit) && (Prelude.code digit <=? 102))
        || ((65 <=? Prelude.code digit) && (Prelude.code digit <=? 70)) in
      throw_if (negb hexadecimal) (RuntimeError "deposit wallet RPC returned malformed bytecode");;
      code_scan rest (nonzero || negb (Prelude.code digit =? 48))
  end.

Definition has_contract_code (code : string) : result bool :=
  throw_if (negb (starts_with "0x" code) && negb (starts_with "0X" code))
    (RuntimeError "deposit wallet RPC returned malformed bytecode");;
  code_scan (str_drop 2 code) false.

Definition encoded_zero_address : string := "0x" +:+ str_repeat 64 "0".

Definition tolower (c : ascii) : ascii :=
  if (65 <=? Prelude.code c) && (Prelude.code c <=? 90) then chr (Prelude.code c + 32) else c.

(** [lowered.contains("revert")] *)
Fixpoint str_infix (p s : string) : bool :=
  starts_with p s || match s with EmptyString => false | String _ s' => str_infix p s' end.
Definition contains_revert (message : string) : bool := str_infix "revert" (str_map tolower message).

(** ** JSON-RPC *)

Record RpcEnvelope := { rpc_result : option string; rpc_error : option (Z * string) }.

Section Rpc.
(** [glz::read_json] into an [RpcEnvelope]; [None] is a parse error. *)
Context (read_json : string -> option RpcEnvelope).

Definition rpc_body (method params_json : string) (id : Z) : string :=
  "{" +:+ quoted "jsonrpc" +:+ ":" +:+ quoted "2.0" +:+ "," +:+ quoted "method" +:+ ":" +:+ quoted method
  +:+ "," +:+ quoted "params" +:+ ":" +:+ params_json +:+ "," +:+ quoted "id" +:+ ":" +:+ to_string id +:+ "}".

(** [HttpsEthRpc::call] after the POST returned [status] and [body]. *)
Definition rpc_reply (status : Z) (body : string) : result string :=
  throw_if (negb (status =? 200)) (RuntimeError ("deposit wallet RPC HTTP " +:+ to_string status));;
  envelope ← of_option (RuntimeError "deposit wallet RPC returned invalid JSON") (read_json body);
  match rpc_error envelope with
  | Some (code, message) => Throw (RpcError code message)
  | None => of_option (RuntimeError "deposit wallet RPC result missing") (rpc_result envelope)
  end.

(** The lambda of the URL overload: a revert of [eth_call] reads as the zero
    address. *)
Definition adapt_reply (method : string) (reply : result string) : result string :=
  match reply with
  | Throw (RpcError code message) =>
      if String.eqb method "eth_call" && ((code =? 3) || contains_revert message)
      then Ok encoded_zero_address else reply
  | _ => reply
  end.
End Rpc.

Section Resolve.
Context `{EI : Eip712Lib}.
(** The callback: a method name and parameters, and whatever state its owner
    keeps. *)
Context {S : Type} (rpc_call : string -> string -> ST S string).

Definition eth_call_params (factory : Bytes) : string :=
  "[{" +:+ quoted "to" +:+ ":" +:+ quoted (to_hex0x factory) +:+ "," +:+ quoted "data" +:+ ":"
  +:+ quoted kFactoryBeaconSelector +:+ "}," +:+ quoted "latest" +:+ "]".
Definition get_code_params (a : Bytes) : string :=
  "[" +:+ quoted (to_hex0x a) +:+ "," +:+ quoted "latest" +:+ "]".

Definition resolve_deposit_wallet (own : Bytes) : ST S DepositWalletResolution :=
  factory ← pure_call (eth_address_from_hex kDepositWalletFactory);
  reply ← rpc_call "eth_call" (eth_call_params factory);
  fb ← pure_call (decode_abi_address reply);
  u ← pure_call (derive_deposit_wallet_uups own);
  code ← rpc_call "eth_getCode" (get_code_params u);
  ud ← pure_call (has_contract_code code);
  bd ← (if negb (is_zero_address fb) then
          b ← pure_call (derive_deposit_wallet_beacon own fb);
          code ← rpc_call "eth_getCode" (get_code_params b);
          d ← pure_call (has_contract_code code);
          mret (b, d)
        else mret (zero_address, false));
  let kind := if is_zero_address fb || ud then Uups else Beacon in
  mret {| owner := own; factory_beacon := fb; candidates := {| uups := u; beacon := fst bd |};
          uups_deployed := ud; beacon_deployed := snd bd; selected_kind := kind;
          selected := match kind with Uups => u | Beacon => fst bd end |}.
End Resolve.

(** ** The vectors of the test suite *)

Module WalletVectors.
Definition addr (s : string) : Bytes := Vectors.get [] (eth_address_from_hex s).
Definition test_owner : Bytes := addr "0xf39Fd6e51aad88F6F4ce6aB8827279cffFb92266".
Definition beacon_address : Bytes := addr "0x7A18EDfe055488A3128f01F563e5B479D92ffc3a".

Example uups_vector :
  to_hex0x <$> derive_deposit_wallet_uups (EI := eip712_reference) (addr "0xA60601A4d903af91855C52BFB3814f6bA342f201")
  = Ok "0x8b60bf0f650bf7a0d93f10d72375b37de18f8c40".
Proof. vm_compute. reflexivity. Qed.

Example candidates_vector :
  (fun c => (to_hex0x (uups c), to_hex0x (beacon c)))
    <$> derive_deposit_wallet_candidates (EI := eip712_reference) test_owner beacon_address
  = Ok ("0xdf8b9e8f9ab23f261f6e1b171b7454ae6e46ba76", "0xbc0ff067b7740eff76c1ca93c875ba6b890d6b50").
Proof. vm_compute. reflexivity. Qed.

Definition batch_calls : list (@DepositWalletCall u256_reference) :=
  [@Build_DepositWalletCall u256_reference (addr "0x0000000000000000000000000000000000000001") 0
     (Vectors.get [] (from_hex ("0x095ea7b3" +:+ str_repeat 63 "0" +:+ "2" +:+ str_repeat 64 "f")))].

Example batch_vector :
  to_hex (deposit_wallet_batch_digest 137 (addr "0xBc0fF067b7740Eff76C1ca93c875Ba6B890d6B50") 0 1234567890 batch_calls)
  = "78766dd507106379818ad3fea96d1099cbf6f42c7a763d6a0eb2d4832ecf9735".
Proof. vm_compute. reflexivity. Qed.
End WalletVectors.

(** ** Bytecode *)

Lemma code_scan_spec s b :
  code_scan s b = if str_all is_hex s then Ok (b || negb (str_all (fun c => Prelude.code c =? 48) s))
                  else Throw (RuntimeError "deposit wallet RPC returned malformed bytecode").
Proof.
  assert (Hh : forall c, ((48 <=? Prelude.code c) && (Prelude.code c <=? 57)) || ((97 <=? Prelude.code c) && (Prelude.code c <=? 102))
               || ((65 <=? Prelude.code c) && (Prelude.code c <=? 70)) = is_hex c).
  { intros c. destruct c as [[] [] [] [] [] [] [] []]; reflexivity. }
  revert b. induction s as [|c s IH]; intros b; cbn [code_scan str_all]; [by rewrite orb_false_r|].
  cbv zeta. rewrite Hh. destruct (is_hex c); cbn; [|done]. rewrite IH. destruct (str_all is_hex s); [|done].
  f_equal. destruct b, (Prelude.code c =? 48), (str_all _ s); done.
Qed.

(** The bytecode test is exact: a text without an 0x prefix or with a
    character that is not a hex digit is an error, and otherwise the answer is
    whether some digit is not zero, so that the empty code and all-zero code
    both count as not deployed. *)
Lemma has_contract_code_exact s :
  has_contract_code s =
    if (starts_with "0x" s || starts_with "0X" s) && str_all is_hex (str_drop 2 s)
    then Ok (negb (str_all (fun c => Prelude.code c =? 48) (str_drop 2 s)))
    else Throw (RuntimeError "deposit wallet RPC returned malformed bytecode").
Proof.
  unfold has_contract_code. rewrite code_scan_spec, <- negb_orb.
  by destruct (starts_with "0x" s || starts_with "0X" s).
Qed.

(** ** Resolution *)

(** The wallet that is selected.  When resolution succeeds, it made its
    calls in order, each from the state the last one left: the factory's beacon
    first, then the code of the derived UUPS candidate and, with a factory
    beacon, the code of the derived beacon candidate.  The deployment flags are
    what the chain's code for exactly those addresses says; the UUPS wallet is
    selected when the factory has no beacon or the legacy wallet is deployed,
    the beacon wallet otherwise, and the selected address and deployment flag
    are those of the selected kind. *)
Theorem resolution_follows_chain `{L : U256Lib} {EI : @Eip712Lib L} {S : Type}
    (rpc_call : string -> string -> ST S string) own s0 r s3 :
  resolve_deposit_wallet rpc_call own s0 = (Ok r, s3) ->
  let u := uups (candidates r) in let b := beacon (candidates r) in
  owner r = own
  /\ derive_deposit_wallet_uups own = Ok u
  /\ (exists factory reply code s1 s2,
        eth_address_from_hex kDepositWalletFactory = Ok factory
        /\ rpc_call "eth_call" (eth_call_params factory) s0 = (Ok reply, s1)
        /\ decode_abi_address reply = Ok (factory_beacon r)
        /\ rpc_call "eth_getCode" (get_code_params u) s1 = (Ok code, s2)
        /\ has_contract_code code = Ok (uups_deployed r)
        /\ if is_zero_address (factory_beacon r) then s3 = s2 /\ b = zero_address /\ beacon_deployed r = false
           else derive_deposit_wallet_beacon own (factory_beacon r) = Ok b
             /\ exists code', rpc_call "eth_getCode" (get_code_params b) s2 = (Ok code', s3)
                  /\ has_contract_code code' = Ok (beacon_deployed r))
  /\ selected_kind r = (if is_zero_address (factory_beacon r) || uups_deployed r then Uups else Beacon)
  /\ selected r = (match selected_kind r with Uups => u | Beacon => b end)
  /\ selected_deployed r = (match selected_kind r with Uups => uups_deployed r | Beacon => beacon_deployed r end).
Proof.
  unfold resolve_deposit_wallet. intros H.
  apply ST_bind_ok in H as (factory & t0 & H0 & H). apply pure_call_ok in H0 as [Hf ->].
  apply ST_bind_ok in H as (reply & s1 & Hreply & H).
  apply ST_bind_ok in H as (fb & t1 & H0 & H). apply pure_call_ok in H0 as [Hfb ->].
  apply ST_bind_ok in H as (u & t2 & H0 & H). apply pure_call_ok in H0 as [Hu ->].
  apply ST_bind_ok in H as (code & s2 & Hcode & H).
  apply ST_bind_ok in H as (ud & t3 & H0 & H). apply pure_call_ok in H0 as [Hud ->].
  apply ST_bind_ok in H as ([b bd] & t4 & Hb & H). cbv zeta in H. injection H as <- <-.
  cbn [owner factory_beacon candidates uups beacon uups_deployed beacon_deployed selected_kind selected fst snd].
  split; [done|]. split; [done|]. split.
  - exists factory, reply, code, s1, s2. split; [done|]. split; [done|]. split; [done|]. split; [done|]. split; [done|].
    destruct (is_zero_address fb); cbn [negb] in Hb; [by injection Hb as <- <- <-|].
    apply ST_bind_ok in Hb as (b' & t5 & H0 & Hb). apply pure_call_ok in H0 as [Hb' ->].
    apply ST_bind_ok in Hb as (c' & s3 & Hc' & Hb).
    apply ST_bind_ok in Hb as (d' & t6 & H0 & Hb). apply pure_call_ok in H0 as [Hd' ->]. injection Hb as -> -> ->. eauto.
  - split; [done|]. split; [done|]. unfold selected_deployed. cbn. by destruct (is_zero_address fb || ud).
Qed.

(** An owner with a legacy wallet keeps it although the factory has a beacon;
    the state counts the calls. *)
Definition demo_rpc (method params : string) : ST nat string := fun n =>
  (match n with
   | O => Ok ("0x" +:+ str_repeat 24 "0" +:+ "7A18EDfe055488A3128f01F563e5B479D92ffc3a")
   | 1%nat => Ok "0x6001"
   | _ => Ok "0x"
   end, Datatypes.S n).

Lemma resolution_follows_chain_witness :
  exists r, resolve_deposit_wallet (EI := eip712_reference) demo_rpc WalletVectors.test_owner 0%nat = (Ok r, 3%nat)
    /\ selected_kind r = Uups /\ selected r = uups (candidates r) /\ selected_deployed r = true.
Proof.
  destruct (resolve_deposit_wallet (EI := eip712_reference) demo_rpc WalletVectors.test_owner 0%nat)
    as [[r|e] n] eqn:E; [|vm_compute in E; discriminate E].
  assert (n = 3%nat) as -> by (vm_compute in E; by injection E as _ <-).
  exists r. split; [reflexivity|].
  pose proof (resolution_follows_chain _ _ _ _ _ E)
    as (_ & _ & (f & rep & code & s1 & s2 & _ & Hr & _ & Hc & Hd & _) & Hk & Hs & Hdep).
  injection Hr as _ <-. injection Hc as <- _. injection Hd as Hd. change (true = uups_deployed r) in Hd.
  rewrite <- Hd, orb_true_r in Hk. rewrite Hk in Hs, Hdep. split; [exact Hk|]. split; [exact Hs|].
  by rewrite Hdep.
Defined.

(** ** What a batch digest commits to *)

Record call_ok `{U256Lib} (c : DepositWalletCall) : Prop := { ck_target : length (target c) = 20%nat }.
Definition same_call `{U256Lib} (c c' : DepositWalletCall) : Prop :=
  target c = target c' /\ u256_be (value c) = u256_be (value c') /\ data c = data c'.

Section BatchCommitment.
Context `{L : U256Lib} {E : @Eip712Lib L} {UL : U256Laws L} {EL : Eip712Laws L E}.

(** The texts hashed for one call: its encoding and its data. *)
Definition call_collides (c c' : DepositWalletCall) : Prop :=
  collides (call_buffer c) (call_buffer c') \/ collides (data c) (data c').

Lemma call_buffer_eq c :
  call_buffer c = keccak_string call_type ++ address_word (target c) ++ u256_be (value c) ++ keccak256 (data c).
Proof using EL.
  unfold call_buffer. rewrite !append_word_eq, append_u256_eq, append_address_eq. by rewrite <- !app_assoc.
Qed.

Lemma call_hash_inj c c' : call_ok c -> call_ok c' ->
  keccak256 (call_buffer c) = keccak256 (call_buffer c') -> same_call c c' \/ call_collides c c'.
Proof using EL UL.
  intros [Hl] [Hl'] H. destruct (collides_or_eq _ _ H) as [Hb|]; [|by right; left].
  rewrite !call_buffer_eq in Hb. unfold keccak_string in Hb. split_fields Hb.
  destruct (collides_or_eq _ _ Hb) as [Hd|]; [|by right; right]. left.
  split; [by apply address_word_inj|]. done.
Qed.

Lemma encoded_calls_cons c calls : encoded_calls (c :: calls) = keccak256 (call_buffer c) ++ encoded_calls calls.
Proof using.
  unfold encoded_calls. cbn [fold_left app].
  assert (Hacc : forall l acc, fold_left (fun acc call => acc ++ keccak256 (call_buffer call)) l acc
                 = acc ++ fold_left (fun acc call => acc ++ keccak256 (call_buffer call)) l []).
  { induction l as [|x l IH]; intros acc; cbn; [by rewrite app_nil_r|].
    rewrite IH, (IH (keccak256 (call_buffer x))). by rewrite app_assoc. }
  apply Hacc.
Qed.

(** Hashes have one length, so the concatenation determines the list. *)
Lemma encoded_calls_inj calls calls' :
  Forall call_ok calls -> Forall call_ok calls' -> encoded_calls calls = encoded_calls calls' ->
  Forall2 same_call calls calls' \/ exists c c', c ∈ calls /\ c' ∈ calls' /\ call_collides c c'.
Proof using EL UL.
  intros Hc. revert calls'. induction Hc as [|c calls Hc0 _ IH]; intros [|c' calls'] Hc' H.
  - by left.
  - exfalso. apply (f_equal length) in H. rewrite encoded_calls_cons, length_app, keccak256_length in H. done.
  - exfalso. apply (f_equal length) in H. rewrite encoded_calls_cons, length_app, keccak256_length in H. done.
  - rewrite !encoded_calls_cons in H. inversion Hc' as [|? ? Hc0' Hcs']; subst.
    apply list_app_inj_length in H as [Hh H]; [|by rewrite !keccak256_length].
    destruct (call_hash_inj c c' Hc0 Hc0' Hh) as [Hs|Hx]; [|right; exists c, c'; set_solver].
    destruct (IH calls' Hcs' H) as [Hall|(d & d' & H1 & H2 & H3)]; [left; by constructor|].
    right. exists d, d'. set_solver.
Qed.

Definition batch_domain (chain_id : Z) (wallet : Bytes) : Bytes :=
  keccak_string domain_type ++ keccak_string "DepositWallet" ++ keccak_string "1" ++ word_of chain_id
    ++ address_word wallet.

(** C30: a batch digest commits to the chain, the wallet, the nonce, the
    deadline and the whole list of calls (targets, values and data, in order):
    two batches with the same digest are the same, unless two of the texts that
    were hashed for them are a Keccak collision. *)
Theorem batch_digest_commits chain chain' wallet wallet' nonce nonce' deadline deadline' calls calls' :
  in_u64 chain -> in_u64 chain' -> in_u64 nonce -> in_u64 nonce' -> in_u64 deadline -> in_u64 deadline' ->
  length wallet = 20%nat -> length wallet' = 20%nat -> Forall call_ok calls -> Forall call_ok calls' ->
  deposit_wallet_batch_digest chain wallet nonce deadline calls
    = deposit_wallet_batch_digest chain' wallet' nonce' deadline' calls' ->
  (chain = chain' /\ wallet = wallet' /\ nonce = nonce' /\ deadline = deadline' /\ Forall2 same_call calls calls')
  \/ collides ([x19; x01] ++ keccak256 (batch_domain chain wallet) ++ keccak256 (batch_buffer wallet nonce deadline calls))
              ([x19; x01] ++ keccak256 (batch_domain chain' wallet') ++ keccak256 (batch_buffer wallet' nonce' deadline' calls'))
  \/ collides (batch_domain chain wallet) (batch_domain chain' wallet')
  \/ collides (batch_buffer wallet nonce deadline calls) (batch_buffer wallet' nonce' deadline' calls')
  \/ collides (encoded_calls calls) (encoded_calls calls')
  \/ exists c c', c ∈ calls /\ c' ∈ calls' /\ call_collides c c'.
Proof using EL UL.
  intros Hch Hch' Hn Hn' Hd Hd' Hw Hw' Hc Hc' H. unfold deposit_wallet_batch_digest in H.
  rewrite !typed_digest_eq, !domain_separator_eq in H by done.
  destruct (collides_or_eq _ _ H) as [H1|]; [|by auto]. apply app_inv_head in H1.
  apply list_app_inj_length in H1 as [Hdom Hstr]; [|by rewrite !keccak256_length].
  destruct (collides_or_eq _ _ Hdom) as [Hdom'|]; [|by auto].
  destruct (collides_or_eq _ _ Hstr) as [Hstr'|]; [|by auto].
  unfold batch_buffer in Hstr'. rewrite !append_word_eq, !append_u64_eq, !append_address_eq in Hstr' by done.
  unfold keccak_string in Hstr'. rewrite <- !app_assoc in Hstr'. cbn [app] in Hstr'. split_fields Hstr'.
  destruct (collides_or_eq _ _ Hstr') as [Henc|]; [|by auto 6].
  destruct (encoded_calls_inj _ _ Hc Hc' Henc) as [Hall|]; [|by auto 6]. left.
  unfold keccak_string in Hdom'. split_fields Hdom'.
  repeat split; try done; first [by apply word_of_inj | by apply address_word_inj].
Qed.
End BatchCommitment.

Lemma batch_digest_commits_witness :
  let w := WalletVectors.addr "0xBc0fF067b7740Eff76C1ca93c875Ba6B890d6B50" in
  let cs := WalletVectors.batch_calls in
  (137 = 137 /\ w = w /\ 0 = 0 /\ 1234567890 = 1234567890 /\ Forall2 same_call cs cs)
  \/ exists m m', collides m m'.
Proof.
  cbv zeta. destruct (batch_digest_commits (L := u256_reference) 137 137
    (WalletVectors.addr "0xBc0fF067b7740Eff76C1ca93c875Ba6B890d6B50")
    (WalletVectors.addr "0xBc0fF067b7740Eff76C1ca93c875Ba6B890d6B50") 0 0 1234567890 1234567890
    WalletVectors.batch_calls WalletVectors.batch_calls) as [H|[H|[H|[H|[H|(c & c' & _ & _ & [H|H])]]]]];
    try (unfold in_u64; lia); try reflexivity; try (by repeat constructor); eauto.
Defined.
