(* ===== verification/TypedData.v ===== *)
(** * The SDK's typed messages are EIP-712

    [signing.cpp] and [deposit_wallet.cpp] write type strings, word buffers and
    nested hashes out by hand.  This file compares them with the encoding of
    the standard ([Eip712Spec]) of the declared structs: the four digests, and
    what a signature over each of them recovers to. *)

From Stdlib Require Import Ascii String ZArith Lia.
From Stdlib Require Import Strings.Byte.
From stdpp Require Import base list strings numbers.
From S2P Require Import Prelude Interfaces Keccak Eip712Spec Keys Amounts Signing DepositWallet.

Open Scope Z_scope.

(** ** The remaining schema and domains *)

Definition call_struct : StructType :=
  {| struct_name := "Call"; members := [(TAddress, "target"); (TUint 256, "value"); (TBytes, "data")] |}.
Definition batch_struct : StructType :=
  {| struct_name := "Batch";
     members := [(TAddress, "wallet"); (TUint 256, "nonce"); (TUint 256, "deadline");
                 (TArray (TStruct "Call"), "calls")] |}.
Definition batch_types : Schema := [batch_struct; call_struct].

Definition call_value `{U256Lib} (c : DepositWalletCall) : TypedValue :=
  VStruct [VAddress (target c); VUint (u256_val (value c)); VBytes (data c)].
Definition batch_value `{U256Lib} (wallet : Bytes) (nonce deadline : Z) (calls : list DepositWalletCall) : TypedValue :=
  VStruct [VAddress wallet; VUint nonce; VUint deadline; VArray (map call_value calls)].

(** The exchange contracts as 160-bit numbers. *)
Definition exchange_contract (p : OrderProtocol) (neg_risk : bool) : string * Z :=
  match p, neg_risk with
  | position_v3, _ => ("3", 0xe3333700CA9D93003F00f0f71F8515005F6c00AA)
  | _, true => ("2", 0xe2222d279d744050d28e00520010520000310F59)
  | _, false => ("2", 0xE111180000d2663C0091e4f400237545B87B996B)
  end.

Definition order_domain (p : OrderProtocol) (neg_risk : bool) : Eip712Domain :=
  let '(version, contract) := exchange_contract p neg_risk in
  {| domain_name := "Polymarket CTF Exchange"; domain_version := version; domain_chain_id := 137;
     domain_contract := Some (be_encode 20 contract) |}.
Definition clob_auth_domain : Eip712Domain :=
  {| domain_name := "ClobAuthDomain"; domain_version := "1"; domain_chain_id := 137; domain_contract := None |}.
Definition wallet_domain (chain_id : Z) (wallet : Bytes) : Eip712Domain :=
  {| domain_name := "DepositWallet"; domain_version := "1"; domain_chain_id := chain_id;
     domain_contract := Some wallet |}.

Definition named_protocol (p : OrderProtocol) : bool :=
  match p with unnamed_protocol _ => false | _ => true end.

Section Spec.
Context `{L : U256Lib} {E : @Eip712Lib L} {UL : U256Laws L} {EL : Eip712Laws L E}.

Lemma u64_fits z : in_u64 z -> 0 <= z < 2 ^ 256.
Proof using. unfold in_u64. lia. Qed.

Lemma word_of_u256 x : word_of (u256_val x) = u256_be x.
Proof using UL. apply be_encode_val, u256_be_length. Qed.

(** *** Structs *)

Lemma order_hash_spec sch o :
  find_struct sch "Order" = Some order_struct -> encode_type sch "Order" = Some kOrderTypeString ->
  order_ok o -> hash_struct sch "Order" (order_value o) = Some (order_struct_hash_v2 o).
Proof using EL UL.
  intros Hf Ht Ho. pose proof (side_u8_range _ (ok_side _ Ho)). unfold order_struct_hash_v2.
  rewrite order_buffer_eq by done. destruct Ho. rewrite <- (word_of_u256 (token_id o)).
  eapply hash_struct_eq; [exact Hf|exact Ht|].
  encode_fields; auto using u64_fits, u256_val_range.
Qed.

Lemma domain_hash_spec n v c a : in_u64 c ->
  domain_hash {| domain_name := n; domain_version := v; domain_chain_id := c; domain_contract := Some a |}
  = Some (domain_separator n v c a).
Proof using EL.
  intros Hc. rewrite domain_separator_eq by done. unfold domain_hash, domain_struct, domain_value. cbn [domain_contract app].
  eapply hash_struct_eq; [reflexivity|reflexivity|].
  encode_fields. by apply u64_fits.
Qed.

Lemma domain_hash_nvc_spec n v c : in_u64 c ->
  domain_hash {| domain_name := n; domain_version := v; domain_chain_id := c; domain_contract := None |}
  = Some (domain_separator_nvc n v c).
Proof using EL.
  intros Hc. rewrite domain_separator_nvc_eq by done. unfold domain_hash, domain_struct, domain_value. cbn [domain_contract app].
  eapply hash_struct_eq; [reflexivity|reflexivity|].
  encode_fields. by apply u64_fits.
Qed.

Lemma digest_spec d sch n m dh mh :
  domain_hash d = Some dh -> hash_struct sch n m = Some mh ->
  typed_data_digest d sch n m = Some (typed_digest dh mh).
Proof using EL. intros Hd Hm. unfold typed_data_digest. rewrite Hd, Hm, typed_digest_eq. done. Qed.

Lemma order_domain_spec p nr : named_protocol p = true ->
  exists dom, exchange_domain p nr = Ok dom /\ domain_hash (order_domain p nr) = Some dom /\ length dom = 32%nat.
Proof using EL.
  intros Hp. pose proof (exchange_domain_eq p nr) as He.
  assert (Hh : domain_hash (order_domain p nr) = Some (keccak256 (domain_buffer (exchange_of p nr)))).
  { destruct p, nr; try discriminate Hp; unfold order_domain; cbn [exchange_contract];
      (etrans; [apply domain_hash_spec; unfold in_u64; lia|]);
      rewrite domain_separator_eq by (unfold in_u64; lia); reflexivity. }
  destruct p; try discriminate Hp; eexists; eauto using keccak256_length.
Qed.

Lemma clob_auth_spec a ts nonce : in_u64 nonce ->
  typed_data_digest clob_auth_domain [clob_auth_struct] "ClobAuth" (clob_auth_value a ts nonce)
  = Some (clob_auth_digest a ts nonce).
Proof using EL.
  intros Hn. unfold clob_auth_digest. eapply digest_spec; [apply domain_hash_nvc_spec; unfold in_u64, kChainId; lia|].
  rewrite !append_word_eq, append_u64_eq, append_address_eq by done. rewrite <- !app_assoc.
  eapply hash_struct_eq; [reflexivity|reflexivity|].
  encode_fields. by apply u64_fits.
Qed.

Lemma calls_spec calls :
  encode_elements batch_types (TStruct "Call") (map call_value calls) = Some (encoded_calls calls).
Proof using EL UL.
  induction calls as [|c calls IH]; [reflexivity|]. rewrite encoded_calls_cons.
  cbn [map]. unfold encode_elements. fold (encode_elements batch_types (TStruct "Call")).
  assert (Hc : encode_field batch_types (TStruct "Call") (call_value c) = Some (keccak256 (call_buffer c))).
  { rewrite call_buffer_eq, <- word_of_u256. eapply hash_struct_eq; [reflexivity|reflexivity|].
    encode_fields. apply u256_val_range. }
  by rewrite Hc, IH.
Qed.

Lemma batch_spec chain wallet nonce deadline calls : in_u64 chain -> in_u64 nonce -> in_u64 deadline ->
  typed_data_digest (wallet_domain chain wallet) batch_types "Batch" (batch_value wallet nonce deadline calls)
  = Some (deposit_wallet_batch_digest chain wallet nonce deadline calls).
Proof using EL UL.
  intros Hc Hn Hd. eapply digest_spec; [by apply domain_hash_spec|]. unfold batch_buffer.
  rewrite !append_word_eq, !append_u64_eq, append_address_eq by done. rewrite <- !app_assoc.
  eapply hash_struct_eq; [reflexivity|reflexivity|].
  encode_fields; [by apply u64_fits..|]. apply encode_array_eq, calls_spec.
Qed.
End Spec.

(** ** The properties *)

Section TypedDataClaims.
Context `{L : U256Lib} {E : @Eip712Lib L} {UL : U256Laws L} {EL : Eip712Laws L E}.

(** C31: the hand-written digests are the EIP-712 digests of the declared
    structs.  For an order whose fields have their C++ ranges and either named
    protocol, [order_digest] returns the standard's digest of the [Order] struct
    under the domain of the exchange the protocol and the neg-risk flag select
    (any other protocol throws); the attestation of [sign_clob_auth] is over the
    digest of [ClobAuth] under the domain without a contract; and the batch of
    a deposit wallet is the digest of [Batch] with its array of [Call]s, of any
    length, under the wallet's own domain on the given chain. *)
Theorem digests_follow_eip712 :
  (forall o p nr, order_ok o ->
     if named_protocol p
     then exists h, order_digest o p nr = Ok h
          /\ typed_data_digest (order_domain p nr) [order_struct] "Order" (order_value o) = Some h
     else order_digest o p nr = Throw (InvalidArgument "pm: unsupported order protocol"))
  /\ (forall a timestamp_s nonce, in_u64 nonce ->
        typed_data_digest clob_auth_domain [clob_auth_struct] "ClobAuth" (clob_auth_value a timestamp_s nonce)
        = Some (clob_auth_digest a timestamp_s nonce))
  /\ (forall chain wallet nonce deadline calls, in_u64 chain -> in_u64 nonce -> in_u64 deadline ->
        typed_data_digest (wallet_domain chain wallet) batch_types "Batch"
          (batch_value wallet nonce deadline calls)
        = Some (deposit_wallet_batch_digest chain wallet nonce deadline calls)).
Proof using EL UL.
  split; [|split; [intros; by apply clob_auth_spec|intros; by apply batch_spec]].
  intros o p nr Ho. destruct (named_protocol p) eqn:Hp.
  - destruct (order_domain_spec p nr Hp) as (dom & Hd & Hs & _). unfold order_digest. rewrite Hd.
    eexists. split; [reflexivity|]. eapply digest_spec; [exact Hs|]. by apply order_hash_spec.
  - unfold order_digest. rewrite exchange_domain_eq. by destruct p.
Qed.

(** C32: a deposit wallet's signature is built from EIP-712 parts.
    [sign_order_1271] signs the standard's digest of Solady's [TypedDataSign],
    whose contents are the order itself and whose remaining members are the wallet's
    domain (name DepositWallet, version 1, chain 137, the wallet, zero salt), under
    the exchange's domain.  It returns exactly the owner's signature, the
    exchange's domain hash, the order's struct hash, the standard's type text of
    the order and the text's length as two big-endian bytes, and fails exactly
    when signing does; the 65 signature bytes recover the owner's address from
    the nested digest. *)
Theorem wallet_signature_follows_eip712 `{EC : EcdsaLib} {ECL : EcdsaLaws EC} key o wallet p nr :
  order_ok o -> named_protocol p = true ->
  exists dom contents text nested,
    domain_hash (order_domain p nr) = Some dom
    /\ hash_struct [order_struct] "Order" (order_value o) = Some contents
    /\ encode_type [order_struct] "Order" = Some text
    /\ typed_data_digest (order_domain p nr) nested_types "TypedDataSign"
         (nested_value (order_value o) wallet) = Some nested
    /\ sign_order_1271 key o wallet p nr
       = (inner ← sign_digest key nested;
          Ok (inner ++ dom ++ contents ++ bytes_of_string text
              ++ be_encode 2 (Z.of_nat (String.length text))))
    /\ forall inner, sign_digest key nested = Ok inner ->
         length inner = 65%nat /\ recover_eth_address inner nested = Ok (address key).
Proof using EL UL.
  intros Ho Hp. destruct (order_domain_spec p nr Hp) as (dom & Hd & Hs & _).
  exists dom, (order_struct_hash_v2 o), kOrderTypeString,
    (typed_digest dom (typed_data_sign_hash (order_struct_hash_v2 o) wallet)).
  split; [done|]. split; [by apply order_hash_spec|]. split; [reflexivity|]. split.
  { eapply digest_spec; [done|]. apply typed_data_sign_spec. by apply order_hash_spec. }
  split; [unfold sign_order_1271; by rewrite Hd|]. intros inner Hi. by apply signed_recovers.
Qed.
End TypedDataClaims.

(** The order and the wallet of the signing tests, and a batch of two calls. *)
Lemma golden_ok : order_ok Vectors.golden_order.
Proof. split; cbn; unfold in_u64; done || lia || reflexivity. Qed.

Definition two_calls : list (@DepositWalletCall u256_reference) :=
  [@Build_DepositWalletCall u256_reference Vectors.wallet 0 [x01; x02];
   @Build_DepositWalletCall u256_reference Vectors.wallet 7 []].

Lemma digests_follow_eip712_witness :
  typed_data_digest (order_domain ctf_v2 true) [order_struct] "Order" (order_value Vectors.golden_order)
    = Some (Vectors.get [] (order_digest_v2 Vectors.golden_order true))
  /\ typed_data_digest (wallet_domain 137 Vectors.wallet) batch_types "Batch"
       (batch_value Vectors.wallet 1 2 two_calls)
     = Some (deposit_wallet_batch_digest 137 Vectors.wallet 1 2 two_calls).
Proof.
  destruct digests_follow_eip712 as (Horder & _ & Hbatch). split.
  - destruct (Horder Vectors.golden_order ctf_v2 true golden_ok) as (h & Hd & ->).
    unfold order_digest_v2. by rewrite Hd.
  - apply Hbatch; unfold in_u64; lia.
Defined.

Lemma wallet_signature_follows_eip712_witness :
  exists sig nested, let key := {| k_ := repeat x01 32 |} in
    sign_order_1271 key Vectors.golden_order Vectors.wallet position_v3 false = Ok sig
    /\ typed_data_digest (order_domain position_v3 false) nested_types "TypedDataSign"
         (nested_value (order_value Vectors.golden_order) Vectors.wallet) = Some nested
    /\ recover_eth_address (EI := eip712_reference) (take 65 sig) nested = Ok (address key).
Proof.
  cbv zeta.
  destruct (wallet_signature_follows_eip712 {| k_ := repeat x01 32 |} Vectors.golden_order Vectors.wallet
    position_v3 false golden_ok eq_refl) as (dom & contents & text & nested & _ & _ & _ & Hn & Hs & Hr).
  destruct (sign_digest {| k_ := repeat x01 32 |} nested) as [inner|e] eqn:Hi.
  - destruct (Hr inner eq_refl) as [Hl Ha]. eexists _, nested. split; [exact Hs|]. split; [exact Hn|].
    by rewrite take_app_length'.
  - exfalso. vm_compute in Hn. injection Hn as <-. vm_compute in Hi. discriminate Hi.
Defined.
