(* ===== verification/WriteQueue.v ===== *)
(** * The bounded write queue ([src/net/ws_write_queue.hpp])

    Retained application messages and connection-scoped frames share one
    deque.  A payload is a [shared_ptr<const std::string>]: entries are found
    by pointer, not by text, so the model gives every allocation an identity
    of its own. *)

From Stdlib Require Import String ZArith Lia.
From stdpp Require Import base list strings numbers.
From S2P Require Import Prelude.

Open Scope Z_scope.

(** [std::shared_ptr<const std::string>] *)
Record Payload := { ptr : nat; text : string }.

Record Entry := { payload : Payload; connection_scoped : bool; generation : Z }.

Record WsWriteQueue := {
  capacity_ : Z;
  connection_reserve_ : Z;
  entries_ : list Entry;
  next_ptr : nat; (* the allocator: pointers handed out so far *)
}.

Definition make_queue (capacity connection_reserve : Z) : WsWriteQueue :=
  {| capacity_ := capacity; connection_reserve_ := Z.min connection_reserve capacity;
     entries_ := []; next_ptr := 0 |}.

Definition set_entries (q : WsWriteQueue) (l : list Entry) : WsWriteQueue :=
  {| capacity_ := capacity_ q; connection_reserve_ := connection_reserve_ q;
     entries_ := l; next_ptr := next_ptr q |}.

(** [entry(text, scoped, generation)]: allocates the payload. *)
Definition new_entry (q : WsWriteQueue) (txt : string) (scoped : bool) (gen : Z)
    : Entry * WsWriteQueue :=
  ({| payload := {| ptr := next_ptr q; text := txt |}; connection_scoped := scoped; generation := gen |},
   {| capacity_ := capacity_ q; connection_reserve_ := connection_reserve_ q;
      entries_ := entries_ q; next_ptr := S (next_ptr q) |}).

Definition qsize (q : WsWriteQueue) : Z := Z.of_nat (length (entries_ q)).
Definition qempty (q : WsWriteQueue) : bool := match entries_ q with [] => true | _ => false end.

Definition push_retained (q : WsWriteQueue) (txt : string) : bool * WsWriteQueue :=
  if capacity_ q - connection_reserve_ q <=? qsize q then (false, q)
  else let '(e, q') := new_entry q txt false 0 in
       (true, set_entries q' (entries_ q' ++ [e])).

Definition is_conn (gen : Z) (e : Entry) : bool := connection_scoped e && (generation e =? gen).
Definition is_stale (gen : Z) (e : Entry) : bool := connection_scoped e && negb (generation e =? gen).

(** [std::erase_if] *)
Definition erase_if (p : Entry -> bool) (l : list Entry) : list Entry :=
  List.filter (fun e => negb (p e)) l.

Definition discard_connection_writes (q : WsWriteQueue) (gen : Z) : WsWriteQueue :=
  set_entries q (erase_if (is_conn gen) (entries_ q)).

Definition discard_stale_connection_writes (q : WsWriteQueue) (gen : Z) : WsWriteQueue :=
  set_entries q (erase_if (is_stale gen) (entries_ q)).

Definition push_connection (q : WsWriteQueue) (txt : string) (gen : Z) (priority : bool)
    : bool * WsWriteQueue :=
  let q := discard_stale_connection_writes q gen in
  if capacity_ q <=? qsize q then (false, q)
  else let '(e, q') := new_entry q txt true gen in
       (true, set_entries q' (if priority then e :: entries_ q' else entries_ q' ++ [e])).

(** [entries_.front().payload]; the caller checks [empty()] first. *)
Definition front_payload (q : WsWriteQueue) : option Payload := payload <$> head (entries_ q).

Definition pop_front (q : WsWriteQueue) : WsWriteQueue := set_entries q (tail (entries_ q)).

(** [std::ranges::find] by pointer, then [erase]. *)
Fixpoint erase_payload (p : nat) (l : list Entry) : list Entry :=
  match l with
  | [] => []
  | e :: l' => if (ptr (payload e) =? p)%nat then l' else e :: erase_payload p l'
  end.

Definition complete (q : WsWriteQueue) (p : Payload) : WsWriteQueue :=
  set_entries q (erase_payload (ptr p) (entries_ q)).

Definition clear (q : WsWriteQueue) : WsWriteQueue := set_entries q [].

(** ** Every mutation, as one command *)

Inductive QueueOp :=
  | PushRetained (txt : string)
  | PushConnection (txt : string) (gen : Z) (priority : bool)
  | DiscardConnection (gen : Z)
  | DiscardStale (gen : Z)
  | PopFront
  | Complete (p : Payload)
  | Clear.

Definition apply_op (q : WsWriteQueue) (op : QueueOp) : WsWriteQueue :=
  match op with
  | PushRetained t => snd (push_retained q t)
  | PushConnection t g pr => snd (push_connection q t g pr)
  | DiscardConnection g => discard_connection_writes q g
  | DiscardStale g => discard_stale_connection_writes q g
  | PopFront => pop_front q
  | Complete p => complete q p
  | Clear => clear q
  end.

Definition run_ops (q : WsWriteQueue) (ops : list QueueOp) : WsWriteQueue := fold_left apply_op ops q.

(** ** Invariant *)

Definition retained (l : list Entry) : list Entry := List.filter (fun e => negb (connection_scoped e)) l.
Definition scoped (l : list Entry) : list Entry := List.filter connection_scoped l.
Definition ptrs (l : list Entry) : list nat := (fun e => ptr (payload e)) <$> l.

(** The two bounds (the whole queue, and the share retained messages may
    take), and payload identities that are distinct and already allocated. *)
Record queue_inv (q : WsWriteQueue) : Prop := {
  qi_reserve : 0 <= connection_reserve_ q <= capacity_ q;
  qi_size : qsize q <= capacity_ q;
  qi_retained : Z.of_nat (length (retained (entries_ q))) <= capacity_ q - connection_reserve_ q;
  qi_nodup : NoDup (ptrs (entries_ q));
  qi_fresh : Forall (fun e => (ptr (payload e) < next_ptr q)%nat) (entries_ q);
}.

(** [l'] is [l] with some entries removed, order kept. *)
Lemma sublist_inv q l' : queue_inv q -> sublist l' (entries_ q) -> queue_inv (set_entries q l').
Proof.
  intros [H1 H2 H3 H4 H5] Hs. unfold qsize in H2.
  assert (Hret : sublist (retained l') (retained (entries_ q))).
  { clear -Hs. induction Hs; cbn; [constructor|..].
    - destruct (connection_scoped x); cbn; [done|by constructor].
    - destruct (connection_scoped x); cbn; [done|by constructor]. }
  split; cbn [capacity_ connection_reserve_ entries_ next_ptr set_entries]; unfold qsize; cbn [entries_ set_entries].
  - done.
  - apply sublist_length in Hs. lia.
  - apply sublist_length in Hret. lia.
  - eapply sublist_NoDup; [exact H4|]. by apply fmap_sublist.
  - rewrite Forall_forall in H5 |- *. intros e He. apply H5, list_elem_of_In.
    eapply sublist_subseteq; [done|]. by apply list_elem_of_In.
Qed.

Lemma erase_if_sublist p l : sublist (erase_if p l) l.
Proof. induction l as [|e l IH]; cbn; [constructor|]. destruct (p e); cbn; by constructor. Qed.

Lemma erase_payload_sublist n l : sublist (erase_payload n l) l.
Proof. induction l as [|e l IH]; cbn; [constructor|]. case_match; by constructor. Qed.

Lemma erase_payload_incl n l e : In e (erase_payload n l) -> In e l.
Proof. induction l as [|x l IH]; cbn; [done|]. case_match; cbn; tauto. Qed.

Lemma tail_sublist (l : list Entry) : sublist (tail l) l.
Proof. destruct l; cbn; by constructor. Qed.

Lemma retained_app a b : retained (a ++ b) = retained a ++ retained b.
Proof. unfold retained. apply List.filter_app. Qed.

Lemma discard_stale_inv q g : queue_inv q -> queue_inv (discard_stale_connection_writes q g).
Proof. intros H. apply sublist_inv; [done|apply erase_if_sublist]. Qed.

(** Putting a freshly allocated entry anywhere keeps the identities distinct. *)
Lemma fresh_entry_inv q l e :
  queue_inv q -> l ≡ₚ e :: entries_ q -> ptr (payload e) = next_ptr q ->
  qsize q < capacity_ q ->
  (connection_scoped e = false -> Z.of_nat (length (retained (entries_ q))) < capacity_ q - connection_reserve_ q) ->
  queue_inv {| capacity_ := capacity_ q; connection_reserve_ := connection_reserve_ q;
               entries_ := l; next_ptr := S (next_ptr q) |}.
Proof.
  intros [H1 H2 H3 H4 H5] Hl Hp Hsz Hret. split; unfold qsize in *; cbn.
  - done.
  - rewrite Hl. cbn. lia.
  - assert (Hr : retained l ≡ₚ retained (e :: entries_ q)).
    { clear -Hl. induction Hl; cbn; [done|..].
      - case_match; [by constructor|done].
      - repeat case_match; try done. by constructor.
      - by etrans. }
    rewrite Hr. unfold retained in *. cbn. destruct (connection_scoped e); cbn; [lia|].
    specialize (Hret eq_refl). lia.
  - unfold ptrs. rewrite Hl. cbn. constructor; [|done]. intros (e' & Heq & He')%list_elem_of_fmap.
    rewrite Forall_forall in H5. apply list_elem_of_In in He'. specialize (H5 _ He'). lia.
  - rewrite Hl. constructor; [lia|]. rewrite Forall_forall in H5 |- *. intros x Hx%H5. lia.
Qed.

Lemma push_retained_inv q t : queue_inv q -> queue_inv (snd (push_retained q t)).
Proof.
  intros H. unfold push_retained. destruct (Z.leb_spec (capacity_ q - connection_reserve_ q) (qsize q)); [done|].
  unfold set_entries; cbn. eapply (fresh_entry_inv q _ _ H); [symmetry; apply Permutation_cons_append|done|..].
  - destruct H. lia.
  - intros _. unfold qsize in *. unfold retained. pose proof (List.filter_length_le (fun e => negb (connection_scoped e)) (entries_ q)). lia.
Qed.

Lemma push_connection_inv q t g pr : queue_inv q -> queue_inv (snd (push_connection q t g pr)).
Proof.
  intros H%(discard_stale_inv q g). unfold push_connection. cbv zeta.
  set (q' := discard_stale_connection_writes q g) in *.
  destruct (Z.leb_spec (capacity_ q') (qsize q')); [done|].
  unfold set_entries at 1. cbn [fst snd new_entry capacity_ connection_reserve_ next_ptr entries_].
  eapply (fresh_entry_inv q' _ {| payload := {| ptr := next_ptr q'; text := t |};
    connection_scoped := true; generation := g |} H); [|done|done|done].
  destruct pr; [done|symmetry; apply Permutation_cons_append].
Qed.

#[export] Hint Resolve sublist_inv erase_if_sublist erase_payload_sublist tail_sublist
  discard_stale_inv push_retained_inv push_connection_inv sublist_nil_l : queue.

Lemma apply_op_inv q op : queue_inv q -> queue_inv (apply_op q op).
Proof.
  intros H. destruct op; cbn [apply_op]; unfold discard_connection_writes, pop_front, complete, clear;
    auto with queue.
Qed.

Lemma apply_op_bounds q op :
  capacity_ (apply_op q op) = capacity_ q /\ connection_reserve_ (apply_op q op) = connection_reserve_ q.
Proof.
  destruct op; cbn [apply_op]; try done; unfold push_retained, push_connection; cbv zeta; by case_match.
Qed.

Lemma make_queue_inv c r : 0 <= c -> 0 <= r -> queue_inv (make_queue c r).
Proof. intros Hc Hr. split; unfold qsize; cbn; [lia..|constructor|constructor]. Qed.

(** ** Filters and counts *)

Lemma retained_erase_scoped p l :
  (forall e, p e = true -> connection_scoped e = true) -> retained (erase_if p l) = retained l.
Proof.
  intros Hp. unfold retained, erase_if. induction l as [|e l IH]; cbn; [done|].
  destruct (p e) eqn:E; cbn; [by rewrite (Hp e E)|]. destruct (connection_scoped e); cbn; by rewrite IH.
Qed.

Lemma is_conn_scoped g e : is_conn g e = true -> connection_scoped e = true.
Proof. unfold is_conn. by intros [? _]%andb_true_iff. Qed.

Lemma is_stale_scoped g e : is_stale g e = true -> connection_scoped e = true.
Proof. unfold is_stale. by intros [? _]%andb_true_iff. Qed.

#[export] Hint Resolve is_conn_scoped is_stale_scoped : queue.

Lemma erase_payload_absent n l : n ∉ ptrs l -> erase_payload n l = l.
Proof.
  unfold ptrs. induction l as [|e l IH]; cbn; [done|]. rewrite not_elem_of_cons. intros [H1 H2].
  destruct (Nat.eqb_spec (ptr (payload e)) n); [congruence|]. by rewrite IH.
Qed.

(** Payload identities are unique, so completing a write commutes with keeping
    the retained messages. *)
Lemma retained_erase_payload n l :
  NoDup (ptrs l) -> retained (erase_payload n l) = erase_payload n (retained l).
Proof.
  unfold ptrs. induction l as [|e l IH]; cbn; [done|]. intros Hd. inversion Hd as [|? ? H1 H2]; subst.
  destruct (Nat.eqb_spec (ptr (payload e)) n) as [<-|Hne].
  - destruct (connection_scoped e); cbn; [|by rewrite Nat.eqb_refl].
    rewrite erase_payload_absent; [done|]. unfold ptrs. contradict H1.
    apply list_elem_of_In, in_map_iff in H1 as (e' & He & Hin). apply filter_In in Hin as [Hin _].
    rewrite <- He. apply list_elem_of_In. by apply (in_map (fun e => ptr (payload e))).
  - cbn. destruct (connection_scoped e); cbn; [by apply IH|].
    rewrite (proj2 (Nat.eqb_neq _ _) Hne). f_equal. by apply IH.
Qed.

(** No frame of another connection. *)
Definition only_generation (g : Z) (l : list Entry) : Prop :=
  Forall (fun e => connection_scoped e = true -> generation e = g) l.

Lemma only_generation_discard g l : only_generation g (erase_if (is_stale g) l).
Proof.
  unfold only_generation, erase_if. apply Forall_forall. intros e [_ He]%filter_In Hs.
  apply negb_true_iff in He. unfold is_stale in He. rewrite Hs in He. cbn in He.
  apply negb_false_iff, Z.eqb_eq in He. done.
Qed.

Lemma only_generation_incl g l l' :
  only_generation g l -> (forall e, In e l' -> In e l) -> only_generation g l'.
Proof. unfold only_generation. rewrite !Forall_forall. eauto. Qed.

Lemma push_connection_only q t g pr : only_generation g (entries_ (snd (push_connection q t g pr))).
Proof.
  unfold push_connection. cbv zeta. pose proof (only_generation_discard g (entries_ q)) as H.
  case_match; [exact H|]. destruct pr; cbn; [by constructor|].
  apply Forall_app. split; [exact H|]. by repeat constructor.
Qed.

Lemma push_retained_only g q t :
  only_generation g (entries_ q) -> only_generation g (entries_ (snd (push_retained q t))).
Proof.
  intros H. unfold push_retained. case_match; [exact H|]. cbn. apply Forall_app.
  split; [exact H|]. by repeat constructor.
Qed.

(** After the stale frames are gone the queue holds the retained messages and
    the frames of one generation. *)
Lemma discard_stale_length g l :
  length (erase_if (is_stale g) l)
  = (length (retained l) + length (List.filter (is_conn g) l))%nat.
Proof.
  unfold erase_if, retained, is_stale, is_conn. induction l as [|e l IH]; cbn; [done|].
  destruct (connection_scoped e), (generation e =? g); cbn; lia.
Qed.

Lemma discard_stale_conn g l :
  (length (List.filter (is_conn g) (erase_if (is_stale g) l)) <= length (List.filter (is_conn g) l))%nat.
Proof.
  unfold erase_if. induction l as [|e l IH]; cbn; [done|].
  destruct (is_stale g e); cbn; destruct (is_conn g e); cbn; lia.
Qed.

(** The reserve keeps a place for a priority frame when at least one of its
    slots is not taken by frames of the same generation. *)
Lemma push_connection_room q t g :
  queue_inv q -> Z.of_nat (length (List.filter (is_conn g) (entries_ q))) < connection_reserve_ q ->
  exists e rest q', push_connection q t g true = (true, q') /\ entries_ q' = e :: rest
    /\ text (payload e) = t /\ connection_scoped e = true /\ generation e = g.
Proof.
  intros Hinv Hlt. unfold push_connection. cbv zeta. set (q1 := discard_stale_connection_writes q g).
  assert (Hsz : qsize q1 < capacity_ q1).
  { destruct Hinv. unfold qsize. cbn. rewrite discard_stale_length. lia. }
  rewrite (proj2 (Z.leb_gt _ _)) by exact Hsz. cbn. eexists _, _, _. done.
Qed.

Definition texts (l : list Entry) : list string := (fun e => text (payload e)) <$> l.
Definition pushed_texts (ops : list QueueOp) : list string :=
  flat_map (fun op => match op with PushRetained t => [t] | _ => [] end) ops.
Definition consumes (op : QueueOp) : bool :=
  match op with PopFront | Complete _ | Clear => true | _ => false end.

Lemma apply_op_retained q op :
  consumes op = false ->
  retained (entries_ (apply_op q op)) = retained (entries_ q)
  \/ exists t e, op = PushRetained t /\ text (payload e) = t
       /\ retained (entries_ (apply_op q op)) = retained (entries_ q) ++ [e].
Proof.
  intros Hc. destruct op as [t|t g pr|g|g| | |]; try done; cbn [apply_op].
  - unfold push_retained. case_match; [by left|]. right. cbn. rewrite retained_app. eexists t, _.
    split; [done|]. split; [|done]. done.
  - left. unfold push_connection. cbv zeta. case_match; cbn.
    + apply retained_erase_scoped. eauto with queue.
    + destruct pr; cbn; [|rewrite retained_app; cbn; rewrite app_nil_r];
        apply retained_erase_scoped; eauto with queue.
  - left. apply retained_erase_scoped. eauto with queue.
  - left. apply retained_erase_scoped. eauto with queue.
Qed.

(** ** The properties *)

(** The queue is bounded.  From construction and through any sequence of
    operations it never holds more than [capacity] entries, retained messages
    never take the share reserved for connection frames, and no two entries
    share a payload pointer. *)
Theorem queue_stays_bounded (capacity reserve : Z) (ops : list QueueOp) :
  0 <= capacity -> 0 <= reserve ->
  let q := run_ops (make_queue capacity reserve) ops in
  qsize q <= capacity
  /\ Z.of_nat (length (retained (entries_ q))) <= capacity - Z.min reserve capacity
  /\ NoDup (ptrs (entries_ q)).
Proof.
  intros Hc Hr q.
  assert (H : queue_inv q /\ capacity_ q = capacity /\ connection_reserve_ q = Z.min reserve capacity).
  { subst q. unfold run_ops. induction ops as [|op ops IH] using rev_ind.
    - split; [by apply make_queue_inv|done].
    - rewrite fold_left_app. cbn [fold_left]. destruct IH as (IH & Hcap & Hres).
      split; [by apply apply_op_inv|]. by rewrite !(proj1 (apply_op_bounds _ _)), !(proj2 (apply_op_bounds _ _)). }
  destruct H as ([_ H2 H3 H4 _] & Hcap & Hres). rewrite Hcap, Hres in *. done.
Qed.

Lemma queue_stays_bounded_witness :
  let q := run_ops (make_queue 3 1)
    [PushRetained "a"; PushRetained "b"; PushRetained "c"; PushConnection "auth" 1 true; PushRetained "d"] in
  qsize q <= 3 /\ Z.of_nat (length (retained (entries_ q))) <= 3 - Z.min 1 3 /\ NoDup (ptrs (entries_ q)).
Proof. apply (queue_stays_bounded 3 1); lia. Defined.

(** The reserve works.  While fewer than [connection_reserve] frames of the
    live connection are queued, pushing another one always succeeds however
    full of retained messages the queue is; a priority frame goes to the very
    front; and afterwards no frame of any other connection is left. *)
Theorem push_connection_never_starved q txt g :
  queue_inv q ->
  Z.of_nat (length (List.filter (is_conn g) (entries_ q))) < connection_reserve_ q ->
  let '(ok, q') := push_connection q txt g true in
  ok = true /\ (exists p, front_payload q' = Some p /\ text p = txt)
  /\ only_generation g (entries_ q') /\ retained (entries_ q') = retained (entries_ q).
Proof.
  intros Hinv Hlt. unfold push_connection. cbv zeta.
  set (q1 := discard_stale_connection_writes q g).
  assert (Hsz : qsize q1 < capacity_ q1).
  { destruct Hinv. unfold qsize. cbn. rewrite discard_stale_length. lia. }
  rewrite (proj2 (Z.leb_gt _ _)) by exact Hsz. cbn.
  split; [done|]. split; [eexists; split; done|]. split.
  - constructor; [done|]. apply only_generation_discard.
  - apply retained_erase_scoped. eauto with queue.
Qed.

Lemma push_connection_never_starved_witness :
  let q := run_ops (make_queue 3 1) [PushRetained "a"; PushRetained "b"; PushConnection "old" 1 true] in
  let '(ok, q') := push_connection q "auth" 2 true in
  ok = true /\ (exists p, front_payload q' = Some p /\ text p = "auth")
  /\ only_generation 2 (entries_ q') /\ retained (entries_ q') = retained (entries_ q).
Proof.
  apply (push_connection_never_starved
    (run_ops (make_queue 3 1) [PushRetained "a"; PushRetained "b"; PushConnection "old" 1 true]) "auth" 2).
  - do 3 apply apply_op_inv. apply make_queue_inv; lia.
  - vm_compute. done.
Defined.

(** Retained messages are first in, first out, and connection traffic does
    not disturb them: across any pushes and discards the retained texts are the
    old ones followed by accepted new ones, in the order they were pushed. *)
Theorem retained_fifo q ops :
  forallb (fun op => negb (consumes op)) ops = true ->
  exists accepted, sublist accepted (pushed_texts ops)
    /\ texts (retained (entries_ (run_ops q ops))) = texts (retained (entries_ q)) ++ accepted.
Proof.
  revert q. induction ops as [|op ops IH]; intros q Hops.
  - exists []. split; [constructor|]. cbn. by rewrite app_nil_r.
  - cbn [forallb] in Hops. apply andb_true_iff in Hops as [Hop Hops]. apply negb_true_iff in Hop.
    destruct (IH (apply_op q op) Hops) as (acc & Hsub & Htx). unfold run_ops in *. cbn [fold_left].
    rewrite Htx. destruct (apply_op_retained q op Hop) as [->|(t & e & -> & Ht & ->)].
    + exists acc. split; [|done]. unfold pushed_texts. cbn. by apply sublist_inserts_l.
    + exists (t :: acc). split; [by constructor|].
      unfold texts. rewrite fmap_app, <- app_assoc. cbn. by rewrite Ht.
Qed.

Lemma retained_fifo_witness :
  exists accepted, sublist accepted ["a"; "b"]
    /\ texts (retained (entries_ (run_ops (make_queue 8 2)
         [PushRetained "a"; PushConnection "auth" 1 true; PushRetained "b"; DiscardStale 2])))
       = texts (retained (entries_ (make_queue 8 2))) ++ accepted.
Proof.
  exact (retained_fifo (make_queue 8 2)
    [PushRetained "a"; PushConnection "auth" 1 true; PushRetained "b"; DiscardStale 2] eq_refl).
Defined.

(** Completing a write removes exactly the entry that owns the written
    payload (never another entry with the same text), and does nothing when
    that entry was discarded while the write was in flight. *)
Theorem complete_removes_exactly q p :
  queue_inv q ->
  entries_ (complete q p) = List.filter (fun e => negb (ptr (payload e) =? ptr p)%nat) (entries_ q).
Proof.
  intros [_ _ _ Hnd _]. cbn. induction (entries_ q) as [|e l IH]; [done|].
  unfold ptrs in Hnd. cbn in Hnd. inversion Hnd as [|? ? Hni Hnd']; subst. cbn.
  destruct (Nat.eqb_spec (ptr (payload e)) (ptr p)) as [Heq|Hne]; cbn.
  - symmetry. apply List.forallb_filter_id, forallb_forall. intros e' He'.
    apply negb_true_iff, Nat.eqb_neq. intros Heq'. apply Hni, list_elem_of_fmap.
    exists e'. split; [congruence|by apply list_elem_of_In].
  - f_equal. by apply IH.
Qed.

Lemma complete_removes_exactly_witness :
  let q := run_ops (make_queue 8 2) [PushRetained "x"; PushRetained "x"] in
  entries_ (complete q {| ptr := 1; text := "x" |})
  = List.filter (fun e => negb (ptr (payload e) =? 1)%nat) (entries_ q).
Proof.
  apply (complete_removes_exactly (run_ops (make_queue 8 2) [PushRetained "x"; PushRetained "x"])
    {| ptr := 1; text := "x" |}).
  do 2 apply apply_op_inv. apply make_queue_inv; lia.
Defined.
