(* ===== verification/WsClient.v ===== *)
(** * The reconnecting WSS client ([src/net/ws_client.cpp], [ws_client.hpp])

    One strand serialises every handler, so the client is a state machine: a
    record of its members, one function per handler, and a step relation in
    which the I/O runtime completes any pending operation, in any order and
    with any outcome.  A stream is identified by the generation that created
    it.  What the sockets, TLS and the timers decide (error codes, the peer's
    close code, the handshake response) arrives as an argument of the
    completion.

    The client of this file has no log hook: [on_log_] is empty, as it is unless
    the application asks to listen, so [log] runs nothing and leaves the marker
    [ELog].  WsLog.v has the same handlers with the hook, which the code runs in place
    and which may call back, and says what changes.  A failure policy is a function of
    the failure: it makes no call of the client. *)

From Stdlib Require Import String ZArith Lia.
From stdpp Require Import base list strings numbers relations.
From S2P Require Import Prelude WriteQueue.

Open Scope Z_scope.

(** ** Data *)

Record WsFailure := {
  close_code : Z;
  http_status : Z;
  retry_after : string;
  message_too_big : bool;
  tls_protocol_error : bool;
}.

Definition no_failure : WsFailure :=
  {| close_code := 0; http_status := 0; retry_after := ""; message_too_big := false;
     tls_protocol_error := false |}.

(** What a failed operation reports: the error code's tests, the peer's close
    code, and the handshake response when the upgrade was declined. *)
Record ErrorInfo := {
  ec_message_too_big : bool;
  ec_buffer_overflow : bool;
  ec_ssl_category : bool;
  ec_upgrade_declined : bool;
  ei_reason_code : Z;
  ei_result_int : Z;
  ei_retry_after : string;
}.

(** Asynchronous operations in flight, with the generation their handler
    captured. *)
Inductive Pending :=
  | PResolve (g : Z) | PConnect (g : Z) | PTls (g : Z) | PHandshake (g : Z)
  | PRead (g : Z)
  | PWrite (p : Payload) (g : Z)
  | PStage (g : Z)
  | PReconnect (cancelled : bool)
  | PKeepalive.

#[export] Instance Payload_eq_dec : EqDecision Payload.
Proof. solve_decision. Defined.
#[export] Instance Pending_eq_dec : EqDecision Pending.
Proof. solve_decision. Defined.

(** What an application callback may do with the client. *)
Inductive Call := CallSendFirst (t : string) | CallSend (t : string) | CallKick | CallStop.

(** Observable effects, most recent first in the trace. *)
Inductive Effect :=
  | EWrite (stream : Z) (e : Entry)   (* async_write of a queue entry *)
  | ENullStream                       (* async_write through a null stream *)
  | EOpen (stream : Z)                (* on_open_() *)
  | EMessage (stream : Z) (m : string)
  | EConnect (stream : Z)             (* a new stream starts connecting *)
  | ETimer (delay_ms : Z)             (* reconnect timer armed *)
  | EStopped                          (* stop()'s completion *)
  | ELog.

Record WsClient := {
  ws_ : option Z;
  write_queue_ : WsWriteQueue;
  writing_ : bool;
  reconnect_delay_ms_ : Z;
  reconnect_scheduled_ : bool;
  generation_ : Z;
  connected_ : bool;
  stopped_ : bool;
  on_message_ : option (string -> list Call);
  on_open_ : option (list Call);
  failure_policy_ : option (WsFailure -> option Z);
  host_ : string;
  target_ : string;
  keepalive_interval_ : Z;
  keepalive_text_ : string;
  pending : list Pending;
  posted : list string;               (* send() bodies posted to the strand *)
  trace : list Effect;
}.

(** ** Member updates *)

Definition set_ws (v : option Z) (s : WsClient) : WsClient :=
  let '(Build_WsClient _ q w d sc g c st om oo fp h t ki kt p po tr) := s in
  Build_WsClient v q w d sc g c st om oo fp h t ki kt p po tr.
Definition set_queue (v : WsWriteQueue) (s : WsClient) : WsClient :=
  let '(Build_WsClient ws _ w d sc g c st om oo fp h t ki kt p po tr) := s in
  Build_WsClient ws v w d sc g c st om oo fp h t ki kt p po tr.
Definition set_writing (v : bool) (s : WsClient) : WsClient :=
  let '(Build_WsClient ws q _ d sc g c st om oo fp h t ki kt p po tr) := s in
  Build_WsClient ws q v d sc g c st om oo fp h t ki kt p po tr.
Definition set_delay (v : Z) (s : WsClient) : WsClient :=
  let '(Build_WsClient ws q w _ sc g c st om oo fp h t ki kt p po tr) := s in
  Build_WsClient ws q w v sc g c st om oo fp h t ki kt p po tr.
Definition set_scheduled (v : bool) (s : WsClient) : WsClient :=
  let '(Build_WsClient ws q w d _ g c st om oo fp h t ki kt p po tr) := s in
  Build_WsClient ws q w d v g c st om oo fp h t ki kt p po tr.
Definition bump_generation (s : WsClient) : WsClient :=
  let '(Build_WsClient ws q w d sc g c st om oo fp h t ki kt p po tr) := s in
  Build_WsClient ws q w d sc (g + 1) c st om oo fp h t ki kt p po tr.
Definition set_connected (v : bool) (s : WsClient) : WsClient :=
  let '(Build_WsClient ws q w d sc g _ st om oo fp h t ki kt p po tr) := s in
  Build_WsClient ws q w d sc g v st om oo fp h t ki kt p po tr.
(** [stopped_ = true] and the four callbacks emptied. *)
Definition retire (s : WsClient) : WsClient :=
  let '(Build_WsClient ws q w d sc g c _ _ _ _ h t ki kt p po tr) := s in
  Build_WsClient ws q w d sc g c true None None None h t ki kt p po tr.
Definition set_pending (v : list Pending) (s : WsClient) : WsClient :=
  let '(Build_WsClient ws q w d sc g c st om oo fp h t ki kt _ po tr) := s in
  Build_WsClient ws q w d sc g c st om oo fp h t ki kt v po tr.
Definition set_posted (v : list string) (s : WsClient) : WsClient :=
  let '(Build_WsClient ws q w d sc g c st om oo fp h t ki kt p _ tr) := s in
  Build_WsClient ws q w d sc g c st om oo fp h t ki kt p v tr.
Definition emit (e : Effect) (s : WsClient) : WsClient :=
  let '(Build_WsClient ws q w d sc g c st om oo fp h t ki kt p po tr) := s in
  Build_WsClient ws q w d sc g c st om oo fp h t ki kt p po (e :: tr).
Definition add_pending (p : Pending) (s : WsClient) : WsClient := set_pending (p :: pending s) s.

(** The constructor: no callback, no keepalive, nothing queued. *)
Definition new_client (host target : string) : WsClient :=
  {| ws_ := None; write_queue_ := make_queue 1024 16; writing_ := false;
     reconnect_delay_ms_ := 500; reconnect_scheduled_ := false; generation_ := 0;
     connected_ := false; stopped_ := false; on_message_ := None; on_open_ := None;
     failure_policy_ := None; host_ := host; target_ := target;
     keepalive_interval_ := 0; keepalive_text_ := "";
     pending := []; posted := []; trace := [] |}.

(** The setters an owner calls before [start]. *)
Definition set_on_message (v : option (string -> list Call)) (s : WsClient) : WsClient :=
  let '(Build_WsClient ws q w d sc g c st _ oo fp h t ki kt p po tr) := s in
  Build_WsClient ws q w d sc g c st v oo fp h t ki kt p po tr.
Definition set_on_open (v : option (list Call)) (s : WsClient) : WsClient :=
  let '(Build_WsClient ws q w d sc g c st om _ fp h t ki kt p po tr) := s in
  Build_WsClient ws q w d sc g c st om v fp h t ki kt p po tr.
Definition set_keepalive (interval : Z) (text : string) (s : WsClient) : WsClient :=
  let '(Build_WsClient ws q w d sc g c st om oo fp h t _ _ p po tr) := s in
  Build_WsClient ws q w d sc g c st om oo fp h t interval text p po tr.
Definition set_failure_policy (v : option (WsFailure -> option Z)) (s : WsClient) : WsClient :=
  let '(Build_WsClient ws q w d sc g c st om oo _ h t ki kt p po tr) := s in
  Build_WsClient ws q w d sc g c st om oo v h t ki kt p po tr.

(** [connected()]: the atomic flag other threads read. *)
Definition connected (s : WsClient) : bool := connected_ s.

(** A client whose owner has installed everything and not yet started it. *)
Definition make_client (host target : string) (keepalive_interval : Z) (keepalive_text : string)
    (on_message : option (string -> list Call)) (on_open : option (list Call))
    (policy : option (WsFailure -> option Z)) : WsClient :=
  set_failure_policy policy (set_on_open on_open (set_on_message on_message
    (set_keepalive keepalive_interval keepalive_text (new_client host target)))).

(** ** Handlers *)

(** [reconnect_timer_.cancel()] and [expires_after]: the waits in flight may
    from now on complete with an error. *)
Definition cancel_wait (p : Pending) : Pending :=
  match p with PReconnect _ => PReconnect true | _ => p end.
Definition cancel_reconnect (s : WsClient) : WsClient := set_pending (map cancel_wait (pending s)) s.

(** [stop]: cancelling the other timers or closing the socket only makes the
    pending completions fail, which the step relation always allows. *)
Definition stop (s : WsClient) : WsClient :=
  let s := retire s in
  let s := set_connected false s in
  let s := set_writing false s in
  let s := set_queue (clear (write_queue_ s)) s in
  let s := bump_generation s in
  let s := set_scheduled false s in
  let s := cancel_reconnect s in
  let s := set_ws None s in
  emit EStopped s.

Section Client.
(** [std::hash<std::string>]: any function into [size_t]. *)
Context (hash : string -> Z).

Definition jitter_window_ms (delay : Z) : Z := Z.max 25 (delay / 5).
Definition jitter_ms (s : WsClient) : Z :=
  let seed := Z.lxor (hash (host_ s +:+ target_ s)) (u64 (generation_ s * 0x9E3779B97F4A7C15)) in
  seed mod (jitter_window_ms (reconnect_delay_ms_ s) + 1).

(** The second half of [schedule_reconnect]: drop the stream, log, arm the
    timer, double the base delay. *)
Definition arm_reconnect (delay_ms : Z) (s : WsClient) : WsClient :=
  let s := set_scheduled true s in
  let s := set_ws None s in
  let s := emit ELog s in
  let s := cancel_reconnect (emit (ETimer delay_ms) s) in
  let s := set_delay (Z.min (reconnect_delay_ms_ s * 2) 30000) s in
  add_pending (PReconnect false) s.

Definition schedule_reconnect (failure : WsFailure) (s : WsClient) : WsClient :=
  if stopped_ s || reconnect_scheduled_ s then s
  else
    let policy_delay := match failure_policy_ s with
                        | Some policy => Some (policy failure)
                        | None => None
                        end in
    match policy_delay with
    | Some None => stop s
    | Some (Some d) => if d <? 0 then stop s else arm_reconnect d s
    | None => arm_reconnect (Z.min 30000 (reconnect_delay_ms_ s + jitter_ms s)) s
    end.

(** The hook would run at [ELog], before the socket is closed: [kick_l] of WsLog.v. *)
Definition kick (s : WsClient) : WsClient :=
  match ws_ s with
  | None => s
  | Some _ =>
      if stopped_ s then s
      else if negb (connected_ s) then s
      else
        let s := emit ELog s in
        let s := set_connected false s in
        let s := set_writing false s in
        let s := set_queue (discard_connection_writes (write_queue_ s) (generation_ s)) s in
        let s := bump_generation s in
        schedule_reconnect no_failure s
  end.

Definition do_write (stream : option Z) (gen : Z) (s : WsClient) : WsClient :=
  if negb (gen =? generation_ s) || qempty (write_queue_ s) || negb (connected_ s)
  then set_writing false s
  else
    let s := set_writing true s in
    match entries_ (write_queue_ s), stream with
    | e :: _, Some st => add_pending (PWrite (payload e) gen) (emit (EWrite st e) s)
    | _, _ => emit ENullStream s
    end.

(** The body [send] posts to the strand. *)
Definition run_send (t : string) (s : WsClient) : WsClient :=
  let '(ok, q) := push_retained (write_queue_ s) t in
  let s := set_queue q s in
  if negb ok then emit ELog s
  else if connected_ s && negb (writing_ s) then do_write (ws_ s) (generation_ s) s else s.

Definition send (t : string) (s : WsClient) : WsClient := set_posted (posted s ++ [t]) s.

Definition send_first (t : string) (s : WsClient) : WsClient :=
  let '(ok, q) := push_connection (write_queue_ s) t (generation_ s) true in
  let s := set_queue q s in
  if negb ok then emit ELog s
  else if connected_ s && negb (writing_ s) then do_write (ws_ s) (generation_ s) s else s.

Definition run_call (s : WsClient) (c : Call) : WsClient :=
  match c with
  | CallSendFirst t => send_first t s
  | CallSend t => send t s
  | CallKick => kick s
  | CallStop => stop s
  end.
Definition run_calls (s : WsClient) (l : list Call) : WsClient := fold_left run_call l s.

Definition failure_of (ei : ErrorInfo) (has_ws : bool) : WsFailure :=
  let code := if has_ws then ei_reason_code ei else 0 in
  let too_big := ec_message_too_big ei || ec_buffer_overflow ei || (code =? 1009) in
  let oversized := ec_upgrade_declined ei && (128 <? slen (ei_retry_after ei)) in
  {| close_code := code;
     http_status := if ec_upgrade_declined ei then ei_result_int ei else 0;
     retry_after := if ec_upgrade_declined ei && negb oversized then ei_retry_after ei else "";
     message_too_big := too_big || oversized;
     tls_protocol_error := ec_ssl_category ei |}.

Definition fail (ei : ErrorInfo) (gen : Z) (s : WsClient) : WsClient :=
  if stopped_ s || negb (gen =? generation_ s) then s
  else
    let s := emit ELog s in
    let s := set_connected false s in
    let s := set_writing false s in
    let s := set_queue (discard_connection_writes (write_queue_ s) gen) s in
    let failure := failure_of ei (match ws_ s with Some _ => true | None => false end) in
    let s := bump_generation s in
    schedule_reconnect failure s.

(** [tls_ok]: both [SSL_set_tlsext_host_name] and [SSL_set1_host] succeeded. *)
Definition do_connect (tls_ok : bool) (s : WsClient) : WsClient :=
  if stopped_ s then s
  else
    let s := set_scheduled false s in
    let s := set_connected false s in
    let s := set_writing false s in
    let s := bump_generation s in
    let gen := generation_ s in
    let s := set_ws (Some gen) s in
    if negb tls_ok then
      let s := emit ELog s in
      let s := bump_generation s in
      schedule_reconnect no_failure s
    else
      let s := emit (EConnect gen) s in
      add_pending (PResolve gen) (add_pending (PStage gen) s).

(** [start()] dispatches [do_connect] to the strand. *)
Definition start (tls_ok : bool) (s : WsClient) : WsClient := do_connect tls_ok s.

Definition schedule_keepalive (s : WsClient) : WsClient :=
  if keepalive_interval_ s <=? 0 then s else add_pending PKeepalive s.

Definition on_stage_timer (gen : Z) (aborted : bool) (s : WsClient) : WsClient :=
  if aborted || stopped_ s || negb (gen =? generation_ s) || connected_ s then s
  else
    let s := emit ELog s in
    let s := set_writing false s in
    let s := bump_generation s in
    schedule_reconnect no_failure s.

Definition on_reconnect_timer (aborted tls_ok : bool) (s : WsClient) : WsClient :=
  if negb aborted && negb (stopped_ s) then do_connect tls_ok (set_scheduled false s) else s.

Definition on_keepalive_timer (aborted : bool) (s : WsClient) : WsClient :=
  if aborted || stopped_ s || negb (connected_ s) then s
  else
    let '(ok, q) := push_connection (write_queue_ s) (keepalive_text_ s) (generation_ s) false in
    let s := set_queue q s in
    let s := if negb ok then emit ELog s else s in
    let s := if negb (writing_ s) then do_write (ws_ s) (generation_ s) s else s in
    schedule_keepalive s.

(** The resolve, connect and TLS handlers: on success, start the next stage. *)
Definition on_stage (next : Z -> Pending) (gen : Z) (err : option ErrorInfo) (s : WsClient) : WsClient :=
  if negb (gen =? generation_ s) then s
  else match err with
       | Some ei => fail ei gen s
       | None => add_pending (next gen) s
       end.

(** The hook would run at [ELog], before [connected_] is set: [on_handshake_l] of
    WsLog.v. *)
Definition on_handshake (gen : Z) (err : option ErrorInfo) (s : WsClient) : WsClient :=
  if negb (gen =? generation_ s) then s
  else match err with
       | Some ei => fail ei gen s
       | None =>
           let s := emit ELog s in
           let s := set_connected true s in
           let s := set_queue (discard_stale_connection_writes (write_queue_ s) gen) s in
           let s := match on_open_ s with
                    | Some calls => run_calls (emit (EOpen gen) s) calls
                    | None => s
                    end in
           if stopped_ s || negb (gen =? generation_ s) then s
           else
             let s := if negb (qempty (write_queue_ s)) && negb (writing_ s)
                      then do_write (Some gen) gen s else s in
             let s := schedule_keepalive s in
             add_pending (PRead gen) s
       end.

Definition on_read (gen : Z) (res : ErrorInfo + string) (s : WsClient) : WsClient :=
  if negb (gen =? generation_ s) then s
  else match res with
       | inl ei => fail ei gen s
       | inr data =>
           let s := set_delay 500 s in
           let s := match on_message_ s with
                    | Some f => run_calls (emit (EMessage gen data) s) (f data)
                    | None => s
                    end in
           if negb (stopped_ s) && (gen =? generation_ s) then add_pending (PRead gen) s else s
       end.

Definition on_write (p : Payload) (gen : Z) (err : option ErrorInfo) (s : WsClient) : WsClient :=
  if negb (gen =? generation_ s) then s
  else match err with
       | Some ei => fail ei gen s
       | None =>
           let s := set_queue (complete (write_queue_ s) p) s in
           do_write (Some gen) gen s
       end.
End Client.

(** ** Steps *)

Section Steps.
Context (hash : string -> Z).

(** Public calls arrive at any moment; a pending operation completes in any
    order and with any outcome; posted bodies run in posting order. *)
Inductive step : WsClient -> WsClient -> Prop :=
  | step_start s tls_ok : step s (start hash tls_ok s)
  | step_stop s : step s (stop s)
  | step_kick s : step s (kick hash s)
  | step_send s t : step s (send t s)
  | step_send_first s t : step s (send_first t s)
  | step_posted s t rest : posted s = t :: rest -> step s (run_send t (set_posted rest s))
  | step_resolve s g l err : pending s ≡ₚ PResolve g :: l ->
      step s (on_stage hash PConnect g err (set_pending l s))
  | step_connect s g l err : pending s ≡ₚ PConnect g :: l ->
      step s (on_stage hash PTls g err (set_pending l s))
  | step_tls s g l err : pending s ≡ₚ PTls g :: l ->
      step s (on_stage hash PHandshake g err (set_pending l s))
  | step_handshake s g l err : pending s ≡ₚ PHandshake g :: l ->
      step s (on_handshake hash g err (set_pending l s))
  | step_read s g l res : pending s ≡ₚ PRead g :: l ->
      step s (on_read hash g res (set_pending l s))
  | step_write s p g l err : pending s ≡ₚ PWrite p g :: l ->
      step s (on_write hash p g err (set_pending l s))
  | step_stage s g l aborted : pending s ≡ₚ PStage g :: l ->
      step s (on_stage_timer hash g aborted (set_pending l s))
  | step_reconnect s l c aborted tls_ok : pending s ≡ₚ PReconnect c :: l -> (aborted = true -> c = true) ->
      step s (on_reconnect_timer hash aborted tls_ok (set_pending l s))
  | step_keepalive s l aborted : pending s ≡ₚ PKeepalive :: l ->
      step s (on_keepalive_timer aborted (set_pending l s)).
End Steps.

(** ** Invariant *)

Definition pgen (p : Pending) : option Z :=
  match p with
  | PResolve g | PConnect g | PTls g | PHandshake g | PRead g | PWrite _ g | PStage g => Some g
  | PReconnect _ | PKeepalive => None
  end.

Inductive Kind := Chain | Reading | Writing.
Definition pkind (p : Pending) : option Kind :=
  match p with
  | PResolve _ | PConnect _ | PTls _ | PHandshake _ => Some Chain
  | PRead _ => Some Reading
  | PWrite _ _ => Some Writing
  | _ => None
  end.
#[export] Instance Kind_eq_dec : EqDecision Kind.
Proof. solve_decision. Defined.

(** Pending operations of one kind that belong to generation [g]. *)
Definition of_kind (k : Kind) (g : Z) (p : Pending) : bool :=
  bool_decide (pkind p = Some k) && bool_decide (pgen p = Some g).
Definition inflight (k : Kind) (g : Z) (l : list Pending) : nat :=
  length (List.filter (of_kind k g) l).

#[global] Arguments inflight : simpl never.

(** A connection frame is only ever written to the stream it was queued for,
    and no write goes through a null stream. *)
Definition effect_ok (e : Effect) : Prop :=
  match e with
  | EWrite st e => connection_scoped e = true -> generation e = st
  | ENullStream => False
  | _ => True
  end.

Record ws_core (s : WsClient) : Prop := {
  wc_queue : queue_inv (write_queue_ s);
  wc_delay : 500 <= reconnect_delay_ms_ s <= 30000;
  wc_pending : Forall (fun p => match pgen p with Some g => g <= generation_ s | None => True end) (pending s);
  wc_trace : Forall effect_ok (trace s);
}.

(** Nothing of the current generation is in flight. *)
Record quiet (s : WsClient) : Prop := {
  qu_connected : connected_ s = false;
  qu_writing : writing_ s = false;
  qu_inflight k : inflight k (generation_ s) (pending s) = 0%nat;
}.

Record connecting (n : nat) (s : WsClient) : Prop := {
  cg_stopped : stopped_ s = false;
  cg_connected : connected_ s = false;
  cg_writing : writing_ s = false;
  cg_scheduled : reconnect_scheduled_ s = false;
  cg_ws : ws_ s = Some (generation_ s);
  cg_chain : inflight Chain (generation_ s) (pending s) = n;
  cg_read : inflight Reading (generation_ s) (pending s) = 0%nat;
  cg_write : inflight Writing (generation_ s) (pending s) = 0%nat;
}.

(** [r] reads and [w] writes of the live stream are in flight. *)
Record live (r w : nat) (s : WsClient) : Prop := {
  lv_stopped : stopped_ s = false;
  lv_connected : connected_ s = true;
  lv_scheduled : reconnect_scheduled_ s = false;
  lv_ws : ws_ s = Some (generation_ s);
  lv_chain : inflight Chain (generation_ s) (pending s) = 0%nat;
  lv_read : inflight Reading (generation_ s) (pending s) = r;
  lv_write : inflight Writing (generation_ s) (pending s) = w;
  lv_frames : only_generation (generation_ s) (entries_ (write_queue_ s));
}.

Definition writes_of (s : WsClient) : nat := if writing_ s then 1 else 0.

(** A reconnect wait that nothing has cancelled is in flight. *)
Definition reconnect_armed (s : WsClient) : Prop := PReconnect false ∈ pending s.

(** Quiet for a reason: retired, never started, or waiting to reconnect. *)
Definition idle (s : WsClient) : Prop :=
  quiet s /\ (stopped_ s = true \/ (generation_ s = 0 /\ reconnect_scheduled_ s = false) \/ reconnect_armed s).

(** The invariant, with [r] reads of a live stream in flight: one between
    handlers, none while a handler runs its callback. *)
Definition phase (r : nat) (s : WsClient) : Prop :=
  idle s \/ connecting 1 s \/ live r (writes_of s) s.
Definition ws_inv (r : nat) (s : WsClient) : Prop := ws_core s /\ phase r s.

(** ** Counting *)

Lemma inflight_cons k g p l :
  inflight k g (p :: l) = ((if of_kind k g p then 1 else 0) + inflight k g l)%nat.
Proof. unfold inflight. cbn [List.filter]. by destruct (of_kind k g p). Qed.

Lemma inflight_perm k g l l' : l ≡ₚ l' -> inflight k g l = inflight k g l'.
Proof.
  unfold inflight. induction 1; cbn; try done; repeat case_match; cbn; try lia; congruence.
Qed.

Lemma of_kind_gen k g p : of_kind k g p = true -> pgen p = Some g.
Proof. unfold of_kind. intros [_ H]%andb_true_iff. by apply bool_decide_eq_true in H. Qed.

Lemma of_kind_stale k g p g' : pgen p = Some g' -> g' <> g -> of_kind k g p = false.
Proof.
  intros Hp Hne. apply not_true_iff_false. intros H%of_kind_gen. congruence.
Qed.

Lemma inflight_other k g p l : pkind p <> Some k -> inflight k g (p :: l) = inflight k g l.
Proof. intros H. rewrite inflight_cons. unfold of_kind. by rewrite bool_decide_eq_false_2. Qed.

Lemma inflight_stale k g p l g' :
  pgen p = Some g' -> g' <> g -> inflight k g (p :: l) = inflight k g l.
Proof. intros Hp Hg. by rewrite inflight_cons, (of_kind_stale k g p g'). Qed.

Lemma inflight_same k g p l :
  pkind p = Some k -> pgen p = Some g -> inflight k g (p :: l) = S (inflight k g l).
Proof. intros H1 H2. rewrite inflight_cons. unfold of_kind. by rewrite !bool_decide_eq_true_2. Qed.

Lemma of_kind_current k k' g p : pkind p = Some k' -> pgen p = Some g -> of_kind k g p = bool_decide (k' = k).
Proof.
  intros H1 H2. unfold of_kind. rewrite H1, H2, (bool_decide_eq_true_2 (Some g = Some g)) by done.
  rewrite andb_true_r. apply bool_decide_ext. naive_solver.
Qed.

(** A fresh generation has nothing in flight. *)
Lemma inflight_fresh k g l :
  Forall (fun p => match pgen p with Some h => h <= g | None => True end) l ->
  inflight k (g + 1) l = 0%nat.
Proof.
  induction 1 as [|p l Hp Hl IH]; [done|]. rewrite inflight_cons, IH.
  destruct (of_kind k (g + 1) p) eqn:E; [|done]. apply of_kind_gen in E. rewrite E in Hp. lia.
Qed.

Lemma pending_mono g g' l :
  g <= g' -> Forall (fun p => match pgen p with Some h => h <= g | None => True end) l ->
  Forall (fun p => match pgen p with Some h => h <= g' | None => True end) l.
Proof. intros Hg. rewrite !Forall_forall. intros H p Hp. specialize (H p Hp). case_match; lia. Qed.

Lemma cancel_wait_gen p : pgen (cancel_wait p) = pgen p.
Proof. by destruct p. Qed.

Lemma inflight_cancel k g l : inflight k g (map cancel_wait l) = inflight k g l.
Proof.
  induction l as [|p l IH]; [done|]. cbn [map]. rewrite !inflight_cons, IH. by destruct p.
Qed.

Lemma pending_cancel g l :
  Forall (fun p => match pgen p with Some h => h <= g | None => True end) l ->
  Forall (fun p => match pgen p with Some h => h <= g | None => True end) (map cancel_wait l).
Proof. induction 1; constructor; [by rewrite cancel_wait_gen|done]. Qed.

#[export] Hint Resolve discard_stale_inv push_retained_inv push_connection_inv : ws.
Lemma discard_connection_inv q g : queue_inv q -> queue_inv (discard_connection_writes q g).
Proof. apply (apply_op_inv q (DiscardConnection g)). Qed.
Lemma clear_inv q : queue_inv q -> queue_inv (clear q).
Proof. apply (apply_op_inv q Clear). Qed.
Lemma complete_inv q p : queue_inv q -> queue_inv (complete q p).
Proof. apply (apply_op_inv q (Complete p)). Qed.
#[export] Hint Resolve discard_connection_inv clear_inv complete_inv : ws.

(** ** Preservation, handler by handler *)

Ltac open_state s := destruct s; cbn [ws_ write_queue_ writing_ reconnect_delay_ms_ reconnect_scheduled_
  generation_ connected_ stopped_ on_message_ on_open_ failure_policy_ host_ target_ keepalive_interval_
  keepalive_text_ pending posted trace set_ws set_queue set_writing set_delay set_scheduled bump_generation
  set_connected retire set_pending set_posted emit add_pending cancel_reconnect] in *.

Lemma stop_inv s : ws_core s -> ws_core (stop s) /\ idle (stop s).
Proof.
  intros [H1 H2 H3 H4]. unfold stop. open_state s. split; split; cbn; auto with ws.
  - apply pending_cancel. eapply pending_mono; [|done]. lia.
  - by constructor.
  - split; cbn; try done. intros k. rewrite inflight_cancel. by apply inflight_fresh.
Qed.

Lemma idle_inv r s : ws_core s /\ idle s -> ws_inv r s.
Proof. intros [? ?]. split; [done|]. by left. Qed.

Section Preservation.
Context (hash : string -> Z).

Lemma schedule_reconnect_inv f s :
  ws_core s -> quiet s -> (reconnect_scheduled_ s = true -> idle s) ->
  ws_core (schedule_reconnect hash f s) /\ idle (schedule_reconnect hash f s).
Proof.
  intros Hc Hq Hi. unfold schedule_reconnect.
  destruct (stopped_ s) eqn:Es; [split; [done|]; split; auto|].
  destruct (reconnect_scheduled_ s) eqn:Er; [auto|]. cbn [orb]. cbv zeta.
  assert (Harm : forall d, ws_core (arm_reconnect d s) /\ idle (arm_reconnect d s)).
  { intros d. destruct Hc as [H1 H2 H3 H4], Hq as [Q1 Q2 Q3]. unfold arm_reconnect. open_state s.
    split; split; cbn; try done.
    - lia.
    - constructor; [done|]. by apply pending_cancel.
    - by repeat constructor.
    - split; cbn; try done. intros k. rewrite inflight_other, inflight_cancel; [auto|done].
    - right; right. apply list_elem_of_here. }
  destruct (failure_policy_ s) as [policy|]; [|apply Harm].
  destruct (policy f) as [d|]; [|by apply stop_inv]. destruct (d <? 0); [by apply stop_inv|apply Harm].
Qed.

(** Dropping the connection: clear the flags, discard its frames, move to a
    new generation. *)
Lemma drop_inv f s (q : WsWriteQueue) :
  ws_core s -> queue_inv q -> reconnect_scheduled_ s = false ->
  let s' := schedule_reconnect hash f
    (bump_generation (set_queue q (set_writing false (set_connected false (emit ELog s))))) in
  ws_core s' /\ idle s'.
Proof.
  intros [H1 H2 H3 H4] Hq Hs. apply schedule_reconnect_inv; open_state s; [split|split|]; cbn; try done.
  - eapply pending_mono; [|done]. lia.
  - by constructor.
  - intros k. by apply inflight_fresh.
  - congruence.
Qed.

Lemma connected_live r s : ws_inv r s -> connected_ s = true -> live r (writes_of s) s.
Proof using. intros [_ [[[]]|[[]|Hl]]] Hc; congruence. Qed.

Lemma kick_inv r s : ws_inv r s -> connected_ s = true -> stopped_ s = false ->
  ws_core (kick hash s) /\ idle (kick hash s) /\ generation_ s < generation_ (kick hash s).
Proof.
  intros Hi Ec Es. pose proof (connected_live r s Hi Ec) as Hl. unfold kick. rewrite (lv_ws _ _ _ Hl), Es, Ec.
  cbn [negb].
  assert (Hq : queue_inv (discard_connection_writes (write_queue_ s) (generation_ s)))
    by (apply discard_connection_inv, Hi).
  destruct (drop_inv no_failure s _ (proj1 Hi) Hq (lv_scheduled _ _ _ Hl)) as [H1 H2].
  assert (Hg : forall f s, generation_ s <= generation_ (schedule_reconnect hash f s)).
  { intros f s0. unfold schedule_reconnect, arm_reconnect, stop, cancel_reconnect. destruct s0; cbn. repeat case_match; cbn; lia. }
  split; [by destruct s|]. split; [by destruct s|]. eapply Z.lt_le_trans; [|apply Hg]. destruct s; cbn; lia.
Qed.

Lemma fail_inv r ei s : ws_core s -> stopped_ s = false -> reconnect_scheduled_ s = false ->
  ws_inv r (fail hash ei (generation_ s) s).
Proof.
  intros Hc Hs Hr. unfold fail. rewrite Hs, Z.eqb_refl. cbn [orb negb].
  assert (Hq : queue_inv (discard_connection_writes (write_queue_ s) (generation_ s)))
    by (apply discard_connection_inv, Hc).
  pose proof (drop_inv (failure_of ei (match ws_ s with Some _ => true | None => false end)) s _ Hc Hq Hr) as H.
  apply idle_inv. by destruct s.
Qed.

Lemma do_connect_inv r tls_ok s : ws_core s -> stopped_ s = false -> ws_inv r (do_connect hash tls_ok s).
Proof.
  intros [H1 H2 H3 H4] Hs. unfold do_connect. rewrite Hs. destruct tls_ok; cbn [negb].
  - open_state s. split.
    + split; cbn; try done; [|by constructor].
      repeat constructor; cbn; [lia..|]. eapply pending_mono; [|done]. lia.
    + right; left. split; cbn; try done; rewrite !inflight_cons, inflight_fresh by done;
        unfold of_kind; cbn; rewrite ?bool_decide_eq_true_2 by done; done.
  - apply idle_inv, schedule_reconnect_inv; open_state s; [split|split|]; cbn; try done.
    + eapply pending_mono; [|done]. lia.
    + by constructor.
    + intros k. replace (generation_0 + 1 + 1) with ((generation_0 + 1) + 1) by lia.
      apply inflight_fresh. eapply pending_mono; [|done]. lia.
Qed.

Lemma do_write_live r s :
  ws_core s -> live r 0 s ->
  let s' := do_write (Some (generation_ s)) (generation_ s) s in
  ws_core s' /\ live r (writes_of s') s' /\ generation_ s' = generation_ s.
Proof using.
  intros [H1 H2 H3 H4] [L1 L2 L3 L4 L5 L6 L7 L8]. unfold do_write.
  rewrite Z.eqb_refl, L2. cbn [negb orb]. rewrite orb_false_r.
  destruct (qempty (write_queue_ s)) eqn:Eq.
  - open_state s. split; [split; cbn; done|]. split; [|done]. split; cbn; done.
  - unfold qempty in Eq. open_state s. destruct (entries_ write_queue_0) as [|e l] eqn:El; [done|].
    inversion L8 as [|? ? Hhd Htl]; subst. split.
    + split; cbn; try done; constructor; try done; cbn; lia || auto.
    + split; [|done]. split; cbn; try done.
      * by rewrite inflight_same, L7.
      * by rewrite El.
Qed.

(** What a call inside a handler keeps: the invariant, the live connection
    unless it was dropped, and idleness; a dropped connection is idle. *)
Definition keeps (r : nat) (s s' : WsClient) : Prop :=
  ws_inv r s' /\ generation_ s <= generation_ s'
  /\ (generation_ s' = generation_ s -> live r (writes_of s) s -> live r (writes_of s') s')
  /\ (generation_ s' <> generation_ s -> idle s')
  /\ (idle s -> idle s').

Lemma keeps_trans r a b c : keeps r a b -> keeps r b c -> keeps r a c.
Proof using.
  intros (_ & H1 & H2 & H3 & H4) (Hi & K1 & K2 & K3 & K4). split; [done|]. split; [lia|].
  split; [|split; [|by auto]].
  - intros Heq Hl. apply K2; [lia|]. apply H2; [lia|done].
  - intros Hne. destruct (Z.eq_dec (generation_ c) (generation_ b)) as [E|E]; [|auto].
    apply K4, H3. lia.
Qed.

Lemma keeps_refl r s : ws_inv r s -> keeps r s s.
Proof using. intros Hi. split; [done|]. split; [lia|done]. Qed.

(** Updates that touch neither the phase nor the generation. *)
Lemma keeps_same r s s' :
  ws_inv r s -> ws_core s' -> generation_ s' = generation_ s ->
  (idle s -> idle s') -> (connecting 1 s -> connecting 1 s') ->
  (live r (writes_of s) s -> live r (writes_of s') s') -> keeps r s s'.
Proof using.
  intros [_ Hm] Hc Hg Hq Hcn Hl.
  split; [split; [done|]|split; [lia|split; [by auto|split; [done|done]]]].
  destruct Hm as [?|[?|?]]; [left|right; left|right; right]; auto.
Qed.

Lemma moved_keeps r s s' : ws_core s' -> idle s' -> generation_ s < generation_ s' -> keeps r s s'.
Proof using. intros Hc Hi Hg. split; [by apply idle_inv|]. split; [lia|]. split; [lia|done]. Qed.

Ltac same_state s :=
  open_state s;
  repeat match goal with H : idle _ |- _ => destruct H as [[] ?] | H : connecting _ _ |- _ => destruct H
         | H : live _ _ _ |- _ => destruct H end;
  repeat split; done.

Lemma set_queue_core q s : ws_core s -> queue_inv q -> ws_core (set_queue q s).
Proof using. intros [H1 H2 H3 H4] Hq. open_state s. by split. Qed.

Lemma set_queue_live q r w s :
  live r w s -> only_generation (generation_ s) (entries_ q) -> live r w (set_queue q s).
Proof using. intros [L1 L2 L3 L4 L5 L6 L7 L8] Ho. open_state s. by split. Qed.

Lemma emit_keeps r e s : effect_ok e -> ws_inv r s -> keeps r s (emit e s).
Proof using.
  intros He Hi. apply keeps_same; [done| |by destruct s|intros ?; same_state s..].
  destruct Hi as [[H1 H2 H3 H4] _]. open_state s. split; try done. by constructor.
Qed.

Lemma set_posted_keeps r l s : ws_inv r s -> keeps r s (set_posted l s).
Proof using.
  intros Hi. apply keeps_same; [done| |by destruct s|intros ?; same_state s..].
  destruct Hi as [[H1 H2 H3 H4] _]. open_state s. by split.
Qed.

Lemma set_queue_keeps r q s :
  ws_inv r s -> queue_inv q ->
  (connected_ s = true -> only_generation (generation_ s) (entries_ q)) ->
  keeps r s (set_queue q s).
Proof using.
  intros Hi Hq Ho.
  apply keeps_same; [done|by apply set_queue_core; [apply Hi|]|by destruct s|intros ?; same_state s..|].
  intros Hl. replace (writes_of (set_queue q s)) with (writes_of s) by (by destruct s).
  apply set_queue_live; [done|]. apply Ho, Hl.
Qed.

Lemma add_timer_keeps r p s : pkind p = None -> pgen p = None -> ws_inv r s -> keeps r s (add_pending p s).
Proof using.
  intros Hk Hg Hi.
  assert (Hn : forall k g l, inflight k g (p :: l) = inflight k g l).
  { intros k g l. apply inflight_other. congruence. }
  apply keeps_same; [done| |by destruct s|..].
  - destruct Hi as [[H1 H2 H3 H4] _]. open_state s. split; try done. constructor; [by rewrite Hg|done].
  - intros [[Q1 Q2 Q3] Q4]. unfold idle, reconnect_armed in *. open_state s. split.
    + split; try done. cbn. intros k. rewrite Hn. auto.
    + destruct Q4 as [|[|]]; auto. right; right. by apply list_elem_of_further.
  - intros []. open_state s. split; cbn; rewrite ?Hn; done.
  - intros []. open_state s. split; cbn; rewrite ?Hn; done.
Qed.

(** Writing the head of the queue when the client is connected and idle. *)
Lemma flush_keeps r s :
  ws_inv r s ->
  keeps r s (if connected_ s && negb (writing_ s) then do_write (ws_ s) (generation_ s) s else s).
Proof using.
  intros Hi. destruct (connected_ s) eqn:Ec, (writing_ s) eqn:Ew; cbn [andb negb]; try by apply keeps_refl.
  pose proof (connected_live r s Hi Ec) as Hl. unfold writes_of in Hl. rewrite Ew in Hl.
  rewrite (lv_ws _ _ _ Hl). destruct (do_write_live r s (proj1 Hi) Hl) as (Hc2 & Hl2 & Hg).
  apply keeps_same; [done|done|done| |by intros []; congruence|done].
  intros [[] _]. congruence.
Qed.

(** Both queueing calls: replace the queue, then log or write. *)
Lemma push_keeps r (ok : bool) q s :
  ws_inv r s -> queue_inv q ->
  (connected_ s = true -> only_generation (generation_ s) (entries_ q)) ->
  keeps r s (if negb ok then emit ELog (set_queue q s)
             else if connected_ (set_queue q s) && negb (writing_ (set_queue q s))
                  then do_write (ws_ (set_queue q s)) (generation_ (set_queue q s)) (set_queue q s)
                  else set_queue q s).
Proof using.
  intros Hi Hq Ho. pose proof (set_queue_keeps r q s Hi Hq Ho) as Hk.
  eapply keeps_trans; [exact Hk|]. destruct ok; cbn [negb].
  - apply flush_keeps, Hk.
  - apply emit_keeps; [done|apply Hk].
Qed.

Lemma run_send_keeps r t s : ws_inv r s -> keeps r s (run_send t s).
Proof using.
  intros Hi. unfold run_send. pose proof (push_retained_inv _ t (wc_queue _ (proj1 Hi))) as Hq.
  pose proof (push_retained_only (generation_ s) (write_queue_ s) t) as Ho.
  destruct (push_retained (write_queue_ s) t) as [ok q].
  apply push_keeps; [done..|]. intros Hc. apply Ho, (connected_live r s Hi Hc).
Qed.

Lemma send_first_keeps r t s : ws_inv r s -> keeps r s (send_first t s).
Proof using.
  intros Hi. unfold send_first.
  pose proof (push_connection_inv _ t (generation_ s) true (wc_queue _ (proj1 Hi))) as Hq.
  pose proof (push_connection_only (write_queue_ s) t (generation_ s) true) as Ho.
  destruct (push_connection (write_queue_ s) t (generation_ s) true) as [ok q].
  by apply push_keeps.
Qed.

Lemma stop_keeps r s : ws_inv r s -> keeps r s (stop s).
Proof using.
  intros Hi. destruct (stop_inv s (proj1 Hi)). apply moved_keeps; [done|done|]. destruct s; cbn; lia.
Qed.

Lemma kick_keeps r s : ws_inv r s -> keeps r s (kick hash s).
Proof using.
  intros Hi. destruct (connected_ s && negb (stopped_ s)) eqn:E.
  - apply andb_true_iff in E as [Ec Es%negb_true_iff].
    destruct (kick_inv r s Hi Ec Es) as (? & ? & ?). by apply moved_keeps.
  - replace (kick hash s) with s; [by apply keeps_refl|].
    unfold kick. destruct (ws_ s), (stopped_ s), (connected_ s); done.
Qed.

Lemma run_calls_keeps r l s : ws_inv r s -> keeps r s (run_calls hash s l).
Proof using.
  unfold run_calls. revert s. induction l as [|c l IH]; intros s Hi; [by apply keeps_refl|]. cbn [fold_left].
  assert (Hc : keeps r s (run_call hash s c)).
  { destruct c; cbn [run_call];
      [by apply send_first_keeps|by apply set_posted_keeps|by apply kick_keeps|by apply stop_keeps]. }
  eapply keeps_trans; [exact Hc|]. apply IH, Hc.
Qed.

(** *** Completions *)

Lemma take_core s p l : ws_core s -> pending s ≡ₚ p :: l -> ws_core (set_pending l s).
Proof using.
  intros [H1 H2 H3 H4] Hp. rewrite Hp in H3. inversion H3; subst. open_state s. by split.
Qed.

Lemma take_inflight s p l k : pending s ≡ₚ p :: l ->
  inflight k (generation_ s) (pending s)
  = ((if of_kind k (generation_ s) p then 1 else 0) + inflight k (generation_ s) l)%nat.
Proof using. intros Hp. by rewrite (inflight_perm _ _ _ _ Hp), inflight_cons. Qed.

(** Completions of an earlier generation, and timers, carry nothing of the
    current connection. *)
Lemma take_foreign r s p l :
  ws_inv r s -> pending s ≡ₚ p :: l -> (forall k, of_kind k (generation_ s) p = false) ->
  p <> PReconnect false \/ stopped_ s = true ->
  ws_inv r (set_pending l s).
Proof using.
  intros [Hc Hm] Hp Hk Hne. split; [by eapply take_core|].
  assert (Hn : forall k, inflight k (generation_ s) l = inflight k (generation_ s) (pending s)).
  { intros k. rewrite (take_inflight s p l k Hp), Hk. done. }
  destruct Hm as [[[Q1 Q2 Q3] Q4]|[[C1 C2 C3 C4 C5 C6 C7 C8]|[L1 L2 L3 L4 L5 L6 L7 L8]]];
    [left|right; left|right; right]; rewrite <- ?Hn in *.
  - assert (Q5 : stopped_ s = true \/ (generation_ s = 0 /\ reconnect_scheduled_ s = false)
                 \/ PReconnect false ∈ l).
    { destruct Q4 as [|[|Q4]]; auto. destruct Hne as [Hne|]; [|auto]. unfold reconnect_armed in Q4.
      rewrite Hp in Q4. apply elem_of_cons in Q4 as [|]; [congruence|auto]. }
    unfold idle, reconnect_armed. open_state s. split; [split|]; try done. intros k. cbn. rewrite Hn. auto.
  - open_state s. by split.
  - open_state s. by split.
Qed.

Lemma foreign_timer g p k : pkind p = None -> of_kind k g p = false.
Proof using. intros H. unfold of_kind. by rewrite H. Qed.

Ltac norm_counts H :=
  first [rewrite bool_decide_eq_true_2 in H by done | rewrite bool_decide_eq_false_2 in H by done]; cbn in H.

(** A completion of the current generation fixes the phase. *)
Lemma take_current s p l k :
  ws_inv 1 s -> pending s ≡ₚ p :: l -> pkind p = Some k -> pgen p = Some (generation_ s) ->
  ws_core (set_pending l s) /\
  match k with
  | Chain => connecting 0 (set_pending l s)
  | Reading => live 0 (writes_of s) (set_pending l s)
  | Writing => live 1 0 (set_pending l s)
  end.
Proof using.
  intros [Hc Hm] Hp Hk Hg. split; [by eapply take_core|].
  assert (Hn : forall k', inflight k' (generation_ s) (pending s)
               = ((if bool_decide (k = k') then 1 else 0) + inflight k' (generation_ s) l)%nat)
    by (intros k'; by rewrite (take_inflight s p l k' Hp), (of_kind_current _ _ _ _ Hk Hg)).
  pose proof (Hn Chain) as N1. pose proof (Hn Reading) as N2. pose proof (Hn Writing) as N3. clear Hn.
  destruct k; norm_counts N1; norm_counts N2; norm_counts N3;
  (destruct Hm as [[[Q1 Q2 Q3] Q4]|[[C1 C2 C3 C4 C5 C6 C7 C8]|[L1 L2 L3 L4 L5 L6 L7 L8]]];
    [pose proof (Q3 Chain); pose proof (Q3 Reading); pose proof (Q3 Writing); lia| |]; try lia;
    unfold writes_of in *; open_state s; split; cbn; try done; destruct writing_0; lia).
Qed.

Lemma add_read_live w s :
  ws_core s -> live 0 w s ->
  ws_core (add_pending (PRead (generation_ s)) s) /\ live 1 w (add_pending (PRead (generation_ s)) s).
Proof using.
  intros [H1 H2 H3 H4] [L1 L2 L3 L4 L5 L6 L7 L8]. open_state s. split; split; cbn; try done.
  - constructor; [cbn; lia|done].
  - by rewrite inflight_same, L6.
Qed.

Lemma live_inv r s : ws_core s -> live r (writes_of s) s -> ws_inv r s.
Proof using. intros Hc Hl. split; [done|]. by right; right. Qed.

(** The generation test every completion handler starts with. *)
Lemma stale_completion s p l g :
  ws_inv 1 s -> pending s ≡ₚ p :: l -> pgen p = Some g -> g <> generation_ s -> ws_inv 1 (set_pending l s).
Proof using.
  intros Hi Hp Hg Hne. eapply take_foreign; eauto.
  - intros k. by eapply of_kind_stale.
  - left. by intros ->.
Qed.

Lemma set_pending_generation l s : generation_ (set_pending l s) = generation_ s.
Proof using. by destruct s. Qed.

Lemma on_stage_inv s p l g next err :
  ws_inv 1 s -> pending s ≡ₚ p :: l -> pkind p = Some Chain -> pgen p = Some g ->
  (forall h, pkind (next h) = Some Chain /\ pgen (next h) = Some h) ->
  ws_inv 1 (on_stage hash next g err (set_pending l s)).
Proof using.
  intros Hi Hp Hk Hg Hnext. unfold on_stage. rewrite set_pending_generation.
  destruct (Z.eqb_spec g (generation_ s)) as [->|Hne]; cbn [negb]; [|by eapply stale_completion].
  destruct (take_current s p l _ Hi Hp Hk Hg) as [Hc Hcon]. rewrite <- (set_pending_generation l s).
  destruct err as [ei|]; [apply fail_inv; [done|apply Hcon..]|].
  destruct (Hnext (generation_ (set_pending l s))) as [Hnk Hng].
  destruct Hc as [H1 H2 H3 H4], Hcon as [C1 C2 C3 C4 C5 C6 C7 C8]. open_state s. split.
  - split; cbn; try done. constructor; [rewrite Hng; lia|done].
  - right; left. split; cbn; try done;
      [rewrite inflight_same, C6 by done; done|rewrite inflight_other by congruence; done..].
Qed.

(** After a callback: resume reading when the connection is still the same,
    otherwise the client is idle. *)
Lemma resume_read s s0 : keeps 0 s0 s -> live 0 (writes_of s0) s0 ->
  generation_ s = generation_ s0 -> ws_inv 1 (add_pending (PRead (generation_ s)) s).
Proof using.
  intros ([Hc _] & _ & Hk & _) Hl Hgen. specialize (Hk Hgen Hl).
  destruct (add_read_live _ s Hc Hk) as [Hc' Hl']. apply live_inv; [done|]. by destruct s.
Qed.

Lemma abandoned s s0 : keeps 0 s0 s -> live 0 (writes_of s0) s0 ->
  stopped_ s = true \/ generation_ s <> generation_ s0 -> ws_inv 1 s.
Proof using.
  intros (Hi & _ & Hk & Hq & _) Hl Hor. apply idle_inv. split; [apply Hi|].
  destruct (Z.eq_dec (generation_ s) (generation_ s0)) as [E|E]; [|auto].
  destruct Hor as [Hs|]; [|done]. destruct (Hk E Hl). congruence.
Qed.

Lemma open_live s l p :
  ws_inv 1 s -> pending s ≡ₚ p :: l -> pkind p = Some Chain -> pgen p = Some (generation_ s) ->
  let s1 := set_connected true (emit ELog (set_pending l s)) in
  let s2 := set_queue (discard_stale_connection_writes (write_queue_ s1) (generation_ s)) s1 in
  ws_core s2 /\ live 0 (writes_of s2) s2 /\ generation_ s2 = generation_ s.
Proof using.
  intros Hi Hp Hk Hg. destruct (take_current s p l _ Hi Hp Hk Hg) as [[H1 H2 H3 H4] Hcon].
  destruct Hcon as [C1 C2 C3 C4 C5 C6 C7 C8]. open_state s. unfold writes_of. cbn. subst. cbn.
  split; [split; cbn; try done; [by apply discard_stale_inv|by constructor]|]. split; [|done].
  split; cbn; try done. apply only_generation_discard.
Qed.

Lemma schedule_keepalive_keeps r s : ws_inv r s -> keeps r s (schedule_keepalive s).
Proof using.
  intros Hi. unfold schedule_keepalive. case_match; [by apply keeps_refl|]. by apply add_timer_keeps.
Qed.

(** What follows the open callback: write, arm the keepalive, read. *)
Lemma flush_keepalive_keeps r gen s :
  ws_inv r s -> connected_ s = true -> gen = generation_ s ->
  keeps r s (schedule_keepalive
    (if negb (qempty (write_queue_ s)) && negb (writing_ s) then do_write (Some gen) gen s else s)).
Proof using.
  intros Hi Hcn ->.
  assert (Hk : keeps r s (if negb (qempty (write_queue_ s)) && negb (writing_ s)
                          then do_write (Some (generation_ s)) (generation_ s) s else s)).
  { destruct (qempty (write_queue_ s)); cbn [negb andb]; [by apply keeps_refl|].
    pose proof (flush_keeps r s Hi) as Hf. rewrite Hcn in Hf. cbn [andb] in Hf.
    by rewrite (lv_ws _ _ _ (connected_live r s Hi Hcn)) in Hf. }
  eapply keeps_trans; [exact Hk|]. apply schedule_keepalive_keeps, Hk.
Qed.

(** Running a callback that is installed, with its effect recorded. *)
Lemma callback_keeps r e (calls : option (list Call)) s :
  effect_ok e -> ws_inv r s ->
  keeps r s (match calls with Some l => run_calls hash (emit e s) l | None => s end).
Proof using.
  intros He Hi. destruct calls; [|by apply keeps_refl].
  pose proof (emit_keeps r e s He Hi) as H. eapply keeps_trans; [exact H|]. apply run_calls_keeps, H.
Qed.

Lemma on_handshake_inv s l g err :
  ws_inv 1 s -> pending s ≡ₚ PHandshake g :: l -> ws_inv 1 (on_handshake hash g err (set_pending l s)).
Proof using.
  intros Hi Hp. unfold on_handshake. rewrite set_pending_generation.
  destruct (Z.eqb_spec g (generation_ s)) as [->|Hne]; cbn [negb]; [|by eapply stale_completion].
  destruct err as [ei|].
  { destruct (take_current s _ l _ Hi Hp eq_refl eq_refl) as [Hc Hcon]. rewrite <- (set_pending_generation l s).
    apply fail_inv; [done|apply Hcon..]. }
  destruct (open_live s l _ Hi Hp eq_refl eq_refl) as (Hc & Hl & Hg). cbv zeta in *.
  set (s2 := set_queue _ _) in *. assert (Hi2 : ws_inv 0 s2) by by apply live_inv.
  pose proof (callback_keeps 0 (EOpen (generation_ s)) (on_open_ s2) s2 I Hi2) as Hk.
  set (s3 := match on_open_ s2 with Some _ => _ | None => _ end) in *.
  destruct (stopped_ s3) eqn:Es; cbn [orb]; [eapply abandoned; eauto|].
  destruct (Z.eqb_spec (generation_ s) (generation_ s3)) as [Hgen|]; cbn [negb];
    [|eapply abandoned; eauto; right; congruence].
  assert (Hcn : connected_ s3 = true).
  { destruct Hk as (_ & _ & Hk & _). apply (Hk (eq_trans (eq_sym Hgen) (eq_sym Hg)) Hl). }
  pose proof (flush_keepalive_keeps 0 (generation_ s) s3 (proj1 Hk) Hcn Hgen) as Hk2.
  set (s4 := schedule_keepalive _) in *.
  assert (Hg4 : generation_ s4 = generation_ s).
  { rewrite Hgen. unfold s4, schedule_keepalive, do_write. clear. destruct s3; cbn. repeat case_match; done. }
  rewrite <- Hg4. eapply resume_read; [eapply keeps_trans; [exact Hk|exact Hk2]|done|congruence].
Qed.

Lemma set_delay_live v r w s : live r w s -> live r w (set_delay v s).
Proof using. intros [L1 L2 L3 L4 L5 L6 L7 L8]. open_state s. by split. Qed.

Lemma on_read_inv s l g res :
  ws_inv 1 s -> pending s ≡ₚ PRead g :: l -> ws_inv 1 (on_read hash g res (set_pending l s)).
Proof using.
  intros Hi Hp. unfold on_read. rewrite set_pending_generation.
  destruct (Z.eqb_spec g (generation_ s)) as [->|Hne]; cbn [negb]; [|by eapply stale_completion].
  destruct (take_current s _ l _ Hi Hp eq_refl eq_refl) as [Hc Hl].
  destruct res as [ei|data].
  { rewrite <- (set_pending_generation l s). apply fail_inv; [done|apply Hl..]. }
  set (s1 := set_delay 500 (set_pending l s)).
  assert (Hc1 : ws_core s1) by (destruct Hc as [H1 H2 H3 H4]; unfold s1; destruct s; split; cbn in *; try done; lia).
  assert (Hl1 : live 0 (writes_of s1) s1).
  { replace (writes_of s1) with (writes_of s) by (by destruct s). by apply set_delay_live. }
  assert (Hg1 : generation_ s1 = generation_ s) by (by destruct s).
  set (s2 := match on_message_ s1 with Some _ => _ | None => _ end).
  assert (Hk : keeps 0 s1 s2).
  { pose proof (callback_keeps 0 (EMessage (generation_ s) data)
      (option_map (fun f => f data) (on_message_ s1)) s1 I (live_inv _ _ Hc1 Hl1)) as Hk.
    unfold s2. by destruct (on_message_ s1). }
  destruct (stopped_ s2) eqn:Es; cbn [negb andb]; [eapply abandoned; eauto|].
  destruct (Z.eqb_spec (generation_ s) (generation_ s2)) as [Hg|];
    [|eapply abandoned; eauto; right; congruence].
  rewrite Hg. eapply resume_read; [done|done|congruence].
Qed.

Lemma on_write_inv s l p g err :
  ws_inv 1 s -> pending s ≡ₚ PWrite p g :: l -> ws_inv 1 (on_write hash p g err (set_pending l s)).
Proof using.
  intros Hi Hp. unfold on_write. rewrite set_pending_generation.
  destruct (Z.eqb_spec g (generation_ s)) as [->|Hne]; cbn [negb]; [|by eapply stale_completion].
  destruct (take_current s _ l _ Hi Hp eq_refl eq_refl) as [Hc Hl].
  destruct err as [ei|].
  { rewrite <- (set_pending_generation l s). apply fail_inv; [done|apply Hl..]. }
  set (s1 := set_pending l s) in *. set (s2 := set_queue _ s1).
  assert (Hc2 : ws_core s2) by (apply set_queue_core; [done|]; apply complete_inv, Hc).
  assert (Hl2 : live 1 0 s2).
  { apply set_queue_live; [done|]. eapply only_generation_incl; [apply Hl|].
    intros e. cbn. apply erase_payload_incl. }
  assert (Hg : generation_ s2 = generation_ s) by (by destruct s).
  destruct (do_write_live 1 s2 Hc2 Hl2) as (Hc3 & Hl3 & _). rewrite Hg in *. by apply live_inv.
Qed.

Lemma take_timer s p l :
  ws_inv 1 s -> pending s ≡ₚ p :: l -> pkind p = None -> p <> PReconnect false -> ws_inv 1 (set_pending l s).
Proof using. intros. eapply take_foreign; eauto. intros. by apply foreign_timer. Qed.

Lemma on_stage_timer_inv g aborted s : ws_inv 1 s -> ws_inv 1 (on_stage_timer hash g aborted s).
Proof using.
  intros Hi. unfold on_stage_timer.
  destruct aborted; [done|]. destruct (stopped_ s) eqn:Es; [done|]. cbn [orb].
  destruct (negb (g =? generation_ s)); [done|]. destruct (connected_ s) eqn:Ec; [done|]. cbn [orb].
  assert (Hs : reconnect_scheduled_ s = true -> reconnect_armed s).
  { intros Hs. destruct Hi as [_ [[_ Hq]|[[]|[]]]]; [|congruence..]. destruct Hq as [|[[]|]]; [congruence..|auto]. }
  destruct Hi as [[H1 H2 H3 H4] Hm]. apply idle_inv.
  apply schedule_reconnect_inv; unfold idle, reconnect_armed in *; open_state s.
  - split; cbn; try done; [eapply pending_mono; [|done]; lia|by constructor].
  - split; cbn; try done. intros k. by apply inflight_fresh.
  - intros Hr. split; [split; cbn; try done; intros k; by apply inflight_fresh|].
    auto.
Qed.

Lemma on_keepalive_timer_inv aborted s : ws_inv 1 s -> ws_inv 1 (on_keepalive_timer aborted s).
Proof using.
  intros Hi. unfold on_keepalive_timer. destruct (aborted || stopped_ s); [done|]. cbn [orb].
  destruct (connected_ s) eqn:Hc; [|done]. cbn [negb].
  pose proof (push_connection_inv _ (keepalive_text_ s) (generation_ s) false (wc_queue _ (proj1 Hi))) as Hq.
  pose proof (push_connection_only (write_queue_ s) (keepalive_text_ s) (generation_ s) false) as Ho.
  destruct (push_connection (write_queue_ s) (keepalive_text_ s) (generation_ s) false) as [ok q].
  pose proof (set_queue_keeps 1 q s Hi Hq (fun _ => Ho)) as Hk.
  set (s1 := if negb ok then _ else _).
  assert (Hi1 : ws_inv 1 s1).
  { unfold s1. destruct ok; cbn [negb]; [apply Hk|]. apply emit_keeps; [done|apply Hk]. }
  assert (Hc1 : connected_ s1 = true) by (unfold s1; destruct ok, s; done).
  pose proof (flush_keeps 1 s1 Hi1) as Hf. rewrite Hc1 in Hf. cbn [andb] in Hf.
  apply schedule_keepalive_keeps, Hf.
Qed.

Lemma on_reconnect_timer_inv s l c aborted tls_ok :
  ws_inv 1 s -> pending s ≡ₚ PReconnect c :: l -> (aborted = true -> c = true) ->
  ws_inv 1 (on_reconnect_timer hash aborted tls_ok (set_pending l s)).
Proof using.
  intros Hi Hp Ha. unfold on_reconnect_timer.
  replace (stopped_ (set_pending l s)) with (stopped_ s) by (by destruct s).
  destruct aborted; cbn [negb andb]; [rewrite Ha in Hp by done; by eapply take_timer|].
  destruct (stopped_ s) eqn:Hs; cbn [negb].
  - eapply take_foreign; eauto using foreign_timer.
  - destruct (take_core _ _ _ (proj1 Hi) Hp) as [H1 H2 H3 H4].
    apply do_connect_inv; destruct s; [by split|done].
Qed.

Lemma step_inv s s' : step hash s s' -> ws_inv 1 s -> ws_inv 1 s'.
Proof using.
  intros Hs Hi. destruct Hs;
    [ |by apply stop_keeps|by apply kick_keeps|by apply set_posted_keeps
    |by apply send_first_keeps|by apply run_send_keeps, set_posted_keeps|by eapply on_stage_inv..
    |by eapply on_handshake_inv|by eapply on_read_inv|by eapply on_write_inv
    |by eapply on_stage_timer_inv, take_timer|by eapply on_reconnect_timer_inv
    |by eapply on_keepalive_timer_inv, take_timer].
  destruct (stopped_ s) eqn:Es; [unfold start, do_connect; by rewrite Es|]. apply do_connect_inv; [apply Hi|done].
Qed.

Lemma make_client_inv h t ki kt om oo fp : ws_inv 1 (make_client h t ki kt om oo fp).
Proof using.
  split; [split; cbn; [by apply make_queue_inv|lia|constructor|constructor]|]. left. split; [by split|auto].
Qed.

Lemma reachable_inv s s' : rtc (step hash) s s' -> ws_inv 1 s -> ws_inv 1 s'.
Proof using. induction 1; eauto using step_inv. Qed.
End Preservation.

(** ** Retirement *)

Definition active (e : Effect) : bool :=
  match e with ELog | EStopped => false | _ => true end.
Definition activity (s : WsClient) : list Effect := List.filter active (trace s).

Section Retired.
Context (hash : string -> Z).

Lemma retired_quiet s : ws_inv 1 s -> stopped_ s = true -> connected_ s = false.
Proof using. intros [_ [[[]]|[[]|[]]]] Hs; congruence. Qed.

Lemma retired_stale s p l k g :
  ws_inv 1 s -> stopped_ s = true -> pending s ≡ₚ p :: l -> pkind p = Some k -> pgen p = Some g ->
  (g =? generation_ (set_pending l s)) = false.
Proof using.
  intros Hi Hs Hp Hk Hg. apply Z.eqb_neq. intros ->. rewrite set_pending_generation in Hg.
  destruct (take_current s p l k Hi Hp Hk Hg) as [_ H].
  replace (stopped_ s) with (stopped_ (set_pending l s)) in Hs by (by destruct s).
  destruct k; destruct H; congruence.
Qed.

Lemma retired_push s (ok : bool) q :
  stopped_ s = true -> connected_ s = false ->
  let s' := if negb ok then emit ELog (set_queue q s)
            else if connected_ (set_queue q s) && negb (writing_ (set_queue q s))
                 then do_write (ws_ (set_queue q s)) (generation_ (set_queue q s)) (set_queue q s)
                 else set_queue q s in
  stopped_ s' = true /\ activity s' = activity s.
Proof using. intros Hs Hc. open_state s. subst. by destruct ok. Qed.

Lemma retired_step s s' :
  ws_inv 1 s -> stopped_ s = true -> step hash s s' -> stopped_ s' = true /\ activity s' = activity s.
Proof using.
  intros Hi Hs Hst. pose proof (retired_quiet s Hi Hs) as Hc.
  assert (Hpend : forall l, stopped_ (set_pending l s) = true /\ activity (set_pending l s) = activity s)
    by (intros l; by destruct s).
  assert (Hpc : forall l, connected_ (set_pending l s) = false) by (intros l; by destruct s).
  destruct Hst as [s|s|s|s|s|s t rest|s g l err Hp|s g l err Hp|s g l err Hp|s g l err Hp|s g l res Hp
                  |s p g l err Hp|s g l aborted Hp|s l c aborted tls Hp|s l aborted Hp].
  - unfold start, do_connect. by rewrite Hs.
  - by destruct s.
  - unfold kick. rewrite Hs. by destruct (ws_ s).
  - by destruct s.
  - unfold send_first. destruct (push_connection _ _ _ _) as [ok q]. by apply retired_push.
  - unfold run_send. destruct (push_retained _ _) as [ok q].
    destruct (retired_push (set_posted rest s) ok q) as [H1 H2]; [by destruct s..|]. split; [done|].
    rewrite H2. by destruct s.
  - unfold on_stage. rewrite (retired_stale s _ l Chain g Hi Hs Hp eq_refl eq_refl). apply Hpend.
  - unfold on_stage. rewrite (retired_stale s _ l Chain g Hi Hs Hp eq_refl eq_refl). apply Hpend.
  - unfold on_stage. rewrite (retired_stale s _ l Chain g Hi Hs Hp eq_refl eq_refl). apply Hpend.
  - unfold on_handshake. rewrite (retired_stale s _ l Chain g Hi Hs Hp eq_refl eq_refl). apply Hpend.
  - unfold on_read. rewrite (retired_stale s _ l Reading g Hi Hs Hp eq_refl eq_refl). apply Hpend.
  - unfold on_write. rewrite (retired_stale s _ l Writing g Hi Hs Hp eq_refl eq_refl). apply Hpend.
  - unfold on_stage_timer. rewrite (proj1 (Hpend l)), orb_true_r. cbn [orb]. apply Hpend.
  - unfold on_reconnect_timer. rewrite (proj1 (Hpend l)), andb_false_r. apply Hpend.
  - unfold on_keepalive_timer. rewrite (proj1 (Hpend l)), orb_true_r. cbn [orb]. apply Hpend.
Qed.
End Retired.

(** ** The properties *)

Section Claims.
Context (hash : string -> Z).

(** Without a log hook, in every reachable state, whatever the order and outcome of
    the I/O completions and whatever the open and message callbacks call: nothing was ever written
    through a null stream; every connection frame was written to the stream of
    the generation it was queued for; while connected, the stream is the one
    of the current generation with exactly one read and at most one write in
    flight, the write matching [writing_]; and the write queue stays within
    its bound. *)
Theorem client_streams_safe h t ki kt om oo fp s :
  rtc (step hash) (make_client h t ki kt om oo fp) s ->
  ENullStream ∉ trace s
  /\ (forall st e, EWrite st e ∈ trace s -> connection_scoped e = true -> generation e = st)
  /\ (connected_ s = true ->
      ws_ s = Some (generation_ s)
      /\ inflight Reading (generation_ s) (pending s) = 1%nat
      /\ inflight Writing (generation_ s) (pending s) = (if writing_ s then 1 else 0)%nat)
  /\ queue_inv (write_queue_ s).
Proof using.
  intros Hr. pose proof (reachable_inv hash _ _ Hr (make_client_inv h t ki kt om oo fp)) as Hi.
  pose proof (wc_trace _ (proj1 Hi)) as Ht. rewrite Forall_forall in Ht.
  split; [intros H; exact (Ht _ H)|].
  split; [intros st e H; exact (Ht _ H)|].
  split; [|apply Hi]. intros Hc. by destruct (connected_live 1 s Hi Hc).
Qed.

(** C13: a started client that has no log hook and was not retired never goes deaf: in every
    reachable state an uncancelled reconnect wait is in flight, or a connection
    attempt of the current generation is, or the client is connected with a read
    in flight on the current stream. *)
Theorem client_never_stalls h t ki kt om oo fp s :
  rtc (step hash) (make_client h t ki kt om oo fp) s ->
  generation_ s <> 0 -> stopped_ s = false ->
  PReconnect false ∈ pending s
  \/ inflight Chain (generation_ s) (pending s) = 1%nat
  \/ (connected_ s = true /\ ws_ s = Some (generation_ s)
      /\ inflight Reading (generation_ s) (pending s) = 1%nat).
Proof using.
  intros Hr Hg Hs. pose proof (reachable_inv hash _ _ Hr (make_client_inv h t ki kt om oo fp)) as [_ Hp].
  destruct Hp as [[_ [?|[[? _]|?]]]|[[]|[]]]; [congruence|congruence|by left|right; by left|].
  right; right. done.
Qed.

(** What [schedule_reconnect] does on every branch.  A retired client or
    one already waiting is left alone.  Without a policy the timer is armed for
    the base delay plus a jitter of at most max(25 ms, a fifth of the base),
    never above 30 s; a policy's delay is used as it is, and a policy that
    answers nothing or a negative delay retires the client.  Arming drops the
    stream and doubles the base delay up to 30 s, so the base stays between
    500 ms and 30 s. *)
Theorem schedule_reconnect_backoff f s :
  500 <= reconnect_delay_ms_ s <= 30000 ->
  let s' := schedule_reconnect hash f s in
  if stopped_ s || reconnect_scheduled_ s then s' = s
  else
    let armed d :=
      trace s' = ETimer d :: ELog :: trace s /\ reconnect_armed s' /\ ws_ s' = None
      /\ reconnect_scheduled_ s' = true /\ stopped_ s' = false
      /\ generation_ s' = generation_ s /\ write_queue_ s' = write_queue_ s
      /\ reconnect_delay_ms_ s' = Z.min (2 * reconnect_delay_ms_ s) 30000
      /\ 500 <= reconnect_delay_ms_ s' <= 30000 in
    match failure_policy_ s with
    | None => exists d, armed d /\ reconnect_delay_ms_ s <= d <= 30000
                /\ d <= reconnect_delay_ms_ s + Z.max 25 (reconnect_delay_ms_ s / 5)
    | Some policy =>
        match policy f with
        | Some d => if d <? 0 then s' = stop s else armed d
        | None => s' = stop s
        end
    end.
Proof using.
  intros Hd. unfold schedule_reconnect. cbv zeta.
  destruct (stopped_ s) eqn:Es; [done|]. destruct (reconnect_scheduled_ s) eqn:Er; [done|]. cbn [orb].
  assert (Harm : forall d, let s' := arm_reconnect d s in
    trace s' = ETimer d :: ELog :: trace s /\ reconnect_armed s' /\ ws_ s' = None
    /\ reconnect_scheduled_ s' = true /\ stopped_ s' = false
    /\ generation_ s' = generation_ s /\ write_queue_ s' = write_queue_ s
    /\ reconnect_delay_ms_ s' = Z.min (2 * reconnect_delay_ms_ s) 30000
    /\ 500 <= reconnect_delay_ms_ s' <= 30000).
  { intros d. unfold arm_reconnect, reconnect_armed. destruct s; cbn in *.
    repeat split; try done; try lia. apply list_elem_of_here. }
  destruct (failure_policy_ s) as [policy|].
  - destruct (policy f) as [d|]; [|done]. destruct (d <? 0); [done|]. apply Harm.
  - eexists. split; [apply Harm|].
    assert (Hj : 0 <= jitter_ms hash s <= jitter_window_ms (reconnect_delay_ms_ s)).
    { unfold jitter_ms. cbv zeta. pose proof (Z.mod_pos_bound (Z.lxor (hash (host_ s +:+ target_ s))
        (u64 (generation_ s * 0x9E3779B97F4A7C15))) (jitter_window_ms (reconnect_delay_ms_ s) + 1)) as H.
      unfold jitter_window_ms in *. lia. }
    unfold jitter_window_ms in Hj. lia.
Qed.
End Claims.

(** ** A concrete run *)

Module Demo.
Definition hash7 (_ : string) : Z := 7.
Definition client : WsClient :=
  make_client "ws.example" "/ws" 5000 "PING" None (Some [CallSendFirst "auth"]) None.

(** Queue one retained message, connect, and complete the handshake. *)
Definition live_state : WsClient :=
  let s := run_send "sub" (set_posted [] (send "sub" client)) in
  let s := do_connect hash7 true s in
  let s := on_stage hash7 PConnect 1 None (set_pending [PStage 1] s) in
  let s := on_stage hash7 PTls 1 None (set_pending [PStage 1] s) in
  let s := on_stage hash7 PHandshake 1 None (set_pending [PStage 1] s) in
  on_handshake hash7 1 None (set_pending [PStage 1] s).

(** The read fails, so the client waits to reconnect. *)
Definition lost_state : WsClient :=
  on_read hash7 1 (inl {| ec_message_too_big := false; ec_buffer_overflow := false; ec_ssl_category := false;
    ec_upgrade_declined := false; ei_reason_code := 1006; ei_result_int := 0; ei_retry_after := "" |})
    (set_pending [PKeepalive; PWrite {| ptr := 1%nat; text := "auth" |} 1; PStage 1] live_state).

Lemma run_live : rtc (step hash7) client live_state.
Proof.
  eapply rtc_l; [apply (step_send hash7 _ "sub")|].
  eapply rtc_l; [apply (step_posted hash7 _ "sub" []); reflexivity|].
  eapply rtc_l; [apply (step_start hash7 _ true)|].
  eapply rtc_l; [apply (step_resolve hash7 _ 1 [PStage 1] None); reflexivity|].
  eapply rtc_l; [apply (step_connect hash7 _ 1 [PStage 1] None); reflexivity|].
  eapply rtc_l; [apply (step_tls hash7 _ 1 [PStage 1] None); reflexivity|].
  eapply rtc_l; [apply (step_handshake hash7 _ 1 [PStage 1] None); reflexivity|].
  apply rtc_refl.
Qed.

Lemma step_lost : step hash7 live_state lost_state.
Proof.
  apply (step_read hash7 _ 1 [PKeepalive; PWrite {| ptr := 1%nat; text := "auth" |} 1; PStage 1]). reflexivity.
Qed.

Lemma run_lost : rtc (step hash7) client lost_state.
Proof. eapply rtc_r; [apply run_live|apply step_lost]. Qed.
End Demo.

Lemma client_streams_safe_witness :
  let s := Demo.live_state in
  connected_ s = true /\ ENullStream ∉ trace s
  /\ (forall st e, EWrite st e ∈ trace s -> connection_scoped e = true -> generation e = st)
  /\ (connected_ s = true ->
      ws_ s = Some (generation_ s)
      /\ inflight Reading (generation_ s) (pending s) = 1%nat
      /\ inflight Writing (generation_ s) (pending s) = (if writing_ s then 1 else 0)%nat)
  /\ queue_inv (write_queue_ s).
Proof.
  split; [reflexivity|]. apply (client_streams_safe Demo.hash7 "ws.example" "/ws" 5000 "PING" None
    (Some [CallSendFirst "auth"]) None). exact Demo.run_live.
Defined.

Lemma client_never_stalls_witness :
  let s := Demo.lost_state in
  connected_ s = false /\
  (PReconnect false ∈ pending s
   \/ inflight Chain (generation_ s) (pending s) = 1%nat
   \/ (connected_ s = true /\ ws_ s = Some (generation_ s)
       /\ inflight Reading (generation_ s) (pending s) = 1%nat)).
Proof.
  split; [reflexivity|]. apply (client_never_stalls Demo.hash7 "ws.example" "/ws" 5000 "PING" None
    (Some [CallSendFirst "auth"]) None); [exact Demo.run_lost|vm_compute; discriminate|reflexivity].
Defined.

Lemma schedule_reconnect_backoff_witness :
  let s := Demo.client in let s' := schedule_reconnect Demo.hash7 no_failure s in
  exists d, trace s' = ETimer d :: ELog :: trace s /\ 500 <= d <= 600.
Proof.
  destruct (schedule_reconnect_backoff Demo.hash7 no_failure Demo.client) as (d & (Ht & _) & H1 & H2).
  - cbn. lia.
  - exists d. split; [exact Ht|]. change (Z.max 25 (reconnect_delay_ms_ Demo.client / 5)) with 100 in H2.
    change (reconnect_delay_ms_ Demo.client) with 500 in *. lia.
Defined.
