(* ===== verification/WsLog.v ===== *)
(** * The log hook of the WSS client ([src/net/ws_client.cpp], [ws_client.hpp])

    The client of WsClient.v with [on_log_]: the text of every note, and handlers
    in which the hook runs at the place where the code calls [log] and may call
    back into the client, on the same strand and so at once.  A hook that only
    listens changes nothing (the two machines are bisimilar); a hook that stops
    the client from the wrong note does. *)

From Stdlib Require Import String ZArith Lia.
From stdpp Require Import base list strings numbers relations.
From S2P Require Import Prelude WriteQueue WsClient.

Open Scope Z_scope.

(** ** Notes *)

(** The stages a failure is reported for. *)
Inductive Stage := Resolve | Connect | TlsHandshake | WsHandshake | Read | Write.
Definition stage_name (w : Stage) : string :=
  match w with
  | Resolve => "resolve" | Connect => "connect" | TlsHandshake => "tls handshake"
  | WsHandshake => "ws handshake" | Read => "read" | Write => "write"
  end.

Inductive Note :=
  | Kicked (reason : string)
  | RetainedRejected
  | ConnectionRejected
  | Failed (what : Stage) (value : Z) (category : string)
  | Reconnecting (delay base jitter : Z)
  | SniFailed
  | HostnameFailed
  | StageDeadline
  | Connected
  | KeepaliveSkipped.

(** A signed integer in decimal: an error value is an [int]. *)
Definition int_text (z : Z) : string := if z <? 0 then "-" +:+ to_string (- z) else to_string z.

(** The arguments of [std::format]. *)
Definition note_text (host target : string) (n : Note) : string :=
  match n with
  | Kicked reason => "ws " +:+ host +:+ target +:+ ": kicked (" +:+ reason +:+ "), forcing reconnect"
  | RetainedRejected => "ws " +:+ host +:+ target +:+ ": bounded write queue full; retained message rejected"
  | ConnectionRejected => "ws " +:+ host +:+ target +:+ ": bounded write queue full; connection frame rejected"
  | Failed what value category =>
      "ws " +:+ host +:+ target +:+ ": " +:+ stage_name what +:+ " failed: ec=" +:+ int_text value
      +:+ " (" +:+ category +:+ ")"
  | Reconnecting delay base jitter =>
      "ws " +:+ host +:+ target +:+ ": reconnecting in " +:+ to_string delay +:+ " ms (base " +:+ to_string base
      +:+ " + jitter " +:+ to_string jitter +:+ ")"
  | SniFailed => "ws " +:+ host +:+ ": SNI setup failed"
  | HostnameFailed => "ws " +:+ host +:+ ": TLS hostname verification setup failed"
  | StageDeadline => "ws " +:+ host +:+ target +:+ ": connect stage deadline exceeded"
  | Connected => "ws " +:+ host +:+ target +:+ ": connected"
  | KeepaliveSkipped => "ws " +:+ host +:+ target +:+ ": bounded write queue full; keepalive skipped"
  end.

(** ** State *)

(** [lines]: what the hook was given, most recent first. *)
Record Logged := {
  client : WsClient;
  on_log_ : option (string -> list Call);
  lines : list string;
}.

Definition update (f : WsClient -> WsClient) (s : Logged) : Logged :=
  {| client := f (client s); on_log_ := on_log_ s; lines := lines s |}.
Definition set_on_log (h : option (string -> list Call)) (s : Logged) : Logged :=
  {| client := client s; on_log_ := h; lines := lines s |}.

Definition stop_l (s : Logged) : Logged := set_on_log None (update stop s).

(** What a failed operation reports to [fail] beyond [ErrorInfo]. *)
Record ErrorName := { en_value : Z; en_category : string }.

(** ** Handlers

    [lg] delivers a line to the hook; the knot is tied below. *)
Section Handlers.
Context (hash : string -> Z) (lg : string -> Logged -> Logged).

Definition log (n : Note) (s : Logged) : Logged :=
  lg (note_text (host_ (client s)) (target_ (client s)) n) (update (emit ELog) s).

Definition arm_reconnect_l (delay_ms jitter : Z) (s : Logged) : Logged :=
  let s := update (set_ws None) (update (set_scheduled true) s) in
  let s := log (Reconnecting delay_ms (reconnect_delay_ms_ (client s)) jitter) s in
  let s := update (fun c => cancel_reconnect (emit (ETimer delay_ms) c)) s in
  let s := update (fun c => set_delay (Z.min (reconnect_delay_ms_ c * 2) 30000) c) s in
  update (add_pending (PReconnect false)) s.

Definition schedule_reconnect_l (failure : WsFailure) (s : Logged) : Logged :=
  let c := client s in
  if stopped_ c || reconnect_scheduled_ c then s
  else
    let jitter := jitter_ms hash c in
    match failure_policy_ c with
    | Some policy =>
        match policy failure with
        | None => stop_l s
        | Some d => if d <? 0 then stop_l s else arm_reconnect_l d jitter s
        end
    | None => arm_reconnect_l (Z.min 30000 (reconnect_delay_ms_ c + jitter)) jitter s
    end.

(** Closing the socket goes through [ws_] as the hook left it. *)
Definition close_socket (s : Logged) : Logged :=
  match ws_ (client s) with Some _ => s | None => update (emit ENullStream) s end.

(** [connected_ = false; writing_ = false] and the frames of [gen] dropped. *)
Definition drop_connection (gen : Z) (c : WsClient) : WsClient :=
  let c := set_writing false (set_connected false c) in
  set_queue (discard_connection_writes (write_queue_ c) gen) c.

Definition kick_l (reason : string) (s : Logged) : Logged :=
  let c := client s in
  match ws_ c with
  | None => s
  | Some _ =>
      if stopped_ c then s
      else if negb (connected_ c) then s
      else
        let s := close_socket (log (Kicked reason) s) in
        let s := update (fun c => bump_generation (drop_connection (generation_ c) c)) s in
        schedule_reconnect_l no_failure s
  end.

(** The end of both sends: a note when the queue was full, else a write when none
    is in flight. *)
Definition pushed (n : Note) (ok : bool) (s : Logged) : Logged :=
  if negb ok then log n s
  else update (fun c => if connected_ c && negb (writing_ c) then do_write (ws_ c) (generation_ c) c else c) s.

Definition run_send_l (t : string) (s : Logged) : Logged :=
  let '(ok, q) := push_retained (write_queue_ (client s)) t in
  pushed RetainedRejected ok (update (set_queue q) s).

Definition send_first_l (t : string) (s : Logged) : Logged :=
  let c := client s in
  let '(ok, q) := push_connection (write_queue_ c) t (generation_ c) true in
  pushed ConnectionRejected ok (update (set_queue q) s).

(** A callback that kicks passes no reason, so the default. *)
Definition run_call_l (s : Logged) (c : Call) : Logged :=
  match c with
  | CallSendFirst t => send_first_l t s
  | CallSend t => update (send t) s
  | CallKick => kick_l "stale" s
  | CallStop => stop_l s
  end.
Definition run_calls_l (s : Logged) (l : list Call) : Logged := fold_left run_call_l l s.

Definition fail_l (ei : ErrorInfo) (en : ErrorName) (what : Stage) (gen : Z) (s : Logged) : Logged :=
  if stopped_ (client s) || negb (gen =? generation_ (client s)) then s
  else
    let s := update (drop_connection gen) (log (Failed what (en_value en) (en_category en)) s) in
    let failure := failure_of ei (match ws_ (client s) with Some _ => true | None => false end) in
    schedule_reconnect_l failure (update bump_generation s).

(** [sni], [verify]: the two OpenSSL calls succeeded. *)
Definition do_connect_l (sni verify : bool) (s : Logged) : Logged :=
  if stopped_ (client s) then s
  else
    let s := update (fun c => bump_generation (set_writing false (set_connected false (set_scheduled false c)))) s in
    let gen := generation_ (client s) in
    let s := update (set_ws (Some gen)) s in
    if negb sni then schedule_reconnect_l no_failure (update bump_generation (log SniFailed s))
    else if negb verify then schedule_reconnect_l no_failure (update bump_generation (log HostnameFailed s))
    else update (fun c => add_pending (PResolve gen) (add_pending (PStage gen) (emit (EConnect gen) c))) s.

Definition on_stage_timer_l (gen : Z) (aborted : bool) (s : Logged) : Logged :=
  let c := client s in
  if aborted || stopped_ c || negb (gen =? generation_ c) || connected_ c then s
  else
    let s := log StageDeadline s in
    schedule_reconnect_l no_failure (update (fun c => bump_generation (set_writing false c)) s).

Definition on_reconnect_timer_l (aborted sni verify : bool) (s : Logged) : Logged :=
  if negb aborted && negb (stopped_ (client s)) then do_connect_l sni verify (update (set_scheduled false) s) else s.

Definition on_keepalive_timer_l (aborted : bool) (s : Logged) : Logged :=
  let c := client s in
  if aborted || stopped_ c || negb (connected_ c) then s
  else
    let '(ok, q) := push_connection (write_queue_ c) (keepalive_text_ c) (generation_ c) false in
    let s := update (set_queue q) s in
    let s := if negb ok then log KeepaliveSkipped s else s in
    let s := update (fun c => if negb (writing_ c) then do_write (ws_ c) (generation_ c) c else c) s in
    update schedule_keepalive s.

Definition on_stage_l (what : Stage) (next : Z -> Pending) (gen : Z) (err : option (ErrorInfo * ErrorName)) (s : Logged) :
    Logged :=
  if negb (gen =? generation_ (client s)) then s
  else match err with
       | Some (ei, en) => fail_l ei en what gen s
       | None => update (add_pending (next gen)) s
       end.

Definition on_handshake_l (gen : Z) (err : option (ErrorInfo * ErrorName)) (s : Logged) : Logged :=
  if negb (gen =? generation_ (client s)) then s
  else match err with
       | Some (ei, en) => fail_l ei en WsHandshake gen s
       | None =>
           let s := log Connected s in
           let s := update (set_connected true) s in
           let s := update (fun c => set_queue (discard_stale_connection_writes (write_queue_ c) gen) c) s in
           let s := match on_open_ (client s) with
                    | Some calls => run_calls_l (update (emit (EOpen gen)) s) calls
                    | None => s
                    end in
           if stopped_ (client s) || negb (gen =? generation_ (client s)) then s
           else
             let s := update (fun c => if negb (qempty (write_queue_ c)) && negb (writing_ c)
                                       then do_write (Some gen) gen c else c) s in
             update (add_pending (PRead gen)) (update schedule_keepalive s)
       end.

Definition on_read_l (gen : Z) (res : (ErrorInfo * ErrorName) + string) (s : Logged) : Logged :=
  if negb (gen =? generation_ (client s)) then s
  else match res with
       | inl (ei, en) => fail_l ei en Read gen s
       | inr data =>
           let s := update (set_delay 500) s in
           let s := match on_message_ (client s) with
                    | Some f => run_calls_l (update (emit (EMessage gen data)) s) (f data)
                    | None => s
                    end in
           if negb (stopped_ (client s)) && (gen =? generation_ (client s))
           then update (add_pending (PRead gen)) s else s
       end.

Definition on_write_l (p : Payload) (gen : Z) (err : option (ErrorInfo * ErrorName)) (s : Logged) : Logged :=
  if negb (gen =? generation_ (client s)) then s
  else match err with
       | Some (ei, en) => fail_l ei en Write gen s
       | None => update (fun c => do_write (Some gen) gen (set_queue (complete (write_queue_ c) p) c)) s
       end.
End Handlers.

(** [on_log_(msg)] when set.  A call of the hook may log again: [depth] bounds the
    nesting, and the hook is cut off below it. *)
Fixpoint deliver (hash : string -> Z) (depth : nat) (msg : string) (s : Logged) : Logged :=
  match on_log_ s with
  | None => s
  | Some h =>
      let s := {| client := client s; on_log_ := on_log_ s; lines := msg :: lines s |} in
      match depth with
      | O => s
      | S d => run_calls_l hash (deliver hash d) s (h msg)
      end
  end.

(** ** Steps *)

Section Steps.
Context (hash : string -> Z) (depth : nat).

Definition note_error (en : ErrorName) (err : option ErrorInfo) : option (ErrorInfo * ErrorName) :=
  match err with Some ei => Some (ei, en) | None => None end.
Definition note_result (en : ErrorName) (res : ErrorInfo + string) : (ErrorInfo * ErrorName) + string :=
  match res with inl ei => inl (ei, en) | inr data => inr data end.

(** The steps of WsClient.v, through the handlers with the hook. *)
Inductive lstep : Logged -> Logged -> Prop :=
  | lstep_start s sni verify : lstep s (do_connect_l hash (deliver hash depth) sni verify s)
  | lstep_stop s : lstep s (stop_l s)
  | lstep_kick s reason : lstep s (kick_l hash (deliver hash depth) reason s)
  | lstep_send s t : lstep s (update (send t) s)
  | lstep_send_first s t : lstep s (send_first_l (deliver hash depth) t s)
  | lstep_posted s t rest : posted (client s) = t :: rest ->
      lstep s (run_send_l (deliver hash depth) t (update (set_posted rest) s))
  | lstep_resolve s g l err en : pending (client s) ≡ₚ PResolve g :: l ->
      lstep s (on_stage_l hash (deliver hash depth) Resolve PConnect g (note_error en err) (update (set_pending l) s))
  | lstep_connect s g l err en : pending (client s) ≡ₚ PConnect g :: l ->
      lstep s (on_stage_l hash (deliver hash depth) Connect PTls g (note_error en err) (update (set_pending l) s))
  | lstep_tls s g l err en : pending (client s) ≡ₚ PTls g :: l ->
      lstep s (on_stage_l hash (deliver hash depth) TlsHandshake PHandshake g (note_error en err) (update (set_pending l) s))
  | lstep_handshake s g l err en : pending (client s) ≡ₚ PHandshake g :: l ->
      lstep s (on_handshake_l hash (deliver hash depth) g (note_error en err) (update (set_pending l) s))
  | lstep_read s g l res en : pending (client s) ≡ₚ PRead g :: l ->
      lstep s (on_read_l hash (deliver hash depth) g (note_result en res) (update (set_pending l) s))
  | lstep_write s p g l err en : pending (client s) ≡ₚ PWrite p g :: l ->
      lstep s (on_write_l hash (deliver hash depth) p g (note_error en err) (update (set_pending l) s))
  | lstep_stage s g l aborted : pending (client s) ≡ₚ PStage g :: l ->
      lstep s (on_stage_timer_l hash (deliver hash depth) g aborted (update (set_pending l) s))
  | lstep_reconnect s l c aborted sni verify :
      pending (client s) ≡ₚ PReconnect c :: l -> (aborted = true -> c = true) ->
      lstep s (on_reconnect_timer_l hash (deliver hash depth) aborted sni verify (update (set_pending l) s))
  | lstep_keepalive s l aborted : pending (client s) ≡ₚ PKeepalive :: l ->
      lstep s (on_keepalive_timer_l (deliver hash depth) aborted (update (set_pending l) s)).
End Steps.

(** ** A hook that only listens *)

Definition quiet (s : Logged) : Prop :=
  match on_log_ s with Some h => forall m, h m = [] | None => True end.

(** [f] does to a quiet client what [g] does to the client without a hook. *)
Definition mirrors (f : Logged -> Logged) (g : WsClient -> WsClient) : Prop :=
  forall s, quiet s -> quiet (f s) /\ client (f s) = g (client s).

Lemma mirrors_update g : mirrors (update g) g.
Proof. by intros s Hs. Qed.
Lemma mirrors_stop : mirrors stop_l stop.
Proof. by intros s Hs. Qed.
Lemma mirrors_id : mirrors (fun s => s) (fun c => c).
Proof. by intros s Hs. Qed.

Lemma deliver_quiet hash depth msg : mirrors (deliver hash depth msg) (fun c => c).
Proof.
  intros s Hs. unfold quiet in Hs. destruct (on_log_ s) as [h|] eqn:E.
  - destruct depth as [|d]; cbn [deliver]; rewrite E; [done|]. by rewrite (Hs msg).
  - destruct depth as [|d]; cbn [deliver]; unfold quiet; by rewrite !E.
Qed.

Section Mirror.
Context (hash : string -> Z) (lg : string -> Logged -> Logged) (Hlg : forall msg, mirrors (lg msg) (fun c => c)).

Lemma mirrors_log n : mirrors (log lg n) (emit ELog).
Proof using Hlg. intros s Hs. unfold log. by apply (Hlg _ (update (emit ELog) s)). Qed.

Lemma mirrors_arm d j : mirrors (arm_reconnect_l lg d j) (arm_reconnect d).
Proof using Hlg.
  intros s Hs. unfold arm_reconnect_l, arm_reconnect. cbv zeta.
  set (s1 := update (set_ws None) _). assert (Q1 : quiet s1) by done.
  destruct (mirrors_log (Reconnecting d (reconnect_delay_ms_ (client s1)) j) s1 Q1) as [Q2 E2].
  cbn [client update] in *. rewrite E2. done.
Qed.

Lemma mirrors_schedule f : mirrors (schedule_reconnect_l hash lg f) (schedule_reconnect hash f).
Proof using Hlg.
  intros s Hs. unfold schedule_reconnect_l, schedule_reconnect. cbv zeta.
  destruct (stopped_ (client s) || _); [done|].
  destruct (failure_policy_ (client s)) as [policy|]; [|by apply mirrors_arm].
  destruct (policy f) as [d|]; [|by apply mirrors_stop]. destruct (d <? 0); [by apply mirrors_stop|by apply mirrors_arm].
Qed.

(** A handler that logs, changes the client and schedules a reconnect. *)
Lemma mirrors_log_schedule n g f : mirrors
  (fun s => schedule_reconnect_l hash lg f (update g (log lg n s))) (fun c => schedule_reconnect hash f (g (emit ELog c))).
Proof using Hlg.
  intros s Hs. destruct (mirrors_log n s Hs) as [Q E].
  destruct (mirrors_schedule f (update g (log lg n s)) Q) as [Q' E']. split; [done|]. rewrite E'. cbn. by rewrite E.
Qed.

Lemma mirrors_kick reason : mirrors (kick_l hash lg reason) (kick hash).
Proof using Hlg.
  intros s Hs. unfold kick_l, kick. cbv zeta. destruct (ws_ (client s)) as [w|] eqn:Ew; [|done].
  destruct (stopped_ (client s)); [done|]. destruct (negb (connected_ (client s))); [done|].
  assert (Hc : close_socket (log lg (Kicked reason) s) = log lg (Kicked reason) s).
  { unfold close_socket. rewrite (proj2 (mirrors_log (Kicked reason) s Hs)).
    replace (ws_ (emit ELog (client s))) with (ws_ (client s)) by by destruct (client s). by rewrite Ew. }
  rewrite Hc.
  destruct (mirrors_log_schedule (Kicked reason) (fun c => bump_generation (drop_connection (generation_ c) c)) no_failure s Hs)
    as [Q E]. split; [done|]. rewrite E. by destruct (client s).
Qed.

Lemma mirrors_pushed n ok : mirrors (pushed lg n ok)
  (fun c => if negb ok then emit ELog c
            else if connected_ c && negb (writing_ c) then do_write (ws_ c) (generation_ c) c else c).
Proof using Hlg. intros s Hs. unfold pushed. destruct (negb ok); [by apply mirrors_log|done]. Qed.

Lemma mirrors_run_send t : mirrors (run_send_l lg t) (run_send t).
Proof using Hlg.
  intros s Hs. unfold run_send_l, run_send. destruct (push_retained _ _) as [ok q].
  by apply (mirrors_pushed RetainedRejected ok (update (set_queue q) s)).
Qed.

Lemma mirrors_send_first t : mirrors (send_first_l lg t) (send_first t).
Proof using Hlg.
  intros s Hs. unfold send_first_l, send_first. cbv zeta. destruct (push_connection _ _ _ _) as [ok q].
  by apply (mirrors_pushed ConnectionRejected ok (update (set_queue q) s)).
Qed.

Lemma mirrors_calls l : mirrors (fun s => run_calls_l hash lg s l) (fun c => run_calls hash c l).
Proof using Hlg.
  unfold run_calls_l, run_calls. induction l as [|c l IH]; [done|]. intros s Hs. cbn [fold_left].
  assert (Hc : mirrors (fun s => run_call_l hash lg s c) (fun k => run_call hash k c)).
  { destruct c; [apply mirrors_send_first|apply mirrors_update|apply mirrors_kick|apply mirrors_stop]. }
  destruct (Hc s Hs) as [Q E]. destruct (IH _ Q) as [Q' E']. split; [done|]. by rewrite E', E.
Qed.

Lemma mirrors_fail ei en what gen : mirrors (fail_l hash lg ei en what gen) (fail hash ei gen).
Proof using Hlg.
  intros s Hs. unfold fail_l, fail. cbv zeta. destruct (stopped_ (client s) || _); [done|].
  set (n := Failed what _ _). destruct (mirrors_log n s Hs) as [Q E]. cbn [client update].
  set (f := failure_of ei _).
  destruct (mirrors_schedule f (update bump_generation (update (drop_connection gen) (log lg n s))) Q) as [Q' E'].
  split; [done|]. rewrite E'. subst f. cbn [client update]. rewrite E. by destruct (client s).
Qed.

Lemma mirrors_do_connect sni verify : mirrors (do_connect_l hash lg sni verify) (do_connect hash (sni && verify)).
Proof using Hlg.
  intros s Hs. unfold do_connect_l, do_connect. cbv zeta. destruct (stopped_ (client s)); [done|].
  set (g := fun c => bump_generation (set_writing false _)).
  set (s1 := update (set_ws _) _). assert (Q1 : quiet s1) by done.
  destruct sni; cbn [negb andb]; [destruct verify; cbn [negb]; [done|]|].
  - by apply (mirrors_log_schedule HostnameFailed bump_generation no_failure s1).
  - by apply (mirrors_log_schedule SniFailed bump_generation no_failure s1).
Qed.

Lemma mirrors_stage_timer gen aborted : mirrors (on_stage_timer_l hash lg gen aborted) (on_stage_timer hash gen aborted).
Proof using Hlg.
  intros s Hs. unfold on_stage_timer_l, on_stage_timer. cbv zeta. destruct (_ || connected_ (client s)); [done|].
  by apply (mirrors_log_schedule StageDeadline (fun c => bump_generation (set_writing false c)) no_failure s).
Qed.

Lemma mirrors_reconnect_timer aborted sni verify :
  mirrors (on_reconnect_timer_l hash lg aborted sni verify) (on_reconnect_timer hash aborted (sni && verify)).
Proof using Hlg.
  intros s Hs. unfold on_reconnect_timer_l, on_reconnect_timer. destruct (negb aborted && _); [|done].
  by apply (mirrors_do_connect sni verify (update (set_scheduled false) s)).
Qed.

Lemma mirrors_keepalive aborted : mirrors (on_keepalive_timer_l lg aborted) (on_keepalive_timer aborted).
Proof using Hlg.
  intros s Hs. unfold on_keepalive_timer_l, on_keepalive_timer. cbv zeta. destruct (_ || negb (connected_ (client s))); [done|].
  destruct (push_connection _ _ _ _) as [ok q]. destruct ok; cbn [negb]; [done|].
  destruct (mirrors_log KeepaliveSkipped (update (set_queue q) s) Hs) as [Q E]. split; [done|].
  cbn [client update] in *. by rewrite E.
Qed.

Lemma mirrors_stage what next gen en err :
  mirrors (on_stage_l hash lg what next gen (note_error en err)) (on_stage hash next gen err).
Proof using Hlg.
  intros s Hs. unfold on_stage_l, on_stage. destruct (negb _); [done|]. destruct err as [ei|]; [by apply mirrors_fail|done].
Qed.

Lemma mirrors_handshake gen en err :
  mirrors (on_handshake_l hash lg gen (note_error en err)) (on_handshake hash gen err).
Proof using Hlg.
  intros s Hs. unfold on_handshake_l, on_handshake. destruct (negb _); [done|].
  destruct err as [ei|]; [by apply mirrors_fail|]. cbn [note_error]. cbv zeta.
  destruct (mirrors_log Connected s Hs) as [Q E]. cbn [client update] in *. rewrite E.
  set (c2 := set_queue _ (set_connected true _)). set (s2 := update (fun c => set_queue _ c) _).
  assert (Q2 : quiet s2) by done. assert (E2 : client s2 = c2) by (subst s2 c2; cbn [client update]; by rewrite E).
  clearbody s2 c2.
  assert (H3 : exists s3 c3, quiet s3 /\ client s3 = c3
    /\ match on_open_ c2 with Some calls => run_calls_l hash lg (update (emit (EOpen gen)) s2) calls | None => s2 end = s3
    /\ match on_open_ c2 with Some calls => run_calls hash (emit (EOpen gen) c2) calls | None => c2 end = c3).
  { destruct (on_open_ c2) as [calls|]; [|by eauto 8].
    destruct (mirrors_calls calls (update (emit (EOpen gen)) s2) Q2) as [Q3 E3]. cbn [client update] in E3.
    rewrite E2 in E3. eauto 8. }
  destruct H3 as (s3 & c3 & Q3 & E3 & -> & ->). rewrite E3. destruct (stopped_ c3 || _); [done|].
  split; [done|]. cbn [client update]. by rewrite E3.
Qed.

Lemma mirrors_read gen en res : mirrors (on_read_l hash lg gen (note_result en res)) (on_read hash gen res).
Proof using Hlg.
  intros s Hs. unfold on_read_l, on_read. destruct (negb _); [done|].
  destruct res as [ei|data]; [by apply mirrors_fail|]. cbn [note_result]. cbv zeta. cbn [client update].
  destruct (on_message_ _) as [f|]; [|by destruct (negb _ && _)].
  destruct (mirrors_calls (f data) (update (emit (EMessage gen data)) (update (set_delay 500) s)) Hs) as [Q E].
  cbn [client update] in E. rewrite E. by destruct (negb _ && _); [split; [done|]; cbn [client update]; rewrite E|].
Qed.

Lemma mirrors_write p gen en err : mirrors (on_write_l hash lg p gen (note_error en err)) (on_write hash p gen err).
Proof using Hlg.
  intros s Hs. unfold on_write_l, on_write. destruct (negb _); [done|]. destruct err as [ei|]; [by apply mirrors_fail|done].
Qed.
End Mirror.

(** ** The properties *)

#[export] Hint Resolve mirrors_do_connect mirrors_stop mirrors_kick mirrors_update mirrors_send_first mirrors_run_send
  mirrors_stage mirrors_handshake mirrors_read mirrors_write mirrors_stage_timer mirrors_reconnect_timer
  mirrors_keepalive deliver_quiet : mirror.

Section Transparent.
Context (hash : string -> Z) (depth : nat).

(** A handler on the state from which the completed operation was taken. *)
Lemma mirrors_after f g h s : mirrors f g -> quiet s -> quiet (f (update h s)) /\ client (f (update h s)) = g (h (client s)).
Proof using. intros Hm Hs. by apply (Hm (update h s)). Qed.

Lemma lstep_mirrors s s' : quiet s -> lstep hash depth s s' -> quiet s' /\ step hash (client s) (client s').
Proof using.
  intros Hs Hst. destruct Hst.
  all: match goal with
  | |- quiet (?f (update ?h ?s)) /\ _ =>
      let H := fresh in
      edestruct (mirrors_after f _ h s) as [? H]; [by eauto with mirror|done|]; split; [done|rewrite H; by econstructor]
  | |- quiet (?f ?s) /\ _ =>
      let H := fresh in
      edestruct (fun g (Hm : mirrors f g) => Hm s Hs) as [? H]; [by eauto with mirror|]; split; [done|rewrite H; by econstructor]
  end.
Qed.

Lemma step_lifts s c' : quiet s -> step hash (client s) c' ->
  exists s', lstep hash depth s s' /\ quiet s' /\ client s' = c'.
Proof using.
  set (en := {| en_value := 0; en_category := "" |}). intros Hs Hst. remember (client s) as c eqn:Ec.
  destruct Hst; subst.
  - destruct (mirrors_do_connect hash _ (deliver_quiet hash depth) tls_ok true s Hs) as [Q E].
    rewrite andb_true_r in E. eexists. split; [apply lstep_start|done].
  - eexists. split; [apply lstep_stop|]. by apply mirrors_stop.
  - eexists. split; [apply (lstep_kick _ _ _ "stale")|]. by apply mirrors_kick; [apply deliver_quiet|].
  - eexists. split; [apply lstep_send|]. by apply mirrors_update.
  - eexists. split; [apply lstep_send_first|]. by apply mirrors_send_first; [apply deliver_quiet|].
  - eexists. split; [by eapply lstep_posted|]. by apply mirrors_after; [apply mirrors_run_send, deliver_quiet|].
  - eexists. split; [by eapply (lstep_resolve _ _ _ _ _ err en)|]. by apply mirrors_after; [apply mirrors_stage, deliver_quiet|].
  - eexists. split; [by eapply (lstep_connect _ _ _ _ _ err en)|]. by apply mirrors_after; [apply mirrors_stage, deliver_quiet|].
  - eexists. split; [by eapply (lstep_tls _ _ _ _ _ err en)|]. by apply mirrors_after; [apply mirrors_stage, deliver_quiet|].
  - eexists. split; [by eapply (lstep_handshake _ _ _ _ _ err en)|]. by apply mirrors_after; [apply mirrors_handshake, deliver_quiet|].
  - eexists. split; [by eapply (lstep_read _ _ _ _ _ res en)|]. by apply mirrors_after; [apply mirrors_read, deliver_quiet|].
  - eexists. split; [by eapply (lstep_write _ _ _ _ _ _ err en)|]. by apply mirrors_after; [apply mirrors_write, deliver_quiet|].
  - eexists. split; [by eapply lstep_stage|]. by apply mirrors_after; [apply mirrors_stage_timer, deliver_quiet|].
  - destruct (mirrors_after _ _ (set_pending l) s
      (mirrors_reconnect_timer hash _ (deliver_quiet hash depth) aborted tls_ok true) Hs) as [Q E].
    rewrite andb_true_r in E. eexists. split; [by eapply lstep_reconnect|done].
  - eexists. split; [by eapply lstep_keepalive|]. by apply mirrors_after; [apply mirrors_keepalive, deliver_quiet|].
Qed.

(** Listening changes nothing.  With a log hook that makes no call of the
    client (or with none), the client with its notes and the client of the
    step relation are bisimilar: every run of the one is, member by member, a run
    of the other, in both directions.  So everything proved of the client without
    its notes holds with them. *)
Theorem listening_hook_transparent s :
  quiet s ->
  (forall s', rtc (lstep hash depth) s s' -> rtc (step hash) (client s) (client s'))
  /\ (forall c', rtc (step hash) (client s) c' -> exists s', rtc (lstep hash depth) s s' /\ client s' = c').
Proof using.
  intros Hs. split.
  - intros s' Hr. induction Hr as [|a b c Hst _ IH]; [done|].
    destruct (lstep_mirrors a b Hs Hst) as [Q E]. eapply rtc_l; [exact E|by apply IH].
  - intros c' Hr. remember (client s) as c eqn:Ec. revert s Hs Ec. induction Hr as [c|a b c Hst _ IH]; intros s Hs ->.
    + exists s. by split.
    + destruct (step_lifts s b Hs Hst) as (s1 & H1 & Q1 & E1). destruct (IH s1 Q1 (eq_sym E1)) as (s' & H2 & E2).
      exists s'. split; [by eapply rtc_l|done].
Qed.
End Transparent.

(** ** A hook that stops the client *)

(** Stop at one note and ignore the others. *)
Definition stops_at (host target : string) (n : Note) (msg : string) : list Call :=
  if String.eqb msg (note_text host target n) then [CallStop] else [].

Definition watched (host target : string) (n : Note) : Logged :=
  {| client := make_client host target 0 "" None None None; on_log_ := Some (stops_at host target n); lines := [] |}.

Section StopFromNote.
Context (hash : string -> Z) (depth : nat) (host target : string).

Lemma stops_at_other n m : note_text host target m <> note_text host target n ->
  stops_at host target n (note_text host target m) = [].
Proof using. intros H. unfold stops_at. by rewrite (proj2 (String.eqb_neq _ _) H). Qed.

Lemma stops_at_own n : stops_at host target n (note_text host target n) = [CallStop].
Proof using. unfold stops_at. by rewrite String.eqb_refl. Qed.

(** Up to the pending WebSocket handshake no note is made. *)
Definition opening (n : Note) : Logged :=
  let s := do_connect_l hash (deliver hash (S depth)) true true (watched host target n) in
  let en := {| en_value := 0; en_category := "" |} in
  let s := on_stage_l hash (deliver hash (S depth)) Resolve PConnect 1 (note_error en None) (update (set_pending [PStage 1]) s) in
  let s := on_stage_l hash (deliver hash (S depth)) Connect PTls 1 (note_error en None) (update (set_pending [PStage 1]) s) in
  on_stage_l hash (deliver hash (S depth)) TlsHandshake PHandshake 1 (note_error en None) (update (set_pending [PStage 1]) s).

Definition opened (n : Note) : Logged :=
  on_handshake_l hash (deliver hash (S depth)) 1 None (update (set_pending [PStage 1]) (opening n)).

Lemma run_opened n : rtc (lstep hash (S depth)) (watched host target n) (opened n).
Proof using.
  eapply rtc_l; [apply (lstep_start _ _ _ true true)|].
  eapply rtc_l; [by apply (lstep_resolve _ _ _ 1 [PStage 1] None {| en_value := 0; en_category := "" |})|].
  eapply rtc_l; [by apply (lstep_connect _ _ _ 1 [PStage 1] None {| en_value := 0; en_category := "" |})|].
  eapply rtc_l; [by apply (lstep_tls _ _ _ 1 [PStage 1] None {| en_value := 0; en_category := "" |})|].
  eapply rtc_l; [by apply (lstep_handshake _ _ _ 1 [PStage 1] None {| en_value := 0; en_category := "" |})|].
  apply rtc_refl.
Qed.

(** What one delivery does, by the hook's answer. *)
Lemma deliver_stop h msg s : on_log_ s = Some h -> h msg = [CallStop] ->
  deliver hash (S depth) msg s = {| client := stop (client s); on_log_ := None; lines := msg :: lines s |}.
Proof using. intros H Hm. cbn [deliver]. by rewrite H, Hm. Qed.
Lemma deliver_ignored h msg s : on_log_ s = Some h -> h msg = [] ->
  deliver hash (S depth) msg s = {| client := client s; on_log_ := on_log_ s; lines := msg :: lines s |}.
Proof using. intros H Hm. cbn [deliver]. by rewrite H, Hm. Qed.

Lemma opening_eq n : update (set_pending [PStage 1]) (opening n) =
  {| client := set_pending [PStage 1] (do_connect hash true (make_client host target 0 "" None None None));
     on_log_ := Some (stops_at host target n); lines := [] |}.
Proof using. reflexivity. Qed.

Lemma opened_stopped : client (opened Connected) =
  set_connected true (stop (emit ELog (set_pending [PStage 1] (do_connect hash true (make_client host target 0 "" None None None))))).
Proof using.
  unfold opened. rewrite opening_eq. unfold on_handshake_l. cbn [client].
  set (c0 := set_pending [PStage 1] _). change (generation_ c0) with 1. cbn [negb Z.eqb Pos.eqb].
  unfold log. cbn [client]. rewrite (deliver_stop (stops_at host target Connected)); [|reflexivity|apply stops_at_own].
  reflexivity.
Qed.

Lemma opened_live n : note_text host target Connected <> note_text host target n ->
  exists c ls, opened n = {| client := c; on_log_ := Some (stops_at host target n); lines := ls |}
    /\ ws_ c = Some 1 /\ stopped_ c = false /\ connected_ c = true /\ host_ c = host /\ target_ c = target.
Proof using.
  intros Hn. unfold opened. rewrite opening_eq. unfold on_handshake_l. cbn [client].
  set (c0 := set_pending [PStage 1] _). change (generation_ c0) with 1. cbn [negb Z.eqb Pos.eqb].
  unfold log. cbn [client]. rewrite (deliver_ignored (stops_at host target n)); [|reflexivity|by apply stops_at_other].
  eexists _, _. split; [reflexivity|]. repeat split; reflexivity.
Qed.

Lemma accepted_send lg t s : fst (push_retained (write_queue_ (client s)) t) = true ->
  client (run_send_l lg t s) = run_send t (client s).
Proof using.
  unfold run_send_l, run_send. destruct (push_retained _ _) as [ok q]. cbn [fst]. by intros ->.
Qed.

(** C39: stopping from a note is not safe everywhere.  The code logs "connected"
    before it sets the flag, and "kicked" before it closes the socket, and a hook
    runs at once on the strand.  A client whose hook stops it at "connected" ends
    up stopped and yet reports itself connected, and the next message sent goes
    through a null stream; a client whose hook stops it at "kicked" closes the
    socket of a null stream. *)
Theorem stop_from_note_unsafe :
  (exists s, rtc (lstep hash (S depth)) (watched host target Connected) s
     /\ stopped_ (client s) = true /\ connected (client s) = true /\ ENullStream ∈ trace (client s))
  /\ (exists s, rtc (lstep hash (S depth)) (watched host target (Kicked "stale")) s
     /\ stopped_ (client s) = true /\ ENullStream ∈ trace (client s)).
Proof using.
  split.
  - eexists. split.
    + etrans; [apply run_opened|].
      eapply rtc_l; [apply (lstep_send _ _ _ "x")|].
      eapply rtc_l; [|apply rtc_refl]. apply (lstep_posted _ _ _ "x" []).
      cbn [client update]. by rewrite opened_stopped.
    + rewrite accepted_send; cbn [client update]; rewrite opened_stopped; [|reflexivity].
      split; [reflexivity|]. split; [reflexivity|]. apply list_elem_of_here.
  - eexists. split.
    + etrans; [apply run_opened|]. eapply rtc_l; [apply (lstep_kick _ _ _ "stale")|apply rtc_refl].
    + destruct (opened_live (Kicked "stale")) as (c & ls & -> & H1 & H2 & H3 & H4 & H5).
      { unfold note_text. intros H. apply str_app_inj_l in H. do 2 apply str_app_inj_l in H. discriminate H. }
      unfold kick_l. cbn [client]. rewrite H1, H2, H3. cbn [negb]. unfold log. cbn [client].
      rewrite H4, H5, (deliver_stop (stops_at host target (Kicked "stale"))); [|reflexivity|apply stops_at_own].
      destruct c. cbn. split; [done|apply list_elem_of_here].
Qed.
End StopFromNote.

(** ** A concrete run *)

Module DemoLog.
Definition listening : Logged := {| client := Demo.client; on_log_ := Some (fun _ => []); lines := [] |}.
End DemoLog.

Lemma listening_hook_transparent_witness :
  exists s', rtc (lstep Demo.hash7 1) DemoLog.listening s' /\ client s' = Demo.live_state.
Proof.
  apply (proj2 (listening_hook_transparent Demo.hash7 1 DemoLog.listening (fun _ => eq_refl)) Demo.live_state).
  exact Demo.run_live.
Defined.
