(* ===== verification/WsLogSafe.v ===== *)
(** * Log hooks that are safe ([src/net/ws_client.cpp])

    A hook may send, and may stop the client, from every note but two: "connected"
    and "kicked", which the code makes in the middle of a change of state.  Under
    such a hook the invariant of the client without notes is kept.  A handler then
    leaves either what the handler without the hook leaves, up to messages the hook
    posted, or a client that has been retired on the way. *)

From Stdlib Require Import Ascii String ZArith Lia.
From stdpp Require Import base list strings numbers relations.
From S2P Require Import Prelude WriteQueue WsClient WsLog.

Open Scope Z_scope.

(** Sends anywhere, stops nowhere near the two notes. *)
Definition careful_hook (h : string -> list Call) : Prop :=
  forall msg c, c ∈ h msg ->
    (exists t, c = CallSend t)
    \/ (c = CallStop /\ forall host target reason,
          msg <> note_text host target Connected /\ msg <> note_text host target (Kicked reason)).

Definition careful (s : Logged) : Prop :=
  match on_log_ s with Some h => careful_hook h | None => True end.

(** ** Retired on the way *)

Record gone (s : Logged) : Prop := {
  gn_core : ws_core (client s);
  gn_idle : idle (client s);
  gn_stopped : stopped_ (client s) = true;
  gn_hook : WsLog.quiet s;
}.

(** [s] is [c] with other messages posted, or retired. *)
Definition agree (s : Logged) (c : WsClient) : Prop :=
  careful s /\ ((exists l, client s = set_posted l c) \/ gone s).

Lemma set_posted_twice l l' c : set_posted l (set_posted l' c) = set_posted l c.
Proof. by destruct c. Qed.
Lemma set_posted_own c : set_posted (posted c) c = c.
Proof. by destruct c. Qed.

Lemma agree_posted s l c : agree s (set_posted l c) -> agree s c.
Proof. intros [Hc [[l' H]|H]]; (split; [done|]); [left|by right]. exists l'. by rewrite H, set_posted_twice. Qed.
Lemma agree_refl s : careful s -> agree s (client s).
Proof. intros Hc. split; [done|]. left. exists (posted (client s)). by rewrite set_posted_own. Qed.
Lemma gone_careful s : gone s -> careful s.
Proof.
  intros H. pose proof (gn_hook _ H) as Hq. unfold careful, WsLog.quiet in *. destruct (on_log_ s) as [h|]; [|done].
  intros msg c. rewrite Hq. by intros ?%elem_of_nil.
Qed.
Lemma agree_gone s c : gone s -> agree s c.
Proof. intros H. split; [by apply gone_careful|by right]. Qed.

Lemma posted_core l c : ws_core c -> ws_core (set_posted l c).
Proof. intros [H1 H2 H3 H4]. open_state c. by split. Qed.

(** Changes of the client that leave a retired one retired. *)
Definition keeps_gone (g : WsClient -> WsClient) : Prop :=
  forall c, ws_core c -> idle c -> stopped_ c = true -> ws_core (g c) /\ idle (g c) /\ stopped_ (g c) = true.

Lemma gone_update g s : keeps_gone g -> gone s -> gone (update g s).
Proof. intros Hg [H1 H2 H3 H4]. by destruct (Hg _ H1 H2 H3) as (? & ? & ?). Qed.

Lemma keeps_gone_comp f g : keeps_gone f -> keeps_gone g -> keeps_gone (fun c => f (g c)).
Proof. intros Hf Hg c H1 H2 H3. destruct (Hg c H1 H2 H3) as (? & ? & ?). by apply Hf. Qed.

Ltac retired c :=
  intros [H1 H2 H3 H4] [[Q1 Q2 Q3] _] Hs; open_state c;
  split; [split; cbn; auto with ws; try (by repeat constructor)|]; try (split; [|done]);
  try (split; [split; cbn; try done|by left]); try done.

Lemma keeps_gone_stop : keeps_gone stop.
Proof. intros c Hc _ _. destruct (stop_inv c Hc). split; [done|]. split; [done|]. by destruct c. Qed.
Lemma keeps_gone_send t : keeps_gone (send t).
Proof. intros c. unfold send. retired c. Qed.
Lemma keeps_gone_log : keeps_gone (emit ELog).
Proof. intros c. retired c. Qed.
Lemma keeps_gone_drop gen : keeps_gone (drop_connection gen).
Proof. intros c. unfold drop_connection. retired c. Qed.
Lemma keeps_gone_bump : keeps_gone bump_generation.
Proof.
  intros c. retired c.
  - eapply pending_mono; [|done]. lia.
  - intros k. by apply inflight_fresh.
Qed.
Lemma keeps_gone_writing : keeps_gone (set_writing false).
Proof. intros c. retired c. Qed.
Lemma keeps_gone_timer p : pkind p = None -> pgen p = None -> keeps_gone (add_pending p).
Proof.
  intros Hk Hg c. retired c.
  - constructor; [by rewrite Hg|done].
  - intros k. rewrite inflight_other; [auto|congruence].
Qed.
(** What follows the note of [schedule_reconnect]. *)
Definition arm_tail (d : Z) (c : WsClient) : WsClient :=
  let c := cancel_reconnect (emit (ETimer d) c) in
  let c := set_delay (Z.min (reconnect_delay_ms_ c * 2) 30000) c in
  add_pending (PReconnect false) c.
Lemma keeps_gone_arm d : keeps_gone (arm_tail d).
Proof.
  intros c. unfold arm_tail. retired c.
  - lia.
  - constructor; [done|]. by apply pending_cancel.
  - intros k. rewrite inflight_other, inflight_cancel; [auto|done].
Qed.

(** ** A retired client has no hook *)

(** [stop] empties [on_log_], and nothing else sets [stopped_]. *)
Definition muted (s : Logged) : Prop := stopped_ (client s) = true -> on_log_ s = None.

Section Muted.
Context (hash : string -> Z).

Lemma muted_update g s : (forall c, stopped_ (g c) = stopped_ c) -> muted s -> muted (update g s).
Proof using. intros Hg Hs H. apply Hs. by rewrite <- (Hg (client s)). Qed.
Lemma muted_stop s : muted (stop_l s).
Proof using. by intros _. Qed.

(** Field updates. *)
Lemma do_write_stopped st gen c : stopped_ (do_write st gen c) = stopped_ c.
Proof using. unfold do_write. repeat case_match; by destruct c. Qed.
Lemma schedule_keepalive_stopped c : stopped_ (schedule_keepalive c) = stopped_ c.
Proof using. unfold schedule_keepalive. case_match; by destruct c. Qed.
Ltac unstopping := intros []; cbn; repeat case_match; rewrite ?do_write_stopped, ?schedule_keepalive_stopped; reflexivity.
Ltac mute := apply muted_update; [solve [unstopping]|].

Section Notes.
Context (lg : string -> Logged -> Logged) (Hlg : forall m s, muted s -> muted (lg m s)).

Lemma log_muted n s : muted s -> muted (log lg n s).
Proof using Hlg. intros Hs. apply Hlg. by mute. Qed.

Lemma schedule_muted f s : muted s -> muted (schedule_reconnect_l hash lg f s).
Proof using Hlg.
  intros Hs. unfold schedule_reconnect_l. cbv zeta. destruct (stopped_ (client s) || _); [done|].
  assert (Harm : forall d j, muted (arm_reconnect_l lg d j s)).
  { intros d j. unfold arm_reconnect_l. cbv zeta. do 3 mute. apply log_muted. by do 2 mute. }
  repeat case_match; auto using muted_stop.
Qed.

Lemma kick_muted reason s : muted s -> muted (kick_l hash lg reason s).
Proof using Hlg.
  intros Hs. unfold kick_l. cbv zeta. repeat case_match; try done. apply schedule_muted. mute.
  unfold close_socket. case_match; [|mute]; by apply log_muted.
Qed.

Lemma pushed_muted n ok s : muted s -> muted (pushed lg n ok s).
Proof using Hlg.
  intros Hs. unfold pushed. destruct (negb ok); [by apply log_muted|]. apply muted_update; [|done].
  intros c. case_match; [apply do_write_stopped|done].
Qed.

Lemma send_first_muted t s : muted s -> muted (send_first_l lg t s).
Proof using Hlg.
  intros Hs. unfold send_first_l. cbv zeta. destruct (push_connection _ _ _ _) as [ok q]. apply pushed_muted. by mute.
Qed.
Lemma run_send_muted t s : muted s -> muted (run_send_l lg t s).
Proof using Hlg.
  intros Hs. unfold run_send_l. destruct (push_retained _ _) as [ok q]. apply pushed_muted. by mute.
Qed.

Lemma run_calls_muted l s : muted s -> muted (run_calls_l hash lg s l).
Proof using Hlg.
  unfold run_calls_l. revert s. induction l as [|c l IH]; intros s Hs; [done|]. cbn [fold_left]. apply IH.
  destruct c; cbn [run_call_l]; [by apply send_first_muted|by mute|by apply kick_muted|apply muted_stop].
Qed.

Lemma fail_muted ei en what gen s : muted s -> muted (fail_l hash lg ei en what gen s).
Proof using Hlg.
  intros Hs. unfold fail_l. case_match; [done|]. apply schedule_muted. do 2 mute. by apply log_muted.
Qed.

Lemma do_connect_muted sni verify s : muted s -> muted (do_connect_l hash lg sni verify s).
Proof using Hlg.
  intros Hs. unfold do_connect_l. case_match; [done|]. cbv zeta. set (s1 := update (set_ws _) _).
  assert (H1 : muted s1) by (unfold s1; by do 2 mute). clearbody s1.
  case_match; [apply schedule_muted; mute; by apply log_muted|].
  case_match; [apply schedule_muted; mute; by apply log_muted|]. by mute.
Qed.

Lemma stage_muted what next gen err s : muted s -> muted (on_stage_l hash lg what next gen err s).
Proof using Hlg.
  intros Hs. unfold on_stage_l. case_match; [done|]. destruct err as [[ei en]|]; [by apply fail_muted|]. by mute.
Qed.

Lemma handshake_muted gen err s : muted s -> muted (on_handshake_l hash lg gen err s).
Proof using Hlg.
  intros Hs. unfold on_handshake_l. case_match; [done|]. destruct err as [[ei en]|]; [by apply fail_muted|]. cbv zeta.
  set (s2 := update (fun c => set_queue _ c) _). assert (H2 : muted s2) by (unfold s2; do 2 mute; by apply log_muted).
  clearbody s2. set (s3 := match on_open_ (client s2) with Some _ => _ | None => _ end).
  assert (H3 : muted s3) by (unfold s3; case_match; [apply run_calls_muted; by mute|done]). clearbody s3.
  case_match; [done|]. mute. apply muted_update; [apply schedule_keepalive_stopped|]. apply muted_update; [|done].
  intros c. case_match; [apply do_write_stopped|done].
Qed.

Lemma read_muted gen res s : muted s -> muted (on_read_l hash lg gen res s).
Proof using Hlg.
  intros Hs. unfold on_read_l. case_match; [done|]. destruct res as [[ei en]|data]; [by apply fail_muted|]. cbv zeta.
  set (s2 := match on_message_ _ with Some _ => _ | None => _ end).
  assert (H2 : muted s2) by (unfold s2; case_match; [apply run_calls_muted; by do 2 mute|by mute]). clearbody s2.
  case_match; [by mute|done].
Qed.

Lemma write_muted p gen err s : muted s -> muted (on_write_l hash lg p gen err s).
Proof using Hlg.
  intros Hs. unfold on_write_l. case_match; [done|]. destruct err as [[ei en]|]; [by apply fail_muted|].
  apply muted_update; [|done]. intros c. rewrite do_write_stopped. by destruct c.
Qed.

Lemma timers_muted s : muted s ->
  (forall gen aborted, muted (on_stage_timer_l hash lg gen aborted s))
  /\ (forall aborted sni verify, muted (on_reconnect_timer_l hash lg aborted sni verify s))
  /\ (forall aborted, muted (on_keepalive_timer_l lg aborted s)).
Proof using Hlg.
  intros Hs. split; [|split].
  - intros gen aborted. unfold on_stage_timer_l. cbv zeta. case_match; [done|]. apply schedule_muted. mute. by apply log_muted.
  - intros aborted sni verify. unfold on_reconnect_timer_l. case_match; [|done]. apply do_connect_muted. by mute.
  - intros aborted. unfold on_keepalive_timer_l. cbv zeta. case_match; [done|].
    destruct (push_connection _ _ _ _) as [ok q]. apply muted_update; [apply schedule_keepalive_stopped|].
    apply muted_update; [intros c; case_match; [apply do_write_stopped|done]|].
    case_match; [apply log_muted|]; by mute.
Qed.
End Notes.

Lemma deliver_muted depth m s : muted s -> muted (deliver hash depth m s).
Proof using.
  revert m s. induction depth as [|d IH]; intros m s Hs; cbn [deliver]; destruct (on_log_ s) as [h|] eqn:E; try done.
  - intros H. specialize (Hs H). congruence.
  - apply run_calls_muted; [exact IH|]. intros H. specialize (Hs H). congruence.
Qed.

Lemma lstep_muted depth s s' : lstep hash depth s s' -> muted s -> muted s'.
Proof using.
  assert (Hd := deliver_muted depth). intros Hst Hs. assert (Hl : forall l, muted (update (set_pending l) s)) by (intros l; by mute).
  destruct Hst; try done.
  - by apply do_connect_muted.
  - by apply kick_muted.
  - by mute.
  - by apply send_first_muted.
  - apply run_send_muted; [done|]. by mute.
  - by apply stage_muted.
  - by apply stage_muted.
  - by apply stage_muted.
  - by apply handshake_muted.
  - by apply read_muted.
  - by apply write_muted.
  - by apply timers_muted.
  - by apply timers_muted.
  - by apply timers_muted.
Qed.
End Muted.

(** ** The note itself *)

Section Careful.
Context (hash : string -> Z) (depth : nat).
#[local] Abbreviation lg := (deliver hash depth).

(** The calls of a careful hook: messages posted, or the client retired. *)
Lemma hook_calls d calls s :
  (forall c, c ∈ calls -> (exists t, c = CallSend t) \/ c = CallStop) -> careful s -> ws_core (client s) ->
  agree (run_calls_l hash (deliver hash d) s calls) (client s).
Proof using.
  unfold run_calls_l. intros Hall Hc Hcore.
  assert (Hgone : forall l s, (forall c, c ∈ l -> (exists t, c = CallSend t) \/ c = CallStop) -> gone s ->
    gone (fold_left (run_call_l hash (deliver hash d)) l s)).
  { clear. induction l as [|c l IH]; intros s Hall Hg; [done|]. cbn [fold_left].
    apply IH; [intros x Hx; apply Hall; by apply list_elem_of_further|].
    destruct (Hall c (list_elem_of_here _ _)) as [[t ->]| ->]; cbn [run_call_l].
    - apply gone_update; [apply keeps_gone_send|done].
    - destruct (gone_update stop s keeps_gone_stop Hg). by split. }
  revert s Hc Hcore. induction calls as [|c l IH]; intros s Hc Hcore; [by apply agree_refl|]. cbn [fold_left].
  assert (Hl : forall x, x ∈ l -> (exists t, x = CallSend t) \/ x = CallStop)
    by (intros x Hx; apply Hall; by apply list_elem_of_further).
  destruct (Hall c (list_elem_of_here _ _)) as [[t ->]| ->]; cbn [run_call_l].
  - apply (agree_posted _ (posted (client s) ++ [t])). apply (IH Hl (update (send t) s)); [done|].
    by apply posted_core.
  - apply agree_gone, Hgone; [done|]. destruct (stop_inv (client s) Hcore). split; [done..| |done].
    unfold stop_l. cbn. by destruct (client s).
Qed.

Lemma log_agrees n s : careful s -> ws_core (client s) -> agree (log lg n s) (emit ELog (client s)).
Proof using.
  intros Hc Hcore. unfold log. set (m := note_text _ _ n). set (s1 := update (emit ELog) s).
  assert (Hc1 : careful s1) by done.
  assert (Hcore1 : ws_core (client s1)).
  { destruct Hcore as [H1 H2 H3 H4]. subst s1. cbn [client update]. destruct (client s). split; cbn in *; try done. by constructor. }
  change (emit ELog (client s)) with (client s1). clearbody s1 m. unfold careful in Hc1.
  destruct (on_log_ s1) as [h|] eqn:E;
    [|destruct depth; cbn [deliver]; rewrite E; apply agree_refl; unfold careful; by rewrite E].
  destruct depth as [|d]; cbn [deliver]; rewrite E; [by apply (agree_refl {| client := client s1 |})|].
  apply (hook_calls d (h m) {| client := client s1; on_log_ := Some h; lines := m :: lines s1 |});
    [|exact Hc1|exact Hcore1].
  intros c Hin. destruct (Hc1 m c Hin) as [|[-> _]]; auto.
Qed.

(** From the two notes a careful hook only posts. *)
Lemma log_posts n s : (n = Connected \/ exists r, n = Kicked r) -> careful s ->
  careful (log lg n s) /\ exists l, client (log lg n s) = set_posted l (emit ELog (client s)).
Proof using.
  intros Hn Hc. unfold log. set (s1 := update (emit ELog) s). assert (Hc1 : careful s1) by done.
  change (emit ELog (client s)) with (client s1).
  set (m := note_text _ _ n). assert (Hm : exists host target reason,
    m = note_text host target Connected \/ m = note_text host target (Kicked reason)).
  { subst m. destruct Hn as [->|[r ->]]; do 2 eexists; [exists ""|exists r]; auto. }
  clearbody s1 m.
  assert (Hid : exists l, client s1 = set_posted l (client s1)) by (eexists; by rewrite set_posted_own).
  unfold careful in Hc1. destruct (on_log_ s1) as [h|] eqn:E;
    [|destruct depth; cbn [deliver]; rewrite E; (split; [|done]); unfold careful; by rewrite E].
  destruct depth as [|d]; cbn [deliver]; rewrite E; [done|].
  assert (Hall : forall c, c ∈ h m -> exists t, c = CallSend t).
  { intros c Hin. destruct (Hc1 m c Hin) as [|[_ Hne]]; [done|]. exfalso.
    destruct Hm as (ho & ta & r & Hm). destruct (Hne ho ta r). tauto. }
  assert (Hgoal : forall l s, (forall c, c ∈ l -> exists t, c = CallSend t) -> careful s ->
    careful (run_calls_l hash (deliver hash d) s l)
    /\ exists p, client (run_calls_l hash (deliver hash d) s l) = set_posted p (client s)).
  { clear. unfold run_calls_l. induction l as [|c l IH]; intros s Hl Hs.
    - split; [done|]. exists (posted (client s)). by rewrite set_posted_own.
    - cbn [fold_left]. destruct (Hl c (list_elem_of_here _ _)) as [t ->]. cbn [run_call_l].
      destruct (IH (update (send t) s)) as [H1 [p H2]]; [intros x Hx; apply Hl; by apply list_elem_of_further|done|].
      split; [done|]. exists p. rewrite H2. cbn [client update]. unfold send. apply set_posted_twice. }
  by apply (Hgoal (h m) {| client := client s1; on_log_ := Some h; lines := m :: lines s1 |}).
Qed.

(** ** Handlers *)

(** A change that the posted messages do not concern. *)
Definition posty (g : WsClient -> WsClient) : Prop := forall l c, g (set_posted l c) = set_posted l (g c).

Lemma schedule_posty f : posty (schedule_reconnect hash f).
Proof using.
  intros l c. unfold schedule_reconnect, arm_reconnect, jitter_ms. destruct c. cbn.
  repeat case_match; try done; congruence.
Qed.

Lemma do_write_posty st gen : posty (do_write st gen).
Proof using. intros l c. unfold do_write. destruct c. cbn. repeat case_match; try done; congruence. Qed.

Lemma schedule_keepalive_posty : posty schedule_keepalive.
Proof using.
  intros l c. unfold schedule_keepalive.
  replace (keepalive_interval_ (set_posted l c)) with (keepalive_interval_ c) by by destruct c.
  by destruct (_ <=? 0), c.
Qed.

Lemma agree_update g s c : posty g -> keeps_gone g -> agree s c -> agree (update g s) (g c).
Proof using.
  intros Hp Hg [Hc [[l H]|H]]; [|by apply agree_gone, gone_update].
  split; [done|]. left. exists l. cbn. by rewrite H, Hp.
Qed.

Lemma schedule_agrees f s : careful s -> ws_core (client s) ->
  agree (schedule_reconnect_l hash lg f s) (schedule_reconnect hash f (client s)).
Proof using.
  intros Hc Hcore. unfold schedule_reconnect_l, schedule_reconnect. cbv zeta.
  destruct (stopped_ (client s) || _); [by apply agree_refl|].
  assert (Harm : forall d j, agree (arm_reconnect_l lg d j s) (arm_reconnect d (client s))).
  { intros d j. unfold arm_reconnect_l. cbv zeta. set (s1 := update (set_ws None) _).
    assert (Hcore1 : ws_core (client s1)).
    { destruct Hcore as [H1 H2 H3 H4]. subst s1. cbn. destruct (client s). by split. }
    pose proof (log_agrees (Reconnecting d (reconnect_delay_ms_ (client s1)) j) s1 Hc Hcore1) as Ha.
    apply (agree_update (arm_tail d)) in Ha; [exact Ha|by intros l []|apply keeps_gone_arm]. }
  assert (Hstop : agree (stop_l s) (stop (client s))) by (by apply (agree_refl (stop_l s))).
  destruct (failure_policy_ (client s)) as [policy|]; [|apply Harm].
  destruct (policy f) as [d|]; [|done]. by destruct (d <? 0).
Qed.

(** Scheduling after a client that agrees. *)
Lemma agree_schedule f s c : agree s c -> ws_core c ->
  agree (schedule_reconnect_l hash lg f s) (schedule_reconnect hash f c).
Proof using.
  intros [Hc [[l H]|H]] Hcore.
  - apply (agree_posted _ l). rewrite <- schedule_posty, <- H. apply schedule_agrees; [done|]. rewrite H.
    by apply posted_core.
  - apply agree_gone. unfold schedule_reconnect_l. by rewrite (gn_stopped _ H).
Qed.

(** A note, a change and a reconnect. *)
Lemma noted_schedule n g f s :
  careful s -> ws_core (client s) -> posty g -> keeps_gone g -> ws_core (g (emit ELog (client s))) ->
  agree (schedule_reconnect_l hash lg f (update g (log lg n s))) (schedule_reconnect hash f (g (emit ELog (client s)))).
Proof using.
  intros Hc Hcore Hp Hg Hcore'. apply agree_schedule; [|done]. apply agree_update; [done..|]. by apply log_agrees.
Qed.

Lemma log_core c : ws_core c -> ws_core (emit ELog c).
Proof using. intros [H1 H2 H3 H4]. open_state c. split; try done. by constructor. Qed.
Lemma bump_core c : ws_core c -> ws_core (bump_generation c).
Proof using. intros [H1 H2 H3 H4]. open_state c. split; cbn; try done. eapply pending_mono; [|done]. lia. Qed.
Lemma drop_core gen c : ws_core c -> ws_core (drop_connection gen c).
Proof using. intros [H1 H2 H3 H4]. unfold drop_connection. open_state c. split; cbn; auto with ws. Qed.

Lemma kick_agrees reason r s : careful s -> ws_inv r (client s) -> agree (kick_l hash lg reason s) (kick hash (client s)).
Proof using.
  intros Hc Hi. unfold kick_l, kick. cbv zeta. destruct (ws_ (client s)) as [w|] eqn:Ew; [|by apply agree_refl].
  destruct (stopped_ (client s)); [by apply agree_refl|]. destruct (negb _); [by apply agree_refl|].
  destruct (log_posts (Kicked reason) s) as [Hc1 [l E1]]; [by eauto|done|].
  assert (Hclose : close_socket (log lg (Kicked reason) s) = log lg (Kicked reason) s).
  { unfold close_socket. rewrite E1. replace (ws_ _) with (ws_ (client s)) by by destruct (client s). by rewrite Ew. }
  rewrite Hclose. set (g := fun c => bump_generation (drop_connection (generation_ c) c)).
  assert (Ha : agree (update g (log lg (Kicked reason) s)) (g (emit ELog (client s)))).
  { split; [done|]. left. exists l. cbn. rewrite E1. by destruct (client s). }
  apply (agree_schedule no_failure) in Ha; [|apply bump_core, drop_core, log_core, Hi].
  subst g. cbn beta in Ha.
  by destruct (client s).
Qed.

Lemma pushed_agrees n ok s : careful s -> ws_core (client s) -> agree (pushed lg n ok s)
  (if negb ok then emit ELog (client s)
   else if connected_ (client s) && negb (writing_ (client s))
        then do_write (ws_ (client s)) (generation_ (client s)) (client s) else client s).
Proof using.
  intros Hc Hcore. unfold pushed. destruct (negb ok); [by apply log_agrees|].
  by apply (agree_refl (update (fun c => if connected_ c && negb (writing_ c) then do_write (ws_ c) (generation_ c) c else c) s)).
Qed.

Lemma run_send_agrees t s : careful s -> ws_core (client s) -> agree (run_send_l lg t s) (run_send t (client s)).
Proof using.
  intros Hc Hcore. unfold run_send_l, run_send. pose proof (push_retained_inv _ t (wc_queue _ Hcore)) as Hq.
  destruct (push_retained _ _) as [ok q]. apply (pushed_agrees _ ok (update (set_queue q) s)); [done|].
  by apply set_queue_core.
Qed.

Lemma send_first_agrees t s : careful s -> ws_core (client s) -> agree (send_first_l lg t s) (send_first t (client s)).
Proof using.
  intros Hc Hcore. unfold send_first_l, send_first. cbv zeta.
  pose proof (push_connection_inv _ t (generation_ (client s)) true (wc_queue _ Hcore)) as Hq.
  destruct (push_connection _ _ _ _) as [ok q]. apply (pushed_agrees _ ok (update (set_queue q) s)); [done|].
  by apply set_queue_core.
Qed.

(** Callbacks. *)
Lemma run_call_posted l c k : exists l', run_call hash (set_posted l c) k = set_posted l' (run_call hash c k).
Proof using.
  destruct k as [t|t| |]; cbn [run_call].
  - exists l. unfold send_first, do_write. destruct c. cbn. destruct (push_connection _ _ _ _). cbn.
    repeat case_match; try done; congruence.
  - exists (l ++ [t]). by destruct c.
  - exists l. unfold kick. replace (ws_ (set_posted l c)) with (ws_ c) by by destruct c.
    replace (stopped_ (set_posted l c)) with (stopped_ c) by by destruct c.
    replace (connected_ (set_posted l c)) with (connected_ c) by by destruct c.
    destruct (ws_ c), (stopped_ c), (connected_ c); cbn [negb]; try done. rewrite <- schedule_posty. by destruct c.
  - exists l. by destruct c.
Qed.

Lemma run_calls_posted l c ks : exists l', run_calls hash (set_posted l c) ks = set_posted l' (run_calls hash c ks).
Proof using.
  unfold run_calls. revert l c. induction ks as [|k ks IH]; intros l c; cbn [fold_left]; [by eauto|].
  destruct (run_call_posted l c k) as [l1 ->]. apply IH.
Qed.

Lemma run_calls_stopped ks c : stopped_ c = true -> stopped_ (run_calls hash c ks) = true.
Proof using.
  unfold run_calls. revert c. induction ks as [|k ks IH]; intros c Hs; [done|]. cbn [fold_left]. apply IH.
  destruct k as [t|t| |]; cbn [run_call].
  - unfold send_first, do_write. destruct c. cbn in *. destruct (push_connection _ _ _ _). cbn. repeat case_match; done.
  - by destruct c.
  - unfold kick. rewrite Hs. by destruct (ws_ c).
  - by destruct c.
Qed.

Lemma gone_calls ks s : gone s -> gone (run_calls_l hash lg s ks).
Proof using.
  intros [H1 H2 H3 H4]. destruct (mirrors_calls hash lg (deliver_quiet hash depth) ks s H4) as [Q E].
  destruct (run_calls_keeps hash 1 ks (client s) (idle_inv 1 _ (conj H1 H2))) as (Hi & _ & _ & _ & Hid).
  split; [rewrite E; apply Hi|rewrite E; by apply Hid|rewrite E; by apply run_calls_stopped|done].
Qed.

Lemma run_calls_agrees r ks s : careful s -> ws_inv r (client s) ->
  agree (run_calls_l hash lg s ks) (run_calls hash (client s) ks).
Proof using.
  revert s. induction ks as [|k ks IH]; intros s Hc Hi; [by apply agree_refl|].
  change (agree (run_calls_l hash lg (run_call_l hash lg s k) ks) (run_calls hash (run_call hash (client s) k) ks)).
  assert (Ha : agree (run_call_l hash lg s k) (run_call hash (client s) k)).
  { destruct k; cbn [run_call_l run_call];
      [apply send_first_agrees; [done|apply Hi]|by apply (agree_refl (update (send t) s))|by eapply kick_agrees
      |by apply (agree_refl (stop_l s))]. }
  destruct Ha as [Hc1 [[l E]|Hg]]; [|by apply agree_gone, gone_calls].
  destruct (run_calls_posted l (run_call hash (client s) k) ks) as [l' El].
  apply (agree_posted _ l'). rewrite <- El, <- E. apply IH; [done|]. rewrite E. apply set_posted_keeps.
  apply (run_calls_keeps hash r [k]). done.
Qed.

Lemma fail_agrees ei en what gen s : careful s -> ws_core (client s) ->
  agree (fail_l hash lg ei en what gen s) (fail hash ei gen (client s)).
Proof using.
  intros Hc Hcore. unfold fail_l, fail. cbv zeta. destruct (stopped_ (client s) || _); [by apply agree_refl|].
  set (n := Failed _ _ _). pose proof (log_agrees n s Hc Hcore) as Ha.
  apply (agree_update (drop_connection gen)) in Ha; [|by intros l []|apply keeps_gone_drop].
  pose proof (agree_update bump_generation _ _ ltac:(by intros l []) keeps_gone_bump Ha) as Hb.
  apply (agree_schedule (failure_of ei (match ws_ (client s) with Some _ => true | None => false end))) in Hb;
    [|by apply bump_core, drop_core, log_core].
  destruct Ha as [_ [[l E]|Hg]].
  - replace (ws_ (client (update (drop_connection gen) (log lg n s)))) with (ws_ (client s))
      by (rewrite E; by destruct (client s)). by destruct (client s).
  - apply agree_gone. pose proof (gone_update _ _ keeps_gone_bump Hg) as Hg'. unfold schedule_reconnect_l.
    by rewrite (gn_stopped _ Hg').
Qed.

Lemma do_connect_agrees sni verify s : careful s -> ws_core (client s) ->
  agree (do_connect_l hash lg sni verify s) (do_connect hash (sni && verify) (client s)).
Proof using.
  intros Hc Hcore. unfold do_connect_l, do_connect. cbv zeta. destruct (stopped_ (client s)); [by apply agree_refl|].
  set (s1 := update (set_ws _) _). assert (Hc1 : careful s1) by done.
  assert (Hcore1 : ws_core (client s1)).
  { destruct (bump_core _ Hcore) as [H1 H2 H3 H4]. subst s1. cbn. destruct (client s). by split. }
  destruct sni; cbn [negb andb]; [destruct verify; cbn [negb];
    [by apply (agree_refl (update (fun c => add_pending (PResolve _) (add_pending (PStage _) (emit (EConnect _) c))) s1))|]|];
    (apply (noted_schedule _ bump_generation no_failure s1); [done|done|by intros l []|apply keeps_gone_bump|]);
    by apply bump_core, log_core.
Qed.

Lemma stage_timer_agrees gen aborted s : careful s -> ws_core (client s) ->
  agree (on_stage_timer_l hash lg gen aborted s) (on_stage_timer hash gen aborted (client s)).
Proof using.
  intros Hc Hcore. unfold on_stage_timer_l, on_stage_timer. cbv zeta.
  destruct (_ || connected_ (client s)); [by apply agree_refl|].
  apply (noted_schedule StageDeadline (fun c => bump_generation (set_writing false c)) no_failure s);
    [done|done|by intros l []|apply (keeps_gone_comp bump_generation); [apply keeps_gone_bump|apply keeps_gone_writing]|].
  apply bump_core. destruct (log_core _ Hcore) as [H1 H2 H3 H4]. destruct (client s). by split.
Qed.

Lemma reconnect_timer_agrees aborted sni verify s : careful s -> ws_core (client s) ->
  agree (on_reconnect_timer_l hash lg aborted sni verify s) (on_reconnect_timer hash aborted (sni && verify) (client s)).
Proof using.
  intros Hc Hcore. unfold on_reconnect_timer_l, on_reconnect_timer. destruct (negb aborted && _); [|by apply agree_refl].
  apply (do_connect_agrees sni verify (update (set_scheduled false) s)); [done|].
  destruct Hcore as [H1 H2 H3 H4]. cbn. destruct (client s). by split.
Qed.

Lemma keepalive_agrees aborted s : careful s -> ws_core (client s) ->
  agree (on_keepalive_timer_l lg aborted s) (on_keepalive_timer aborted (client s)).
Proof using.
  intros Hc Hcore. unfold on_keepalive_timer_l, on_keepalive_timer. cbv zeta.
  destruct (_ || negb (connected_ (client s))); [by apply agree_refl|].
  pose proof (push_connection_inv _ (keepalive_text_ (client s)) (generation_ (client s)) false (wc_queue _ Hcore)) as Hq.
  destruct (push_connection _ _ _ _) as [ok q]. set (s1 := update (set_queue q) s).
  assert (Ha : agree (if negb ok then log lg KeepaliveSkipped s1 else s1)
                 (if negb ok then emit ELog (set_queue q (client s)) else set_queue q (client s))).
  { destruct ok; cbn [negb]; [by apply (agree_refl s1)|]. apply (log_agrees _ s1); [done|]. by apply set_queue_core. }
  apply agree_update; [| |apply (agree_update (fun c => if negb (writing_ c) then do_write (ws_ c) (generation_ c) c else c));
    [| |exact Ha]].
  - apply schedule_keepalive_posty.
  - intros c Hcc Hid Hst. unfold schedule_keepalive. destruct (_ <=? 0); [done|]. by apply keeps_gone_timer.
  - intros l c. replace (writing_ (set_posted l c)) with (writing_ c) by by destruct c.
    destruct (negb (writing_ c)); [|done]. rewrite <- do_write_posty. by destruct c.
  - intros c Hcc Hid Hst. destruct (negb (writing_ c)); [|done]. unfold do_write.
    rewrite (qu_connected _ (proj1 Hid)), orb_true_r. by apply keeps_gone_writing.
Qed.

Lemma stage_agrees what next gen en err s : careful s -> ws_core (client s) ->
  agree (on_stage_l hash lg what next gen (note_error en err) s) (on_stage hash next gen err (client s)).
Proof using.
  intros Hc Hcore. unfold on_stage_l, on_stage. destruct (negb _); [by apply agree_refl|].
  destruct err as [ei|]; [by apply fail_agrees|by apply (agree_refl (update (add_pending (next gen)) s))].
Qed.

Lemma write_agrees p gen en err s : careful s -> ws_core (client s) ->
  agree (on_write_l hash lg p gen (note_error en err) s) (on_write hash p gen err (client s)).
Proof using.
  intros Hc Hcore. unfold on_write_l, on_write. destruct (negb _); [by apply agree_refl|].
  destruct err as [ei|]; [by apply fail_agrees|].
  by apply (agree_refl (update (fun c => do_write (Some gen) gen (set_queue (complete (write_queue_ c) p) c)) s)).
Qed.

(** An installed callback, run with its effect recorded. *)
Lemma callback_agrees r e (calls : option (list Call)) s c :
  effect_ok e -> agree s c -> ws_inv r c ->
  agree (match calls with Some ks => run_calls_l hash lg (update (emit e) s) ks | None => s end)
        (match calls with Some ks => run_calls hash (emit e c) ks | None => c end).
Proof using.
  intros He Ha Hi. destruct calls as [ks|]; [|done]. pose proof (emit_keeps r e c He Hi) as Hk.
  destruct Ha as [Hc [[l E]|Hg]].
  - destruct (run_calls_posted l (emit e c) ks) as [l' El]. apply (agree_posted _ l'). rewrite <- El.
    assert (E' : client (update (emit e) s) = set_posted l (emit e c)) by (cbn; rewrite E; by destruct c).
    rewrite <- E'. eapply run_calls_agrees; [done|]. rewrite E'. eapply set_posted_keeps, Hk.
  - apply agree_gone, gone_calls. apply gone_update; [|done]. intros k [H1 H2 H3 H4] [[Q1 Q2 Q3] _] Hs. open_state k.
    split; [split; try done; by constructor|]. split; [|done]. split; [by split|by left].
Qed.

(** What follows the open callback. *)
Definition open_tail (gen : Z) (c : WsClient) : WsClient :=
  let c := if negb (qempty (write_queue_ c)) && negb (writing_ c) then do_write (Some gen) gen c else c in
  add_pending (PRead gen) (schedule_keepalive c).

Lemma open_tail_posty gen : posty (open_tail gen).
Proof using.
  intros l c. unfold open_tail. cbv zeta.
  replace (write_queue_ (set_posted l c)) with (write_queue_ c) by by destruct c.
  replace (writing_ (set_posted l c)) with (writing_ c) by by destruct c.
  destruct (negb (qempty (write_queue_ c)) && negb (writing_ c)); rewrite ?do_write_posty, schedule_keepalive_posty;
    by destruct (schedule_keepalive _).
Qed.

Lemma handshake_agrees gen en err s l :
  careful s -> ws_inv 1 (client s) -> pending (client s) ≡ₚ PHandshake gen :: l ->
  agree (on_handshake_l hash lg gen (note_error en err) (update (set_pending l) s))
        (on_handshake hash gen err (set_pending l (client s))).
Proof using.
  intros Hc Hi Hp. unfold on_handshake_l, on_handshake. set (c0 := set_pending l (client s)).
  set (s0 := update (set_pending l) s). change (client s0) with c0.
  assert (Hcore : ws_core c0) by (eapply take_core; [apply Hi|done]).
  destruct (Z.eqb_spec gen (generation_ c0)) as [Hg|Hne]; cbn [negb]; [|by apply (agree_refl (update (set_pending l) s))].
  destruct err as [ei|]; [by apply (fail_agrees ei en WsHandshake gen s0)|].
  cbn [note_error]. cbv zeta. assert (Hg' : gen = generation_ (client s)) by (rewrite Hg; by destruct (client s)).
  destruct (open_live (client s) l (PHandshake gen) Hi Hp eq_refl ltac:(cbn; by rewrite Hg')) as (Hcore2 & Hl2 & _).
  cbv zeta in Hcore2, Hl2. rewrite <- Hg' in Hcore2, Hl2. fold c0 in Hcore2, Hl2.
  destruct (log_posts Connected s0) as [Hc1 [l1 E1]]; [by left|done|]. change (client s0) with c0 in E1. set (s1 := log _ _ _) in *. clearbody s1.
  set (c2 := set_queue _ (set_connected true (emit ELog c0))) in *.
  set (s2 := update (fun c => set_queue (discard_stale_connection_writes (write_queue_ c) gen) c) (update (set_connected true) s1)).
  assert (Ha2 : agree s2 c2).
  { split; [done|]. left. exists l1. subst s2 c2. cbn [client update]. rewrite E1. by destruct c0. }
  assert (Ho : on_open_ (client s2) = on_open_ c2).
  { subst s2 c2. cbn [client update]. rewrite E1. by destruct c0. }
  rewrite Ho. pose proof (callback_agrees 0 (EOpen gen) (on_open_ c2) s2 c2 I Ha2 (live_inv 0 c2 Hcore2 Hl2)) as Ha3.
  set (s3 := match on_open_ c2 with Some calls => run_calls_l _ _ _ _ | None => _ end) in *.
  set (c3 := match on_open_ c2 with Some calls => run_calls _ _ _ | None => _ end) in *. clearbody s3 c3.
  destruct Ha3 as [Hc3 [[l3 E3]|Hg3]].
  - rewrite E3. replace (stopped_ (set_posted l3 c3)) with (stopped_ c3) by by destruct c3.
    replace (generation_ (set_posted l3 c3)) with (generation_ c3) by by destruct c3.
    destruct (stopped_ c3 || _); [split; [done|]; by left; exists l3|].
    split; [done|]. left. exists l3. cbn [client update]. rewrite E3. apply (open_tail_posty gen).
  - rewrite (gn_stopped _ Hg3). by apply agree_gone.
Qed.

Lemma read_agrees gen en res s l :
  careful s -> ws_inv 1 (client s) -> pending (client s) ≡ₚ PRead gen :: l ->
  agree (on_read_l hash lg gen (note_result en res) (update (set_pending l) s))
        (on_read hash gen res (set_pending l (client s))).
Proof using.
  intros Hc Hi Hp. unfold on_read_l, on_read. set (c0 := set_pending l (client s)).
  set (s0 := update (set_pending l) s). change (client s0) with c0.
  assert (Hcore : ws_core c0) by (eapply take_core; [apply Hi|done]).
  destruct (Z.eqb_spec gen (generation_ c0)) as [Hg|Hne]; cbn [negb]; [|by apply (agree_refl (update (set_pending l) s))].
  destruct res as [ei|data]; [by apply (fail_agrees ei en Read gen s0)|].
  cbn [note_result]. cbv zeta. assert (Hg' : gen = generation_ (client s)) by (rewrite Hg; by destruct (client s)).
  destruct (take_current (client s) _ l _ Hi Hp eq_refl ltac:(cbn; by rewrite Hg')) as [_ Hl]. fold c0 in Hl.
  set (c1 := set_delay 500 c0). set (s1 := update (set_delay 500) s0).
  assert (Ha1 : agree s1 c1) by (by apply (agree_refl s1)). change (set_delay 500 c0) with c1.
  assert (Hi1 : ws_inv 0 c1).
  { apply live_inv; [destruct Hcore as [H1 H2 H3 H4]; subst c1; destruct c0; split; cbn in *; try done; lia|].
    replace (writes_of c1) with (writes_of (client s)) by (subst c1 c0; by destruct (client s)). by apply set_delay_live. }
  pose proof (callback_agrees 0 (EMessage gen data) (option_map (fun f => f data) (on_message_ c1)) s1 c1 I Ha1 Hi1) as Ha2.
  change (on_message_ (client s1)) with (on_message_ c1).
  assert (Hmatch : forall A (f : list Call -> A) (g : A),
    match option_map (fun f => f data) (on_message_ c1) with Some ks => f ks | None => g end
    = match on_message_ c1 with Some h => f (h data) | None => g end) by (intros; by destruct (on_message_ c1)).
  rewrite !Hmatch in Ha2. set (s2 := match on_message_ c1 with Some _ => run_calls_l _ _ _ _ | None => _ end) in *.
  set (c2 := match on_message_ c1 with Some _ => run_calls _ _ _ | None => _ end) in *. clearbody s2 c2.
  destruct Ha2 as [Hc2 [[l2 E2]|Hg2]].
  - rewrite E2. replace (stopped_ (set_posted l2 c2)) with (stopped_ c2) by by destruct c2.
    replace (generation_ (set_posted l2 c2)) with (generation_ c2) by by destruct c2.
    destruct (negb (stopped_ c2) && _); (split; [done|]); left; exists l2; [cbn [client update]; rewrite E2; by destruct c2|done].
  - rewrite (gn_stopped _ Hg2). by apply agree_gone.
Qed.

(** ** The property *)

Lemma agree_inv s c : agree s c -> ws_inv 1 c -> careful s /\ ws_inv 1 (client s).
Proof using.
  intros [Hc [[l E]|Hg]] Hi; (split; [done|]); [rewrite E; by apply set_posted_keeps|apply idle_inv; split; apply Hg].
Qed.

Lemma lstep_inv s s' : careful s -> ws_inv 1 (client s) -> lstep hash depth s s' -> careful s' /\ ws_inv 1 (client s').
Proof using.
  intros Hc Hi Hst. pose proof (proj1 Hi) as Hcore. destruct Hst;
    try match goal with H : pending _ ≡ₚ _ |- _ => pose proof (take_core _ _ _ Hcore H) as Hcore' end.
  - apply (agree_inv _ (do_connect hash (sni && verify) (client s))); [by apply do_connect_agrees|].
    by apply (step_inv hash (client s)); [apply step_start|].
  - apply (agree_inv _ (stop (client s))); [by apply (agree_refl (stop_l s))|by apply stop_keeps].
  - apply (agree_inv _ (kick hash (client s))); [by eapply kick_agrees|by apply kick_keeps].
  - apply (agree_inv _ (send t (client s))); [by apply (agree_refl (update (send t) s))|by apply set_posted_keeps].
  - apply (agree_inv _ (send_first t (client s))); [by apply send_first_agrees|by apply send_first_keeps].
  - apply (agree_inv _ (run_send t (set_posted rest (client s))));
      [apply (run_send_agrees t (update (set_posted rest) s)); [done|by apply posted_core]|].
    by apply run_send_keeps, set_posted_keeps.
  - eapply agree_inv; [by apply (stage_agrees _ _ _ _ _ (update (set_pending l) s))|].
    by eapply (step_inv hash (client s)); [apply step_resolve|].
  - eapply agree_inv; [by apply (stage_agrees _ _ _ _ _ (update (set_pending l) s))|].
    by eapply (step_inv hash (client s)); [apply step_connect|].
  - eapply agree_inv; [by apply (stage_agrees _ _ _ _ _ (update (set_pending l) s))|].
    by eapply (step_inv hash (client s)); [apply step_tls|].
  - eapply agree_inv; [by apply handshake_agrees|]. by apply on_handshake_inv.
  - eapply agree_inv; [by apply read_agrees|]. by apply on_read_inv.
  - eapply agree_inv; [by apply (write_agrees _ _ _ _ (update (set_pending l) s))|]. by apply on_write_inv.
  - eapply agree_inv; [by apply (stage_timer_agrees _ _ (update (set_pending l) s))|].
    by eapply (step_inv hash (client s)); [apply step_stage|].
  - eapply agree_inv; [by apply (reconnect_timer_agrees _ _ _ (update (set_pending l) s))|].
    by eapply on_reconnect_timer_inv.
  - eapply agree_inv; [by apply (keepalive_agrees _ (update (set_pending l) s))|].
    by eapply (step_inv hash (client s)); [apply step_keepalive|].
Qed.

(** The invariants of a client whose hook, if any, is careful. *)
Lemma reachable_careful s0 s : careful s0 -> muted s0 -> ws_inv 1 (client s0) -> rtc (lstep hash depth) s0 s ->
  careful s /\ muted s /\ ws_inv 1 (client s).
Proof using.
  intros Hc Hm Hi Hr. induction Hr as [|a b c Hst _ IH]; [done|].
  destruct (lstep_inv a b) as [Hc' Hi']; [done..|]. apply IH; [done|by eapply lstep_muted|done].
Qed.

(** A client with the hook its owner installed before it was started. *)
Definition fresh_logged h t ki kt om oo fp (hook : option (string -> list Call)) : Logged :=
  {| client := make_client h t ki kt om oo fp; on_log_ := hook; lines := [] |}.

(** C9: the client is safe with any careful log hook.  Whatever the order and outcome
    of the I/O completions, whatever the open and message callbacks call, and with no
    log hook or one that sends what it likes and stops the client only from other
    notes than "connected" and "kicked", every reachable state satisfies: nothing was
    written through a null stream; every connection frame went to the stream of the
    generation it was queued for; a connected client has the stream of the current
    generation, with exactly one read and at most one write in flight, the write matching
    [writing_]; a stopped client is not connected; and the queue stays within its bound.
    (A hook that stops the client from one of the two notes breaks this.) *)
Theorem careful_hook_safe h t ki kt om oo fp hook s :
  careful (fresh_logged h t ki kt om oo fp hook) -> rtc (lstep hash depth) (fresh_logged h t ki kt om oo fp hook) s ->
  ENullStream ∉ trace (client s)
  /\ (forall st e, EWrite st e ∈ trace (client s) -> connection_scoped e = true -> generation e = st)
  /\ (connected_ (client s) = true ->
      ws_ (client s) = Some (generation_ (client s))
      /\ inflight Reading (generation_ (client s)) (pending (client s)) = 1%nat
      /\ inflight Writing (generation_ (client s)) (pending (client s)) = (if writing_ (client s) then 1 else 0)%nat)
  /\ (stopped_ (client s) = true -> connected_ (client s) = false)
  /\ queue_inv (write_queue_ (client s)).
Proof using.
  intros Hh Hr. destruct (reachable_careful _ s Hh) as (_ & _ & Hi); [done|apply make_client_inv|done|].
  pose proof (wc_trace _ (proj1 Hi)) as Ht. rewrite Forall_forall in Ht.
  split; [intros H; exact (Ht _ H)|]. split; [intros st e H; exact (Ht _ H)|].
  split; [intros Hc; by destruct (connected_live 1 _ Hi Hc)|]. split; [by apply retired_quiet|apply Hi].
Qed.

(** C33: retirement is final.  In a client with no log hook or a careful one, once
    [stop] has run (called by the owner, by the open or message callback, by the hook,
    or by a failure policy), no later step connects, arms the reconnect timer, writes,
    or runs the open or message callback. *)
Theorem stop_is_final h t ki kt om oo fp hook s s' :
  careful (fresh_logged h t ki kt om oo fp hook) -> rtc (lstep hash depth) (fresh_logged h t ki kt om oo fp hook) s ->
  stopped_ (client s) = true -> rtc (lstep hash depth) s s' ->
  stopped_ (client s') = true /\ activity (client s') = activity (client s).
Proof using.
  intros Hh Hr Hs Hrun. destruct (reachable_careful _ s Hh) as (_ & Hm & Hi); [done|apply make_client_inv|done|].
  assert (Hq : WsLog.quiet s) by (unfold WsLog.quiet; by rewrite (Hm Hs)). clear Hh Hr Hm.
  induction Hrun as [|a b c Hst _ IH]; [done|]. destruct (lstep_mirrors hash depth a b Hq Hst) as [Hqb Hstep].
  destruct (retired_step hash _ _ Hi Hs Hstep) as [Hb Ha]. rewrite <- Ha. apply IH; [done| |done].
  by eapply step_inv.
Qed.
End Careful.

(** ** A concrete hook *)

Module DemoHook.
Fixpoint last_char (s : string) : option Ascii.ascii :=
  match s with
  | EmptyString => None
  | String c EmptyString => Some c
  | String _ rest => last_char rest
  end.

(** Stop on a failure or a reconnect, whose notes end in a parenthesis, and pass
    every other note on to the peer. *)
Definition hook (msg : string) : list Call :=
  match last_char msg with
  | Some c => if Ascii.eqb c ")"%char then [CallStop] else [CallSend msg]
  | None => []
  end.

Lemma last_char_app a b : b <> "" -> last_char (a +:+ b) = last_char b.
Proof.
  intros Hb. induction a as [|c a IH]; [done|]. cbn. destruct (a +:+ b) eqn:E; [|done].
  by destruct a, b.
Qed.

Lemma careful : careful_hook hook.
Proof.
  intros msg c. unfold hook. destruct (last_char msg) as [x|] eqn:E; [|by intros ?%elem_of_nil].
  destruct (Ascii.eqb_spec x ")"%char) as [->|]; intros ->%list_elem_of_singleton; [right|by left; eexists].
  split; [done|]. intros host target reason. unfold note_text.
  split; intros ->; rewrite !str_app_assoc, last_char_app in E; (discriminate E || done).
Qed.

Definition start : Logged :=
  {| client := make_client "ws.example" "/ws" 0 "" None None None; on_log_ := Some hook; lines := [] |}.
Definition lost : ErrorInfo :=
  {| ec_message_too_big := false; ec_buffer_overflow := false; ec_ssl_category := false; ec_upgrade_declined := false;
     ei_reason_code := 1006; ei_result_int := 0; ei_retry_after := "" |}.
Definition name : ErrorName := {| en_value := 104; en_category := "system" |}.
Definition deliver1 : string -> Logged -> Logged := deliver Demo.hash7 1.
Definition taken (l : list Pending) (s : Logged) : Logged := update (set_pending l) s.

(** Connected, then the read fails and the hook retires the client. *)
Definition opened : Logged :=
  let s := do_connect_l Demo.hash7 deliver1 true true start in
  let s := on_stage_l Demo.hash7 deliver1 Resolve PConnect 1 None (taken [PStage 1] s) in
  let s := on_stage_l Demo.hash7 deliver1 Connect PTls 1 None (taken [PStage 1] s) in
  let s := on_stage_l Demo.hash7 deliver1 TlsHandshake PHandshake 1 None (taken [PStage 1] s) in
  on_handshake_l Demo.hash7 deliver1 1 None (taken [PStage 1] s).
Definition ended : Logged := on_read_l Demo.hash7 deliver1 1 (inl (lost, name)) (taken [PStage 1] opened).

Lemma run_ended : rtc (lstep Demo.hash7 1) start ended.
Proof.
  eapply rtc_l; [apply (lstep_start _ _ _ true true)|].
  eapply rtc_l; [apply (lstep_resolve _ _ _ 1 [PStage 1] None name); reflexivity|].
  eapply rtc_l; [apply (lstep_connect _ _ _ 1 [PStage 1] None name); reflexivity|].
  eapply rtc_l; [apply (lstep_tls _ _ _ 1 [PStage 1] None name); reflexivity|].
  eapply rtc_l; [apply (lstep_handshake _ _ _ 1 [PStage 1] None name); reflexivity|].
  eapply rtc_l; [apply (lstep_read _ _ _ 1 [PStage 1] (inl lost) name); reflexivity|].
  apply rtc_refl.
Qed.

Example notes : lines ended = ["ws ws.example/ws: read failed: ec=104 (system)"; "ws ws.example/ws: connected"].
Proof. vm_compute. reflexivity. Qed.
End DemoHook.

Lemma careful_hook_safe_witness :
  stopped_ (client DemoHook.ended) = true /\ posted (client DemoHook.ended) = ["ws ws.example/ws: connected"]
  /\ ENullStream ∉ trace (client DemoHook.ended) /\ connected_ (client DemoHook.ended) = false.
Proof.
  split; [vm_compute; reflexivity|]. split; [vm_compute; reflexivity|].
  destruct (careful_hook_safe Demo.hash7 1 "ws.example" "/ws" 0 "" None None None (Some DemoHook.hook) DemoHook.ended
    DemoHook.careful DemoHook.run_ended) as (H1 & _ & _ & H2 & _).
  split; [exact H1|]. apply H2. vm_compute. reflexivity.
Defined.

(** The hook stopped the client; a later send and its body write nothing. *)
Lemma stop_is_final_witness :
  let s' := update (send "late") DemoHook.ended in
  stopped_ (client s') = true /\ activity (client s') = activity (client DemoHook.ended).
Proof.
  cbv zeta. apply (stop_is_final Demo.hash7 1 "ws.example" "/ws" 0 "" None None None (Some DemoHook.hook) DemoHook.ended);
    [exact DemoHook.careful|exact DemoHook.run_ended|vm_compute; reflexivity|].
  apply rtc_once, lstep_send.
Defined.
