(* ===== verification/Outbox.v ===== *)
(** * The outbox of the WSS client ([src/net/ws_client.cpp])

    What [WsClient::send] promises its owner: a bounded first-in first-out box
    of messages that survives reconnects.  The promise is an abstract machine
    of four visible events; the handlers of WsClient.v are shown to implement
    it, step by step, and the box is read back from the write queue. *)

From Stdlib Require Import String ZArith Lia.
From stdpp Require Import base list strings numbers relations.
From S2P Require Import Prelude WriteQueue WsClient.

Open Scope Z_scope.

(** ** The abstract outbox *)

(** Four events: a posted body was queued or dropped for want of room, a
    message was handed to the wire, the client was retired. *)
Inductive BoxEvent :=
  | Accept (t : string)
  | Reject (t : string)
  | Done (t : string)
  | Close.

(** [None] is the closed box. *)
Definition Box := option (list string).

(** The room [send] may fill: 1024 entries less the 16 kept for connection
    frames. *)
Definition box_room : nat := 1008.

Inductive box_step : Box -> option BoxEvent -> Box -> Prop :=
  | box_silent b : box_step b None b
  | box_accept l t : (length l < box_room)%nat -> box_step (Some l) (Some (Accept t)) (Some (l ++ [t]))
  | box_reject b t : box_step b (Some (Reject t)) b
  | box_done t l : box_step (Some (t :: l)) (Some (Done t)) (Some l)
  | box_close l : box_step (Some l) (Some Close) None.

(** ** Retained messages of a client *)

Definition kept (s : WsClient) : list Entry := retained (entries_ (write_queue_ s)).

(** The state map. *)
Definition box_of (s : WsClient) : Box := if stopped_ s then None else Some (texts (kept s)).

(** A write in flight on the current stream carries the oldest retained
    message, or a frame that is no retained message. *)
Definition front_ok (s : WsClient) : Prop :=
  forall p, PWrite p (generation_ s) ∈ pending s ->
    (exists e rest, kept s = e :: rest /\ payload e = p)
    \/ ((ptr p < next_ptr (write_queue_ s))%nat /\ ptr p ∉ ptrs (kept s)).

Definition no_later (g : Z) (p : Pending) : Prop :=
  match pgen p with Some g' => g' <= g | None => True end.

(** The queue keeps its invariant and the sizes it was built with. *)
Definition box_queue (q : WsWriteQueue) : Prop :=
  queue_inv q /\ capacity_ q = 1024 /\ connection_reserve_ q = 16.

Lemma box_queue_op q op : box_queue q -> box_queue (apply_op q op).
Proof.
  intros (H & H1 & H2). destruct (apply_op_bounds q op) as [E1 E2]. split; [by apply apply_op_inv|].
  by rewrite E1, E2.
Qed.

Record box_inv (s : WsClient) : Prop := {
  bi_queue : box_queue (write_queue_ s);
  bi_pending : Forall (no_later (generation_ s)) (pending s);
  bi_front : front_ok s;
}.

(** An update that keeps the retained messages and starts no write. *)
Record calm (s s' : WsClient) : Prop := {
  cm_stopped : stopped_ s' = stopped_ s;
  cm_kept : kept s' = kept s;
  cm_next : (next_ptr (write_queue_ s) <= next_ptr (write_queue_ s'))%nat;
  cm_queue : box_queue (write_queue_ s) -> box_queue (write_queue_ s');
  cm_gen : generation_ s <= generation_ s';
  cm_pending p : p ∈ pending s' -> p ∈ pending s \/ (pkind p <> Some Writing /\ no_later (generation_ s') p);
}.

Lemma calm_inv s s' : calm s s' -> box_inv s -> box_inv s'.
Proof.
  intros [_ C2 C3 C4 C5 C6] [B1 B2 B3]. rewrite Forall_forall in B2. split; [auto|..].
  - apply Forall_forall. intros p [H|[_ H]]%C6; [|done]. specialize (B2 p H).
    unfold no_later in *. destruct (pgen p); [lia|done].
  - intros p Hp. destruct (C6 _ Hp) as [H|[[] _]]; [|done]. specialize (B2 _ H). cbn in B2.
    assert (generation_ s' = generation_ s) as Hg by lia. rewrite Hg in H. rewrite C2.
    destruct (B3 p H) as [?|[? ?]]; [by left|right; split; [lia|done]].
Qed.

(** What every handler but [send]'s body and a completed write does to the
    box: nothing, or retire it. *)
Record steady (s s' : WsClient) : Prop := {
  sd_stopped : stopped_ s = true -> stopped_ s' = true;
  sd_kept : stopped_ s' = false -> kept s' = kept s;
  sd_inv : box_inv s -> box_inv s';
}.

Lemma steady_trans a b c : steady a b -> steady b c -> steady a c.
Proof.
  intros [S1 S2 S3] [T1 T2 T3]. split; [auto| |auto]. intros Hc. rewrite (T2 Hc). apply S2.
  destruct (stopped_ b); [by rewrite T1 in Hc|done].
Qed.

Lemma steady_calm s s' : calm s s' -> steady s s'.
Proof. intros C. split; [by rewrite (cm_stopped _ _ C)| |by apply calm_inv]. intros _. apply C. Qed.

#[export] Instance steady_preorder : PreOrder steady.
Proof.
  split; [|intros ???; apply steady_trans]. intros s. apply steady_calm. split; auto; lia.
Qed.

(** Member updates by computation. *)
Ltac calm_state s :=
  apply steady_calm; open_state s; split; cbn; auto; try lia;
  try (intros ? [->|?]%elem_of_cons; [right; split; [done|cbn; lia || done]|by left]).

Create HintDb steady.
(** ** The handlers *)

Lemma kept_discard q g : retained (entries_ (discard_connection_writes q g)) = retained (entries_ q).
Proof. apply retained_erase_scoped. eauto with queue. Qed.
Lemma kept_discard_stale q g : retained (entries_ (discard_stale_connection_writes q g)) = retained (entries_ q).
Proof. apply retained_erase_scoped. eauto with queue. Qed.
Lemma kept_connection q t g pr : retained (entries_ (snd (push_connection q t g pr))) = retained (entries_ q).
Proof.
  destruct (apply_op_retained q (PushConnection t g pr) eq_refl) as [H|(? & ? & ? & _)]; [exact H|done].
Qed.
Lemma next_connection q t g pr : (next_ptr q <= next_ptr (snd (push_connection q t g pr)))%nat.
Proof. unfold push_connection. cbv zeta. case_match; cbn; lia. Qed.

Lemma set_queue_calm q s :
  retained (entries_ q) = kept s -> (next_ptr (write_queue_ s) <= next_ptr q)%nat ->
  (box_queue (write_queue_ s) -> box_queue q) -> steady s (set_queue q s).
Proof. intros H1 H2 H3. apply steady_calm. open_state s. split; auto; cbn; lia. Qed.

Lemma set_pending_steady s p l : pending s ≡ₚ p :: l -> steady s (set_pending l s).
Proof.
  intros Hp. apply steady_calm. open_state s. split; cbn; auto; [lia|]. intros x Hx. left.
  rewrite Hp. by apply list_elem_of_further.
Qed.

Lemma emit_steady e s : steady s (emit e s).
Proof. calm_state s. Qed.
Lemma add_pending_steady p s :
  pkind p <> Some Writing -> no_later (generation_ s) p -> steady s (add_pending p s).
Proof.
  intros H1 H2. apply steady_calm. open_state s. split; cbn; auto; try lia.
  intros x [->|?]%elem_of_cons; [by right|by left].
Qed.
Lemma bump_steady s : steady s (bump_generation s).
Proof. calm_state s. Qed.

Lemma cancel_reconnect_steady s : steady s (cancel_reconnect s).
Proof.
  apply steady_calm. open_state s. split; cbn; auto; [lia|]. intros x (y & -> & Hy)%list_elem_of_fmap.
  destruct y; try (by left). by right.
Qed.

(** Retiring empties the box and leaves the writes in flight stale. *)
Lemma stop_steady s : steady s (stop s).
Proof.
  split; [by destruct s..|]. intros [B1 B2 B3]. rewrite Forall_forall in B2. split.
  - destruct s; cbn. by apply (box_queue_op _ Clear).
  - unfold stop. open_state s. apply Forall_forall. intros x (y & -> & Hy)%list_elem_of_fmap.
    specialize (B2 y Hy). destruct y; cbn in *; lia || done.
  - unfold front_ok, stop. open_state s. intros p (y & Hy & Hin)%list_elem_of_fmap.
    specialize (B2 y Hin). destruct y; cbn in *; try done. injection Hy as ? ?. lia.
Qed.

Section Handlers.
Context (hash : string -> Z).

(** Starting the next write: the front entry is the oldest retained message
    or a frame. *)
Lemma do_write_steady st g s : steady s (do_write st g s).
Proof using.
  unfold do_write. destruct (Z.eqb_spec g (generation_ s)) as [->|]; cbn [negb orb]; [|calm_state s].
  case_match; [calm_state s|]. cbv zeta.
  replace (entries_ (write_queue_ (set_writing true s))) with (entries_ (write_queue_ s)) by (by destruct s).
  destruct (entries_ (write_queue_ s)) as [|e l] eqn:El; [calm_state s|].
  destruct st as [st|]; [|calm_state s].
  split; [by destruct s..|]. intros [B1 B2 B3]. split; [by destruct s| |].
  - open_state s. constructor; [cbn; lia|done].
  - destruct B1 as [[_ _ _ Hnd Hfr] _]. unfold front_ok, kept in *. open_state s.
    intros p [Hp|Hp]%elem_of_cons; [|auto]. injection Hp as ->. rewrite El in *.
    unfold retained. cbn [List.filter]. destruct (connection_scoped e) eqn:Es; cbn [negb];
      [right|left; by eexists _, _].
    inversion Hfr as [|? ? H1 _]; subst. split; [done|]. inversion Hnd as [|? ? H2 _]; subst.
    contradict H2. unfold ptrs in *. apply list_elem_of_fmap in H2 as (e' & He & Hin).
    apply list_elem_of_In, filter_In in Hin as [Hin _]. apply list_elem_of_fmap. exists e'.
    split; [done|by apply list_elem_of_In].
Qed.

Lemma flush_steady (b : bool) st g s : steady s (if b then do_write st g s else s).
Proof using. destruct b; [apply do_write_steady|reflexivity]. Qed.

Lemma schedule_reconnect_steady f s : steady s (schedule_reconnect hash f s).
Proof using.
  unfold schedule_reconnect. case_match; [reflexivity|]. cbv zeta.
  assert (Harm : forall d, steady s (arm_reconnect d s)).
  { intros d. unfold arm_reconnect. cbv zeta. set (s1 := emit _ _). etrans; [|apply add_pending_steady; [done|done]].
    transitivity s1; [unfold s1; calm_state s|]. etrans; [apply (cancel_reconnect_steady s1)|].
    set (s2 := cancel_reconnect s1). calm_state s2. }
  repeat case_match; auto using stop_steady.
Qed.

(** Dropping a connection discards its frames only. *)
Lemma drop_steady f s s' : steady s s' -> steady s (schedule_reconnect hash f s').
Proof using. intros H. etrans; [exact H|apply schedule_reconnect_steady]. Qed.

Lemma discard_steady s g :
  steady s (bump_generation (set_queue (discard_connection_writes (write_queue_ s) g)
    (set_writing false (set_connected false (emit ELog s))))).
Proof using.
  etrans; [|apply bump_steady]. set (s1 := set_writing _ _). transitivity s1; [unfold s1; calm_state s|].
  replace (write_queue_ s) with (write_queue_ s1) by (by destruct s).
  apply set_queue_calm; [apply kept_discard|done|apply (box_queue_op _ (DiscardConnection g))].
Qed.

Lemma kick_steady s : steady s (kick hash s).
Proof using.
  unfold kick. repeat case_match; try reflexivity. apply drop_steady.
  pose proof (discard_steady s (generation_ s)) as Hd. by destruct s.
Qed.
Lemma fail_steady ei g s : steady s (fail hash ei g s).
Proof using.
  unfold fail. case_match; [reflexivity|]. apply drop_steady.
  pose proof (discard_steady s g) as Hd. by destruct s.
Qed.
Lemma do_connect_steady tls_ok s : steady s (do_connect hash tls_ok s).
Proof using.
  unfold do_connect. case_match; [reflexivity|]. cbv zeta. set (s1 := set_ws _ _).
  assert (H1 : steady s s1) by (unfold s1; calm_state s). etrans; [exact H1|].
  case_match; [apply drop_steady; calm_state s1|].
  assert (Hg : generation_ (bump_generation (set_writing false (set_connected false (set_scheduled false s))))
               = generation_ s1) by (by destruct s). rewrite Hg.
  etrans; [apply (emit_steady (EConnect (generation_ s1)))|]. set (s2 := emit _ s1).
  assert (Hg2 : generation_ s1 = generation_ s2) by (by destruct s1). rewrite Hg2.
  etrans; [apply (add_pending_steady (PStage (generation_ s2))); [done|by cbn]|].
  apply add_pending_steady; [done|]. cbn. by destruct s2.
Qed.

Lemma push_steady s (ok : bool) q :
  steady s (set_queue q s) ->
  steady s (if negb ok then emit ELog (set_queue q s)
            else if connected_ (set_queue q s) && negb (writing_ (set_queue q s))
                 then do_write (ws_ (set_queue q s)) (generation_ (set_queue q s)) (set_queue q s)
                 else set_queue q s).
Proof using.
  intros H. etrans; [exact H|]. destruct ok; cbn [negb]; [apply flush_steady|apply emit_steady].
Qed.

Lemma set_queue_connection_steady s t g pr :
  steady s (set_queue (snd (push_connection (write_queue_ s) t g pr)) s).
Proof using.
  apply set_queue_calm; [apply kept_connection|apply next_connection|apply (box_queue_op _ (PushConnection t g pr))].
Qed.

Lemma send_first_steady t s : steady s (send_first t s).
Proof using.
  unfold send_first. pose proof (set_queue_connection_steady s t (generation_ s) true) as H.
  destruct (push_connection _ _ _ _) as [ok q]. by apply push_steady.
Qed.

Lemma run_calls_steady l s : steady s (run_calls hash s l).
Proof using.
  unfold run_calls. revert s. induction l as [|c l IH]; intros s; [reflexivity|]. cbn [fold_left].
  etrans; [|apply IH]. destruct c; cbn [run_call];
    [apply send_first_steady|calm_state s|apply kick_steady|apply stop_steady].
Qed.

(** A callback, when the owner installed one. *)
Lemma callback_steady e (calls : option (list Call)) s :
  steady s (match calls with Some l => run_calls hash (emit e s) l | None => s end).
Proof using. destruct calls; [|reflexivity]. etrans; [apply emit_steady|apply run_calls_steady]. Qed.

Lemma schedule_keepalive_steady s : steady s (schedule_keepalive s).
Proof using. unfold schedule_keepalive. case_match; [reflexivity|by apply add_pending_steady]. Qed.

Lemma on_stage_steady next g err s :
  (forall g, pkind (next g) = Some Chain /\ pgen (next g) = Some g) -> steady s (on_stage hash next g err s).
Proof using.
  intros Hn. unfold on_stage. destruct (Z.eqb_spec g (generation_ s)) as [->|]; cbn [negb]; [|reflexivity].
  destruct err; [apply fail_steady|]. destruct (Hn (generation_ s)) as [H1 H2].
  apply add_pending_steady; [by rewrite H1|]. unfold no_later. by rewrite H2.
Qed.

(** Resuming the read chain on the generation that is still current. *)
Lemma resume_steady g s : (g =? generation_ s) = true -> steady s (add_pending (PRead g) s).
Proof using. intros ->%Z.eqb_eq. apply add_pending_steady; [done|]. cbn. done. Qed.

Lemma on_handshake_steady g err s : steady s (on_handshake hash g err s).
Proof using.
  unfold on_handshake. case_match; [reflexivity|]. destruct err; [apply fail_steady|].
  cbv zeta. set (s1 := set_queue _ _).
  assert (H1 : steady s s1).
  { set (s0 := set_connected true (emit ELog s)) in *. transitivity s0; [unfold s0; calm_state s|].
    apply set_queue_calm; [apply kept_discard_stale|done|apply (box_queue_op _ (DiscardStale g))]. }
  pose proof (callback_steady (EOpen g) (on_open_ s1) s1) as H2. set (s2 := match on_open_ s1 with Some _ => _ | None => _ end) in *.
  etrans; [exact H1|]. etrans; [exact H2|].
  destruct (stopped_ s2 || negb (g =? generation_ s2)) eqn:Ec; [reflexivity|].
  apply orb_false_iff in Ec as [_ Ec%negb_false_iff].
  etrans; [apply (flush_steady (negb (qempty (write_queue_ s2)) && negb (writing_ s2)) (Some g) g)|].
  set (s3 := if negb (qempty _) && _ then _ else _).
  assert (Hg : generation_ (schedule_keepalive s3) = generation_ s2).
  { unfold schedule_keepalive, s3, do_write. repeat case_match; by destruct s2. }
  etrans; [apply schedule_keepalive_steady|]. apply resume_steady. by rewrite Hg.
Qed.

Lemma on_read_steady g res s : steady s (on_read hash g res s).
Proof using.
  unfold on_read. case_match; [reflexivity|]. destruct res as [|data]; [apply fail_steady|].
  cbv zeta. set (s1 := set_delay 500 s).
  pose proof (callback_steady (EMessage g data) ((fun f => f data) <$> on_message_ s1) s1) as H2.
  replace (match on_message_ s1 with Some f => _ | None => s1 end) with
    (match (fun f => f data) <$> on_message_ s1 with
     | Some l => run_calls hash (emit (EMessage g data) s1) l | None => s1 end) by (by destruct (on_message_ s1)).
  set (s2 := match _ <$> _ with Some _ => _ | None => _ end) in *.
  transitivity s1; [unfold s1; calm_state s|]. etrans; [exact H2|].
  destruct (g =? generation_ s2) eqn:Eg; [|rewrite andb_false_r; reflexivity].
  destruct (stopped_ s2); [reflexivity|]. by apply resume_steady.
Qed.

Lemma on_keepalive_timer_steady aborted s : steady s (on_keepalive_timer aborted s).
Proof using.
  unfold on_keepalive_timer. case_match; [reflexivity|].
  pose proof (set_queue_connection_steady s (keepalive_text_ s) (generation_ s) false) as Hq.
  destruct (push_connection _ _ _ _) as [ok q]. cbn [snd] in Hq. cbv zeta.
  etrans; [|apply schedule_keepalive_steady]. etrans; [exact Hq|].
  etrans; [|apply flush_steady]. destruct ok; [reflexivity|apply emit_steady].
Qed.

Lemma on_stage_timer_steady g aborted s : steady s (on_stage_timer hash g aborted s).
Proof using. unfold on_stage_timer. case_match; [reflexivity|]. apply drop_steady. calm_state s. Qed.

Lemma on_reconnect_timer_steady aborted tls_ok s : steady s (on_reconnect_timer hash aborted tls_ok s).
Proof using.
  unfold on_reconnect_timer. case_match; [|reflexivity]. etrans; [|apply do_connect_steady]. calm_state s.
Qed.

(** ** The two handlers that change the box *)

(** The body [send] posted: the message is appended when the queue has room
    for it, and dropped otherwise. *)
Lemma run_send_box t s : box_inv s ->
  box_inv (run_send t s) /\ stopped_ (run_send t s) = stopped_ s
  /\ if fst (push_retained (write_queue_ s) t)
     then (exists e, text (payload e) = t /\ kept (run_send t s) = kept s ++ [e])
          /\ (length (kept s) < box_room)%nat
     else kept (run_send t s) = kept s.
Proof using.
  intros HB. unfold run_send. pose proof (box_queue_op _ (PushRetained t) (bi_queue _ HB)) as Hq. cbn [apply_op] in Hq.
  destruct HB as [B1 B2 B3]. unfold push_retained in *.
  pose proof (List.filter_length_le (fun e => negb (connection_scoped e)) (entries_ (write_queue_ s))) as Hlen.
  destruct (Z.leb_spec (capacity_ (write_queue_ s) - connection_reserve_ (write_queue_ s)) (qsize (write_queue_ s)))
    as [|Hroom]; cbn [new_entry fst snd negb] in *.
  { split; [|by destruct s]. apply (sd_inv s); [|done]. calm_state s. }
  set (e := {| payload := _; connection_scoped := _; generation := _ |}) in *. set (q := set_entries _ _) in *.
  assert (Hk : kept (set_queue q s) = kept s ++ [e]).
  { unfold kept. destruct s; cbn. by rewrite retained_app. }
  assert (HB' : box_inv (set_queue q s)).
  { split; [by destruct s|by destruct s|]. intros p Hp. rewrite Hk.
    assert (PWrite p (generation_ s) ∈ pending s) as [(e' & r & -> & <-)|[Hlt Hni]]%B3 by (by destruct s).
    - left. by eexists _, (r ++ [e]).
    - right. replace (next_ptr (write_queue_ (set_queue q s))) with (S (next_ptr (write_queue_ s))) by (by destruct s).
      split; [lia|]. unfold ptrs in *. rewrite fmap_app, not_elem_of_app. split; [done|].
      cbn. rewrite list_elem_of_singleton. lia. }
  pose proof (flush_steady (connected_ (set_queue q s) && negb (writing_ (set_queue q s))) (ws_ (set_queue q s))
    (generation_ (set_queue q s)) (set_queue q s)) as Hf.
  set (s' := if connected_ (set_queue q s) && _ then _ else _) in *.
  assert (Hsame : stopped_ s' = stopped_ s /\ kept s' = kept (set_queue q s)).
  { unfold s', do_write. destruct s. by repeat case_match. }
  destruct Hsame as [Hs1 Hs2]. split; [by apply (sd_inv _ _ Hf)|]. split; [done|]. rewrite Hs2, Hk. split.
  - by exists e.
  - destruct B1 as (_ & Hc & Hr). unfold kept, retained, qsize, box_room in *. lia.
Qed.

(** A completed write of the current stream takes the oldest message out, or
    was a frame. *)
Lemma on_write_box s p l :
  ws_inv 1 s -> box_inv s -> pending s ≡ₚ PWrite p (generation_ s) :: l ->
  let s' := on_write hash p (generation_ s) None (set_pending l s) in
  box_inv s' /\ stopped_ s' = stopped_ s
  /\ ((kept s' = kept s /\ ptr p ∉ ptrs (kept s)) \/ exists e, payload e = p /\ kept s = e :: kept s').
Proof using.
  intros Hi HB Hp. cbv zeta. unfold on_write. rewrite set_pending_generation, Z.eqb_refl. cbn [negb].
  set (s1 := set_queue _ _).
  destruct (take_current s _ l Writing Hi Hp eq_refl eq_refl) as [_ Hlive]. cbn in Hlive.
  assert (Hk : kept s1 = erase_payload (ptr p) (kept s)).
  { unfold s1, kept. destruct s; cbn. apply retained_erase_payload, HB. }
  assert (Hkept : (kept s1 = kept s /\ ptr p ∉ ptrs (kept s)) \/ exists e, payload e = p /\ kept s = e :: kept s1).
  { rewrite Hk. destruct (bi_front _ HB p) as [(e & r & Hr & <-)|[_ Hni]].
    - rewrite Hp. apply list_elem_of_here.
    - right. exists e. split; [done|]. rewrite Hr. cbn. by rewrite Nat.eqb_refl.
    - left. split; [by apply erase_payload_absent|done]. }
  assert (HB1 : box_inv s1).
  { destruct (sd_inv _ _ (set_pending_steady s _ l Hp) HB) as [C1 C2 _]. unfold s1. split; [|by destruct s|].
    - destruct s; cbn. by apply (box_queue_op _ (Complete p)).
    - intros x Hx. exfalso. destruct Hlive as [_ _ _ _ _ _ Hw _]. unfold inflight in Hw.
      apply length_zero_iff_nil in Hw. apply (in_nil (a := PWrite x (generation_ s))).
      replace (generation_ (set_pending l s)) with (generation_ s) in * by (by destruct s).
      rewrite <- Hw. apply filter_In. split; [apply list_elem_of_In; by destruct s|].
      unfold of_kind. by rewrite !bool_decide_eq_true_2. }
  set (s' := do_write (Some (generation_ s)) (generation_ s) s1).
  assert (Hsame : stopped_ s' = stopped_ s /\ kept s' = kept s1).
  { unfold s', do_write, s1. destruct s. by repeat case_match. }
  destruct Hsame as [Hs1 ->]. split; [|done]. by apply (sd_inv s1), HB1; apply do_write_steady.
Qed.
End Handlers.

(** ** What a run shows of the box *)

Section Refinement.
Context (hash : string -> Z).

(** Every step of the client carries one of the box's labels. *)
Inductive observed : WsClient -> option BoxEvent -> WsClient -> Prop :=
  | obs_accept s t rest :
      posted s = t :: rest -> stopped_ s = false -> fst (push_retained (write_queue_ s) t) = true ->
      observed s (Some (Accept t)) (run_send t (set_posted rest s))
  | obs_reject s t rest :
      posted s = t :: rest -> stopped_ s = false -> fst (push_retained (write_queue_ s) t) = false ->
      observed s (Some (Reject t)) (run_send t (set_posted rest s))
  | obs_done s p l :
      pending s ≡ₚ PWrite p (generation_ s) :: l -> stopped_ s = false -> ptr p ∈ ptrs (kept s) ->
      observed s (Some (Done (text p))) (on_write hash p (generation_ s) None (set_pending l s))
  | obs_close s s' :
      step hash s s' -> stopped_ s = false -> stopped_ s' = true -> observed s (Some Close) s'
  | obs_silent s s' :
      step hash s s' -> stopped_ s' = stopped_ s -> (stopped_ s = false -> kept s' = kept s) ->
      observed s None s'.

Inductive observed_run : WsClient -> list BoxEvent -> WsClient -> Prop :=
  | orun_nil s : observed_run s [] s
  | orun_snoc s evs s' ev s'' :
      observed_run s evs s' -> observed s' ev s'' -> observed_run s (evs ++ option_list ev) s''.

Inductive box_run : Box -> list BoxEvent -> Box -> Prop :=
  | brun_nil b : box_run b [] b
  | brun_snoc b evs b' ev b'' :
      box_run b evs b' -> box_step b' ev b'' -> box_run b (evs ++ option_list ev) b''.

Definition accepted (evs : list BoxEvent) : list string :=
  omap (fun ev => match ev with Accept t => Some t | _ => None end) evs.
Definition delivered (evs : list BoxEvent) : list string :=
  omap (fun ev => match ev with Done t => Some t | _ => None end) evs.

(** Both invariants together. *)
Definition good (s : WsClient) : Prop := ws_inv 1 s /\ box_inv s.

Lemma make_client_good h t ki kt om oo fp : good (make_client h t ki kt om oo fp).
Proof using.
  split; [apply make_client_inv|]. split; cbn; [|constructor|by intros p ?%elem_of_nil].
  split; [by apply make_queue_inv|done].
Qed.

(** A steady handler is silent or closes the box. *)
Lemma steady_observed s s' :
  step hash s s' -> steady s s' -> exists ev, observed s ev s'.
Proof using.
  intros Hst [S1 S2 _]. destruct (stopped_ s) eqn:E1, (stopped_ s') eqn:E2.
  - exists None. apply obs_silent; [done|congruence|congruence].
  - specialize (S1 eq_refl). congruence.
  - exists (Some Close). by apply obs_close.
  - exists None. apply obs_silent; [done|congruence|auto].
Qed.

Lemma box_handled s s' :
  box_inv s -> step hash s s' ->
  steady s s'
  \/ (exists t rest, posted s = t :: rest /\ s' = run_send t (set_posted rest s))
  \/ exists p l, pending s ≡ₚ PWrite p (generation_ s) :: l
       /\ s' = on_write hash p (generation_ s) None (set_pending l s).
Proof using.
  intros HB Hst.
  assert (Hpend : forall p l a, pending s ≡ₚ p :: l -> steady (set_pending l s) a -> steady s a).
  { intros p l a Hp Ha. etrans; [by eapply set_pending_steady|exact Ha]. }
  destruct Hst as [s tls|s|s|s t|s t|s t rest Hp|s g l err Hp|s g l err Hp|s g l err Hp|s g l err Hp|s g l res Hp
                  |s p g l err Hp|s g l aborted Hp|s l c aborted tls Hp|s l aborted Hp].
  - left. apply do_connect_steady.
  - left. apply stop_steady.
  - left. apply kick_steady.
  - left. unfold send. calm_state s.
  - left. apply send_first_steady.
  - right; left. by eexists _, _.
  - left. by eapply Hpend, on_stage_steady.
  - left. by eapply Hpend, on_stage_steady.
  - left. by eapply Hpend, on_stage_steady.
  - left. by eapply Hpend, on_handshake_steady.
  - left. by eapply Hpend, on_read_steady.
  - destruct (Z.eqb_spec g (generation_ s)) as [->|Hne].
    + destruct err as [ei|]; [|right; right; by eexists _, _].
      left. eapply Hpend; [exact Hp|]. unfold on_write. case_match; [reflexivity|apply fail_steady].
    + left. eapply Hpend; [exact Hp|]. unfold on_write. rewrite set_pending_generation.
      by rewrite (proj2 (Z.eqb_neq _ _) Hne).
  - left. by eapply Hpend, on_stage_timer_steady.
  - left. by eapply Hpend, on_reconnect_timer_steady.
  - left. by eapply Hpend, on_keepalive_timer_steady.
Qed.

(** [run_send_box] for a body taken off the strand. *)
Lemma posted_box t r s : box_inv s ->
  let s' := run_send t (set_posted r s) in
  box_inv s' /\ stopped_ s' = stopped_ s
  /\ if fst (push_retained (write_queue_ s) t)
     then (exists e, text (payload e) = t /\ kept s' = kept s ++ [e]) /\ (length (kept s) < box_room)%nat
     else kept s' = kept s.
Proof using.
  intros HB. assert (Hs : steady s (set_posted r s)) by calm_state s.
  pose proof (run_send_box t _ (sd_inv _ _ Hs HB)) as H.
  replace (write_queue_ (set_posted r s)) with (write_queue_ s) in H by (by destruct s).
  replace (stopped_ (set_posted r s)) with (stopped_ s) in H by (by destruct s).
  by replace (kept (set_posted r s)) with (kept s) in H by (by destruct s).
Qed.

Lemma step_good s s' : good s -> step hash s s' -> good s'.
Proof using.
  intros [Hi HB] Hst. split; [by eapply step_inv|].
  destruct (box_handled s s' HB Hst) as [H|[(t & r & Hp & ->)|(p & l & Hp & ->)]].
  - by apply (sd_inv _ _ H).
  - by apply posted_box.
  - by apply on_write_box.
Qed.

(** Labels are total. *)
Lemma step_observed s s' : good s -> step hash s s' -> exists ev, observed s ev s'.
Proof using.
  intros [Hi HB] Hst. destruct (box_handled s s' HB Hst) as [H|[(t & r & Hp & ->)|(p & l & Hp & ->)]].
  - by apply steady_observed.
  - destruct (stopped_ s) eqn:Es.
    + exists None. destruct (posted_box t r s HB) as (_ & H & _).
      apply obs_silent; [done|congruence|congruence].
    + destruct (fst (push_retained (write_queue_ s) t)) eqn:Ef; eexists;
        [by apply obs_accept|by apply obs_reject].
  - destruct (on_write_box hash s p l Hi HB Hp) as (_ & H & [[Hk Hni]|(e & <- & He)]).
    + exists None. by apply obs_silent.
    + destruct (stopped_ s) eqn:Es; [exists None; apply obs_silent; [done|congruence|congruence]|].
      eexists. apply (obs_done s _ l Hp Es). rewrite He. apply list_elem_of_here.
Qed.

Lemma observed_step s ev s' : observed s ev s' -> step hash s s'.
Proof using.
  intros [s0 t r Hp _ _|s0 t r Hp _ _|s0 p l Hp _ _|? ? H _ _|? ? H _ _]; try done.
  - by apply step_posted.
  - by apply step_posted.
  - by apply step_write.
Qed.

(** The simulation: a labelled step of the client is that step of the box. *)
Lemma observed_box_step s ev s' : good s -> observed s ev s' -> box_step (box_of s) ev (box_of s').
Proof using.
  intros [Hi HB] Ho. unfold box_of. destruct Ho as [s t r Hp Hs Hf|s t r Hp Hs Hf|s p l Hp Hs Hin|s s' _ H1 H2|s s' _ H1 H2].
  - destruct (posted_box t r s HB) as (_ & -> & Hk). rewrite Hf in Hk. destruct Hk as [(e & <- & ->) Hl].
    rewrite Hs. unfold texts. rewrite fmap_app. constructor. by rewrite length_fmap.
  - destruct (posted_box t r s HB) as (_ & -> & Hk). rewrite Hf in Hk. rewrite Hk. constructor.
  - destruct (on_write_box hash s p l Hi HB Hp) as (_ & -> & [[_ Hni]|(e & <- & ->)]); [done|].
    rewrite Hs. constructor.
  - rewrite H1, H2. constructor.
  - rewrite H1. destruct (stopped_ s); [constructor|]. rewrite H2 by done. constructor.
Qed.

Lemma reachable_good s s' : good s -> rtc (step hash) s s' -> good s'.
Proof using. intros Hg Hr. induction Hr as [|? ? ? Hst _ IH]; [done|]. by eapply IH, step_good. Qed.

Lemma observed_run_good s evs s' : good s -> observed_run s evs s' -> good s'.
Proof using.
  intros Hg Hr. induction Hr as [|? ? ? ? ? _ IH Ho]; [done|]. eapply step_good; [by apply IH|].
  by eapply observed_step.
Qed.

Lemma observed_run_box s evs s' : good s -> observed_run s evs s' -> box_run (box_of s) evs (box_of s').
Proof using.
  intros Hg Hr. induction Hr as [|? evs ? ev ? Hr IH Ho]; [constructor|]. econstructor; [by apply IH|].
  eapply observed_box_step; [|done]. by eapply observed_run_good.
Qed.

Lemma run_observed s s' : good s -> rtc (step hash) s s' -> exists evs, observed_run s evs s'.
Proof using.
  intros Hg Hr. revert s' Hr. refine (rtc_ind_r (fun s' => exists evs, observed_run s evs s') s _ _);
    [eexists; constructor|]. intros s' s'' Hr Hst (evs & IH).
  destruct (step_observed s' s'') as (ev & Ho); [by eapply reachable_good|done|].
  eexists. by econstructor.
Qed.

(** The box alone: what went in is what came out, followed by what is left. *)
Lemma box_run_fifo b evs b' :
  box_run b evs b' -> forall l l', b = Some l -> b' = Some l' -> l ++ accepted evs = delivered evs ++ l'.
Proof using.
  induction 1 as [b|b evs b' ev b'' Hr IH Hst]; intros l l' -> Hl.
  - injection Hl as ->. cbn. by rewrite app_nil_r.
  - unfold accepted, delivered in *. rewrite !omap_app, app_assoc.
    destruct Hst as [b|l1 t _|b t|t l1|]; cbn [option_list omap list_omap]; rewrite ?app_nil_r; try done.
    + by apply IH.
    + injection Hl as <-. by rewrite (IH _ _ eq_refl eq_refl), <- !app_assoc.
    + by apply IH.
    + injection Hl as <-. rewrite (IH _ _ eq_refl eq_refl), <- !app_assoc. done.
Qed.

(** C4: the client refines its outbox.  Whatever the order and outcome of the
    I/O completions, of reconnects, of timeouts and of calls made from the open
    and message callbacks, every run of a client without a log hook is a run of a box that only accepts a
    message at its back when fewer than 1008 are in it, drops a message it
    refuses, hands out the oldest message when the write that carried it
    completes on the current stream, and is closed for good by retirement; the
    contents of the box are the texts of the retained entries of the write
    queue. *)
Theorem client_refines_outbox h t ki kt om oo fp s :
  rtc (step hash) (make_client h t ki kt om oo fp) s ->
  exists evs, observed_run (make_client h t ki kt om oo fp) evs s /\ box_run (Some []) evs (box_of s).
Proof using.
  intros Hr. pose proof (make_client_good h t ki kt om oo fp) as Hg.
  destruct (run_observed _ _ Hg Hr) as (evs & Ho). exists evs. split; [done|].
  by apply (observed_run_box _ _ _ Hg).
Qed.

(** Sends are delivered in order, none lost and none repeated.  However
    often the connection was lost and replaced, while the client is not retired
    the messages accepted so far are exactly the messages whose write completed,
    in the order they were accepted, followed by the messages still queued. *)
Theorem sends_delivered_in_order h t ki kt om oo fp evs s :
  observed_run (make_client h t ki kt om oo fp) evs s -> stopped_ s = false ->
  accepted evs = delivered evs ++ texts (kept s).
Proof using.
  intros Ho Hs. pose proof (observed_run_box _ _ _ (make_client_good h t ki kt om oo fp) Ho) as Hb.
  apply (box_run_fifo _ _ _ Hb []); [done|]. unfold box_of. by rewrite Hs.
Qed.

(** Reconnects keep retained messages.  Across any step of a client
    that is not retired, the retained messages stay queued in order, new ones
    only appended; the sole exception is the successful completion of a write on
    the current stream, which removes exactly the message that was written. *)
Theorem retained_across_reconnects h t ki kt om oo fp s s' :
  rtc (step hash) (make_client h t ki kt om oo fp) s ->
  step hash s s' -> stopped_ s' = false ->
  kept s `prefix_of` kept s'
  \/ exists p l, pending s ≡ₚ PWrite p (generation_ s) :: l
       /\ s' = on_write hash p (generation_ s) None (set_pending l s)
       /\ kept s' = erase_payload (ptr p) (kept s).
Proof using.
  intros Hr Hst Hs'. destruct (reachable_good _ _ (make_client_good h t ki kt om oo fp) Hr) as [Hi HB].
  destruct (box_handled s s' HB Hst) as [H|[(x & r & Hp & ->)|(p & l & Hp & ->)]].
  - left. by rewrite (sd_kept _ _ H Hs').
  - left. destruct (posted_box x r s HB) as (_ & _ & Hk). case_match; [|by rewrite Hk].
    destruct Hk as [(e & _ & ->) _]. by eexists.
  - right. exists p, l. split; [done|]. split; [done|].
    destruct (on_write_box hash s p l Hi HB Hp) as (_ & _ & [[-> Hni]|(e & <- & ->)]).
    + by rewrite erase_payload_absent.
    + cbn. by rewrite Nat.eqb_refl.
Qed.
End Refinement.

(** ** A concrete run *)

Module BoxDemo.
Import Demo.
(** The live client's first write (its "auth" frame) completes, then "sub". *)
Definition auth_done : WsClient :=
  on_write hash7 {| ptr := 1%nat; text := "auth" |} 1 None (set_pending [PRead 1; PKeepalive; PStage 1] live_state).
Definition sub_done : WsClient :=
  on_write hash7 {| ptr := 0%nat; text := "sub" |} 1 None (set_pending [PRead 1; PKeepalive; PStage 1] auth_done).

Lemma run_sub_done : observed_run hash7 client [Accept "sub"; Done "sub"] sub_done.
Proof.
  change [Accept "sub"; Done "sub"] with ((([] ++ option_list None) ++ option_list (Some (Accept "sub")))
    ++ option_list None ++ option_list None ++ option_list None ++ option_list None ++ option_list None
    ++ option_list None ++ option_list (Some (Done "sub"))).
  rewrite !app_assoc.
  eapply orun_snoc; [|apply (obs_done hash7 auth_done {| ptr := 0%nat; text := "sub" |} [PRead 1; PKeepalive; PStage 1]);
    [reflexivity|reflexivity|vm_compute; apply list_elem_of_here]].
  eapply orun_snoc; [|apply obs_silent; [apply (step_write hash7 live_state {| ptr := 1%nat; text := "auth" |} 1
    [PRead 1; PKeepalive; PStage 1])|reflexivity|reflexivity]].
  2: { symmetry. apply (Permutation_middle [PRead 1; PKeepalive] [PStage 1]). }
  unfold live_state.
  eapply orun_snoc; [|apply obs_silent; [apply step_handshake; reflexivity|reflexivity|reflexivity]].
  eapply orun_snoc; [|apply obs_silent; [apply step_tls; reflexivity|reflexivity|reflexivity]].
  eapply orun_snoc; [|apply obs_silent; [apply step_connect; reflexivity|reflexivity|reflexivity]].
  eapply orun_snoc; [|apply obs_silent; [apply step_resolve; reflexivity|reflexivity|reflexivity]].
  eapply orun_snoc; [|apply obs_silent; [apply step_start|reflexivity|reflexivity]].
  eapply orun_snoc; [|apply obs_accept; reflexivity].
  eapply orun_snoc; [|apply obs_silent; [apply step_send|reflexivity|reflexivity]].
  constructor.
Qed.
End BoxDemo.

Lemma client_refines_outbox_witness :
  exists evs, observed_run Demo.hash7 Demo.client evs Demo.lost_state
    /\ box_run (Some []) evs (Some ["sub"]).
Proof.
  exact (client_refines_outbox Demo.hash7 "ws.example" "/ws" 5000 "PING" None
    (Some [CallSendFirst "auth"]) None Demo.lost_state Demo.run_lost).
Defined.

Lemma sends_delivered_in_order_witness :
  accepted [Accept "sub"; Done "sub"]
  = delivered [Accept "sub"; Done "sub"] ++ texts (kept BoxDemo.sub_done).
Proof.
  apply (sends_delivered_in_order Demo.hash7 "ws.example" "/ws" 5000 "PING" None
    (Some [CallSendFirst "auth"]) None); [exact BoxDemo.run_sub_done|reflexivity].
Defined.

Lemma retained_across_reconnects_witness :
  let s := Demo.live_state in let s' := Demo.lost_state in
  texts (kept s') = ["sub"] /\
  (kept s `prefix_of` kept s'
   \/ exists p l, pending s ≡ₚ PWrite p (generation_ s) :: l
        /\ s' = on_write Demo.hash7 p (generation_ s) None (set_pending l s)
        /\ kept s' = erase_payload (ptr p) (kept s)).
Proof.
  split; [reflexivity|]. apply (retained_across_reconnects Demo.hash7 "ws.example" "/ws" 5000 "PING" None
    (Some [CallSendFirst "auth"]) None); [exact Demo.run_live|exact Demo.step_lost|reflexivity].
Defined.
