(* ===== verification/Tls.v ===== *)
(** * The shared TLS context ([src/net/tls.cpp])

    One client context for every HTTPS and WSS stream: protocol versions, peer
    verification and trust anchors.  OpenSSL's certificate decoder and store
    are parameters, and so is what the operating system's root store holds. *)

From Stdlib Require Import Init.Byte List.
From stdpp Require Import base list.
From S2P Require Import Prelude.

(** Protocol versions a version-flexible client may negotiate. *)
Inductive protocol := SSLv2 | SSLv3 | TLSv1 | TLSv1_1 | TLSv1_2 | TLSv1_3.
Inductive ctx_option := default_workarounds | no_sslv2 | no_sslv3 | no_tlsv1 | no_tlsv1_1.
Inductive verify_mode := verify_none | verify_peer.
#[export] Instance ctx_option_eq_dec : EqDecision ctx_option.
Proof. solve_decision. Defined.

Section Tls.
Context {X509 Store : Type}.
Context (new_store : Store) (X509_STORE_add_cert : Store -> X509 -> Store)
        (d2i_X509 : list byte -> option X509) (default_verify_paths : Store -> Store).

Record context := { options : list ctx_option; verify : verify_mode; cert_store : Store }.

(** [ssl::context c(ssl::context::tls_client)] *)
Definition tls_client : context := {| options := []; verify := verify_none; cert_store := new_store |}.
Definition set_options (o : list ctx_option) (c : context) : context :=
  {| options := options c ++ o; verify := verify c; cert_store := cert_store c |}.
Definition set_verify_mode (m : verify_mode) (c : context) : context :=
  {| options := options c; verify := m; cert_store := cert_store c |}.
Definition set_store (s : Store) (c : context) : context :=
  {| options := options c; verify := verify c; cert_store := s |}.

(** What the loop takes and gives back. *)
Inductive CertEvent := StoreOpened | StoreClosed | X509Made (x : X509) | X509Freed (x : X509).

(** [while ((cert = CertEnumCertificatesInStore(hstore, cert)))] over the
    encoded certificates: one that does not decode is skipped. *)
Fixpoint import_certs (certs : list (list byte)) (store : Store) (log : list CertEvent) : Store * list CertEvent :=
  match certs with
  | [] => (store, log)
  | der :: rest =>
      match d2i_X509 der with
      | Some x => import_certs rest (X509_STORE_add_cert store x) (log ++ [X509Made x; X509Freed x])
      | None => import_certs rest store log
      end
  end.

(** [CertOpenSystemStoreA] gives no store or the certificates of "ROOT". *)
Definition load_root_certs_windows (hstore : option (list (list byte))) (c : context) : context * list CertEvent :=
  match hstore with
  | None => (c, [])
  | Some certs =>
      let '(store, log) := import_certs certs (cert_store c) [StoreOpened] in
      (set_store store c, log ++ [StoreClosed])
  end.

Definition load_root_certs_default (c : context) : context := set_store (default_verify_paths (cert_store c)) c.

Inductive Platform := Windows (root : option (list (list byte))) | Other.
Definition load_root_certs (p : Platform) (c : context) : context :=
  match p with Windows root => fst (load_root_certs_windows root c) | Other => load_root_certs_default c end.

(** The initialiser of the function-local static. *)
Definition build_context (p : Platform) : context :=
  let c := tls_client in
  let c := set_options [default_workarounds; no_sslv2; no_sslv3; no_tlsv1; no_tlsv1_1] c in
  let c := set_verify_mode verify_peer c in
  load_root_certs p c.

(** The context and the static after the call. *)
Definition tls_context (p : Platform) (slot : option context) : context * option context :=
  match slot with Some c => (c, slot) | None => let c := build_context p in (c, Some c) end.

(** The option that switches a version off, where there is one. *)
Definition excluded_by (v : protocol) : option ctx_option :=
  match v with
  | SSLv2 => Some no_sslv2 | SSLv3 => Some no_sslv3 | TLSv1 => Some no_tlsv1 | TLSv1_1 => Some no_tlsv1_1
  | TLSv1_2 | TLSv1_3 => None
  end.
Definition negotiable (c : context) (v : protocol) : bool :=
  match excluded_by v with Some o => negb (bool_decide (o ∈ options c)) | None => true end.

(** ** Lemmas *)

Definition made (log : list CertEvent) : list X509 :=
  omap (fun e => match e with X509Made x => Some x | _ => None end) log.
Definition freed (log : list CertEvent) : list X509 :=
  omap (fun e => match e with X509Freed x => Some x | _ => None end) log.

Lemma import_certs_spec certs store log :
  fst (import_certs certs store log) = fold_left X509_STORE_add_cert (omap d2i_X509 certs) store
  /\ snd (import_certs certs store log)
     = log ++ mjoin ((fun x => [X509Made x; X509Freed x]) <$> omap d2i_X509 certs).
Proof using.
  revert store log. induction certs as [|der rest IH]; intros store log; cbn; [by rewrite app_nil_r|].
  destruct (d2i_X509 der) as [x|]; [|apply IH]. destruct (IH (X509_STORE_add_cert store x)
    (log ++ [X509Made x; X509Freed x])) as [-> ->]. cbn. by rewrite <- app_assoc.
Qed.

Lemma made_freed_pairs l :
  made (mjoin ((fun x => [X509Made x; X509Freed x]) <$> l)) = l
  /\ freed (mjoin ((fun x => [X509Made x; X509Freed x]) <$> l)) = l.
Proof using.
  induction l as [|x l [IH1 IH2]]; [done|]. split; cbn; f_equal; [exact IH1|exact IH2].
Qed.

(** The shared TLS context.  On every platform it verifies peers and can
    negotiate exactly TLS 1.2 and 1.3; on Windows its trust anchors are the
    certificates of the system's root store that decode, added in order, and
    none when the store cannot be opened; the store handle is closed and every
    decoded certificate freed exactly once; later calls give the same
    context. *)
Theorem tls_context_secure (p : Platform) :
  let '(c, slot) := tls_context p None in
  verify c = verify_peer
  /\ (forall v, negotiable c v = true <-> v = TLSv1_2 \/ v = TLSv1_3)
  /\ (forall p', tls_context p' slot = (c, slot))
  /\ match p with
     | Windows root =>
         cert_store c = fold_left X509_STORE_add_cert (omap d2i_X509 (default [] root)) new_store
         /\ forall c0, let log := snd (load_root_certs_windows root c0) in
            made log = freed log
            /\ log = match root with None => [] | Some _ =>
                 StoreOpened :: mjoin ((fun x => [X509Made x; X509Freed x]) <$> made log) ++ [StoreClosed] end
     | Other => cert_store c = default_verify_paths new_store
     end.
Proof using.
  assert (Ho : forall c, options (load_root_certs p c) = options c /\ verify (load_root_certs p c) = verify c).
  { intros c. destruct p as [[certs|]|]; cbn; [|done..]. by destruct (import_certs certs _ _). }
  cbn [tls_context]. unfold build_context. cbv zeta. set (c := set_verify_mode _ _).
  destruct (Ho c) as [H1 H2]. split; [by rewrite H2|]. split.
  { intros v. unfold negotiable. rewrite H1. by destruct v; vm_compute; intuition. }
  split; [done|]. destruct p as [root|]; [|done]. cbn [load_root_certs]. split.
  - destruct root as [certs|]; [|done]. cbn [load_root_certs_windows default].
    pose proof (proj1 (import_certs_spec certs (cert_store c) [StoreOpened])) as H.
    by destruct (import_certs certs _ _).
  - intros c0. destruct root as [certs|]; [|done]. cbn [load_root_certs_windows].
    pose proof (proj2 (import_certs_spec certs (cert_store c0) [StoreOpened])) as H.
    destruct (import_certs certs _ _) as [store log]. cbn [snd app] in H |- *. subst log.
    cbn [app].
    set (l := omap d2i_X509 certs). destruct (made_freed_pairs l) as [Hm Hf].
    assert (Hsplit : made (StoreOpened :: mjoin ((fun x => [X509Made x; X509Freed x]) <$> l) ++ [StoreClosed]) = l
      /\ freed (StoreOpened :: mjoin ((fun x => [X509Made x; X509Freed x]) <$> l) ++ [StoreClosed]) = l).
    { split; etrans; [apply (omap_app _ (StoreOpened :: _))|by rewrite <- Hm at 2; apply app_nil_r
        |apply (omap_app _ (StoreOpened :: _))|by rewrite <- Hf at 2; apply app_nil_r]. }
    destruct Hsplit as [-> ->]. done.
Qed.
End Tls.
