(* ===== verification/Runtime.v ===== *)
(** * The HTTPS executor and its promises ([src/net/http_client.cpp])

    All synchronous HTTPS clients share one process-wide executor with two
    worker threads and an atomic count of live clients.  A synchronous call
    starts an asynchronous operation and blocks on a promise that the
    operation's handler fulfils; the resolver and its timer race for one. *)

From Stdlib Require Import String ZArith Lia.
From stdpp Require Import base list strings numbers.
From S2P Require Import Prelude.

Open Scope Z_scope.

(** ** The executor *)

Record HttpsRuntimeStats := { worker_threads : Z; live_clients : Z }.

(** [m_workers] are the threads, by index; [m_live_clients] is a [size_t]. *)
Record HttpsRuntime := {
  m_guard : bool;
  ioc_stopped : bool;
  m_workers : list nat;
  m_live_clients : Z;
}.

Definition https_runtime_worker_count : nat := 2.

(** The constructor's loop: [todo] workers are still to be started. *)
Fixpoint start_workers (todo index : nat) (workers : list nat) : list nat :=
  match todo with
  | O => workers
  | S todo => start_workers todo (S index) (workers ++ [index])
  end.

Definition make_runtime : HttpsRuntime :=
  {| m_guard := true; ioc_stopped := false; m_workers := start_workers https_runtime_worker_count 0 [];
     m_live_clients := 0 |}.

Definition destroy_runtime (r : HttpsRuntime) : HttpsRuntime :=
  {| m_guard := false; ioc_stopped := true; m_workers := m_workers r; m_live_clients := m_live_clients r |}.

Definition set_live (n : Z) (r : HttpsRuntime) : HttpsRuntime :=
  {| m_guard := m_guard r; ioc_stopped := ioc_stopped r; m_workers := m_workers r; m_live_clients := n |}.

(** [fetch_add] and [fetch_sub] on a [size_t] wrap around. *)
Definition add_client (r : HttpsRuntime) : HttpsRuntime := set_live (u64 (m_live_clients r + 1)) r.
Definition remove_client (r : HttpsRuntime) : HttpsRuntime := set_live (u64 (m_live_clients r - 1)) r.

Definition stats (r : HttpsRuntime) : HttpsRuntimeStats :=
  {| worker_threads := Z.of_nat (length (m_workers r)); live_clients := m_live_clients r |}.

(** The function-local static: built by the first call. *)
Definition https_runtime (slot : option HttpsRuntime) : HttpsRuntime := default make_runtime slot.

Definition https_runtime_stats (slot : option HttpsRuntime) : HttpsRuntimeStats * option HttpsRuntime :=
  let r := https_runtime slot in (stats r, Some r).

Lemma add_remove_client r : in_u64 (m_live_clients r) -> remove_client (add_client r) = r.
Proof.
  intros H. destruct r as [g s w n]. unfold add_client, remove_client, set_live. cbn in *. f_equal.
  unfold u64, in_u64 in *. rewrite Zminus_mod_idemp_l. replace (n + 1 - 1) with n by lia. by apply Z.mod_small.
Qed.

(** ** Promises *)

(** [std::promise]: a second [set_value] throws. *)
Definition Promise (A : Type) : Type := option A.
Definition set_value {A} (v : A) (p : Promise A) : result (Promise A) :=
  match p with None => Ok (Some v) | Some _ => Throw (SystemError "Promise already satisfied") end.

(** [future.get()] returns only when a value is there; [None] is a call that
    is still blocked. *)
Definition future_get {A} (p : Promise A) : option A := p.

(** The handler calls an operation makes, in order. *)
Fixpoint run_completions {A} (calls : list A) (p : Promise A) : result (Promise A) :=
  match calls with
  | [] => Ok p
  | v :: rest => p ← set_value v p; run_completions rest p
  end.

(** [wait_for_error]: [true] is an error code that is set. *)
Definition wait_for_error (calls : list bool) : result (option bool) :=
  p ← run_completions calls None; Ok (future_get p).

(** [wait_for_transfer]: the error code and the bytes transferred. *)
Definition wait_for_transfer (calls : list (bool * Z)) : result (option (bool * Z)) :=
  p ← run_completions calls None; Ok (future_get p).

(** An asynchronous operation calls its handler exactly once, so the wait
    returns what it was called with. *)
Lemma wait_for_error_once e : wait_for_error [e] = Ok (Some e).
Proof. done. Qed.
Lemma wait_for_transfer_once e n : wait_for_transfer [(e, n)] = Ok (Some (e, n)).
Proof. done. Qed.

(** ** The resolve race

    The resolver and its timer share one promise; the first to swap the
    [delivered] flag sets it.  [ResolveDone ok] and [TimerFired aborted] are
    the two handlers. *)
Inductive ResolveHandler := ResolveDone (ok : bool) | TimerFired (aborted : bool).
Record ResolveCompletion := { delivered : bool; promise : list bool }.

Definition run_handler (st : ResolveCompletion) (h : ResolveHandler) : ResolveCompletion :=
  match h with
  | ResolveDone ok =>
      if delivered st then st else {| delivered := true; promise := promise st ++ [ok] |}
  | TimerFired aborted =>
      if aborted then st
      else if delivered st then st else {| delivered := true; promise := promise st ++ [false] |}
  end.
Definition run_handlers (l : list ResolveHandler) : ResolveCompletion :=
  fold_left run_handler l {| delivered := false; promise := [] |}.

Definition delivers (h : ResolveHandler) : option bool :=
  match h with ResolveDone ok => Some ok | TimerFired true => None | TimerFired false => Some false end.

(** Each handler runs exactly once, in either order. *)
Inductive ResolveRace :=
  | ResolverFirst (ok timer_aborted : bool)
  | TimerFirst (timer_aborted ok : bool).
Definition race_handlers (r : ResolveRace) : list ResolveHandler :=
  match r with
  | ResolverFirst ok aborted => [ResolveDone ok; TimerFired aborted]
  | TimerFirst aborted ok => [TimerFired aborted; ResolveDone ok]
  end.

(** [resolved.get()]: whether the name resolved in time. *)
Definition race_result (r : ResolveRace) : bool := default false (head (promise (run_handlers (race_handlers r)))).

(** The resolve promise is set exactly once.  In any order and number of
    the resolver's and the timer's completions, the promise holds at most one
    value, and it is the first one that was not a cancelled wait. *)
Lemma resolve_promise_set_once (l : list ResolveHandler) :
  promise (run_handlers l) = take 1 (omap delivers l)
  /\ delivered (run_handlers l) = negb (bool_decide (omap delivers l = [])).
Proof.
  unfold run_handlers.
  assert (Hdone : forall l v, fold_left run_handler l {| delivered := true; promise := v |}
                              = {| delivered := true; promise := v |}).
  { clear l. induction l as [|h l IH]; intros v; [done|]. cbn [fold_left]. by destruct h as [ok|[]]; cbn; apply IH. }
  induction l as [|h l IH]; [done|]. cbn [fold_left].
  destruct h as [ok|[]]; cbn [run_handler delivered promise app]; [| exact IH |]; by rewrite Hdone.
Qed.

(** So the caller never blocks for good: every race leaves exactly one value,
    a success only when the resolver delivered it before the timer expired. *)
Lemma race_always_resolves r :
  promise (run_handlers (race_handlers r)) = [race_result r]
  /\ race_result r = match r with ResolverFirst ok _ => ok | TimerFirst aborted ok => aborted && ok end.
Proof. by destruct r as [[] []|[] []]. Qed.
