(* ===== verification/Http.v ===== *)
(** * The HTTPS client ([src/net/http_client.cpp], [http_client.hpp])

    A synchronous keep-alive client.  What the network does to one attempt
    (name resolution, TCP, TLS, the write, the read) is an [Attempt]; the
    client runs against an arbitrary sequence of them.  The state is the
    stream and the log of what reached the network. *)

From Stdlib Require Import Ascii String ZArith Lia.
From stdpp Require Import base list sets strings numbers gmap fin_maps.
From S2P Require Import Prelude Runtime.

Open Scope Z_scope.

Abbreviation Headers := (list (string * string)).

Record HttpResponse := { status : Z; body : string; headers : Headers }.

Record HttpsClientOptions := {
  resolve_timeout : Z;
  connect_timeout : Z;
  handshake_timeout : Z;
  write_timeout : Z;
  read_timeout : Z;
  retry_count : nat;
  header_limit : Z;
  body_limit : Z;
}.
Definition default_options : HttpsClientOptions :=
  {| resolve_timeout := 10000; connect_timeout := 10000; handshake_timeout := 10000;
     write_timeout := 15000; read_timeout := 30000; retry_count := 1;
     header_limit := 64 * 1024; body_limit := 16 * 1024 * 1024 |}.

Record HttpsUrl := { host : string; port : string; target : string }.

(** [HttpResponse::header], over [beast::iequals]. *)
Definition header (iequals : string -> string -> bool) (r : HttpResponse) (name : string) : string :=
  match List.find (fun f => iequals (fst f) name) (headers r) with Some f => snd f | None => "" end.

(** ** URLs *)

Definition is_char (c x : ascii) : bool := Ascii.eqb x c.

Definition parse_https_url (url : string) : result HttpsUrl :=
  throw_if (negb (starts_with "https://" url)) (InvalidArgument ("parse_https_url: not https: " +:+ url));;
  let url := str_drop 8 url in
  let slash := str_find (is_char "/") url in
  let authority := match slash with Some i => str_take i url | None => url end in
  let out_target := match slash with None => "/" | Some i => str_drop i url end in
  let colon := str_find (is_char ":") authority in
  let out_host := match colon with Some i => str_take i authority | None => authority end in
  let out_port := match colon with None => "443" | Some i => str_drop (S i) authority end in
  throw_if (str_empty out_host || str_empty out_port) (InvalidArgument "parse_https_url: empty host or port");;
  Ok {| host := out_host; port := out_port; target := out_target |}.

(** ** Requests and attempts *)

Inductive verb := get_ | post_ | delete_ | put_.
#[export] Instance verb_eq_dec : EqDecision verb.
Proof. solve_decision. Defined.

(** The message handed to the writer: the field assignments in order, and the
    payload when one is prepared. *)
Record Request := { r_verb : verb; r_target : string; r_fields : Headers; r_payload : option string }.

Record Parsed := { p_status : Z; p_body : string; p_fields : Headers; p_need_eof : bool; p_keep_alive : bool }.

Inductive ReadOutcome :=
  | ReadOk (res : Parsed)
  | ReadBodyLimit (st : Z) (fields : Headers) (n : Z)
  | ReadError (n : Z).

(** [true] in a stage is success; a write reports its error flag and the bytes
    that were transferred. *)
Record Attempt := {
  sni_ok : bool;
  hostname_ok : bool;
  resolve_race : ResolveRace;
  connect_ok : bool;
  keepalive_ok : bool;
  handshake_ok : bool;
  write_error : bool;
  written : Z;
  read_outcome : ReadOutcome;
}.

Definition resolve_ok (a : Attempt) : bool := race_result (resolve_race a).

Inductive NetEvent :=
  | Connected (stream : nat)
  | Sent (stream : nat) (r : Request) (bytes : Z).

(** A stream is named by the attempt that opened it. *)
Record Client := {
  m_stream : option nat;
  attempts : nat;
  log : list NetEvent;
}.

(** ** Construction *)

Definition options_rejected (o : HttpsClientOptions) : bool :=
  (resolve_timeout o <=? 0) || (connect_timeout o <=? 0) || (handshake_timeout o <=? 0)
  || (write_timeout o <=? 0) || (read_timeout o <=? 0)
  || (header_limit o =? 0) || (body_limit o =? 0)
  || (1024 * 1024 <? header_limit o) || (256 * 1024 * 1024 <? body_limit o).

(** The check comes before the runtime is touched. *)
Definition construct (o : HttpsClientOptions) (rt : HttpsRuntime) : result (Client * HttpsRuntime) :=
  throw_if (options_rejected o) (InvalidArgument "HttpsClient timeouts must be positive");;
  Ok ({| m_stream := None; attempts := 0; log := [] |}, add_client rt).

(** ** Operations *)

Definition close (c : Client) : Client := {| m_stream := None; attempts := attempts c; log := log c |}.

Definition destroy (c : Client) (rt : HttpsRuntime) : Client * HttpsRuntime := (close c, remove_client rt).

Definition opened (n : nat) (c : Client) : Client := {| m_stream := Some n; attempts := attempts c; log := log c |}.
Definition record_event (e : NetEvent) (c : Client) : Client :=
  {| m_stream := m_stream c; attempts := attempts c; log := e :: log c |}.

(** [ec = wait_for_error(...)] for an operation that called its handler with
    success or an error. *)
Definition stage_error (ok : bool) : bool :=
  match wait_for_error [negb ok] with Ok (Some e) => e | _ => true end.

(** [connect] leaves the stream allocated when a later stage throws. *)
Definition connect (n : nat) (a : Attempt) (c : Client) : result unit * Client :=
  let c := opened n (close c) in
  if negb (sni_ok a) then (Throw (SystemError "SNI"), c)
  else if negb (hostname_ok a) then (Throw (SystemError "TLS hostname verification"), c)
  else if negb (resolve_ok a) then (Throw (SystemError "resolve"), c)
  else if stage_error (connect_ok a) then (Throw (SystemError "connect"), c)
  else if negb (keepalive_ok a) then (Throw (SystemError "setsockopt SO_KEEPALIVE"), c)
  else if stage_error (handshake_ok a) then (Throw (SystemError "tls handshake"), c)
  else (Ok tt, record_event (Connected n) c).

Section Operations.
Context (m_host : string) (m_options : HttpsClientOptions).
(** What the network does to the n-th attempt of this client. *)
Context (net : nat -> Attempt).

Definition build_request (method : verb) (tgt bdy : string) (hs : Headers) (content_type : string) : Request :=
  let base := [("Host", m_host); ("User-Agent", "polymarket-cpp/0.1"); ("Accept", "application/json")] ++ hs in
  if negb (str_empty bdy) || bool_decide (method = post_)
  then {| r_verb := method; r_target := tgt; r_fields := base ++ [("Content-Type", content_type)];
          r_payload := Some bdy |}
  else {| r_verb := method; r_target := tgt; r_fields := base; r_payload := None |}.

(** The second half of [do_request]: write the request, read the response. *)
Definition transfer (st : nat) (a : Attempt) (req : Request) (c : Client) : result HttpResponse * Client :=
  let c := record_event (Sent st req (written a)) c in
  match wait_for_transfer [(write_error a, written a)] with
  | Ok (Some (true, n)) => (Throw (TransferFailure "write" n), c)
  | Ok (Some (false, _)) =>
      match read_outcome a with
      | ReadBodyLimit st fields n => (Throw (HttpBodyLimitError st fields (body_limit m_options)), c)
      | ReadError n => (Throw (TransferFailure "read" n), c)
      | ReadOk res =>
          let c := if p_need_eof res || negb (p_keep_alive res) then close c else c in
          (Ok {| status := p_status res; body := p_body res; headers := p_fields res |}, c)
      end
  | _ => (Throw (Undefined "blocked on a promise that is never set"), c)
  end.

(** One attempt consumes one entry of [net]. *)
Definition do_request (method : verb) (tgt bdy : string) (hs : Headers) (content_type : string) (c : Client) :
    result HttpResponse * Client :=
  let n := attempts c in
  let a := net n in
  let c := {| m_stream := m_stream c; attempts := S n; log := log c |} in
  let '(ok, c) := match m_stream c with Some _ => (Ok tt, c) | None => connect n a c end in
  match ok, m_stream c with
  | Throw e, _ => (Throw e, c)
  | Ok _, Some st => transfer st a (build_request method tgt bdy hs content_type) c
  | Ok _, None => (Throw (Undefined "null stream"), c)
  end.

(** [for (attempt = 0;; ++attempt)] with [attempt >= retry_count] as its
    exit: [retries] is how many remain. *)
Fixpoint request_loop (retries : nat) (method : verb) (tgt bdy : string) (hs : Headers) (ct : string) (c : Client) :
    result HttpResponse * Client :=
  match do_request method tgt bdy hs ct c with
  | (Ok res, c) => (Ok res, c)
  | (Throw e, c) =>
      let c := close c in
      match retries with
      | O => (Throw e, c)
      | S retries => request_loop retries method tgt bdy hs ct c
      end
  end.

Definition request (method : verb) (tgt bdy : string) (hs : Headers) (ct : string) (c : Client) :=
  request_loop (retry_count m_options) method tgt bdy hs ct c.

Definition get (tgt : string) (hs : Headers) (c : Client) := request get_ tgt "" hs "application/json" c.
Definition post (tgt bdy : string) (hs : Headers) (ct : string) (c : Client) := request post_ tgt bdy hs ct c.

Definition replayable (e : exn) : bool :=
  match e with TransferFailure stage transferred => String.eqb stage "write" && (transferred =? 0) | _ => false end.

(** Only [attempt == 0] can [continue], so the loop runs at most twice. *)
Definition request_once (method : verb) (tgt bdy : string) (hs : Headers) (ct : string) (c : Client) :
    result HttpResponse * Client :=
  match do_request method tgt bdy hs ct c with
  | (Ok res, c) => (Ok res, c)
  | (Throw e, c) =>
      let c := close c in
      if replayable e then
        match do_request method tgt bdy hs ct c with
        | (Ok res, c) => (Ok res, c)
        | (Throw e, c) => (Throw e, close c)
        end
      else (Throw e, c)
  end.

Definition post_once (tgt bdy : string) (hs : Headers) (ct : string) (c : Client) :=
  request_once post_ tgt bdy hs ct c.
End Operations.

(** ** URL facts *)

Lemma str_find_some p s i : str_find p s = Some i ->
  (i < String.length s)%nat /\ str_all (fun c => negb (p c)) (str_take i s) = true
  /\ exists c t, str_drop i s = String c t /\ p c = true.
Proof.
  revert i. induction s as [|c s IH]; intros i; cbn; [done|]. destruct (p c) eqn:E.
  - intros [= <-]. cbn. split; [lia|]. eauto.
  - destruct (str_find p s) as [j|]; cbn; [|done]. intros [= <-].
    destruct (IH j eq_refl) as (H1 & H2 & H3). cbn. rewrite E. split; [lia|]. eauto.
Qed.

Lemma str_find_app p a b : str_all (fun c => negb (p c)) a = true ->
  str_find p (a +:+ b) = (fun i => (String.length a + i)%nat) <$> str_find p b.
Proof.
  induction a as [|c a IH]; cbn; [by destruct (str_find p b)|].
  intros [H1 H2]%andb_true_iff. apply negb_true_iff in H1. rewrite H1, IH by done. by destruct (str_find p b).
Qed.

Lemma str_find_none_all p s : str_find p s = None <-> str_all (fun c => negb (p c)) s = true.
Proof.
  induction s as [|c s IH]; [done|]. cbn. destruct (p c); cbn; [done|].
  destruct (str_find p s); cbn; [|tauto]. split; [done|]. intros H. by apply IH in H.
Qed.

Lemma str_take_app a b : str_take (String.length a) (a +:+ b) = a.
Proof. induction a; cbn; [by destruct b|]. by rewrite IHa. Qed.
Lemma str_drop_app a b : str_drop (String.length a) (a +:+ b) = b.
Proof. induction a; cbn; [by destruct b|]. done. Qed.

Definition without (c : ascii) (s : string) : bool := str_all (fun x => negb (is_char c x)) s.

Lemma str_empty_false s : str_empty s = false <-> s <> "".
Proof. unfold str_empty. apply String.eqb_neq. Qed.

(** Without a slash before the path, the authority ends where the path starts. *)
Lemma parse_authority auth t : without "/" auth = true ->
  parse_https_url ("https://" +:+ auth +:+ "/" +:+ t) =
    let colon := str_find (is_char ":") auth in
    let h := match colon with Some i => str_take i auth | None => auth end in
    let p := match colon with None => "443" | Some i => str_drop (S i) auth end in
    throw_if (str_empty h || str_empty p) (InvalidArgument "parse_https_url: empty host or port");;
    Ok {| host := h; port := p; target := "/" +:+ t |}.
Proof.
  intros Ha. unfold parse_https_url. rewrite starts_with_app. cbn [negb throw_if mbind result_bind].
  change (str_drop 8 ("https://" +:+ auth +:+ "/" +:+ t)) with (auth +:+ "/" +:+ t). cbv zeta.
  rewrite str_find_app by done.
  cbn [str_find is_char Ascii.eqb Bool.eqb String.append fmap option_fmap option_map].
  by rewrite Nat.add_0_r, str_take_app, str_drop_app.
Qed.

(** ** Attempts *)

Definition transmitted (e : NetEvent) : bool :=
  match e with Sent _ _ n => negb (n =? 0) | Connected _ => false end.

Section Attempts.
Context (m_host : string) (m_options : HttpsClientOptions) (net : nat -> Attempt).
Context (method : verb) (tgt bdy : string) (hs : Headers) (ct : string).

Abbreviation attempt := (do_request m_host m_options net method tgt bdy hs ct).
Abbreviation req := (build_request m_host method tgt bdy hs ct).

(** What the attempt against [a] returned. *)
Definition outcome_of (a : Attempt) (r : result HttpResponse) : Prop :=
  match r with
  | Ok res => write_error a = false /\ exists p, read_outcome a = ReadOk p
                /\ res = {| status := p_status p; body := p_body p; headers := p_fields p |}
  | Throw e => replayable e = true -> write_error a = true /\ written a = 0
  end.

Lemma transfer_log st a c r c' :
  transfer m_options st a req c = (r, c') ->
  attempts c' = attempts c /\ log c' = Sent st req (written a) :: log c /\ outcome_of a r.
Proof using.
  unfold transfer. destruct (write_error a) eqn:Ew.
  - intros [= <- <-]. split; [done|]. split; [done|]. cbn. intros ?%Z.eqb_eq. done.
  - destruct (read_outcome a) as [p| |] eqn:Er; intros [= <- <-]; cbn; [|done|done].
    destruct (p_need_eof p || negb (p_keep_alive p));
      (split; [done|]; split; [done|]; split; [done|]; by eexists).
Qed.

(** What one attempt adds to the log: an optional connection, then at most
    one send of this request with the bytes the network reported. *)
Definition attempt_adds (c : Client) (r : result HttpResponse) (c' : Client) : Prop :=
  let a := net (attempts c) in
  attempts c' = S (attempts c)
  /\ (exists new, log c' = new ++ log c
       /\ (length (List.filter transmitted new) <= (if (written a =? 0)%Z then 0 else 1))%nat
       /\ (forall st q n, Sent st q n ∈ new -> q = req))
  /\ outcome_of a r.

Lemma do_request_log c r c' : attempt c = (r, c') -> attempt_adds c r c'.
Proof using.
  unfold do_request. set (a := net (attempts c)). cbn [m_stream attempts log].
  set (c1 := {| m_stream := m_stream c; attempts := S (attempts c); log := log c |}).
  assert (Hsent : forall st c2 pre, attempts c2 = S (attempts c) -> log c2 = pre ++ log c ->
            pre = [] \/ pre = [Connected (attempts c)] -> transfer m_options st a req c2 = (r, c') ->
            attempt_adds c r c').
  { intros st c2 pre Hn Hl Hpre (H1 & H2 & H3)%transfer_log. split; [lia|]. split; [|done].
    exists (Sent st req (written a) :: pre). rewrite H2, Hl. split; [done|]. fold a.
    destruct Hpre as [-> | ->]; (split; [cbn; destruct (written a =? 0)%Z; cbn; lia|]); set_solver. }
  destruct (m_stream c) as [st|]; [by apply (Hsent st c1 []); auto|].
  unfold connect. set (c2 := opened (attempts c) (close c1)).
  assert (Hfail : forall w, (Throw (SystemError w), c2) = (r, c') -> attempt_adds c r c').
  { intros w [= <- <-]. split; [done|]. split; [|done]. exists []. split; [done|]. split; [cbn; lia|]. set_solver. }
  destruct (negb (sni_ok a)); [apply Hfail|]. destruct (negb (hostname_ok a)); [apply Hfail|].
  destruct (negb (resolve_ok a)); [apply Hfail|]. destruct (stage_error (connect_ok a)); [apply Hfail|].
  destruct (negb (keepalive_ok a)); [apply Hfail|]. destruct (stage_error (handshake_ok a)); [apply Hfail|].
  apply (Hsent (attempts c) _ [Connected (attempts c)]); auto.
Qed.
End Attempts.

(** What a whole operation adds to the log: at most [n] transmissions, all of
    the request [q0]. *)
Definition adds (n : nat) (q0 : Request) (c c' : Client) : Prop :=
  exists new, log c' = new ++ log c /\ (length (List.filter transmitted new) <= n)%nat
    /\ forall st q k, Sent st q k ∈ new -> q = q0.

Lemma adds_trans n m q0 c c1 c2 : adds n q0 c c1 -> adds m q0 c1 c2 -> adds (n + m) q0 c c2.
Proof.
  intros (n1 & H1 & T1 & Q1) (n2 & H2 & T2 & Q2). exists (n2 ++ n1). split; [by rewrite H2, H1, app_assoc|]. split.
  - rewrite List.filter_app, length_app. lia.
  - intros st q k [H|H]%elem_of_app; eauto.
Qed.

Section Operations_log.
Context (m_host : string) (m_options : HttpsClientOptions) (net : nat -> Attempt).
Context (method : verb) (tgt bdy : string) (hs : Headers) (ct : string).

Abbreviation req := (build_request m_host method tgt bdy hs ct).

Lemma do_request_adds c r c' : do_request m_host m_options net method tgt bdy hs ct c = (r, c') ->
  adds (if (written (net (attempts c)) =? 0)%Z then 0 else 1) req c c' /\ outcome_of (net (attempts c)) r.
Proof using. intros (_ & (new & Hl & Ht & Hq) & Ho)%do_request_log. split; [by exists new|done]. Qed.

Lemma request_loop_adds k c r c' : request_loop m_host m_options net k method tgt bdy hs ct c = (r, c') ->
  adds (S k) req c c'.
Proof using.
  revert c. induction k as [|k IH]; intros c; cbn [request_loop];
    destruct (do_request _ _ _ _ _ _ _ _ c) as [r1 c1] eqn:E1; apply do_request_adds in E1 as [(new & Hl & Ht & Hq) _];
    assert (Ht1 : (length (List.filter transmitted new) <= 1)%nat)
      by (destruct (written (net (attempts c)) =? 0)%Z; lia);
    destruct r1 as [res|e].
  - intros [= <- <-]. exists new. auto.
  - intros [= <- <-]. exists new. auto.
  - intros [= <- <-]. exists new. split; [done|]. split; [lia|done].
  - intros H%IH. apply (adds_trans 1 (S k) _ c (close c1)); [|done]. exists new. auto.
Qed.

Lemma request_loop_attempts k c r c' : request_loop m_host m_options net k method tgt bdy hs ct c = (r, c') ->
  (attempts c < attempts c' <= attempts c + S k)%nat.
Proof using.
  revert c. induction k as [|k IH]; intros c; cbn [request_loop];
    destruct (do_request _ _ _ _ _ _ _ _ c) as [r1 c1] eqn:E1; apply do_request_log in E1 as (Hn & _ & _);
    destruct r1; try (intros [= <- <-]; cbn [close attempts]; lia).
  intros H%IH. cbn [close attempts] in H. lia.
Qed.

(** The second attempt of [request_once] follows a write of zero bytes. *)
Lemma request_once_adds c r c' : request_once m_host m_options net method tgt bdy hs ct c = (r, c') ->
  adds 1 req c c'.
Proof using.
  unfold request_once. destruct (do_request _ _ _ _ _ _ _ _ c) as [r1 c1] eqn:E1.
  apply do_request_adds in E1 as [Ha1 Ho1].
  assert (Hone : adds 1 req c c1).
  { destruct Ha1 as (new & Hl & Ht & Hq). exists new. split; [done|]. split; [|done].
    destruct (written (net (attempts c)) =? 0)%Z; lia. }
  destruct r1 as [res|e]; [by intros [= <- <-]|].
  destruct (replayable e) eqn:Er; [|by intros [= <- <-]].
  destruct (Ho1 Er) as [_ Hz]. rewrite Hz in Ha1. cbn in Ha1.
  destruct (do_request _ _ _ _ _ _ _ _ (close c1)) as [r2 c2] eqn:E2.
  apply do_request_adds in E2 as [(new & Hl & Ht & Hq) _]. cbn [close attempts log] in *.
  assert (Hadd : adds 1 req c c2).
  { apply (adds_trans 0 1 _ c c1); [done|]. exists new. split; [done|]. split; [|done].
    destruct (written (net (attempts c1)) =? 0)%Z; lia. }
  destruct r2; by intros [= <- <-].
Qed.
End Operations_log.

(** ** An attempt, exactly *)

(** A new connection gets through every stage. *)
Definition connects (a : Attempt) : bool :=
  sni_ok a && hostname_ok a && resolve_ok a && connect_ok a && keepalive_ok a && handshake_ok a.

(** On the stream [st] the client holds, if any: the attempt reaches its write. *)
Definition reaches_write (st : option nat) (a : Attempt) : bool :=
  match st with Some _ => true | None => connects a end.
(** The write was reached and failed before its first byte. *)
Definition unsent (st : option nat) (a : Attempt) : bool := reaches_write st a && write_error a && (written a =? 0).
(** The response, when everything went well. *)
Definition answered (st : option nat) (a : Attempt) : option Parsed :=
  if reaches_write st a && negb (write_error a)
  then match read_outcome a with ReadOk p => Some p | _ => None end else None.
(** What the [n]-th attempt leaves in the log, most recent first. *)
Definition attempt_events (q : Request) (st : option nat) (n : nat) (a : Attempt) : list NetEvent :=
  match st with
  | Some st => [Sent st q (written a)]
  | None => if connects a then [Sent n q (written a); Connected n] else []
  end.
Definition response_of (p : Parsed) : HttpResponse :=
  {| status := p_status p; body := p_body p; headers := p_fields p |}.

Lemma stage_error_eq ok : stage_error ok = negb ok.
Proof. by destruct ok. Qed.

(** Only an unsent attempt is replayable. *)
Lemma answered_unsent st a p : answered st a = Some p -> unsent st a = false.
Proof. unfold answered, unsent. destruct (reaches_write st a); [|done]. by destruct (write_error a). Qed.
Lemma answered_replayable st a r :
  match answered st a with
  | Some p => r = Ok (response_of p)
  | None => exists e, r = Throw e /\ replayable e = unsent st a
  end ->
  match r with Ok _ => unsent st a = false | Throw e => replayable e = unsent st a end.
Proof.
  destruct (answered st a) eqn:E; [intros ->; by eapply answered_unsent|]. by intros (e & -> & ?).
Qed.

Section Exactly.
Context (m_host : string) (m_options : HttpsClientOptions) (net : nat -> Attempt).
Context (method : verb) (tgt bdy : string) (hs : Headers) (ct : string).

Abbreviation req := (build_request m_host method tgt bdy hs ct).

(** The result and the log of one attempt, from what the network did. *)
Definition attempt_is (c : Client) (r : result HttpResponse) (c' : Client) : Prop :=
  let a := net (attempts c) in
  attempts c' = S (attempts c)
  /\ log c' = attempt_events req (m_stream c) (attempts c) a ++ log c
  /\ match answered (m_stream c) a with
     | Some p => r = Ok (response_of p)
     | None => exists e, r = Throw e /\ replayable e = unsent (m_stream c) a
     end.

Lemma transfer_is st a c r c' : transfer m_options st a req c = (r, c') ->
  attempts c' = attempts c /\ log c' = Sent st req (written a) :: log c
  /\ match (if write_error a then None else match read_outcome a with ReadOk p => Some p | _ => None end) with
     | Some p => r = Ok (response_of p)
     | None => exists e, r = Throw e /\ replayable e = (write_error a && (written a =? 0))
     end.
Proof using.
  unfold transfer. destruct (write_error a) eqn:Ew.
  - intros [= <- <-]. split; [done|]. split; [done|]. by eexists.
  - destruct (read_outcome a) as [p| |] eqn:Er; intros [= <- <-]; cbn; [|by eauto|by eauto].
    by destruct (p_need_eof p || negb (p_keep_alive p)).
Qed.

Lemma do_request_is c r c' : do_request m_host m_options net method tgt bdy hs ct c = (r, c') -> attempt_is c r c'.
Proof using.
  unfold do_request, attempt_is, answered, unsent, attempt_events. set (a := net (attempts c)). cbn [m_stream attempts log].
  set (c1 := {| m_stream := m_stream c; attempts := S (attempts c); log := log c |}). cbv zeta.
  destruct (m_stream c) as [st|]; cbn [reaches_write andb].
  { intros (H1 & H2 & H3)%transfer_is. split; [done|]. split; [done|]. by destruct (write_error a). }
  unfold connect, connects. rewrite (stage_error_eq (connect_ok a)), (stage_error_eq (handshake_ok a)). set (c2 := opened (attempts c) (close c1)).
  destruct (sni_ok a), (hostname_ok a), (resolve_ok a), (connect_ok a), (keepalive_ok a), (handshake_ok a);
    cbn [negb andb m_stream]; try (intros [= <- <-]; split; [done|]; split; [done|]; by eexists).
  intros (H1 & H2 & H3)%transfer_is. split; [done|]. split; [exact H2|]. by destruct (write_error a).
Qed.
End Exactly.

(** ** The properties *)

Section Claims.
Context (m_host : string) (m_options : HttpsClientOptions) (net : nat -> Attempt).

(** C6: an order placement is transmitted at most once.  Whatever the network
    does, [request_once] makes one attempt, or two when and only when the first one
    reached its write and the write failed with zero bytes; over the whole call at
    most one attempt puts request bytes on the wire, every send carries the request
    the caller described, a success is the response of the last attempt, and after
    a failure the stream is closed. *)
Theorem request_once_transmits_once method tgt bdy hs ct c r c' :
  request_once m_host m_options net method tgt bdy hs ct c = (r, c') ->
  attempts c' = (if unsent (m_stream c) (net (attempts c)) then S (S (attempts c)) else S (attempts c))
  /\ (exists new, log c' = new ++ log c
       /\ (length (List.filter transmitted new) <= 1)%nat
       /\ (forall st q n, Sent st q n ∈ new -> q = build_request m_host method tgt bdy hs ct))
  /\ match r with
     | Ok res => exists p, read_outcome (net (pred (attempts c'))) = ReadOk p
                   /\ res = {| status := p_status p; body := p_body p; headers := p_fields p |}
     | Throw _ => m_stream c' = None
     end.
Proof using.
  intros H. rewrite (and_assoc _ _ (match r with Ok _ => _ | Throw _ => _ end)).
  pose proof (request_once_adds _ _ _ _ _ _ _ _ _ _ _ H) as Hadd. revert H.
  unfold request_once. destruct (do_request _ _ _ _ _ _ _ _ c) as [r1 c1] eqn:E1.
  destruct (do_request_is _ _ _ _ _ _ _ _ _ _ _ E1) as (Hn1 & _ & Ho1).
  apply answered_replayable in Ho1 as Hu.
  destruct (do_request_log _ _ _ _ _ _ _ _ _ _ _ E1) as (_ & _ & Hr1).
  destruct r1 as [res|e]; rewrite <- ?Hu.
  - rewrite Hu. intros [= <- <-]. rewrite Hn1. split; [split; [done|exact Hadd]|apply Hr1].
  - destruct (replayable e) eqn:Er; [|intros [= <- <-]; cbn; split; [split; [done|exact Hadd]|done]].
    destruct (do_request _ _ _ _ _ _ _ _ (close c1)) as [r2 c2] eqn:E2.
    destruct (do_request_log _ _ _ _ _ _ _ _ _ _ _ E2) as (Hn2 & _ & Ho2). cbn [close attempts] in Hn2, Ho2.
    assert (Hn : attempts c2 = S (S (attempts c))) by lia.
    destruct r2 as [res|e2]; intros [= <- <-]; cbn [close attempts log m_stream] in *;
      (split; [split; [done|exact Hadd]|]); [|done].
    rewrite Hn. cbn. rewrite <- Hn1. apply Ho2.
Qed.

(** C35: [request] always returns.  It makes at most [retry_count + 1]
    attempts; a success is the response of the last of them, and when it throws,
    exactly that many attempts were made and the stream is closed. *)
Theorem request_retry_bound method tgt bdy hs ct c r c' :
  request m_host m_options net method tgt bdy hs ct c = (r, c') ->
  (attempts c < attempts c' <= attempts c + S (retry_count m_options))%nat
  /\ match r with
     | Ok res => exists p, read_outcome (net (pred (attempts c'))) = ReadOk p
                   /\ res = {| status := p_status p; body := p_body p; headers := p_fields p |}
     | Throw _ => attempts c' = (attempts c + S (retry_count m_options))%nat /\ m_stream c' = None
     end.
Proof using.
  unfold request. generalize (retry_count m_options) as k. intros k. revert c.
  induction k as [|k IH]; intros c; cbn [request_loop];
    destruct (do_request _ _ _ _ _ _ _ _ c) as [r1 c1] eqn:E1;
    destruct (do_request_log _ _ _ _ _ _ _ _ _ _ _ E1) as (Hn1 & _ & Ho1); destruct r1 as [res|e].
  - intros [= <- <-]. rewrite Hn1. split; [lia|]. apply Ho1.
  - intros [= <- <-]. cbn. split; [lia|]. split; [lia|done].
  - intros [= <- <-]. rewrite Hn1. split; [lia|]. apply Ho1.
  - intros H%IH. cbn [close attempts] in H. destruct r; destruct H as [H1 H2]; (split; [lia|]); [done|].
    split; [lia|apply H2].
Qed.

(** C36: what [post_once] does, exactly, whatever the network does.  The request
    is sent again in one case only and in that case always: the first attempt
    reached its write, on the stream the client held or on a new one, and no byte
    was written.  The log is then that of two attempts, the second on a fresh
    connection, and otherwise that of one; the result is the response of the last
    attempt made, and an exception when that attempt failed anywhere. *)
Theorem post_once_replays_unsent tgt bdy hs ct c r c' :
  post_once m_host m_options net tgt bdy hs ct c = (r, c') ->
  let n := attempts c in
  let q := build_request m_host post_ tgt bdy hs ct in
  let replay := unsent (m_stream c) (net n) in
  log c' = (if replay then attempt_events q None (S n) (net (S n)) else [])
           ++ attempt_events q (m_stream c) n (net n) ++ log c
  /\ match (if replay then answered None (net (S n)) else answered (m_stream c) (net n)) with
     | Some p => r = Ok (response_of p)
     | None => is_ok r = false
     end.
Proof using.
  unfold post_once, request_once. cbv zeta. destruct (do_request _ _ _ _ _ _ _ _ c) as [r1 c1] eqn:E1.
  destruct (do_request_is _ _ _ _ _ _ _ _ _ _ _ E1) as (Hn1 & Hl1 & Ho1).
  destruct (answered (m_stream c) _) as [p|] eqn:Ea.
  { subst r1. intros [= <- <-]. by rewrite (answered_unsent _ _ _ Ea). }
  destruct Ho1 as (e & -> & ->). destruct (unsent _ _); [|intros [= <- <-]; done].
  destruct (do_request _ _ _ _ _ _ _ _ (close c1)) as [r2 c2] eqn:E2.
  destruct (do_request_is _ _ _ _ _ _ _ _ _ _ _ E2) as (_ & Hl2 & Ho2). cbn [close attempts log m_stream] in *.
  rewrite Hn1, Hl1 in *. destruct (answered None _) as [p|].
  - subst r2. by intros [= <- <-].
  - destruct Ho2 as (e2 & -> & _). by intros [= <- <-].
Qed.
End Claims.

(** URLs.  A parsed URL has a non-empty host without a slash or colon, a
    non-empty port and a target that starts with a slash; and writing a URL from
    such parts and parsing it gives the parts back, whether the port is written
    out or, for 443, left out. *)
Theorem url_round_trip h p t :
  (forall url u, parse_https_url url = Ok u ->
     host u <> "" /\ port u <> "" /\ starts_with "/" (target u) = true
     /\ without "/" (host u) = true /\ without ":" (host u) = true /\ without "/" (port u) = true)
  /\ (h <> "" -> p <> "" -> without "/" h = true -> without ":" h = true -> without "/" p = true ->
      parse_https_url ("https://" +:+ h +:+ ":" +:+ p +:+ "/" +:+ t) = Ok {| host := h; port := p; target := "/" +:+ t |}
      /\ parse_https_url ("https://" +:+ h +:+ "/" +:+ t) = Ok {| host := h; port := "443"; target := "/" +:+ t |}).
Proof.
  split.
  - intros url u H. unfold parse_https_url in H. inv_ok. clear Hcall. subst u. cbn [host port target].
    set (url' := str_drop 8 url) in *.
    set (auth := match str_find (is_char "/") url' with Some i => str_take i url' | None => url' end) in *.
    assert (Ha : without "/" auth = true).
    { unfold auth. destruct (str_find (is_char "/") url') as [i|] eqn:E; [apply (str_find_some _ _ _ E)|].
      apply (proj1 (str_find_none_all _ _) E). }
    rewrite !str_empty_false in *. split; [done|]. split; [done|]. split.
    { destruct (str_find (is_char "/") url') as [i|] eqn:E; [|done].
      apply str_find_some in E as (_ & _ & c & t' & -> & Hc). apply Ascii.eqb_eq in Hc. subst c. apply (starts_with_app "/"). }
    destruct (str_find (is_char ":") auth) as [i|] eqn:Ec.
    + apply str_find_some in Ec as (_ & Hc & _). split; [by apply str_all_take|]. split; [done|by apply str_all_drop].
    + apply str_find_none_all in Ec. done.
  - intros Hh Hp H1 H2 H3. split.
    + replace ("https://" +:+ h +:+ ":" +:+ p +:+ "/" +:+ t) with ("https://" +:+ (h +:+ ":" +:+ p) +:+ "/" +:+ t)
        by (by rewrite <- !str_app_assoc).
      rewrite parse_authority by (unfold without in *; by rewrite !str_all_app, H1, H3).
      rewrite str_find_app by done. cbn [str_find is_char Ascii.eqb Bool.eqb String.append fmap option_fmap option_map].
      rewrite Nat.add_0_r, str_take_app.
      replace (str_drop (S (String.length h)) (h +:+ String ":" p)) with p.
      * rewrite (proj2 (str_empty_false h) Hh), (proj2 (str_empty_false p) Hp). reflexivity.
      * replace (h +:+ String ":" p) with ((h +:+ ":") +:+ p) by (by rewrite <- str_app_assoc).
        replace (S (String.length h)) with (String.length (h +:+ ":")) by (rewrite length_str_app; cbn; lia).
        by rewrite str_drop_app.
    + rewrite parse_authority by done. rewrite (proj2 (str_find_none_all _ _) H2).
      cbv beta zeta iota. rewrite (proj2 (str_empty_false h) Hh). reflexivity.
Qed.

Lemma url_round_trip_witness :
  parse_https_url "https://clob.example:8443/auth/api-key"
  = Ok {| host := "clob.example"; port := "8443"; target := "/auth/api-key" |}.
Proof.
  apply (proj2 (url_round_trip "clob.example" "8443" "auth/api-key")); first [discriminate | reflexivity].
Defined.

(** ** A concrete network *)

Module DemoNet.
Definition fine (p : Parsed) : Attempt :=
  {| sni_ok := true; hostname_ok := true; resolve_race := ResolverFirst true true; connect_ok := true; keepalive_ok := true;
     handshake_ok := true; write_error := false; written := 120; read_outcome := ReadOk p |}.
Definition dead : Attempt :=
  {| sni_ok := true; hostname_ok := true; resolve_race := ResolverFirst true true; connect_ok := true; keepalive_ok := true;
     handshake_ok := true; write_error := true; written := 0; read_outcome := ReadError 0 |}.
Definition created : Parsed :=
  {| p_status := 201; p_body := "{}"; p_fields := []; p_need_eof := false; p_keep_alive := true |}.
(** The keep-alive stream died; the next connection works. *)
Definition net (n : nat) : Attempt := match n with O => dead | _ => fine created end.
Definition client : Client := {| m_stream := Some 0%nat; attempts := 0; log := [] |}.
End DemoNet.

Lemma request_once_transmits_once_witness :
  let '(r, c') := request_once "clob" default_options DemoNet.net post_ "/order" "{}" [] "application/json" DemoNet.client in
  is_ok r = true /\ attempts c' = 2%nat
  /\ exists new, log c' = new ++ [] /\ (length (List.filter transmitted new) <= 1)%nat.
Proof.
  cbv zeta. destruct (request_once _ _ _ _ _ _ _ _ _) as [r c'] eqn:E.
  pose proof (request_once_transmits_once _ _ _ _ _ _ _ _ _ _ _ E) as (_ & (new & Hl & Ht & _) & _).
  split; [by injection E as <- _|]. split; [by injection E as _ <-|]. exists new. by split.
Defined.

Lemma request_retry_bound_witness :
  let '(r, c') := request "clob" default_options DemoNet.net get_ "/book" "" [] "application/json" DemoNet.client in
  is_ok r = true /\ (0 < attempts c' <= 2)%nat.
Proof.
  destruct (request _ _ _ _ _ _ _ _ _) as [r c'] eqn:E.
  pose proof (request_retry_bound _ _ _ _ _ _ _ _ _ _ _ E) as [H _].
  split; [by injection E as <- _|exact H].
Defined.

Lemma post_once_replays_unsent_witness :
  let '(r, c') := post_once "clob" default_options DemoNet.net "/order" "{}" [] "application/json" DemoNet.client in
  let q := build_request "clob" post_ "/order" "{}" [] "application/json" in
  r = Ok {| status := 201; body := "{}"; headers := [] |}
  /\ log c' = [Sent 1 q 120; Connected 1; Sent 0 q 0].
Proof.
  destruct (post_once _ _ _ _ _ _ _ _) as [r c'] eqn:E.
  destruct (post_once_replays_unsent "clob" default_options DemoNet.net "/order" "{}" [] "application/json"
    DemoNet.client r c' E) as [H1 H2]. split; [exact H2|exact H1].
Defined.

(** The retry of [request] does not look at what was transferred: a POST whose
    bytes all left and whose response was lost is transmitted again. *)
Lemma post_replays_ambiguous net tgt bdy hs ct c st p :
  let a0 := net (attempts c) in let a1 := net (S (attempts c)) in
  m_stream c = Some st -> write_error a0 = false -> written a0 <> 0 -> read_outcome a0 = ReadError 0 ->
  sni_ok a1 = true -> hostname_ok a1 = true -> resolve_ok a1 = true -> connect_ok a1 = true ->
  keepalive_ok a1 = true -> handshake_ok a1 = true ->
  write_error a1 = false -> written a1 <> 0 -> read_outcome a1 = ReadOk p ->
  let '(r, c') := post "host" default_options net tgt bdy hs ct c in
  is_ok r = true
  /\ exists new, log c' = new ++ log c /\ length (List.filter transmitted new) = 2%nat.
Proof.
  cbv zeta. intros S0 W0 N0 R0 A1 A2 A3 A4 A5 A6 W1 N1 R1.
  unfold post, request. cbn [default_options retry_count request_loop]. unfold do_request at 1.
  cbn [m_stream attempts log]. rewrite S0. unfold transfer at 1. rewrite W0, R0.
  cbn [wait_for_transfer run_completions set_value future_get mbind result_bind].
  unfold do_request, close. cbn [m_stream attempts log record_event]. unfold connect.
  rewrite A1, A2, A3, A4, A5, A6. cbn [negb]. unfold transfer. rewrite W1, R1.
  split; [done|]. exists [Sent (S (attempts c)) (build_request "host" post_ tgt bdy hs ct) (written (net (S (attempts c))));
    Connected (S (attempts c)); Sent st (build_request "host" post_ tgt bdy hs ct) (written (net (attempts c)))].
  split; [by destruct (p_need_eof p || negb (p_keep_alive p))|].
  apply Z.eqb_neq in N0, N1. cbn [List.filter transmitted]. by rewrite N0, N1.
Qed.

(** What the accessors of [HttpBodyLimitError] give: status and headers of the
    refused response, no body, and the bound. *)
Definition body_limit_response (e : exn) : option (HttpResponse * Z) :=
  match e with
  | HttpBodyLimitError st fields limit => Some ({| status := st; body := ""; headers := fields |}, limit)
  | _ => None
  end.

(** ** The clients of a process

    Every [HttpsClient] of the process, by handle, and the shared runtime in
    its function-local static. *)

Record Owned := { ow_host : string; ow_options : HttpsClientOptions; ow_client : Client }.
Record Process := { slot : option HttpsRuntime; alive : gmap nat Owned; next_handle : nat }.

Inductive ProcessOp :=
  | NewClient (hst : string) (o : HttpsClientOptions)
  | Request_ (handle : nat) (method : verb) (tgt bdy : string) (hs : Headers) (ct : string)
  | RequestOnce_ (handle : nat) (method : verb) (tgt bdy : string) (hs : Headers) (ct : string)
  | DropClient (handle : nat)
  | ReadStats.

Section Processes.
(** What the network does to the n-th attempt of a client. *)
Context (net : nat -> nat -> Attempt).

Definition with_client (p : Process) (h : nat) (f : Owned -> Client) : Process :=
  match alive p !! h with
  | Some w => {| slot := slot p; next_handle := next_handle p;
                 alive := <[h := {| ow_host := ow_host w; ow_options := ow_options w; ow_client := f w |}]> (alive p) |}
  | None => p
  end.

Definition process_step (p : Process) (op : ProcessOp) : Process :=
  match op with
  | NewClient hst o =>
      match construct o (https_runtime (slot p)) with
      | Ok (c, rt) => {| slot := Some rt; next_handle := S (next_handle p);
          alive := <[next_handle p := {| ow_host := hst; ow_options := o; ow_client := c |}]> (alive p) |}
      | Throw _ => p
      end
  | Request_ h method tgt bdy hs ct =>
      with_client p h (fun w => snd (request (ow_host w) (ow_options w) (net h) method tgt bdy hs ct (ow_client w)))
  | RequestOnce_ h method tgt bdy hs ct =>
      with_client p h (fun w => snd (request_once (ow_host w) (ow_options w) (net h) method tgt bdy hs ct (ow_client w)))
  | DropClient h =>
      match alive p !! h with
      | Some w => {| slot := Some (snd (destroy (ow_client w) (https_runtime (slot p))));
                     next_handle := next_handle p; alive := delete h (alive p) |}
      | None => p
      end
  | ReadStats => {| slot := snd (https_runtime_stats (slot p)); next_handle := next_handle p; alive := alive p |}
  end.

Definition fresh_process : Process := {| slot := None; alive := ∅; next_handle := 0 |}.
Definition run_process (ops : list ProcessOp) : Process := fold_left process_step ops fresh_process.

(** The count is the number of clients alive, which the handles bound. *)
Record process_inv (n : nat) (p : Process) : Prop := {
  pi_handles h : is_Some (alive p !! h) -> (h < next_handle p)%nat;
  pi_next : (next_handle p <= n)%nat;
  pi_size : (size (alive p) <= next_handle p)%nat;
  pi_live : m_live_clients (https_runtime (slot p)) = Z.of_nat (size (alive p));
  pi_workers : m_workers (https_runtime (slot p)) = [0; 1]%nat;
}.

Lemma with_client_inv n p h f : process_inv n p -> process_inv n (with_client p h f).
Proof using.
  intros [H1 H2 H3 H4 H5]. unfold with_client. destruct (alive p !! h) as [w|] eqn:E; [|by split].
  split; cbn; [|done| | |done].
  - intros k. rewrite lookup_insert_is_Some. intros [<-|[_ Hk]]; [apply H1; by rewrite E|by apply H1].
  - rewrite map_size_insert_Some by (by rewrite E). done.
  - rewrite map_size_insert_Some by (by rewrite E). done.
Qed.

Lemma process_step_inv n p op :
  Z.of_nat (S n) < 2 ^ 64 -> process_inv n p -> process_inv (S n) (process_step p op).
Proof using.
  intros Hn HI. assert (Hup : forall q, process_inv n q -> process_inv (S n) q)
    by (intros q [? ? ? ? ?]; split; auto; lia).
  destruct op as [hst o|h| |h|]; cbn [process_step]; [|by apply Hup, with_client_inv..| |].
  - unfold construct. destruct (throw_if _ _); cbn [mbind result_bind]; [|by apply Hup].
    destruct HI as [H1 H2 H3 H4 H5].
    assert (Hnew : alive p !! next_handle p = None).
    { destruct (alive p !! next_handle p) eqn:E; [|done]. assert (next_handle p < next_handle p)%nat; [|lia].
      apply H1. by rewrite E. }
    split; cbn; [|lia| | |done].
    + intros k. rewrite lookup_insert_is_Some. intros [<-|[_ Hk%H1]]; lia.
    + rewrite map_size_insert_None by done. lia.
    + rewrite map_size_insert_None, H4 by done. rewrite u64_small; [lia|]. unfold in_u64. lia.
  - destruct (alive p !! h) as [w|] eqn:E; [|by apply Hup]. destruct HI as [H1 H2 H3 H4 H5].
    assert (Hs : size (alive p) = S (size (delete h (alive p)))).
    { rewrite (map_size_delete_Some _ _) by (by rewrite E). assert (size (alive p) <> 0%nat); [|lia].
      intros H0. apply map_size_empty_inv in H0. by rewrite H0, lookup_empty in E. }
    split; cbn; [|lia|lia| |done].
    + intros k [_ Hk]%lookup_delete_is_Some. by apply H1.
    + rewrite H4, Hs, u64_small; [lia|]. unfold in_u64. lia.
  - destruct HI as [H1 H2 H3 H4 H5]. split; cbn; auto; lia.
Qed.

(** ** Verified streams *)

(** Server name and host check set, name resolved, TCP and TLS up. *)
Definition verified (a : Attempt) : bool :=
  sni_ok a && hostname_ok a && resolve_ok a && connect_ok a && keepalive_ok a && handshake_ok a.

(** Every connection of the log was verified, and everything sent went over a
    stream that the log shows connected before. *)
Record secure_log (n : nat -> Attempt) (l : list NetEvent) : Prop := {
  sl_connected st : Connected st ∈ l -> verified (n st) = true;
  sl_sent new old st q k : l = new ++ Sent st q k :: old -> Connected st ∈ old;
}.
Definition secure (n : nat -> Attempt) (c : Client) : Prop :=
  secure_log n (log c) /\ forall st, m_stream c = Some st -> Connected st ∈ log c.

Lemma secure_log_connected n l st : verified (n st) = true -> secure_log n l -> secure_log n (Connected st :: l).
Proof using.
  intros Hv [H1 H2]. split.
  - intros x [Hx|Hx]%elem_of_cons; [by injection Hx as ->|auto].
  - intros [|e new] old x q k Heq; [done|]. injection Heq as <- Heq. by eapply H2.
Qed.
Lemma secure_log_sent n l st q k : Connected st ∈ l -> secure_log n l -> secure_log n (Sent st q k :: l).
Proof using.
  intros Hc [H1 H2]. split.
  - intros x [Hx|Hx]%elem_of_cons; [done|auto].
  - intros [|e new] old x q' k' Heq; injection Heq as; subst; [done|]. by eapply H2.
Qed.

Lemma secure_close n c : secure_log n (log c) -> secure n (close c).
Proof using. intros H. by split. Qed.

Lemma connect_secure n k c r c' :
  secure_log n (log c) -> connect (k) (n (k)) c = (r, c') ->
  secure_log n (log c') /\ (is_ok r = true -> secure n c' /\ m_stream c' = Some (k)).
Proof using.
  intros Hs. unfold connect. change stage_error with negb.
  destruct (verified (n (k))) eqn:Ev; pose proof Ev as Hv; unfold verified in Ev.
  - repeat rewrite andb_true_iff in Ev. destruct Ev as [[[[[-> ->] ->] ->] ->] ->]. cbn [negb].
    intros [= <- <-]. cbn. assert (H : secure_log n (Connected (k) :: log c)).
    { by apply secure_log_connected. }
    split; [done|]. intros _. split; [|done]. split; [done|]. intros st [= <-]. apply list_elem_of_here.
  - intros Hc. repeat (case_match; [injection Hc as <- <-; by split|]).
    repeat match goal with H : negb _ = false |- _ => apply negb_false_iff in H; rewrite H in Ev end. done.
Qed.
End Processes.

Section Secured.
Context (m_host : string) (m_options : HttpsClientOptions) (net : nat -> Attempt).
Context (method : verb) (tgt bdy : string) (hs : Headers) (ct : string).

Lemma transfer_secure st a q c r c' :
  secure net c -> m_stream c = Some st -> transfer m_options st a q c = (r, c') ->
  secure_log net (log c') /\ (is_ok r = true -> secure net c').
Proof using.
  intros [Hs Hst] Hm. unfold transfer.
  assert (H : secure_log net (Sent st q (written a) :: log c)) by (apply secure_log_sent; auto).
  assert (H' : forall x, m_stream c = Some x -> Connected x ∈ Sent st q (written a) :: log c)
    by (intros x Hx; apply list_elem_of_further; auto).
  cbn [wait_for_transfer run_completions set_value future_get mbind result_bind].
  destruct (write_error a); [by intros [= <- <-]|]. destruct (read_outcome a); [|by intros [= <- <-]..].
  intros [= <- <-]. case_match; cbn; (split; [done|]); intros _; by split.
Qed.

Lemma do_request_secure c r c' :
  secure net c -> do_request m_host m_options net method tgt bdy hs ct c = (r, c') ->
  secure_log net (log c') /\ (is_ok r = true -> secure net c').
Proof using.
  intros Hs. unfold do_request. cbn [m_stream].
  set (c1 := {| m_stream := m_stream c; attempts := S (attempts c); log := log c |}).
  destruct (m_stream c) as [st|] eqn:Em.
  - subst c1. cbn [m_stream]. apply transfer_secure; [|done].
    destruct Hs as [H1 H2]. split; [done|]. cbn. intros x [= <-]. by apply H2.
  - destruct (connect (attempts c) (net (attempts c)) c1) as [rc cc] eqn:Ec.
    destruct (connect_secure net _ _ _ _ (proj1 Hs : secure_log net (log c1)) Ec) as [H1 H2].
    destruct rc as [u|e]; [|by intros [= <- <-]]. destruct (H2 eq_refl) as [H3 H4]. rewrite H4.
    by apply transfer_secure.
Qed.

Lemma request_secure c : secure net c -> secure net (snd (request m_host m_options net method tgt bdy hs ct c)).
Proof using.
  unfold request. generalize (retry_count m_options). intros k. revert c. induction k as [|k IH]; intros c Hs;
    cbn [request_loop]; destruct (do_request _ _ _ _ _ _ _ _ c) as [r c'] eqn:E;
    destruct (do_request_secure _ _ _ Hs E) as [H1 H2]; destruct r; cbn [snd]; auto using secure_close.
Qed.

Lemma request_once_secure c :
  secure net c -> secure net (snd (request_once m_host m_options net method tgt bdy hs ct c)).
Proof using.
  intros Hs. unfold request_once. destruct (do_request _ _ _ _ _ _ _ _ c) as [r c'] eqn:E.
  destruct (do_request_secure _ _ _ Hs E) as [H1 H2]. destruct r as [|e]; [by apply H2|].
  destruct (replayable e); [|by apply secure_close].
  destruct (do_request _ _ _ _ _ _ _ _ (close c')) as [r2 c2] eqn:E2.
  destruct (do_request_secure _ _ _ (secure_close _ _ H1) E2) as [H3 H4].
  destruct r2; [by apply H4|by apply secure_close].
Qed.
End Secured.

Section ProcessClaims.
Context (net : nat -> nat -> Attempt).

Lemma process_step_secure p op :
  (forall h w, alive p !! h = Some w -> secure (net h) (ow_client w)) ->
  forall h w, alive (process_step net p op) !! h = Some w -> secure (net h) (ow_client w).
Proof using.
  assert (Hwith : forall h0 f, (forall w, alive p !! h0 = Some w -> secure (net h0) (ow_client w) ->
      secure (net h0) (f w)) -> (forall h w, alive p !! h = Some w -> secure (net h) (ow_client w)) ->
      forall h w, alive (with_client p h0 f) !! h = Some w -> secure (net h) (ow_client w)).
  { intros h0 f Hf Hp h w. unfold with_client. destruct (alive p !! h0) as [w0|] eqn:E; [|by apply Hp]. cbn.
    intros [[<- <-]|[_ Hw]]%lookup_insert_Some; [cbn; auto|by apply Hp]. }
  intros Hp. destruct op as [hst o|h0|h0|h0|]; cbn [process_step].
  - unfold construct. destruct (throw_if _ _); cbn [mbind result_bind]; [|exact Hp]. cbn. intros h w.
    intros [[<- <-]|[_ Hw]]%lookup_insert_Some; [|by apply Hp]. cbn. split; [split|]; cbn; [by intros st ?%elem_of_nil| |done].
    by intros [] ? ? ? ?.
  - apply Hwith; [|exact Hp]. intros w _. apply request_secure.
  - apply Hwith; [|exact Hp]. intros w _. apply request_once_secure.
  - destruct (alive p !! h0) as [w0|]; [|exact Hp]. cbn. intros h w [_ Hw]%lookup_delete_Some. by apply Hp.
  - exact Hp.
Qed.

(** C20: nothing is sent over an unverified stream.  For every client of the
    process and every run, each request in its log went over a stream that the
    same client had connected before, in an attempt in which the server name
    and the host check were set and name resolution, TCP and the TLS handshake
    all succeeded; a stream left behind by a failed connection attempt is never
    written to. *)
Theorem sent_over_verified_tls ops h w new old st q k :
  alive (run_process net ops) !! h = Some w ->
  log (ow_client w) = new ++ Sent st q k :: old ->
  Connected st ∈ old /\ verified (net h st) = true.
Proof using.
  intros Hw Hl.
  assert (Hs : forall h w, alive (run_process net ops) !! h = Some w -> secure (net h) (ow_client w)).
  { unfold run_process. clear Hw. induction ops as [|op ops IH] using rev_ind;
      [by intros h' w'; cbn; rewrite lookup_empty|].
    rewrite fold_left_app. by apply process_step_secure. }
  destruct (Hs h w Hw) as [[H1 H2] _]. pose proof (H2 _ _ _ _ _ Hl) as Hc. split; [done|]. apply H1.
  rewrite Hl. apply elem_of_app. right. by apply list_elem_of_further.
Qed.

(** The process-wide statistics are exact.  Whatever sequence of clients
    is constructed (also with rejected options), used and destroyed, the
    executor has its two workers and its atomic count of live clients is the
    number of clients alive: a rejected construction is not counted, and the
    count never wraps below zero. *)
Theorem live_clients_exact ops :
  Z.of_nat (length ops) < 2 ^ 64 ->
  fst (https_runtime_stats (slot (run_process net ops)))
  = {| worker_threads := 2; live_clients := Z.of_nat (size (alive (run_process net ops))) |}.
Proof using.
  intros Hn. assert (HI : process_inv (length ops) (run_process net ops)).
  { unfold run_process. induction ops as [|op ops IH] using rev_ind; [by split; cbn; try (intros ? []); try lia|].
    rewrite fold_left_app, length_app, Nat.add_1_r in *. cbn [fold_left length] in *.
    apply process_step_inv; [lia|]. apply IH. lia. }
  destruct HI as [_ _ _ H4 H5]. cbn. unfold stats. by rewrite H4, H5.
Qed.
End ProcessClaims.

Lemma live_clients_exact_witness :
  let ops := [NewClient "a" default_options; NewClient "b" (Build_HttpsClientOptions 0 1 1 1 1 1 1 1);
    NewClient "c" default_options; Request_ 0 get_ "/" "" [] "application/json"; DropClient 0; DropClient 0] in
  fst (https_runtime_stats (slot (run_process (fun _ => DemoNet.net) ops)))
  = {| worker_threads := 2; live_clients := Z.of_nat (size (alive (run_process (fun _ => DemoNet.net) ops))) |}
  /\ size (alive (run_process (fun _ => DemoNet.net) ops)) = 1%nat.
Proof. split; [apply live_clients_exact; cbn; lia|vm_compute; reflexivity]. Defined.

Lemma sent_over_verified_tls_witness :
  let p := run_process (fun _ _ => DemoNet.fine DemoNet.created)
    [NewClient "a" default_options; Request_ 0 get_ "/" "" [] "application/json"] in
  exists w st q k old, alive p !! 0%nat = Some w /\ log (ow_client w) = Sent st q k :: old
    /\ Connected st ∈ old /\ verified (DemoNet.fine DemoNet.created) = true.
Proof.
  eexists _, _, _, _, _. split; [reflexivity|]. split; [reflexivity|].
  apply (sent_over_verified_tls (fun _ _ => DemoNet.fine DemoNet.created)
    [NewClient "a" default_options; Request_ 0 get_ "/" "" [] "application/json"] 0%nat _ []
    _ 0%nat _ _ eq_refl eq_refl).
Defined.
