(* ===== verification/DepositRpc.v ===== *)
(** * Deposit wallets over HTTPS ([src/pm/deposit_wallet_rpc.cpp])

    [HttpsEthRpc], the JSON-RPC adapter over the HTTPS client, and the URL
    overload of [resolve_deposit_wallet] that drives the resolution of
    DepositWallet.v through it. *)

From Stdlib Require Import Ascii String ZArith Lia.
From stdpp Require Import base list strings numbers.
From S2P Require Import Prelude Interfaces Keccak Keys Amounts Signing DepositWallet Runtime Http.

Open Scope Z_scope.

(** [id_] is a [uint64_t]. *)
Record HttpsEthRpc := { endpoint_ : HttpsUrl; client_ : Client; id_ : Z }.

(** The client has the default options. *)
Definition make_rpc (rpc_url : string) (rt : HttpsRuntime) : result (HttpsEthRpc * HttpsRuntime) :=
  endpoint ← parse_https_url rpc_url;
  r ← construct default_options rt;
  Ok ({| endpoint_ := endpoint; client_ := fst r; id_ := 0 |}, snd r).

Section Rpc.
Context (read_json : string -> option RpcEnvelope) (net : nat -> Attempt).

Definition call (method params_json : string) : ST HttpsEthRpc string := fun rpc =>
  let id := u64 (id_ rpc + 1) in
  let bdy := rpc_body method params_json id in
  let '(r, client) := post (host (endpoint_ rpc)) default_options net (Http.target (endpoint_ rpc)) bdy []
    "application/json" (client_ rpc) in
  let rpc := {| endpoint_ := endpoint_ rpc; client_ := client; id_ := id |} in
  match r with
  | Ok response => (rpc_reply read_json (status response) (body response), rpc)
  | Throw e => (Throw e, rpc)
  end.

(** The lambda of the URL overload. *)
Definition https_call (method params_json : string) : ST HttpsEthRpc string := fun rpc =>
  let '(r, rpc) := call method params_json rpc in (adapt_reply method r, rpc).

(** The URL overload; the client is destroyed on every path. *)
Definition resolve_deposit_wallet_url `{EI : Eip712Lib} (own : Bytes) (rpc_url : string) (rt : HttpsRuntime) :
    result DepositWalletResolution * Client * HttpsRuntime :=
  match make_rpc rpc_url rt with
  | Throw e => (Throw e, {| m_stream := None; attempts := 0; log := [] |}, rt)
  | Ok (rpc, rt) =>
      let '(r, rpc) := resolve_deposit_wallet https_call own rpc in
      let '(client, rt) := destroy (client_ rpc) rt in
      (r, client, rt)
  end.
End Rpc.

(** ** What the resolution does to the state of its callback *)

Section Graded.
Context {S : Type} (I : nat -> S -> Prop).

(** [m] moves the invariant on by at most [n] calls. *)
Definition graded {A} (n : nat) (m : ST S A) : Prop :=
  forall k s r s', I k s -> m s = (r, s') -> exists j, (j <= n)%nat /\ I (k + j)%nat s'.

Lemma graded_bind {A B} n p (m : ST S A) (f : A -> ST S B) :
  graded n m -> (forall a, graded p (f a)) -> graded (n + p) (m ≫= f).
Proof using.
  intros Hm Hf k s r s' Hi H. unfold mbind, ST_bind in H. destruct (m s) as [[a|e] s1] eqn:E.
  - destruct (Hm _ _ _ _ Hi E) as (j & Hj & H1). destruct (Hf a _ _ _ _ H1 H) as (j' & Hj' & H2).
    exists (j + j')%nat. split; [lia|]. by rewrite Nat.add_assoc.
  - injection H as _ <-. destruct (Hm _ _ _ _ Hi E) as (j & Hj & H1). exists j. split; [lia|done].
Qed.

Lemma graded_pure {A} (r : result A) : graded 0 (pure_call r).
Proof using. intros k s r' s' Hi [= _ <-]. exists 0%nat. by rewrite Nat.add_0_r. Qed.
Lemma graded_ret {A} (a : A) : graded 0 (mret a).
Proof using. intros k s r' s' Hi [= _ <-]. exists 0%nat. by rewrite Nat.add_0_r. Qed.

Context `{L : U256Lib} {EI : @Eip712Lib L} (rpc_call : string -> string -> ST S string).
Hypothesis Hcall : forall m p k s r s', m = "eth_call" \/ m = "eth_getCode" -> I k s -> rpc_call m p s = (r, s') ->
  I (Datatypes.S k) s'.

Lemma graded_call m p : m = "eth_call" \/ m = "eth_getCode" -> graded 1 (rpc_call m p).
Proof using Hcall. intros Hm k s r s' Hi H. exists 1%nat. split; [done|]. rewrite Nat.add_1_r. by eapply Hcall. Qed.

(** The resolution makes at most three calls. *)
Lemma resolve_graded own : graded 3 (resolve_deposit_wallet rpc_call own).
Proof using Hcall.
  apply (graded_bind 0 3); [apply graded_pure|intros factory].
  apply (graded_bind 1 2); [apply graded_call; auto|intros reply].
  apply (graded_bind 0 2); [apply graded_pure|intros fb].
  apply (graded_bind 0 2); [apply graded_pure|intros u].
  apply (graded_bind 1 1); [apply graded_call; auto|intros code].
  apply (graded_bind 0 1); [apply graded_pure|intros ud].
  apply (graded_bind 1 0); [|intros bd; apply graded_ret].
  destruct (negb (is_zero_address fb)).
  - apply (graded_bind 0 1); [apply graded_pure|intros b].
    apply (graded_bind 1 0); [apply graded_call; auto|intros code'].
    apply (graded_bind 0 0); [apply graded_pure|intros d; apply graded_ret].
  - intros k s r s' Hi H. destruct (graded_ret (zero_address, false) k s r s' Hi H) as (j & Hj & H1).
    exists j. split; [lia|done].
Qed.
End Graded.

(** ** The requests on the wire *)

(** After [n] calls to [u]: the next id, and a log of the numbered POSTs only. *)
Record rpc_trace (u : HttpsUrl) (n : nat) (rpc : HttpsEthRpc) : Prop := {
  rt_endpoint : endpoint_ rpc = u;
  rt_id : id_ rpc = Z.of_nat n;
  rt_attempts : (attempts (client_ rpc) <= 2 * n)%nat;
  rt_log st q k : Sent st q k ∈ log (client_ rpc) ->
    exists m p i, 1 <= i <= Z.of_nat n /\ (m = "eth_call" \/ m = "eth_getCode")
      /\ q = build_request (host u) post_ (Http.target u) (rpc_body m p i) [] "application/json";
}.

Lemma https_call_trace read_json net u m p k rpc r rpc' :
  (k < 3)%nat -> m = "eth_call" \/ m = "eth_getCode" -> rpc_trace u k rpc ->
  https_call read_json net m p rpc = (r, rpc') -> rpc_trace u (S k) rpc'.
Proof.
  intros Hk Hm [H1 H2 H3 H4]. unfold https_call, call. cbv zeta.
  destruct (post _ _ _ _ _ _ _ _) as [res c'] eqn:E. intros H.
  assert (Hr : rpc' = {| endpoint_ := endpoint_ rpc; client_ := c'; id_ := u64 (id_ rpc + 1) |})
    by (destruct res; by injection H as _ <-).
  assert (Hid : u64 (id_ rpc + 1) = Z.of_nat (S k)).
  { rewrite H2, u64_small; [lia|]. unfold in_u64. split; [lia|]. transitivity 4; [lia|done]. }
  unfold post, request in E. pose proof (request_loop_adds _ _ _ _ _ _ _ _ _ _ _ _ E) as (new & Hl & _ & Hq).
  pose proof (request_loop_attempts _ _ _ _ _ _ _ _ _ _ _ _ E) as Hat. cbn [default_options retry_count] in Hat.
  rewrite Hr. split; cbn [endpoint_ client_ id_]; [done|done|lia|].
  intros st q b. rewrite Hl. intros [Hin|Hin]%elem_of_app.
  - exists m, p, (Z.of_nat (S k)). split; [lia|]. split; [done|]. rewrite (Hq _ _ _ Hin), H1, Hid. done.
  - destruct (H4 _ _ _ Hin) as (m' & p' & i & ? & ? & ?). exists m', p', i. split; [lia|done].
Qed.

(** C29: resolving over HTTPS.  A URL that is not https fails before any client
    exists.  Otherwise every request on the wire is a POST to the URL's host and
    target whose body is one of at most three numbered JSON-RPC calls, eth_call
    or eth_getCode, so at most six attempts are made; the client is gone
    afterwards and the process-wide count is what it was.  A result is what the
    resolution computes from the adapted replies, call after call. *)
Theorem resolution_over_https `{L : U256Lib} {EI : @Eip712Lib L} read_json net own rpc_url rt r c rt' :
  in_u64 (m_live_clients rt) ->
  resolve_deposit_wallet_url read_json net own rpc_url rt = (r, c, rt') ->
  rt' = rt /\ m_stream c = None
  /\ match parse_https_url rpc_url with
     | Throw e => r = Throw e /\ log c = [] /\ attempts c = 0%nat
     | Ok u =>
         (attempts c <= 6)%nat
         /\ (forall st q k, Sent st q k ∈ log c ->
               exists m p i, 1 <= i <= 3 /\ (m = "eth_call" \/ m = "eth_getCode")
                 /\ q = build_request (host u) post_ (Http.target u) (rpc_body m p i) [] "application/json")
         /\ exists rpc, resolve_deposit_wallet (https_call read_json net) own
              {| endpoint_ := u; client_ := {| m_stream := None; attempts := 0; log := [] |}; id_ := 0 |} = (r, rpc)
     end.
Proof.
  intros Hrt. unfold resolve_deposit_wallet_url, make_rpc, destroy.
  destruct (parse_https_url rpc_url) as [u|e]; cbn [mbind result_bind]; [|by intros [= <- <- <-]].
  assert (Hc : construct default_options rt = Ok ({| m_stream := None; attempts := 0; log := [] |}, add_client rt))
    by done. rewrite Hc. cbn [mbind result_bind fst snd].
  set (rpc0 := {| endpoint_ := u; client_ := _; id_ := 0 |}).
  destruct (resolve_deposit_wallet (https_call read_json net) own rpc0) as [res rpc] eqn:E.
  intros [= <- <- <-]. split; [by apply add_remove_client|]. split; [done|].
  assert (H : exists j, (j <= 3)%nat /\ rpc_trace u j rpc).
  { assert (H0 : (0 < 4)%nat /\ rpc_trace u 0 rpc0) by (split; [lia|]; split; cbn; [done|done|lia|by intros ??? ?%elem_of_nil]).
    destruct (resolve_graded (fun k s => (k <= 3)%nat -> rpc_trace u k s) (https_call read_json net)
      (fun m p k s r s' Hm Hi Hc Hk => https_call_trace read_json net u m p k s r s' ltac:(lia) Hm (Hi ltac:(lia)) Hc)
      own 0%nat rpc0 _ _ (fun _ => proj2 H0) E) as (j & Hj & Hi). exists j. split; [lia|]. by apply Hi. }
  destruct H as (j & Hj & [T1 T2 T3 T4]). cbn [close attempts log]. split; [lia|]. split; [|by eexists].
  intros st q k Hin. destruct (T4 _ _ _ Hin) as (m & p & i & ? & ? & ?). exists m, p, i. split; [lia|done].
Qed.

Module DemoRpc.
(** A node that answers every call with an empty code. *)
Definition json (b : string) : option RpcEnvelope := Some {| rpc_result := Some "0x"; rpc_error := None |}.
Definition answer : Parsed :=
  {| p_status := 200; p_body := "{}"; p_fields := []; p_need_eof := false; p_keep_alive := true |}.
Definition net (_ : nat) : Attempt := DemoNet.fine answer.
Definition run : result DepositWalletResolution * Client * HttpsRuntime :=
  resolve_deposit_wallet_url (EI := eip712_reference) json net WalletVectors.test_owner
    "https://rpc.example/v1" make_runtime.
End DemoRpc.

Lemma resolution_over_https_witness :
  let '(r, c, rt) := DemoRpc.run in
  is_ok r = true /\ rt = make_runtime /\ (attempts c <= 6)%nat.
Proof.
  destruct DemoRpc.run as [[r c] rt] eqn:E.
  assert (Hok : is_ok (fst (fst DemoRpc.run)) = true) by (vm_compute; reflexivity). rewrite E in Hok.
  split; [exact Hok|].
  destruct (resolution_over_https (EI := eip712_reference) DemoRpc.json DemoRpc.net WalletVectors.test_owner
    "https://rpc.example/v1" make_runtime r c rt) as (H1 & _ & H2 & _); [by split|exact E|].
  split; [exact H1|exact H2].
Defined.
