(* ===== verification/Feeds.v ===== *)
(** * The streaming feeds ([src/pm/market_ws.cpp], [user_ws.cpp], [rtds.cpp])

    Each feed keeps its desired subscription and talks through a [WsClient].
    Frames are data; the JSON writer (glaze) is a parameter. *)

From Stdlib Require Import Ascii String ZArith Lia.
From stdpp Require Import base list sets strings numbers relations.
From S2P Require Import Prelude Auth WriteQueue WsClient.

Open Scope Z_scope.

(** ** Subscription deltas *)

Record SubscriptionDelta := { add : list string; remove : list string }.

(** [std::find(l.begin(), l.end(), x) != l.end()] *)
Definition found (x : string) (l : list string) : bool := existsb (String.eqb x) l.

Definition delta (desired active : list string) : SubscriptionDelta :=
  {| add := List.filter (fun t => negb (found t active)) desired;
     remove := List.filter (fun t => negb (found t desired)) active |}.

(** ** The market feed *)

Inductive MarketFrame :=
  | InitialSub (assets_ids : list string)
  | SubscribeOp (assets_ids : list string)
  | UnsubscribeOp (assets_ids : list string).

Record MarketWs := {
  desired_ : list string;
  active_ : list string;
  on_raw_ : option (string -> list Call);
  on_activity_ : option (list Call);
  feed_on_open_ : option (list Call);
}.

Definition set_sets (d a : list string) (f : MarketWs) : MarketWs :=
  {| desired_ := d; active_ := a; on_raw_ := on_raw_ f; on_activity_ := on_activity_ f;
     feed_on_open_ := feed_on_open_ f |}.

(** The callback installed in the constructor. *)
Definition market_on_message (f : MarketWs) (msg : string) : list Call :=
  default [] (on_activity_ f)
  ++ (if String.eqb msg "PONG" then [] else match on_raw_ f with Some h => h msg | None => [] end).

(** Setters of the application's callbacks. *)
Definition market_set_on_message (h : option (string -> list Call)) (f : MarketWs) : MarketWs :=
  {| desired_ := desired_ f; active_ := active_ f; on_raw_ := h; on_activity_ := on_activity_ f;
     feed_on_open_ := feed_on_open_ f |}.
Definition market_set_on_activity (h : option (list Call)) (f : MarketWs) : MarketWs :=
  {| desired_ := desired_ f; active_ := active_ f; on_raw_ := on_raw_ f; on_activity_ := h;
     feed_on_open_ := feed_on_open_ f |}.
Definition market_set_on_open (h : option (list Call)) (f : MarketWs) : MarketWs :=
  {| desired_ := desired_ f; active_ := active_ f; on_raw_ := on_raw_ f; on_activity_ := on_activity_ f;
     feed_on_open_ := h |}.

Section Market.
Context (write_json : MarketFrame -> option string).

Definition write_message (f : MarketFrame) : result string :=
  of_option (RuntimeError "could not serialize market websocket message") (write_json f).

(** [market_ws_protocol]: the text of each message. *)
Definition market_initial_subscription (token_ids : list string) : result string :=
  write_message (InitialSub token_ids).
Definition market_subscribe_op (token_ids : list string) : result string :=
  write_message (SubscribeOp token_ids).
Definition market_unsubscribe_op (token_ids : list string) : result string :=
  write_message (UnsubscribeOp token_ids).

(** [send_initial]: the frames handed to [ws_->send], in order. *)
Definition send_initial (f : MarketWs) : result (MarketWs * list MarketFrame) :=
  let desired := desired_ f in
  let f := set_sets (desired_ f) (desired_ f) f in
  match desired with
  | [] => Ok (f, [])
  | _ => market_initial_subscription desired;; Ok (f, [InitialSub desired])
  end.

(** [connected] is the atomic flag [ws_->connected()] at the call. *)
Definition subscribe (token_ids : list string) (connected : bool) (f : MarketWs) :
    result (MarketWs * list MarketFrame) :=
  let change := if connected then delta token_ids (active_ f) else {| add := []; remove := [] |} in
  let f := set_sets token_ids (if connected then token_ids else active_ f) f in
  if negb connected then Ok (f, [])
  else
    a ← match add change with
        | [] => Ok []
        | l => market_subscribe_op l;; Ok [SubscribeOp l]
        end;
    r ← match remove change with
        | [] => Ok []
        | l => market_unsubscribe_op l;; Ok [UnsubscribeOp l]
        end;
    Ok (f, a ++ r).
End Market.

(** ** The user feed *)

Inductive UserFrame :=
  | UserInitial (auth : ApiCreds) (markets : list string)
  | UserSubscribe (markets : list string)
  | UserUnsubscribe (markets : list string).

Record UserWs := {
  u_creds : ApiCreds;
  u_desired : list string;
  u_active : list string;
  u_on_raw : option (string -> list Call);
  u_on_open : option (list Call);
}.

Definition set_user (c : ApiCreds) (d a : list string) (f : UserWs) : UserWs :=
  {| u_creds := c; u_desired := d; u_active := a; u_on_raw := u_on_raw f; u_on_open := u_on_open f |}.

(** The callback installed in the constructor. *)
Definition user_on_message (f : UserWs) (msg : string) : list Call :=
  if String.eqb msg "PONG" then [] else match u_on_raw f with Some h => h msg | None => [] end.

Definition user_set_on_message (h : option (string -> list Call)) (f : UserWs) : UserWs :=
  {| u_creds := u_creds f; u_desired := u_desired f; u_active := u_active f; u_on_raw := h;
     u_on_open := u_on_open f |}.
Definition user_set_on_open (h : option (list Call)) (f : UserWs) : UserWs :=
  {| u_creds := u_creds f; u_desired := u_desired f; u_active := u_active f; u_on_raw := u_on_raw f;
     u_on_open := h |}.

(** [user_ws_protocol::delta], written out a second time in [user_ws.cpp]. *)
Definition user_delta (desired active : list string) : SubscriptionDelta :=
  {| add := List.filter (fun t => negb (found t active)) desired;
     remove := List.filter (fun t => negb (found t desired)) active |}.

Section User.
Context (write_json : UserFrame -> option string).

Definition write_user (f : UserFrame) : result string :=
  of_option (RuntimeError "could not serialize user websocket message") (write_json f).

Definition user_initial_subscription (creds : ApiCreds) (condition_ids : list string) : result string :=
  write_user (UserInitial creds condition_ids).
Definition user_subscribe_op (condition_ids : list string) : result string :=
  write_user (UserSubscribe condition_ids).
Definition user_unsubscribe_op (condition_ids : list string) : result string :=
  write_user (UserUnsubscribe condition_ids).

(** The frame goes to [ws_->send_first]. *)
Definition user_send_initial (f : UserWs) : result (UserWs * string) :=
  let f := set_user (u_creds f) (u_desired f) (u_desired f) f in
  t ← user_initial_subscription (u_creds f) (u_desired f);
  Ok (f, t).

Definition user_subscribe (ids : list string) (connected : bool) (f : UserWs) : result (UserWs * list UserFrame) :=
  let change := if connected then user_delta ids (u_active f) else {| add := []; remove := [] |} in
  let f := set_user (u_creds f) ids (if connected then ids else u_active f) f in
  if negb connected then Ok (f, [])
  else
    a ← match add change with
        | [] => Ok []
        | l => user_subscribe_op l;; Ok [UserSubscribe l]
        end;
    r ← match remove change with
        | [] => Ok []
        | l => user_unsubscribe_op l;; Ok [UserUnsubscribe l]
        end;
    Ok (f, a ++ r).

Definition replace_subscription (ids : list string) (f : UserWs) : UserWs * Call :=
  (set_user (u_creds f) ids (u_active f) f, CallKick).
End User.

(** The bytes are zeroed in place, then the string is emptied. *)
Definition secure_clear (value : string) : string :=
  str_take 0 (str_map (fun _ => Ascii.zero) value).

Definition user_stop_completion (f : UserWs) : UserWs :=
  set_user {| api_key := secure_clear (api_key (u_creds f)); secret := secure_clear (secret (u_creds f));
              passphrase := secure_clear (passphrase (u_creds f)) |} (u_desired f) (u_active f) f.

(** ** The real-time data feed *)

Definition wrap_action (action sub_json : string) : string :=
  "{" +:+ quote +:+ "action" +:+ quote +:+ ":" +:+ quote +:+ action +:+ quote +:+ "," +:+ quote
  +:+ "subscriptions" +:+ quote +:+ ":[" +:+ sub_json +:+ "]}".

Record Rtds := { subs_ : list string; rtds_on_raw : option (string -> list Call) }.

(** [connected] in, the frames sent now out. *)
Definition send_sub (subscription_json : string) (connected : bool) (f : Rtds) : Rtds * list string :=
  let sent := if connected then [wrap_action "subscribe" subscription_json] else [] in
  ({| subs_ := subs_ f ++ [subscription_json]; rtds_on_raw := rtds_on_raw f |}, sent).

Definition filter_sub (topic symbol : string) : string :=
  let q := quote in
  let bq := "\" +:+ quote in
  "{" +:+ q +:+ "topic" +:+ q +:+ ":" +:+ q +:+ topic +:+ q +:+ "," +:+ q +:+ "type" +:+ q +:+ ":" +:+ q
  +:+ "*" +:+ q +:+ "," +:+ q +:+ "filters" +:+ q +:+ ":" +:+ q +:+ "{" +:+ bq +:+ "symbol" +:+ bq +:+ ":"
  +:+ bq +:+ symbol +:+ bq +:+ "}" +:+ q +:+ "}".

Fixpoint subscribe_crypto_prices (symbols : list string) (connected : bool) (f : Rtds) : Rtds * list string :=
  match symbols with
  | [] => (f, [])
  | sym :: rest =>
      let '(f, sent) := send_sub (filter_sub "crypto_prices" sym) connected f in
      let '(f, more) := subscribe_crypto_prices rest connected f in
      (f, sent ++ more)
  end.

Definition subscribe_crypto_prices_chainlink (symbol : string) (connected : bool) (f : Rtds) : Rtds * list string :=
  send_sub (filter_sub "crypto_prices_chainlink" symbol) connected f.

Definition rtds_on_open (f : Rtds) : list Call := CallSend ∘ wrap_action "subscribe" <$> subs_ f.

Definition rtds_on_message (f : Rtds) (msg : string) : list Call :=
  if String.eqb msg "PONG" || String.eqb msg "pong" || str_empty msg then []
  else match rtds_on_raw f with Some h => h msg | None => [] end.

Definition rtds_set_on_message (h : option (string -> list Call)) (f : Rtds) : Rtds :=
  {| subs_ := subs_ f; rtds_on_raw := h |}.

(** ** The venue's side of a market session

    What the comments of [market_ws.hpp] say about the server: the first full
    subscription of a session sets the assets, a later one has no effect, and
    the dynamic operations adjust the set.  Of operations that precede the full
    subscription, or of a session without one, they say nothing: keeping
    them is an assumption of this definition ([FeedRace] states its
    result for every venue that does what is documented). *)
Record Venue := { subscribed : bool; assets : list string }.
Definition fresh_session : Venue := {| subscribed := false; assets := [] |}.

Definition venue_step (v : Venue) (m : MarketFrame) : Venue :=
  match m with
  | InitialSub l => if subscribed v then v else {| subscribed := true; assets := l ++ assets v |}
  | SubscribeOp l => {| subscribed := subscribed v; assets := assets v ++ l |}
  | UnsubscribeOp l =>
      {| subscribed := subscribed v; assets := List.filter (fun t => negb (found t l)) (assets v) |}
  end.
Definition venue_run (l : list MarketFrame) : Venue := fold_left venue_step l fresh_session.

(** ** Lemmas *)

Lemma found_spec x l : found x l = true <-> x ∈ l.
Proof.
  unfold found. rewrite existsb_exists. setoid_rewrite String.eqb_eq. rewrite list_elem_of_In. naive_solver.
Qed.

Lemma elem_of_lfilter (p : string -> bool) x l : x ∈ List.filter p l <-> p x = true /\ x ∈ l.
Proof. rewrite !list_elem_of_In, filter_In. tauto. Qed.

Lemma not_found_spec x l : negb (found x l) = true <-> x ∉ l.
Proof. rewrite negb_true_iff, <- found_spec. by destruct (found x l). Qed.

(** Every frame of a session changes the venue's set as the delta says. *)
Lemma delta_applied desired active x :
  (x ∈ active /\ x ∉ remove (delta desired active)) \/ x ∈ add (delta desired active) <-> x ∈ desired.
Proof.
  cbn. rewrite !elem_of_lfilter, !not_found_spec.
  destruct (decide (x ∈ active)), (decide (x ∈ desired)); tauto.
Qed.

Lemma venue_run_app a b : venue_run (a ++ b) = fold_left venue_step b (venue_run a).
Proof. apply fold_left_app. Qed.

Definition op_frames (d : SubscriptionDelta) : list MarketFrame :=
  match add d with [] => [] | l => [SubscribeOp l] end
  ++ match remove d with [] => [] | l => [UnsubscribeOp l] end.

(** The dynamic operations of a call add, then remove. *)
Lemma ops_effect d v x :
  x ∈ assets (fold_left venue_step (op_frames d) v) <-> (x ∈ assets v \/ x ∈ add d) /\ x ∉ remove d.
Proof.
  unfold op_frames. destruct (add d) as [|a la], (remove d) as [|r lr];
    cbn [app fold_left venue_step assets]; rewrite ?elem_of_lfilter, ?not_found_spec, ?elem_of_app; set_solver.
Qed.

(** The dynamic operations of one call move the venue from the active set to
    the desired one. *)
Lemma ops_track v desired active :
  (forall x, x ∈ assets v <-> x ∈ active) ->
  forall x, x ∈ assets (fold_left venue_step (op_frames (delta desired active)) v) <-> x ∈ desired.
Proof.
  intros Hv x. rewrite <- (delta_applied desired active x), ops_effect, Hv.
  assert (Hdis : x ∈ add (delta desired active) -> x ∉ remove (delta desired active)).
  { cbn. rewrite !elem_of_lfilter, !not_found_spec. tauto. }
  tauto.
Qed.

(** ** One market session *)

Section Sessions.
Context (write_json : MarketFrame -> option string).

(** The calls made while one connection is up: the open callback, then
    [subscribe] with each set. *)
Fixpoint session_calls (calls : list (list string)) (f : MarketWs) : result (MarketWs * list MarketFrame) :=
  match calls with
  | [] => Ok (f, [])
  | d :: rest =>
      r ← subscribe write_json d true f;
      r' ← session_calls rest (fst r);
      Ok (fst r', snd r ++ snd r')
  end.
Definition session (calls : list (list string)) (f : MarketWs) : result (MarketWs * list MarketFrame) :=
  r ← send_initial write_json f;
  r' ← session_calls calls (fst r);
  Ok (fst r', snd r ++ snd r').

Lemma subscribe_live d f r :
  subscribe write_json d true f = Ok r ->
  r = (set_sets d d f, op_frames (delta d (active_ f))).
Proof using.
  unfold subscribe, market_subscribe_op, market_unsubscribe_op, op_frames. cbv zeta. cbn [negb]. intros H.
  destruct (add (delta d (active_ f))) as [|x la], (remove (delta d (active_ f))) as [|y lr];
    inv_ok; subst; reflexivity.
Qed.

Lemma session_calls_track calls f f' frames v :
  session_calls calls f = Ok (f', frames) ->
  active_ f = desired_ f -> (forall x, x ∈ assets v <-> x ∈ active_ f) ->
  active_ f' = desired_ f' /\ desired_ f' = default (desired_ f) (last calls)
  /\ forall x, x ∈ assets (fold_left venue_step frames v) <-> x ∈ desired_ f'.
Proof using.
  revert f frames v. induction calls as [|d calls IH]; intros f frames v H Ha Hv; cbn [session_calls] in H.
  - inv_ok. injection H as <- <-. cbn. rewrite <- Ha. done.
  - apply bind_ok in H as (r & Hr & H). apply subscribe_live in Hr. subst r. cbn [fst snd] in H.
    apply bind_ok in H as ([f1 fr] & Hr & H). apply Ok_inj in H. cbn [fst snd] in H. injection H as <- <-.
    rewrite fold_left_app. destruct (IH _ _ (fold_left venue_step (op_frames (delta d (active_ f))) v) Hr eq_refl)
      as (H1 & H2 & H3); [by apply ops_track|].
    split; [done|]. split; [|done]. rewrite H2. cbn [desired_ set_sets]. rewrite last_cons. by destruct (last calls).
Qed.

Lemma session_calls_total calls f : (forall m, is_Some (write_json m)) -> is_ok (session_calls calls f) = true.
Proof using.
  intros Hj. revert f. induction calls as [|d calls IH]; intros f; [done|]. cbn [session_calls].
  assert (Hw : forall m, exists t, write_message write_json m = Ok t).
  { intros m. destruct (Hj m) as [t Ht]. exists t. unfold write_message. by rewrite Ht. }
  assert (Hs : exists r, subscribe write_json d true f = Ok r).
  { unfold subscribe, market_subscribe_op, market_unsubscribe_op. cbv zeta. cbn [negb].
    destruct (add _) as [|x la], (remove _) as [|y lr];
      repeat match goal with |- context [write_message write_json ?m] => destruct (Hw m) as [? ->]; cbn end; eauto. }
  destruct Hs as [r ->]. cbn. specialize (IH (fst r)). by destruct (session_calls calls (fst r)).
Qed.
End Sessions.

(** Within a session the venue and the client agree.  If the frames of one
    connection reach the venue in order, then after the open callback and any
    sequence of [subscribe] calls the venue's assets are exactly the last desired
    set, which is also what the client records as active; and the calls succeed
    whenever the frames can be serialised. *)
Theorem market_session_tracks_desired write_json calls f :
  (forall m, is_Some (write_json m)) ->
  exists f' frames, session write_json calls f = Ok (f', frames)
    /\ desired_ f' = default (desired_ f) (last calls) /\ active_ f' = desired_ f'
    /\ forall x, x ∈ assets (venue_run frames) <-> x ∈ desired_ f'.
Proof.
  intros Hj. set (f1 := set_sets (desired_ f) (desired_ f) f).
  assert (Hinit : exists fr, send_initial write_json f = Ok (f1, fr)
            /\ forall x, x ∈ assets (venue_run fr) <-> x ∈ desired_ f).
  { unfold send_initial, market_initial_subscription. cbv zeta. fold f1. destruct (desired_ f) as [|d ds] eqn:E; [by exists []|].
    destruct (Hj (InitialSub (d :: ds))) as [t Ht]. unfold write_message. rewrite Ht. cbn.
    eexists. split; [done|]. cbn. intros x. by rewrite app_nil_r. }
  destruct Hinit as (fr & Hi & Hv). unfold session. rewrite Hi. cbn [mbind result_bind fst snd].
  pose proof (session_calls_total write_json calls f1 Hj) as Ht.
  destruct (session_calls write_json calls f1) as [[f' frames]|] eqn:E; [|done]. cbn.
  destruct (session_calls_track write_json calls f1 f' frames (venue_run fr) E eq_refl Hv) as (H1 & H2 & H3).
  eexists f', _. split; [done|]. split; [done|]. split; [done|]. intros x. rewrite venue_run_app. apply H3.
Qed.

Lemma market_session_tracks_desired_witness :
  let json (m : MarketFrame) := Some "x" in
  let f := {| desired_ := ["1"]; active_ := []; on_raw_ := None; on_activity_ := None; feed_on_open_ := None |} in
  exists f' frames, session json [["1"; "2"]; ["2"; "3"]] f = Ok (f', frames)
    /\ desired_ f' = ["2"; "3"] /\ active_ f' = desired_ f'
    /\ forall x, x ∈ assets (venue_run frames) <-> x ∈ desired_ f'.
Proof. apply (market_session_tracks_desired (fun _ => Some "x")). intros m. by eexists. Defined.

(** [delta] is the exact difference: what is added is desired and not
    active, what is removed is active and no longer desired, both in the order of
    their lists, and dropping the removed and adding the added turns the active
    set into the desired one; nothing is sent when the sets agree. *)
Theorem delta_exact desired active :
  (forall x, x ∈ add (delta desired active) <-> x ∈ desired /\ x ∉ active)
  /\ (forall x, x ∈ remove (delta desired active) <-> x ∈ active /\ x ∉ desired)
  /\ sublist (add (delta desired active)) desired /\ sublist (remove (delta desired active)) active
  /\ ((forall x, x ∈ desired <-> x ∈ active) <-> delta desired active = {| add := []; remove := [] |}).
Proof.
  assert (Hsub : forall (p : string -> bool) l, sublist (List.filter p l) l).
  { intros p l. induction l as [|x l IH]; cbn; [constructor|]. destruct (p x); by constructor. }
  assert (Ha : forall x, x ∈ add (delta desired active) <-> x ∈ desired /\ x ∉ active).
  { intros x. cbn. rewrite elem_of_lfilter, not_found_spec. tauto. }
  assert (Hr : forall x, x ∈ remove (delta desired active) <-> x ∈ active /\ x ∉ desired).
  { intros x. cbn. rewrite elem_of_lfilter, not_found_spec. tauto. }
  split; [done|]. split; [done|]. split; [apply Hsub|]. split; [apply Hsub|].
  destruct (delta desired active) as [a r] eqn:E. cbn [add remove] in *. split.
  - intros Hx. f_equal.
    + destruct a as [|y a]; [done|]. destruct (proj1 (Ha y) (list_elem_of_here _ _)). naive_solver.
    + destruct r as [|y r]; [done|]. destruct (proj1 (Hr y) (list_elem_of_here _ _)). naive_solver.
  - intros [= -> ->] x. specialize (Ha x). specialize (Hr x).
    assert (x ∉ []) by apply not_elem_of_nil. destruct (decide (x ∈ active)), (decide (x ∈ desired)); tauto.
Qed.
