(* ===== verification/FeedClients.v ===== *)
(** * The feeds on their clients ([src/pm/market_ws.cpp], [user_ws.cpp], [rtds.cpp])

    Each feed composed with the [WsClient] it owns: the constructors install
    the feed's callbacks, [start], [stop] and [kick] go through to the client,
    and a step of the pair is a step of the client or a call of the
    application. *)

From Stdlib Require Import Ascii String ZArith Lia.
From stdpp Require Import base list sets strings numbers relations.
From S2P Require Import Prelude Auth WriteQueue WsClient Feeds.

Open Scope Z_scope.

(** ** What a step leaves behind

    Steps only add to the trace, never go back to an earlier generation, and
    leave the callbacks in place or, when the client is retired, empty. *)

Record evolves (s s' : WsClient) : Prop := {
  ev_trace : trace s `suffix_of` trace s';
  ev_generation : generation_ s <= generation_ s';
  ev_callbacks :
    (on_open_ s' = on_open_ s /\ on_message_ s' = on_message_ s /\ (stopped_ s = true -> stopped_ s' = true))
    \/ (on_open_ s' = None /\ on_message_ s' = None /\ stopped_ s' = true);
}.

#[export] Instance evolves_preorder : PreOrder evolves.
Proof.
  split; [intros s; split; [done|lia|by left]|].
  intros a b c [H1 G1 O1] [H2 G2 O2]. split; [by etrans|lia|].
  destruct O1 as [(? & ? & ?)|(? & ? & ?)], O2 as [(? & ? & ?)|(? & ? & ?)]; [left|right..];
    repeat split; intuition congruence.
Qed.

(** A chain of field updates. *)
Ltac evo s :=
  destruct s; split; cbn; [first [done | by eexists [_] | by eexists [_; _] | by eexists [_; _; _]]|lia|auto].

Section Evolves.
Context (hash : string -> Z).

Lemma do_write_evolves st g s : evolves s (do_write st g s).
Proof using. unfold do_write. repeat case_match; evo s. Qed.

Lemma stop_evolves s : evolves s (stop s).
Proof using. evo s. Qed.

Lemma schedule_reconnect_evolves f s : evolves s (schedule_reconnect hash f s).
Proof using.
  unfold schedule_reconnect. repeat case_match; try apply stop_evolves; try done; unfold arm_reconnect; evo s.
Qed.

Lemma drop_evolves f s s' : evolves s s' -> evolves s (schedule_reconnect hash f s').
Proof using. intros H. etrans; [exact H|apply schedule_reconnect_evolves]. Qed.

Lemma push_evolves s q (ok : bool) :
  evolves s (if negb ok then emit ELog (set_queue q s)
    else if connected_ (set_queue q s) && negb (writing_ (set_queue q s))
         then do_write (ws_ (set_queue q s)) (generation_ (set_queue q s)) (set_queue q s)
         else set_queue q s).
Proof using.
  assert (Hq : evolves s (set_queue q s)) by evo s.
  destruct ok; cbn [negb]; [|evo s]. case_match; [etrans; [exact Hq|apply do_write_evolves]|done].
Qed.

Lemma kick_evolves s : evolves s (kick hash s).
Proof using. unfold kick. repeat case_match; try done. apply drop_evolves. evo s. Qed.

Lemma fail_evolves ei g s : evolves s (fail hash ei g s).
Proof using. unfold fail. case_match; [done|]. apply drop_evolves. evo s. Qed.

Lemma do_connect_evolves tls_ok s : evolves s (do_connect hash tls_ok s).
Proof using. unfold do_connect. repeat case_match; [done|apply drop_evolves|]; evo s. Qed.

Lemma send_first_evolves t s : evolves s (send_first t s).
Proof using. unfold send_first. destruct (push_connection _ _ _ _) as [ok q]. apply push_evolves. Qed.

Lemma run_calls_evolves l s : evolves s (run_calls hash s l).
Proof using.
  unfold run_calls. revert s. induction l as [|c l IH]; intros s; [done|]. cbn [fold_left]. etrans; [|apply IH].
  destruct c; cbn [run_call]; [apply send_first_evolves|evo s|apply kick_evolves|apply stop_evolves].
Qed.

Lemma on_stage_evolves next g err s : evolves s (on_stage hash next g err s).
Proof using. unfold on_stage. repeat case_match; [done|apply fail_evolves|evo s]. Qed.

(** What the handshake handler does after the open callback. *)
Lemma handshake_tail_evolves g s :
  evolves s (if stopped_ s || negb (g =? generation_ s) then s
    else add_pending (PRead g) (schedule_keepalive
      (if negb (qempty (write_queue_ s)) && negb (writing_ s) then do_write (Some g) g s else s))).
Proof using.
  case_match; [done|]. set (s' := if _ && _ then _ else _).
  assert (He : evolves s s') by (unfold s'; case_match; [apply do_write_evolves|done]).
  etrans; [exact He|]. unfold schedule_keepalive. case_match; evo s'.
Qed.

Lemma on_handshake_evolves g err s : evolves s (on_handshake hash g err s).
Proof using.
  unfold on_handshake. case_match; [done|]. destruct err; [apply fail_evolves|]. cbv zeta.
  etrans; [|apply handshake_tail_evolves]. case_match; [|evo s].
  etrans; [|apply run_calls_evolves]. evo s.
Qed.

Lemma on_read_evolves g res s : evolves s (on_read hash g res s).
Proof using.
  unfold on_read. case_match; [done|]. destruct res as [ei|data]; [apply fail_evolves|]. cbv zeta.
  set (s2 := match on_message_ (set_delay 500 s) with Some _ => _ | None => _ end).
  assert (He : evolves s s2) by (unfold s2; case_match; [etrans; [|apply run_calls_evolves]|]; evo s).
  etrans; [exact He|]. case_match; evo s2.
Qed.

Lemma on_keepalive_timer_evolves aborted s : evolves s (on_keepalive_timer aborted s).
Proof using.
  unfold on_keepalive_timer. case_match; [done|]. destruct (push_connection _ _ _ _) as [ok q]. cbv zeta.
  set (s1 := if negb ok then emit ELog (set_queue q s) else set_queue q s).
  assert (H1 : evolves s s1) by (unfold s1; case_match; evo s).
  set (s2 := if negb (writing_ s1) then _ else _).
  assert (H2 : evolves s1 s2) by (unfold s2; case_match; [apply do_write_evolves|done]).
  etrans; [exact H1|]. etrans; [exact H2|]. unfold schedule_keepalive. case_match; evo s2.
Qed.

Lemma step_evolves s s' : step hash s s' -> evolves s s'.
Proof using.
  assert (Hp : forall l s a, evolves (set_pending l s) a -> evolves s a).
  { intros l x a. apply transitivity. evo x. }
  intros [x tls|x|x|x t|x t|x t rest _|x g l err _|x g l err _|x g l err _|x g l err _|x g l res _
         |x p g l err _|x g l aborted _|x l c aborted tls _ _|x l aborted _]; try apply (Hp l).
  - apply do_connect_evolves.
  - apply stop_evolves.
  - apply kick_evolves.
  - evo x.
  - apply send_first_evolves.
  - etrans; [|unfold run_send; destruct (push_retained _ _) as [ok q]; apply push_evolves]. evo x.
  - apply on_stage_evolves.
  - apply on_stage_evolves.
  - apply on_stage_evolves.
  - apply on_handshake_evolves.
  - apply on_read_evolves.
  - unfold on_write. repeat case_match; [done|apply fail_evolves|]. etrans; [|apply do_write_evolves].
    generalize (set_pending l x). intros y. evo y.
  - unfold on_stage_timer. case_match; [done|]. apply drop_evolves. generalize (set_pending l x). intros y. evo y.
  - unfold on_reconnect_timer. case_match; [|done]. etrans; [|apply do_connect_evolves].
    generalize (set_pending l x). intros y. evo y.
  - apply on_keepalive_timer_evolves.
Qed.
End Evolves.

(** ** A feed on its client

    A feed installs two callbacks in its [WsClient] that capture the feed, so
    what they do follows the feed's state until the client is retired. *)

Definition is_open (e : Effect) : bool := match e with EOpen _ => true | _ => false end.
(** The open callback ran between two states. *)
Definition opened_between (s s' : WsClient) : bool :=
  existsb is_open (take (length (trace s') - length (trace s)) (trace s')).

Lemma set_on_open_inv v s : ws_inv 1 s -> ws_inv 1 (set_on_open v s).
Proof.
  intros [[H1 H2 H3 H4] Hp]. split; [by destruct s; split|].
  destruct Hp as [[[] ?]|[[]|[]]]; [left|right; left|right; right]; destruct s; repeat (split; try done).
Qed.
Lemma set_on_message_inv v s : ws_inv 1 s -> ws_inv 1 (set_on_message v s).
Proof.
  intros [[H1 H2 H3 H4] Hp]. split; [by destruct s; split|].
  destruct Hp as [[[] ?]|[[]|[]]]; [left|right; left|right; right]; destruct s; repeat (split; try done).
Qed.

Section Hosted.
Context {F : Type} (hash : string -> Z) (open_of : F -> list Call) (message_of : F -> string -> list Call).

Definition refresh (f : F) (s : WsClient) : WsClient :=
  let s := match on_open_ s with Some _ => set_on_open (Some (open_of f)) s | None => s end in
  match on_message_ s with Some _ => set_on_message (Some (message_of f)) s | None => s end.

(** [ws_->send] of each text. *)
Definition send_all (texts : list string) (s : WsClient) : WsClient := fold_left (fun s t => send t s) texts s.

(** The client's invariant, with the open callback of the feed's current state
    until the client is retired. *)
Definition hosted_inv (fs : F * WsClient) : Prop :=
  ws_inv 1 (snd fs)
  /\ (on_open_ (snd fs) = Some (open_of (fst fs)) \/ (on_open_ (snd fs) = None /\ stopped_ (snd fs) = true)).

Lemma refresh_inv f f' s : hosted_inv (f, s) -> hosted_inv (f', refresh f' s).
Proof using.
  intros [Hi Ho]. unfold refresh, hosted_inv in *. cbn [fst snd] in *.
  assert (Hm : forall s, on_open_ (match on_message_ s with Some _ => set_on_message (Some (message_of f')) s
      | None => s end) = on_open_ s /\ stopped_ (match on_message_ s with Some _ => set_on_message (Some (message_of f')) s
      | None => s end) = stopped_ s /\ (ws_inv 1 s -> ws_inv 1 (match on_message_ s with
      | Some _ => set_on_message (Some (message_of f')) s | None => s end))).
  { intros x. destruct (on_message_ x); [|done]. split; [by destruct x|]. split; [by destruct x|].
    apply set_on_message_inv. }
  destruct Ho as [E|[E Hst]]; rewrite E.
  - destruct (Hm (set_on_open (Some (open_of f')) s)) as (-> & _ & H). split; [by apply H, set_on_open_inv|].
    left. by destruct s.
  - destruct (Hm s) as (-> & -> & H). auto.
Qed.

(** Steps of the client keep the invariant for a feed with the same callback. *)
Lemma hosted_step f f' s s' :
  step hash s s' -> open_of f' = open_of f -> hosted_inv (f, s) -> hosted_inv (f', s').
Proof using.
  intros Hst Hf [Hi Ho]. unfold hosted_inv. cbn [fst snd] in *. split; [by eapply step_inv|].
  destruct (step_evolves hash s s' Hst) as [_ _ [(-> & _ & Hs)|(-> & _ & ->)]]; [|by right]. rewrite Hf.
  destruct Ho as [?|[? ?]]; [by left|right; auto].
Qed.

Lemma send_all_inv f l s : hosted_inv (f, s) -> hosted_inv (f, send_all l s).
Proof using hash.
  unfold send_all. revert s. induction l as [|t l IH]; intros s Hi; [done|]. cbn [fold_left]. apply IH.
  by eapply hosted_step; [apply step_send| |exact Hi].
Qed.

Lemma hosted_stop f f' s : hosted_inv (f, s) -> hosted_inv (f', stop s).
Proof using hash.
  intros [Hi _]. split; [apply (step_inv hash s); [apply step_stop|exact Hi]|]. right. by destruct s.
Qed.
End Hosted.

(** ** The market feed on its client *)

Section Composed.
Context (hash : string -> Z) (write_json : MarketFrame -> option string).

Definition texts_of (frames : list MarketFrame) : list string := omap write_json frames.

(** A frame that cannot be serialized ends the callback before it sends. *)
Definition open_calls (f : MarketWs) : list Call :=
  match send_initial write_json f with
  | Ok (_, frames) => (CallSend <$> texts_of frames) ++ default [] (feed_on_open_ f)
  | Throw _ => []
  end.

Definition market_refresh (f : MarketWs) (s : WsClient) : WsClient := refresh open_calls market_on_message f s.

(** The constructor. *)
Definition market_client (f : MarketWs) : WsClient :=
  make_client "ws-subscriptions-clob.polymarket.com" "/ws/market" 10000 "PING"
    (Some (market_on_message f)) (Some (open_calls f)) None.

Definition market_start (tls_ok : bool) (fs : MarketWs * WsClient) : MarketWs * WsClient :=
  (fst fs, start hash tls_ok (snd fs)).
Definition market_stop (fs : MarketWs * WsClient) : MarketWs * WsClient := (fst fs, stop (snd fs)).
Definition market_kick (fs : MarketWs * WsClient) : MarketWs * WsClient := (fst fs, kick hash (snd fs)).
Definition market_connected (fs : MarketWs * WsClient) : bool := connected (snd fs).

Inductive feed_step : MarketWs * WsClient -> MarketWs * WsClient -> Prop :=
  | feed_io f s s' : step hash s s' ->
      feed_step (f, s) (if opened_between s s' then set_sets (desired_ f) (desired_ f) f else f, s')
  | feed_subscribe f s d f' frames : subscribe write_json d (market_connected (f, s)) f = Ok (f', frames) ->
      feed_step (f, s) (f', market_refresh f' (send_all (texts_of frames) s))
  | feed_set f s f' :
      (exists h, f' = market_set_on_message h f) \/ (exists h, f' = market_set_on_activity h f)
        \/ (exists h, f' = market_set_on_open h f) ->
      feed_step (f, s) (f', market_refresh f' s)
  | feed_start fs tls_ok : feed_step fs (market_start tls_ok fs)
  | feed_stop fs : feed_step fs (market_stop fs)
  | feed_kick fs : feed_step fs (market_kick fs).
End Composed.

(** The texts written to one stream, in order. *)
Definition written_on (g : Z) (s : WsClient) : list string :=
  rev (omap (fun e => match e with
                      | EWrite st e => if st =? g then Some (text (payload e)) else None
                      | _ => None
                      end) (trace s)).

(** ** A run that leaves the venue on an old subscription *)

Module StaleRun.
Definition hash7 (_ : string) : Z := 7.
Definition json (m : MarketFrame) : option string :=
  Some match m with
       | InitialSub l => "initial " +:+ String.concat "," l
       | SubscribeOp l => "subscribe " +:+ String.concat "," l
       | UnsubscribeOp l => "unsubscribe " +:+ String.concat "," l
       end.
(** Reads back the two frames of the run. *)
Definition decode (t : string) : option MarketFrame :=
  if String.eqb t "initial A" then Some (InitialSub ["A"])
  else if String.eqb t "initial B" then Some (InitialSub ["B"]) else None.

Definition feed_new : MarketWs :=
  {| desired_ := []; active_ := []; on_raw_ := None; on_activity_ := None; feed_on_open_ := None |}.
Definition feed0 : MarketWs := set_sets ["A"] [] feed_new.
Definition client0 : WsClient := market_refresh json feed0 (market_client json feed_new).
Definition lost : ErrorInfo :=
  {| ec_message_too_big := false; ec_buffer_overflow := false; ec_ssl_category := false;
     ec_upgrade_declined := false; ei_reason_code := 1006; ei_result_int := 0; ei_retry_after := "" |}.
Definition initialA : Payload := {| ptr := 0%nat; text := "initial A" |}.
Definition initialB : Payload := {| ptr := 1%nat; text := "initial B" |}.

(** The three stages before the handshake of stream [g], and the handshake. *)
Definition resolved (g : Z) (l : list Pending) (s : WsClient) : WsClient :=
  on_stage hash7 PConnect g None (set_pending (PStage g :: l) s).
Definition tcp_up (g : Z) (l : list Pending) (s : WsClient) : WsClient :=
  on_stage hash7 PTls g None (set_pending (PStage g :: l) (resolved g l s)).
Definition tls_up (g : Z) (l : list Pending) (s : WsClient) : WsClient :=
  on_stage hash7 PHandshake g None (set_pending (PStage g :: l) (tcp_up g l s)).
Definition up (g : Z) (l : list Pending) (s : WsClient) : WsClient :=
  on_handshake hash7 g None (set_pending (PStage g :: l) (tls_up g l s)).

Definition s0 : WsClient := do_connect hash7 true client0.
Definition s1 : WsClient := up 1 [] s0.
(** The posted initial subscription is being written when the read fails. *)
Definition s2 : WsClient := run_send "initial A" (set_posted [] s1).
Definition s3 : WsClient := on_read hash7 1 (inl lost) (set_pending [PWrite initialA 1; PKeepalive; PStage 1] s2).
Definition feedA : MarketWs := set_sets ["A"] ["A"] feed_new.
Definition feed3 : MarketWs := set_sets ["B"] ["A"] feed_new.
Definition s4 : WsClient := market_refresh json feed3 s3.
Definition stale : list Pending := [PWrite initialA 1; PKeepalive; PStage 1].
Definition s4' : WsClient := on_reconnect_timer hash7 false true (set_pending stale s4).
Definition s5 : WsClient := up 3 stale s4'.
Definition feedB : MarketWs := set_sets ["B"] ["B"] feed_new.
Definition s6 : WsClient := run_send "initial B" (set_posted [] s5).
Definition s7 : WsClient :=
  on_write hash7 initialA 3 None (set_pending (PRead 3 :: PKeepalive :: PStage 3 :: stale) s6).
Definition s8 : WsClient :=
  on_write hash7 initialB 3 None (set_pending (PRead 3 :: PKeepalive :: PStage 3 :: stale) s7).
End StaleRun.

Lemma feed_io' hash json f f' s s' :
  step hash s s' -> (if opened_between s s' then set_sets (desired_ f) (desired_ f) f else f) = f' ->
  feed_step hash json (f, s) (f', s').
Proof. intros H <-. by constructor. Qed.

(** Equations and permutations of concrete lists. *)
Ltac decided := first [done | vm_compute; reflexivity | apply (bool_decide_unpack _); vm_compute; exact I].

(** One I/O step of the concrete run, to a named state. *)
Tactic Notation "io" uconstr(rule) "to" uconstr(f) uconstr(s) :=
  apply (rtc_l _ _ (f, s)); [apply feed_io'; [apply rule; decided|vm_compute; reflexivity]|].

(** A stream whose resolution is pending comes up and runs the open callback. *)
Lemma run_up f f' s g l :
  let H := StaleRun.hash7 in
  pending s ≡ₚ PResolve g :: PStage g :: l -> pending (StaleRun.resolved g l s) ≡ₚ PConnect g :: PStage g :: l ->
  pending (StaleRun.tcp_up g l s) ≡ₚ PTls g :: PStage g :: l ->
  pending (StaleRun.tls_up g l s) ≡ₚ PHandshake g :: PStage g :: l ->
  opened_between s (StaleRun.resolved g l s) = false ->
  opened_between (StaleRun.resolved g l s) (StaleRun.tcp_up g l s) = false ->
  opened_between (StaleRun.tcp_up g l s) (StaleRun.tls_up g l s) = false ->
  opened_between (StaleRun.tls_up g l s) (StaleRun.up g l s) = true ->
  f' = set_sets (desired_ f) (desired_ f) f ->
  rtc (feed_step H StaleRun.json) (f, s) (f', StaleRun.up g l s).
Proof.
  cbv zeta. intros P1 P2 P3 P4 O1 O2 O3 O4 ->.
  apply (rtc_l _ _ (f, StaleRun.resolved g l s)); [apply feed_io'; [by apply step_resolve|by rewrite O1]|].
  apply (rtc_l _ _ (f, StaleRun.tcp_up g l s)); [apply feed_io'; [by apply step_connect|by rewrite O2]|].
  apply (rtc_l _ _ (f, StaleRun.tls_up g l s)); [apply feed_io'; [by apply step_tls|by rewrite O3]|].
  apply rtc_once, feed_io'; [by apply step_handshake|by rewrite O4].
Qed.

(** C23: a subscription of a dead session can win over the current one.  The
    initial subscription goes through [ws_->send], which retains frames across
    reconnects: when the connection drops while the subscription to A is still
    queued and the application then asks for B, the next session carries the old
    full subscription first and the new one second.  The venue ignores a second
    full subscription, so it ends up on A although nothing is left to send and
    the feed records B as both desired and active. *)
Theorem market_stale_subscription_wins :
  exists f s, rtc (feed_step StaleRun.hash7 StaleRun.json) (StaleRun.feed_new, market_client StaleRun.json StaleRun.feed_new) (f, s)
    /\ connected_ s = true /\ posted s = [] /\ entries_ (write_queue_ s) = []
    /\ desired_ f = ["B"] /\ active_ f = ["B"]
    /\ omap StaleRun.decode (written_on (generation_ s) s) = [InitialSub ["A"]; InitialSub ["B"]]
    /\ assets (venue_run (omap StaleRun.decode (written_on (generation_ s) s))) = ["A"].
Proof.
  exists StaleRun.feedB, StaleRun.s8. split; [|repeat split; vm_compute; reflexivity].
  apply (rtc_l _ _ (StaleRun.feed0, StaleRun.client0)); [by apply (feed_subscribe _ _ _ _ ["A"] _ [])|].
  apply (rtc_l _ _ (StaleRun.feed0, StaleRun.s0)); [apply feed_io'; [apply (step_start _ _ true)|reflexivity]|].
  transitivity (StaleRun.feedA, StaleRun.s1); [apply run_up; decided|].
  io (step_posted StaleRun.hash7 _ "initial A" []) to StaleRun.feedA StaleRun.s2.
  io (step_read StaleRun.hash7 _ 1 StaleRun.stale (inl StaleRun.lost)) to StaleRun.feedA StaleRun.s3.
  apply (rtc_l _ _ (StaleRun.feed3, StaleRun.s4)); [by apply (feed_subscribe _ _ _ _ ["B"] _ [])|].
  io (step_reconnect StaleRun.hash7 _ StaleRun.stale false false true) to StaleRun.feed3 StaleRun.s4'.
  transitivity (StaleRun.feedB, StaleRun.s5); [apply run_up; decided|].
  io (step_posted StaleRun.hash7 _ "initial B" []) to StaleRun.feedB StaleRun.s6.
  io (step_write StaleRun.hash7 _ StaleRun.initialA 3 (PRead 3 :: PKeepalive :: PStage 3 :: StaleRun.stale) None)
    to StaleRun.feedB StaleRun.s7.
  io (step_write StaleRun.hash7 _ StaleRun.initialB 3 (PRead 3 :: PKeepalive :: PStage 3 :: StaleRun.stale) None)
    to StaleRun.feedB StaleRun.s8.
  constructor.
Qed.

(** ** The user feed on its client *)

Section UserComposed.
Context (hash : string -> Z) (write_json : UserFrame -> option string).

Definition user_open_calls (f : UserWs) : list Call :=
  match user_send_initial write_json f with
  | Ok (_, t) => CallSendFirst t :: default [] (u_on_open f)
  | Throw _ => []
  end.

Definition user_refresh (f : UserWs) (s : WsClient) : WsClient := refresh user_open_calls user_on_message f s.

(** The constructor. *)
Definition user_client (f : UserWs) : WsClient :=
  make_client "ws-subscriptions-clob.polymarket.com" "/ws/user" 10000 "PING"
    (Some (user_on_message f)) (Some (user_open_calls f)) None.

Definition user_start (tls_ok : bool) (fs : UserWs * WsClient) : UserWs * WsClient :=
  (fst fs, start hash tls_ok (snd fs)).
(** The completion clears the credentials once the client is retired. *)
Definition user_stop (fs : UserWs * WsClient) : UserWs * WsClient := (user_stop_completion (fst fs), stop (snd fs)).
Definition user_kick (fs : UserWs * WsClient) : UserWs * WsClient := (fst fs, kick hash (snd fs)).
Definition user_connected (fs : UserWs * WsClient) : bool := connected (snd fs).

Inductive user_step : UserWs * WsClient -> UserWs * WsClient -> Prop :=
  | user_io f s s' : step hash s s' ->
      user_step (f, s) (if opened_between s s' then set_user (u_creds f) (u_desired f) (u_desired f) f else f, s')
  | user_resubscribe f s d f' frames : user_subscribe write_json d (user_connected (f, s)) f = Ok (f', frames) ->
      user_step (f, s) (f', user_refresh f' (send_all (omap write_json frames) s))
  | user_replace f s d :
      let f' := fst (replace_subscription d f) in
      user_step (f, s) (user_kick (f', user_refresh f' s))
  | user_set f s f' :
      (exists h, f' = user_set_on_message h f) \/ (exists h, f' = user_set_on_open h f) ->
      user_step (f, s) (f', user_refresh f' s)
  | user_started fs tls_ok : user_step fs (user_start tls_ok fs)
  | user_stopped fs : user_step fs (user_stop fs)
  | user_kicked fs : user_step fs (user_kick fs).

Definition user_inv : UserWs * WsClient -> Prop := hosted_inv user_open_calls.

Lemma user_step_inv a b : user_step a b -> user_inv a -> user_inv b.
Proof using.
  intros [f s s' Hst|f s d f' frames _|f s d f'|f s f' _|[f s] tls|[f s]|[f s]] Hi.
  - eapply hosted_step; [exact Hst| |exact Hi]. by destruct (opened_between s s').
  - apply (refresh_inv _ _ f). by apply (send_all_inv hash).
  - eapply hosted_step; [apply step_kick|reflexivity|]. by apply (refresh_inv _ _ f).
  - by apply (refresh_inv _ _ f).
  - by eapply hosted_step; [apply step_start|reflexivity|].
  - by eapply (hosted_stop hash).
  - by eapply hosted_step; [apply step_kick|reflexivity|].
Qed.

Lemma user_reachable f a : rtc user_step (f, user_client f) a -> user_inv a.
Proof using.
  assert (H0 : user_inv (f, user_client f)) by (split; [apply make_client_inv|by left]).
  intros H. revert H0. induction H; eauto using user_step_inv.
Qed.

(** With room in the reserve, [send_first] on an idle live stream puts its frame
    on the wire at once. *)
Lemma send_first_writes t s :
  queue_inv (write_queue_ s) -> connected_ s = true -> writing_ s = false -> ws_ s = Some (generation_ s) ->
  Z.of_nat (length (List.filter (is_conn (generation_ s)) (entries_ (write_queue_ s))))
    < connection_reserve_ (write_queue_ s) ->
  exists e, trace (send_first t s) = EWrite (generation_ s) e :: trace s
    /\ text (payload e) = t /\ connection_scoped e = true /\ generation e = generation_ s.
Proof using.
  intros Hq Hc Hw Hws Hroom.
  destruct (push_connection_room _ t _ Hq Hroom) as (e & rest & q & Hpush & He & Ht & Hsc & Hge).
  exists e. split; [|done]. unfold send_first. rewrite Hpush. cbn [negb].
  clear -Hc Hw Hws He. destruct s; cbn in *. subst. cbn. unfold do_write. cbn. rewrite Z.eqb_refl. unfold qempty.
  by rewrite He.
Qed.
End UserComposed.

(** C26: on every (re)connection of the user feed the first frame on the new
    stream is the authenticated subscription.  Whatever the feed and its client
    went through, and whatever the write queue still holds from earlier sessions,
    the successful handshake of the current generation writes the subscription of
    the credentials and of the set desired at that moment before anything else,
    scoped to that generation.  (The owner must not itself have filled the reserve
    with frames of that generation.) *)
Theorem user_auth_written_first hash write_json f0 f s l t :
  rtc (user_step hash write_json) (f0, user_client write_json f0) (f, s) ->
  write_user write_json (UserInitial (u_creds f) (u_desired f)) = Ok t ->
  pending s ≡ₚ PHandshake (generation_ s) :: l ->
  Z.of_nat (length (List.filter (is_conn (generation_ s)) (entries_ (write_queue_ s))))
    < connection_reserve_ (write_queue_ s) ->
  exists post e, trace (on_handshake hash (generation_ s) None (set_pending l s))
      = post ++ [EWrite (generation_ s) e; EOpen (generation_ s); ELog] ++ trace s
    /\ text (payload e) = t /\ connection_scoped e = true /\ generation e = generation_ s.
Proof.
  intros [Hi Ho]%user_reachable Hj Hp Hroom. cbn [fst snd] in *.
  destruct (take_current s _ l _ Hi Hp eq_refl eq_refl) as [_ [Hst _ Hw _ _ _ _ _]].
  destruct Ho as [Ho|[_ Ho]]; [|by destruct s; cbn in *; congruence].
  destruct (open_live s l _ Hi Hp eq_refl eq_refl) as ([Hq _ _ _] & [_ Hc _ Hws _ _ _ _] & Hg). cbv zeta in *.
  unfold on_handshake. rewrite set_pending_generation, Z.eqb_refl. cbn [negb]. cbv zeta.
  set (s2 := set_queue _ _) in *. set (s3 := emit (EOpen (generation_ s)) s2).
  assert (Hoo : on_open_ s2 = on_open_ s) by (unfold s2; by destruct s).
  rewrite Hoo, Ho. unfold user_open_calls, user_send_initial, user_initial_subscription. cbn [u_creds u_desired set_user]. rewrite Hj.
  cbn [mbind result_bind]. fold s3. set (s4 := run_calls _ s3 _).
  assert (H3 : write_queue_ s3 = write_queue_ s2 /\ connected_ s3 = connected_ s2 /\ writing_ s3 = writing_ s2
    /\ ws_ s3 = ws_ s2 /\ generation_ s3 = generation_ s2) by (unfold s3; by destruct s2).
  destruct H3 as (E1 & E2 & E3 & E4 & E5).
  destruct (send_first_writes t s3) as (e & He & Ht & Hsc & Hge);
    [by rewrite E1|by rewrite E2|rewrite E3, <- Hw; unfold s2; by destruct s|by rewrite E4, E5| |].
  { rewrite E1, E5, Hg. eapply Z.le_lt_trans; [|unfold s2; destruct s; exact Hroom].
    unfold s2. clear. destruct s; cbn. apply inj_le, discard_stale_conn. }
  destruct (transitivity (run_calls_evolves hash (default [] (u_on_open f)) (send_first t s3))
    (handshake_tail_evolves (generation_ s) s4)) as [[post Hpost] _ _].
  exists post, e. rewrite E5, Hg in *. split; [|done]. rewrite Hpost, He. unfold s3, s2. by destruct s.
Qed.

Lemma user_io_same hash json f s s' :
  step hash s s' -> opened_between s s' = false -> user_step hash json (f, s) (f, s').
Proof. intros H E. pose proof (user_io hash json f s s' H) as Hs. by rewrite E in Hs. Qed.

(** A user feed that connects for the first time. *)
Module DemoUser.
Definition json (m : UserFrame) : option string :=
  Some match m with UserInitial _ l => "auth " +:+ String.concat "," l | _ => "delta" end.
Definition feed : UserWs :=
  {| u_creds := {| api_key := "k"; secret := "s"; passphrase := "p" |}; u_desired := ["m"]; u_active := [];
     u_on_raw := None; u_on_open := None |}.
Definition shaken : WsClient := StaleRun.tls_up 1 [] (do_connect StaleRun.hash7 true (user_client json feed)).

Lemma run_shaken : rtc (user_step StaleRun.hash7 json) (feed, user_client json feed) (feed, shaken).
Proof.
  eapply rtc_l; [apply (user_started _ _ (feed, user_client json feed) true)|].
  eapply rtc_l; [apply user_io_same; [apply (step_resolve _ _ 1 [PStage 1] None); reflexivity|reflexivity]|].
  eapply rtc_l; [apply user_io_same; [apply (step_connect _ _ 1 [PStage 1] None); reflexivity|reflexivity]|].
  apply rtc_once, user_io_same; [apply (step_tls _ _ 1 [PStage 1] None); reflexivity|reflexivity].
Qed.
End DemoUser.

Lemma user_auth_written_first_witness :
  let s := DemoUser.shaken in
  exists post e, trace (on_handshake StaleRun.hash7 (generation_ s) None (set_pending [PStage 1] s))
      = post ++ [EWrite (generation_ s) e; EOpen (generation_ s); ELog] ++ trace s
    /\ text (payload e) = "auth m" /\ connection_scoped e = true /\ generation e = generation_ s.
Proof.
  cbv zeta.
  apply (user_auth_written_first StaleRun.hash7 DemoUser.json DemoUser.feed DemoUser.feed DemoUser.shaken [PStage 1]);
    [|reflexivity|reflexivity|vm_compute; reflexivity].
  exact DemoUser.run_shaken.
Defined.

(** ** The real-time data feed on its client *)

Section RtdsComposed.
Context (hash : string -> Z).

(** The constructor. *)
Definition rtds_client (f : Rtds) : WsClient :=
  make_client "ws-live-data.polymarket.com" "/" 5000 "ping" (Some (rtds_on_message f)) (Some (rtds_on_open f)) None.

Definition rtds_refresh (f : Rtds) (s : WsClient) : WsClient := refresh rtds_on_open rtds_on_message f s.

Definition rtds_start (tls_ok : bool) (fs : Rtds * WsClient) : Rtds * WsClient := (fst fs, start hash tls_ok (snd fs)).
Definition rtds_stop (fs : Rtds * WsClient) : Rtds * WsClient := (fst fs, stop (snd fs)).
Definition rtds_kick (fs : Rtds * WsClient) : Rtds * WsClient := (fst fs, kick hash (snd fs)).

(** A call that subscribes: the new feed and the frames it sends at once. *)
Inductive RtdsCall :=
  | SendSub (subscription_json : string)
  | CryptoPrices (symbols : list string)
  | Chainlink (symbol : string).
Definition rtds_call (c : RtdsCall) (conn : bool) (f : Rtds) : Rtds * list string :=
  match c with
  | SendSub j => send_sub j conn f
  | CryptoPrices l => subscribe_crypto_prices l conn f
  | Chainlink sym => subscribe_crypto_prices_chainlink sym conn f
  end.
(** What the call asks for. *)
Definition rtds_wanted (c : RtdsCall) : list string :=
  match c with
  | SendSub j => [j]
  | CryptoPrices l => filter_sub "crypto_prices" <$> l
  | Chainlink sym => [filter_sub "crypto_prices_chainlink" sym]
  end.

(** The third component collects what the application asked for so far. *)
Inductive rtds_step : Rtds * WsClient * list string -> Rtds * WsClient * list string -> Prop :=
  | rtds_io f s w s' : step hash s s' -> rtds_step (f, s, w) (f, s', w)
  | rtds_subscribe f s w c f' frames : rtds_call c (connected s) f = (f', frames) ->
      rtds_step (f, s, w) (f', rtds_refresh f' (send_all frames s), w ++ rtds_wanted c)
  | rtds_set f s w h : let f' := rtds_set_on_message h f in
      rtds_step (f, s, w) (f', rtds_refresh f' s, w)
  | rtds_started fs w tls_ok : rtds_step (fs, w) (rtds_start tls_ok fs, w)
  | rtds_stopped fs w : rtds_step (fs, w) (rtds_stop fs, w)
  | rtds_kicked fs w : rtds_step (fs, w) (rtds_kick fs, w).

(** Subscribing remembers what was asked for and, when connected, sends it. *)
Lemma rtds_call_spec c conn f :
  subs_ (fst (rtds_call c conn f)) = subs_ f ++ rtds_wanted c
  /\ snd (rtds_call c conn f) = (if conn then wrap_action "subscribe" <$> rtds_wanted c else []).
Proof using.
  destruct c as [j|l|sym]; cbn [rtds_call rtds_wanted]; [by destruct conn| |by destruct conn].
  revert f. induction l as [|x l IH]; intros f; [by destruct conn; cbn; rewrite app_nil_r|].
  cbn [subscribe_crypto_prices send_sub]. specialize (IH (fst (send_sub (filter_sub "crypto_prices" x) conn f))).
  cbn [send_sub fst] in IH. destruct (subscribe_crypto_prices l conn _) as [f' more]. cbn [fst snd] in *.
  destruct IH as [-> ->]. cbn. rewrite <- app_assoc. split; [done|by destruct conn].
Qed.

Definition rtds_inv (x : Rtds * WsClient * list string) : Prop :=
  hosted_inv rtds_on_open (fst x) /\ subs_ (fst (fst x)) = snd x.

Lemma rtds_step_inv a b : rtds_step a b -> rtds_inv a -> rtds_inv b.
Proof using.
  intros [f s w s' Hst|f s w c f' frames Hc|f s w h f'|[f s] w tls|[f s] w|[f s] w] [Hi Hw];
    unfold rtds_inv in *; cbn [fst snd] in *.
  - split; [|done]. by eapply hosted_step; [exact Hst| |exact Hi].
  - split; [apply (refresh_inv _ _ f); by apply (send_all_inv hash)|].
    destruct (rtds_call_spec c (connected s) f) as [H _]. rewrite Hc in H. cbn in H. by rewrite H, Hw.
  - split; [by apply (refresh_inv _ _ f)|done].
  - split; [|done]. by eapply hosted_step; [apply step_start|reflexivity|].
  - split; [|done]. by eapply (hosted_stop hash).
  - split; [|done]. by eapply hosted_step; [apply step_kick|reflexivity|].
Qed.

Lemma rtds_reachable f a : rtc rtds_step (f, rtds_client f, subs_ f) a -> rtds_inv a.
Proof using.
  assert (H0 : rtds_inv (f, rtds_client f, subs_ f)) by (split; [split; [apply make_client_inv|by left]|done]).
  intros H. revert H0. induction H; eauto using rtds_step_inv.
Qed.

(** Sends from a callback are posted in order and touch nothing else. *)
Lemma run_sends_posted l s :
  run_calls hash s (CallSend <$> l) = set_posted (posted s ++ l) s.
Proof using.
  revert s. induction l as [|t l IH]; intros s; cbn [fmap list_fmap].
  - destruct s; cbn. by rewrite app_nil_r.
  - unfold run_calls in *. cbn [fold_left run_call]. rewrite IH. unfold send. destruct s; cbn. by rewrite <- app_assoc.
Qed.

(** No subscription is forgotten.  Whatever the feed and its client went
    through, when a connection comes up the open callback hands [ws_->send] one
    subscribe frame for every subscription the application ever asked for, in
    the order it asked, behind what was already posted; and the client stays on
    that connection with its read started. *)
Theorem rtds_replays_subscriptions f0 f s w l :
  rtc rtds_step (f0, rtds_client f0, subs_ f0) (f, s, w) ->
  pending s ≡ₚ PHandshake (generation_ s) :: l ->
  let s' := on_handshake hash (generation_ s) None (set_pending l s) in
  posted s' = posted s ++ (wrap_action "subscribe" <$> w)
  /\ connected_ s' = true /\ generation_ s' = generation_ s /\ PRead (generation_ s) ∈ pending s'.
Proof using.
  intros [[Hi Ho] Hw]%rtds_reachable Hp. cbn [fst snd] in *. cbv zeta.
  destruct (take_current s _ l _ Hi Hp eq_refl eq_refl) as [_ [Hst _ _ _ _ _ _ _]].
  replace (stopped_ (set_pending l s)) with (stopped_ s) in Hst by (by destruct s).
  destruct Ho as [Ho|[_ Ho]]; [|congruence].
  unfold on_handshake. rewrite set_pending_generation, Z.eqb_refl. cbn [negb]. cbv zeta.
  set (s2 := set_queue _ _). assert (Hoo : on_open_ s2 = on_open_ s) by (unfold s2; by destruct s).
  rewrite Hoo, Ho. unfold rtds_on_open.
  replace (CallSend ∘ wrap_action "subscribe" <$> subs_ f) with (CallSend <$> (wrap_action "subscribe" <$> w))
    by (by rewrite <- Hw, <- list_fmap_compose).
  rewrite run_sends_posted. set (s3 := set_posted _ _).
  assert (H3 : stopped_ s3 = false /\ generation_ s3 = generation_ s /\ connected_ s3 = true
    /\ posted s3 = posted s ++ (wrap_action "subscribe" <$> w)) by (unfold s3, s2; by destruct s).
  destruct H3 as (E1 & E2 & E3 & E4). rewrite E1, E2, Z.eqb_refl. cbn [orb negb].
  set (s4 := if negb (qempty _) && _ then _ else _).
  assert (H4 : posted s4 = posted s3 /\ connected_ s4 = connected_ s3 /\ generation_ s4 = generation_ s3).
  { unfold s4, do_write. repeat case_match; by destruct s3. }
  destruct H4 as (F1 & F2 & F3). set (s5 := schedule_keepalive s4).
  assert (H5 : posted s5 = posted s4 /\ connected_ s5 = connected_ s4 /\ generation_ s5 = generation_ s4).
  { unfold s5, schedule_keepalive. case_match; by destruct s4. }
  destruct H5 as (G1 & G2 & G3).
  rewrite <- E4, <- F1, <- G1. split; [by destruct s5|].
  split; [transitivity (connected_ s5); [by destruct s5|congruence]|].
  split; [transitivity (generation_ s5); [by destruct s5|congruence]|]. destruct s5. apply list_elem_of_here.
Qed.
End RtdsComposed.

Module DemoRtds.
Definition wanted : list string :=
  [filter_sub "crypto_prices" "btcusdt"; filter_sub "crypto_prices_chainlink" "sol/usd"].
Definition feed0 : Rtds := {| subs_ := []; rtds_on_raw := None |}.
Definition feed : Rtds := {| subs_ := wanted; rtds_on_raw := None |}.
Definition shaken : WsClient := StaleRun.tls_up 1 [] (do_connect StaleRun.hash7 true (rtds_client feed)).
End DemoRtds.

Lemma rtds_replays_subscriptions_witness :
  let s := DemoRtds.shaken in
  let s' := on_handshake StaleRun.hash7 (generation_ s) None (set_pending [PStage 1] s) in
  posted s' = posted s ++ (wrap_action "subscribe" <$> DemoRtds.wanted)
  /\ connected_ s' = true /\ generation_ s' = generation_ s /\ PRead (generation_ s) ∈ pending s'.
Proof.
  apply (rtds_replays_subscriptions StaleRun.hash7 DemoRtds.feed0 DemoRtds.feed DemoRtds.shaken DemoRtds.wanted
    [PStage 1]); [|reflexivity].
  eapply rtc_l; [apply (rtds_subscribe _ _ _ _ (CryptoPrices ["btcusdt"])); reflexivity|].
  eapply rtc_l; [apply (rtds_subscribe _ _ _ _ (Chainlink "sol/usd")); reflexivity|].
  eapply rtc_l; [apply (rtds_started _ _ _ true)|].
  eapply rtc_l; [apply rtds_io, (step_resolve _ _ 1 [PStage 1] None); reflexivity|].
  eapply rtc_l; [apply rtds_io, (step_connect _ _ 1 [PStage 1] None); reflexivity|].
  apply rtc_once, rtds_io, (step_tls _ _ 1 [PStage 1] None). reflexivity.
Defined.

(** ** A stopped user feed *)

Definition no_creds : ApiCreds := {| api_key := ""; secret := ""; passphrase := "" |}.

Lemma secure_clear_empty v : secure_clear v = "".
Proof. unfold secure_clear. by destruct (str_map _ v). Qed.

Lemma user_stop_creds f : u_creds (user_stop_completion f) = no_creds.
Proof. unfold user_stop_completion, no_creds. cbn [u_creds set_user]. by rewrite !secure_clear_empty. Qed.

(** Retired, without credentials, and with nothing done since [log]. *)
Definition user_over (log : list Effect) (fs : UserWs * WsClient) : Prop :=
  u_creds (fst fs) = no_creds /\ stopped_ (snd fs) = true /\ activity (snd fs) = log.

Lemma refresh_over {F} (g : F -> list Call) (m : F -> string -> list Call) f s :
  stopped_ (refresh g m f s) = stopped_ s /\ activity (refresh g m f s) = activity s.
Proof. unfold refresh. repeat case_match; by destruct s. Qed.

Lemma send_all_over l s : stopped_ (send_all l s) = stopped_ s /\ activity (send_all l s) = activity s.
Proof.
  unfold send_all. revert s. induction l as [|t l IH]; intros s; [done|]. cbn [fold_left].
  destruct (IH (send t s)) as [-> ->]. by destruct s.
Qed.

Lemma stop_over s : stopped_ (stop s) = true /\ activity (stop s) = activity s.
Proof. by destruct s. Qed.

Section UserOver.
Context (hash : string -> Z) (write_json : UserFrame -> option string).

Lemma user_subscribe_creds d b f f' frames :
  user_subscribe write_json d b f = Ok (f', frames) -> u_creds f' = u_creds f.
Proof using.
  unfold user_subscribe. cbv zeta. intros H. destruct b; cbn [negb] in H; [|by injection H as <- <-].
  apply bind_ok in H as (a & _ & H). apply bind_ok in H as (r & _ & H). by injection H as <- <-.
Qed.

Lemma user_over_step log a b :
  user_inv write_json a -> user_over log a -> user_step hash write_json a b -> user_over log b.
Proof using.
  intros Hi (Hc & Hs & Ha) Hst. unfold user_over.
  assert (Hio : forall s', step hash (snd a) s' -> stopped_ s' = true /\ activity s' = log).
  { intros s' H. destruct (retired_step hash _ _ (proj1 Hi) Hs H) as [-> ->]. done. }
  destruct Hst as [f s s' Hst|f s d f' frames Hf|f s d f'|f s f' Hf|[f s] tls|[f s]|[f s]]; cbn [fst snd] in *.
  - split; [by destruct (opened_between s s')|by apply Hio].
  - rewrite (user_subscribe_creds _ _ _ _ _ Hf). unfold user_refresh.
    destruct (refresh_over (user_open_calls write_json) user_on_message f' (send_all (omap write_json frames) s))
      as [-> ->]. destruct (send_all_over (omap write_json frames) s) as [-> ->]. done.
  - split; [done|]. unfold user_kick. cbn [fst snd]. assert (Hk : kick hash (user_refresh write_json f' s) = user_refresh write_json f' s).
    { unfold kick. destruct (refresh_over (user_open_calls write_json) user_on_message f' s) as [H _].
      unfold user_refresh in *. rewrite H, Hs. by destruct (ws_ _). }
    rewrite Hk. unfold user_refresh.
    by destruct (refresh_over (user_open_calls write_json) user_on_message f' s) as [-> ->].
  - split; [by destruct Hf as [[h ->]|[h ->]]|]. unfold user_refresh.
    by destruct (refresh_over (user_open_calls write_json) user_on_message f' s) as [-> ->].
  - split; [done|]. apply Hio. apply step_start.
  - split; [apply user_stop_creds|apply Hio, step_stop].
  - split; [done|]. apply Hio. apply step_kick.
Qed.
End UserOver.

(** Stopping the user feed leaves no secret behind.  After [stop] and in
    every later state, whatever still happens to the feed or its client, the
    stored credentials are empty, the client is retired, and no further frame
    is written. *)
Theorem user_stop_clears hash write_json f0 fs fs' :
  rtc (user_step hash write_json) (f0, user_client write_json f0) fs ->
  rtc (user_step hash write_json) (user_stop fs) fs' ->
  u_creds (fst fs') = no_creds
  /\ stopped_ (snd fs') = true /\ activity (snd fs') = activity (snd fs).
Proof.
  intros Hr Hrun. pose proof (user_reachable hash write_json f0 fs Hr) as Hi.
  assert (H : user_inv write_json fs' /\ user_over (activity (snd fs)) fs'); [|apply H].
  assert (H0 : user_inv write_json (user_stop fs) /\ user_over (activity (snd fs)) (user_stop fs)).
  { destruct fs as [f s]. split; [by eapply (hosted_stop hash)|]. split; [apply user_stop_creds|apply stop_over]. }
  revert H0. induction Hrun as [|a b c Hst _ IH]; [done|]. intros [Hia Hoa]. apply IH.
  split; [by eapply user_step_inv|by eapply user_over_step].
Qed.

Lemma user_stop_clears_witness :
  let fs := user_stop (DemoUser.feed, DemoUser.shaken) in
  u_creds (fst fs) = no_creds /\ stopped_ (snd fs) = true
  /\ activity (snd fs) = activity DemoUser.shaken.
Proof.
  apply (user_stop_clears StaleRun.hash7 DemoUser.json DemoUser.feed (DemoUser.feed, DemoUser.shaken));
    [exact DemoUser.run_shaken|apply rtc_refl].
Defined.
