(* ===== verification/Delivery.v ===== *)
(** * No wakeup is lost, and what is queued gets out ([src/net/ws_client.cpp])

    Two properties of the client's write side beyond safety.  While connected,
    the client is either writing or has nothing to write, so a queued message
    never waits for an unrelated event.  And from every state a started client
    can be in, completions that succeed lead to a connected client with an
    empty queue: reconnecting, replaying and draining need nothing from the
    owner. *)

From Stdlib Require Import String ZArith Lia.
From stdpp Require Import base list strings numbers relations.
From S2P Require Import Prelude WriteQueue WsClient Outbox Feeds FeedClients.

Open Scope Z_scope.

(** ** No lost wakeup *)

(** Connected and not writing means nothing to write. *)
Definition awake (s : WsClient) : Prop :=
  connected_ s = true -> writing_ s = false -> entries_ (write_queue_ s) = [].

(** A handler that leaves the flags and the queue alone, or disconnects. *)
Definition rests (s s' : WsClient) : Prop :=
  connected_ s' = false
  \/ (connected_ s' = connected_ s /\ writing_ s' = writing_ s
      /\ entries_ (write_queue_ s') = entries_ (write_queue_ s)).

Lemma rests_awake s s' : rests s s' -> awake s -> awake s'.
Proof. unfold awake. intros [H|(-> & -> & ->)] Ha Hc; [congruence|auto]. Qed.

#[export] Instance rests_preorder : PreOrder rests.
Proof.
  split; unfold rests; [intros s; by right|]. intros a b c [H1|(H1 & H2 & H3)] [K|(K1 & K2 & K3)];
    [by left|left; congruence|by left|right; intuition congruence].
Qed.

Section Awake.
Context (hash : string -> Z).

(** The one place that starts a write: nothing is left waiting. *)
Lemma do_write_awake st s : awake (do_write st (generation_ s) s).
Proof using.
  unfold awake, do_write. rewrite Z.eqb_refl. cbn [negb orb].
  destruct (entries_ (write_queue_ s)) as [|e l] eqn:Eq, (connected_ s) eqn:Ec;
    unfold qempty; rewrite Eq; cbn [negb orb]; destruct s; cbn in *; rewrite ?Eq; subst; try done.
  by destruct st.
Qed.

Lemma do_write_flags st g s :
  connected_ (do_write st g s) = connected_ s /\ stopped_ (do_write st g s) = stopped_ s
  /\ generation_ (do_write st g s) = generation_ s /\ posted (do_write st g s) = posted s
  /\ on_open_ (do_write st g s) = on_open_ s /\ write_queue_ (do_write st g s) = write_queue_ s.
Proof using. unfold do_write. repeat case_match; by destruct s. Qed.

Lemma schedule_reconnect_rests f s : connected_ s = false -> connected_ (schedule_reconnect hash f s) = false.
Proof using.
  intros H. unfold schedule_reconnect, arm_reconnect, stop. repeat case_match; by destruct s.
Qed.

Lemma kick_rests s : rests s (kick hash s).
Proof using.
  unfold kick. repeat case_match; try reflexivity. left. apply schedule_reconnect_rests. by destruct s.
Qed.
Lemma fail_rests ei g s : rests s (fail hash ei g s).
Proof using. unfold fail. case_match; [reflexivity|]. left. apply schedule_reconnect_rests. by destruct s. Qed.
Lemma stop_rests s : rests s (stop s).
Proof using. left. by destruct s. Qed.
Lemma do_connect_rests tls s : rests s (do_connect hash tls s).
Proof using.
  unfold do_connect. repeat case_match; [reflexivity|..]; left; [apply schedule_reconnect_rests|]; by destruct s.
Qed.

(** A push that is followed by the write it may need. *)
Lemma push_awake s q (ok : bool) :
  (ok = false -> awake s -> awake (set_queue q s)) -> awake s ->
  awake (if negb ok then emit ELog (set_queue q s)
    else if connected_ (set_queue q s) && negb (writing_ (set_queue q s))
         then do_write (ws_ (set_queue q s)) (generation_ (set_queue q s)) (set_queue q s)
         else set_queue q s).
Proof using.
  intros Hno Ha. destruct ok; cbn [negb].
  - destruct (connected_ (set_queue q s) && negb (writing_ (set_queue q s))) eqn:E; [apply do_write_awake|].
    intros Hc Hw. by rewrite Hc, Hw in E.
  - specialize (Hno eq_refl Ha). unfold awake in *. by destruct s.
Qed.

Lemma send_first_awake t s : awake s -> awake (send_first t s).
Proof using.
  intros Ha. unfold send_first. destruct (push_connection _ _ _ _) as [ok q] eqn:E. apply push_awake; [|done].
  intros -> _ Hc Hw. unfold push_connection in E. cbv zeta in E. case_match; [|done]. injection E as <-.
  destruct s. cbn in *. specialize (Ha Hc Hw). cbn in Ha. by rewrite Ha.
Qed.

Lemma run_send_awake t s : awake s -> awake (run_send t s).
Proof using.
  intros Ha. unfold run_send. destruct (push_retained _ _) as [ok q] eqn:E. apply push_awake; [|done].
  intros -> _. unfold push_retained in E. case_match; [|done]. injection E as <-. unfold awake in *. by destruct s.
Qed.

Lemma run_calls_awake l s : awake s -> awake (run_calls hash s l).
Proof using.
  unfold run_calls. revert s. induction l as [|c l IH]; intros s Ha; [done|]. cbn [fold_left]. apply IH.
  destruct c; cbn [run_call].
  - by apply send_first_awake.
  - unfold send, awake in *. by destruct s.
  - eapply rests_awake; [apply kick_rests|done].
  - eapply rests_awake; [apply stop_rests|done].
Qed.

(** The handlers of the operations in flight. *)
Lemma on_stage_rests next g err s : rests s (on_stage hash next g err s).
Proof using. unfold on_stage. repeat case_match; [reflexivity|apply fail_rests|]. right. by destruct s. Qed.

(** A callback either leaves the session alone or ends it. *)
Lemma run_calls_session l s :
  connected_ (run_calls hash s l) = true ->
  generation_ (run_calls hash s l) = generation_ s /\ stopped_ (run_calls hash s l) = stopped_ s
  /\ connected_ s = true.
Proof using.
  unfold run_calls. revert s. induction l as [|c l IH]; intros s; [done|]. cbn [fold_left]. intros H.
  destruct (IH _ H) as (-> & -> & Hc). revert Hc. destruct c; cbn [run_call].
  - unfold send_first. destruct (push_connection _ _ _ _) as [ok q]. repeat case_match; try (by destruct s).
    destruct (do_write_flags (ws_ (set_queue q s)) (generation_ (set_queue q s)) (set_queue q s)) as (-> & -> & -> & _).
    by destruct s.
  - by destruct s.
  - unfold kick. repeat case_match; try done. by rewrite schedule_reconnect_rests by (by destruct s).
  - by destruct s.
Qed.

Lemma schedule_keepalive_rests s : rests s (schedule_keepalive s).
Proof using. unfold schedule_keepalive. case_match; right; by destruct s. Qed.
Lemma add_pending_rests p s : rests s (add_pending p s).
Proof using. right. by destruct s. Qed.
Lemma set_pending_rests l s : rests s (set_pending l s).
Proof using. right. by destruct s. Qed.

(** The end of a session's opening: the queue is flushed. *)
Lemma on_handshake_awake g err s : stopped_ s = false -> awake s -> awake (on_handshake hash g err s).
Proof using.
  intros Hst Ha. unfold on_handshake. case_match; [done|]. destruct err; [eapply rests_awake; [apply fail_rests|done]|].
  cbv zeta. set (s1 := set_queue _ _). set (s2 := match on_open_ s1 with Some _ => _ | None => _ end).
  assert (H1 : generation_ s1 = g /\ stopped_ s1 = false).
  { apply negb_false_iff, Z.eqb_eq in H. subst g. by destruct s. }
  assert (Hs : connected_ s2 = true -> generation_ s2 = g /\ stopped_ s2 = false).
  { unfold s2. clear s2. clearbody s1. case_match; [|done].
    intros (-> & -> & _)%run_calls_session. by destruct s1. }
  destruct (stopped_ s2 || negb (g =? generation_ s2)) eqn:E.
  { intros Hc. destruct (Hs Hc) as [E1 E2]. by rewrite E1, E2, Z.eqb_refl in E. }
  apply orb_false_iff in E as [_ Eg]. apply negb_false_iff, Z.eqb_eq in Eg.
  eapply rests_awake; [apply add_pending_rests|]. eapply rests_awake; [apply schedule_keepalive_rests|].
  destruct (negb (qempty (write_queue_ s2)) && negb (writing_ s2)) eqn:E2; [rewrite Eg at 2; apply do_write_awake|].
  intros _ Hw. rewrite Hw, andb_true_r in E2. apply negb_false_iff in E2. unfold qempty in E2. by case_match.
Qed.

Lemma on_read_awake g res s : awake s -> awake (on_read hash g res s).
Proof using.
  intros Ha. unfold on_read. case_match; [done|]. destruct res; [eapply rests_awake; [apply fail_rests|done]|].
  cbv zeta. set (s2 := match _ with Some _ => _ | None => _ end).
  assert (H2 : awake s2).
  { unfold s2. case_match; [apply run_calls_awake|]; unfold awake in *; by destruct s. }
  case_match; [|done]. eapply rests_awake; [apply add_pending_rests|done].
Qed.

Lemma on_write_awake p g err s : awake s -> awake (on_write hash p g err s).
Proof using.
  intros Ha. unfold on_write. case_match; [done|]. destruct err; [eapply rests_awake; [apply fail_rests|done]|].
  apply negb_false_iff, Z.eqb_eq in H. cbv zeta.
  replace g with (generation_ (set_queue (complete (write_queue_ s) p) s)) at 2 by (subst g; by destruct s).
  apply do_write_awake.
Qed.

Lemma on_keepalive_awake aborted s : awake s -> awake (on_keepalive_timer aborted s).
Proof using.
  intros Ha. unfold on_keepalive_timer. case_match; [done|]. destruct (push_connection _ _ _ _) as [ok q]. cbv zeta.
  eapply rests_awake; [apply schedule_keepalive_rests|].
  set (s1 := if negb ok then _ else _). destruct (writing_ s1) eqn:E; cbn [negb]; [|apply do_write_awake].
  intros _ Hw. congruence.
Qed.

Lemma on_stage_timer_rests g aborted s : rests s (on_stage_timer hash g aborted s).
Proof using.
  unfold on_stage_timer. case_match eqn:E; [reflexivity|]. left. apply schedule_reconnect_rests.
  repeat (apply orb_false_iff in E as [E ?]). by destruct s.
Qed.

(** Every step keeps the client awake. *)
Lemma step_awake s s' : ws_inv 1 s -> step hash s s' -> awake s -> awake s'.
Proof using.
  intros Hi Hst Ha.
  assert (Hp : forall l, awake (set_pending l s)) by (intros l; eapply rests_awake; [apply set_pending_rests|done]).
  destruct Hst as [s tls|s|s|s t|s t|s t rest Hq|s g l err Hq|s g l err Hq|s g l err Hq|s g l err Hq|s g l res Hq
                  |s p g l err Hq|s g l aborted Hq|s l c aborted tls Hq|s l aborted Hq].
  - eapply rests_awake; [apply do_connect_rests|done].
  - eapply rests_awake; [apply stop_rests|done].
  - eapply rests_awake; [apply kick_rests|done].
  - unfold send, awake in *. by destruct s.
  - by apply send_first_awake.
  - apply run_send_awake. unfold awake in *. by destruct s.
  - eapply rests_awake; [apply on_stage_rests|done].
  - eapply rests_awake; [apply on_stage_rests|done].
  - eapply rests_awake; [apply on_stage_rests|done].
  - destruct (Z.eqb_spec g (generation_ s)) as [->|Hne].
    + apply on_handshake_awake; [|done].
      destruct (take_current s _ l Chain Hi Hq eq_refl eq_refl) as [_ Hc]. apply Hc.
    + unfold on_handshake. rewrite set_pending_generation, (proj2 (Z.eqb_neq _ _) Hne). exact (Hp l).
  - by apply on_read_awake.
  - by apply on_write_awake.
  - eapply rests_awake; [apply on_stage_timer_rests|done].
  - unfold on_reconnect_timer. case_match; [|done]. eapply rests_awake; [apply do_connect_rests|].
    specialize (Hp l). unfold awake in *. by destruct s.
  - by apply on_keepalive_awake.
Qed.
End Awake.

(** ** Draining *)

(** A callback that only sends. *)
Definition is_send (c : Call) : bool := match c with CallSend _ | CallSendFirst _ => true | _ => false end.
Definition sends_only (oo : option (list Call)) : Prop := forallb is_send (default [] oo) = true.

Lemma inflight_some k g l n : inflight k g l = S n ->
  exists p l', l ≡ₚ p :: l' /\ pkind p = Some k /\ pgen p = Some g.
Proof.
  induction l as [|p l IH]; [done|]. rewrite inflight_cons. destruct (of_kind k g p) eqn:E.
  - intros _. exists p, l. split; [done|]. unfold of_kind in E. apply andb_true_iff in E as [E1 E2].
    by apply bool_decide_eq_true in E1, E2.
  - intros H. destruct (IH H) as (q & l' & Hl & Hq). exists q, (p :: l'). split; [|done].
    rewrite Hl. apply Permutation_swap.
Qed.

Section Drain.
Context (hash : string -> Z).

(** The steps of a network that works and an owner that does nothing: a posted
    body runs, the timer fires, an operation succeeds. *)
Inductive lucky : WsClient -> WsClient -> Prop :=
  | lucky_posted s t rest : posted s = t :: rest -> lucky s (run_send t (set_posted rest s))
  | lucky_timer s l : pending s ≡ₚ PReconnect false :: l ->
      lucky s (on_reconnect_timer hash false true (set_pending l s))
  | lucky_resolve s g l : pending s ≡ₚ PResolve g :: l -> lucky s (on_stage hash PConnect g None (set_pending l s))
  | lucky_connect s g l : pending s ≡ₚ PConnect g :: l -> lucky s (on_stage hash PTls g None (set_pending l s))
  | lucky_tls s g l : pending s ≡ₚ PTls g :: l -> lucky s (on_stage hash PHandshake g None (set_pending l s))
  | lucky_handshake s g l : pending s ≡ₚ PHandshake g :: l -> lucky s (on_handshake hash g None (set_pending l s))
  | lucky_write s p g l : pending s ≡ₚ PWrite p g :: l -> lucky s (on_write hash p g None (set_pending l s)).

Lemma lucky_step s s' : lucky s s' -> step hash s s'.
Proof using. intros []; eauto using step. Qed.

Lemma lucky_run s s' : rtc lucky s s' -> rtc (step hash) s s'.
Proof using. apply rtc_subrel. intros a b. apply lucky_step. Qed.

Lemma lucky_kept s s' : lucky s s' -> good s -> awake s -> good s' /\ awake s'.
Proof using.
  intros Hst%lucky_step Hg Ha. split; [by eapply step_good|]. eapply step_awake; [apply Hg|done..].
Qed.

Lemma run_kept s s' : rtc lucky s s' -> good s -> awake s -> good s' /\ awake s'.
Proof using.
  induction 1 as [|a b c Hst _ IH]; [done|]. intros Hg Ha. destruct (lucky_kept a b Hst Hg Ha). auto.
Qed.

(** What the steps towards a session leave alone. *)
Record towards (s s' : WsClient) : Prop := {
  tw_run : rtc lucky s s';
  tw_stopped : stopped_ s' = stopped_ s;
  tw_open : on_open_ s' = on_open_ s;
}.

#[local] Instance towards_preorder : PreOrder towards.
Proof using.
  split; [intros s; by split|]. intros a b c [A1 A2 A3] [B1 B2 B3]. split; [by etrans|congruence|congruence].
Qed.

(** One stage of the connection succeeds. *)
Lemma stage_succeeds s p next l :
  pending s ≡ₚ p :: l -> lucky s (on_stage hash next (generation_ s) None (set_pending l s)) ->
  exists s' l', towards s s' /\ pending s' ≡ₚ next (generation_ s') :: l'.
Proof using.
  intros Hp Hst. exists (add_pending (next (generation_ s)) (set_pending l s)), l.
  unfold on_stage in Hst. rewrite set_pending_generation, Z.eqb_refl in Hst. cbn [negb] in Hst.
  split; [|by destruct s]. split; [by apply rtc_once|by destruct s..].
Qed.

Lemma chain_succeeds s p l :
  pending s ≡ₚ p :: l -> pkind p = Some Chain -> pgen p = Some (generation_ s) ->
  exists s' l', towards s s' /\ pending s' ≡ₚ PHandshake (generation_ s') :: l'.
Proof using.
  assert (Htls : forall s l, pending s ≡ₚ PTls (generation_ s) :: l ->
    exists s' l', towards s s' /\ pending s' ≡ₚ PHandshake (generation_ s') :: l').
  { intros s0 l0 H0. by eapply stage_succeeds, lucky_tls. }
  assert (Hconn : forall s l, pending s ≡ₚ PConnect (generation_ s) :: l ->
    exists s' l', towards s s' /\ pending s' ≡ₚ PHandshake (generation_ s') :: l').
  { intros s0 l0 H0. destruct (stage_succeeds s0 _ PTls l0 H0) as (s1 & l1 & T1 & H1); [by apply lucky_connect|].
    destruct (Htls s1 l1 H1) as (s2 & l2 & T2 & H2). exists s2, l2. split; [by etrans|done]. }
  intros Hp Hk Hg. destruct p as [g|g|g|g|g| | | |]; try done; injection Hg as ->.
  - destruct (stage_succeeds s _ PConnect l Hp) as (s1 & l1 & T1 & H1); [by apply lucky_resolve|].
    destruct (Hconn s1 l1 H1) as (s2 & l2 & T2 & H2). exists s2, l2. split; [by etrans|done].
  - by eapply Hconn.
  - by eapply Htls.
  - by exists s, l.
Qed.

(** The reconnect timer fires. *)
Lemma timer_succeeds s :
  PReconnect false ∈ pending s -> stopped_ s = false ->
  exists s' l', towards s s' /\ pending s' ≡ₚ PResolve (generation_ s') :: l'.
Proof using.
  intros Hin Hs. apply list_elem_of_split in Hin as (l1 & l2 & Hl).
  assert (Hp : pending s ≡ₚ PReconnect false :: l1 ++ l2) by (rewrite Hl; by rewrite Permutation_middle).
  pose proof (lucky_timer s (l1 ++ l2) Hp) as Hst.
  exists (on_reconnect_timer hash false true (set_pending (l1 ++ l2) s)).
  exists (PStage (generation_ s + 1) :: l1 ++ l2). split; [split; [by apply rtc_once|..]|];
    unfold on_reconnect_timer, do_connect; destruct s; cbn in *; subst; cbn; reflexivity.
Qed.

(** ** A session of its own

    Connected, not retired, both invariants, and nothing asleep. *)
Record session (s : WsClient) : Prop := {
  ss_good : good s;
  ss_awake : awake s;
  ss_connected : connected_ s = true;
  ss_stopped : stopped_ s = false;
}.

Lemma sends_session l s : forallb is_send l = true ->
  connected_ (run_calls hash s l) = connected_ s /\ stopped_ (run_calls hash s l) = stopped_ s
  /\ generation_ (run_calls hash s l) = generation_ s.
Proof using.
  unfold run_calls. revert s. induction l as [|c l IH]; intros s; [done|]. cbn [forallb fold_left].
  intros [Hc Hl]%andb_true_iff. destruct (IH (run_call hash s c) Hl) as (-> & -> & ->).
  destruct c; try done; cbn [run_call]; [|by destruct s].
  unfold send_first. destruct (push_connection _ _ _ _) as [ok q]. repeat case_match; try (by destruct s).
  destruct (do_write_flags (ws_ (set_queue q s)) (generation_ (set_queue q s)) (set_queue q s)) as (-> & -> & -> & _).
  by destruct s.
Qed.

(** What the handshake handler does after the open callback. *)
Lemma handshake_tail g s : connected_ s = true -> stopped_ s = false -> generation_ s = g ->
  let s' := if stopped_ s || negb (g =? generation_ s) then s
    else add_pending (PRead g) (schedule_keepalive
      (if negb (qempty (write_queue_ s)) && negb (writing_ s) then do_write (Some g) g s else s)) in
  connected_ s' = true /\ stopped_ s' = false.
Proof using.
  intros Hco Hs <-. rewrite Hs, Z.eqb_refl. cbn [negb orb]. cbv zeta.
  destruct (do_write_flags (Some (generation_ s)) (generation_ s) s) as (Hc & Ht & _).
  assert (Hk : forall x, connected_ (add_pending (PRead (generation_ s)) (schedule_keepalive x)) = connected_ x
    /\ stopped_ (add_pending (PRead (generation_ s)) (schedule_keepalive x)) = stopped_ x).
  { intros x. unfold schedule_keepalive. case_match; by destruct x. }
  case_match; destruct (Hk (do_write (Some (generation_ s)) (generation_ s) s)), (Hk s); split; congruence.
Qed.

Lemma handshake_opens s l :
  good s -> awake s -> stopped_ s = false -> sends_only (on_open_ s) ->
  pending s ≡ₚ PHandshake (generation_ s) :: l ->
  session (on_handshake hash (generation_ s) None (set_pending l s)).
Proof using.
  intros Hg Ha Hs Ho Hp. destruct (lucky_kept _ _ (lucky_handshake s _ l Hp) Hg Ha) as [Hg' Ha'].
  assert (H : connected_ (on_handshake hash (generation_ s) None (set_pending l s)) = true
    /\ stopped_ (on_handshake hash (generation_ s) None (set_pending l s)) = false).
  { unfold on_handshake. rewrite set_pending_generation, Z.eqb_refl. cbn [negb]. cbv zeta. set (s1 := set_queue _ _).
    assert (H1 : connected_ s1 = true /\ stopped_ s1 = false /\ generation_ s1 = generation_ s /\ on_open_ s1 = on_open_ s)
      by (by destruct s).
    clearbody s1. destruct H1 as (E1 & E2 & E3 & E4). rewrite E4. unfold sends_only in Ho.
    destruct (on_open_ s) as [calls|]; [|by apply handshake_tail].
    destruct (sends_session calls (emit (EOpen (generation_ s)) s1) Ho) as (F1 & F2 & F3).
    apply handshake_tail; [rewrite F1|rewrite F2|rewrite F3]; by destruct s1. }
  destruct H as [H1 H2]. by split.
Qed.

(** ** Getting everything out

    A posted body that finds room, and a write of the current stream that
    succeeds. *)
Inductive flush : WsClient -> WsClient -> Prop :=
  | flush_post s t rest : posted s = t :: rest -> fst (push_retained (write_queue_ s) t) = true ->
      flush s (run_send t (set_posted rest s))
  | flush_write s p l : pending s ≡ₚ PWrite p (generation_ s) :: l ->
      flush s (on_write hash p (generation_ s) None (set_pending l s)).

Lemma flush_lucky s s' : flush s s' -> lucky s s'.
Proof using. intros []; by constructor. Qed.

(** Flushing, on the same stream. *)
Record flushed (s s' : WsClient) : Prop := {
  fl_run : rtc flush s s';
  fl_session : session s';
  fl_generation : generation_ s' = generation_ s;
}.

Lemma flushed_refl s : session s -> flushed s s.
Proof using. by split. Qed.
Lemma flushed_step a b c : flush a b -> generation_ b = generation_ a -> flushed b c -> flushed a c.
Proof using. intros Hf Hg [R S G]. split; [by eapply rtc_l|done|congruence]. Qed.
Lemma flushed_trans a b c : flushed a b -> flushed b c -> flushed a c.
Proof using. intros [R1 S1 G1] [R2 S2 G2]. split; [by etrans|done|congruence]. Qed.

(** With nothing queued a posted body finds room. *)
Lemma post_succeeds s t rest : session s -> posted s = t :: rest -> entries_ (write_queue_ s) = [] ->
  exists s', flushed s s' /\ posted s' = rest.
Proof using.
  intros [Hg Ha Hc Ht] Hp He.
  assert (Hroom : fst (push_retained (write_queue_ s) t) = true).
  { destruct (bi_queue _ (proj2 Hg)) as (_ & E1 & E2). unfold push_retained, qsize. by rewrite E1, E2, He. }
  pose proof (flush_post s t rest Hp Hroom) as Hst. destruct (lucky_kept _ _ (flush_lucky _ _ Hst) Hg Ha) as [Hg1 Ha1].
  clear Hroom. set (s1 := run_send t (set_posted rest s)) in *.
  assert (H1 : connected_ s1 = true /\ stopped_ s1 = false /\ posted s1 = rest /\ generation_ s1 = generation_ s).
  { unfold s1, run_send. destruct (push_retained _ _) as [ok q]. set (s2 := set_queue q _).
    assert (H2 : connected_ s2 = true /\ stopped_ s2 = false /\ posted s2 = rest /\ generation_ s2 = generation_ s)
      by (by destruct s).
    clearbody s2. repeat case_match; [by destruct s2| |done].
    destruct (do_write_flags (ws_ s2) (generation_ s2) s2) as (-> & -> & -> & -> & _). done. }
  destruct H1 as (H1 & H2 & H3 & H4). exists s1. split; [|done]. eapply flushed_step; [exact Hst|done|].
  by apply flushed_refl.
Qed.

(** The front entry is the one being written. *)
Definition writing_front (s : WsClient) : Prop :=
  match entries_ (write_queue_ s) with
  | [] => True
  | e :: _ => exists l, pending s ≡ₚ PWrite (payload e) (generation_ s) :: l
  end.

(** A write completes: its entry is gone, and the new front is being written. *)
Lemma write_succeeds s p l :
  session s -> pending s ≡ₚ PWrite p (generation_ s) :: l ->
  exists s', flushed s s' /\ posted s' = posted s
    /\ entries_ (write_queue_ s') = erase_payload (ptr p) (entries_ (write_queue_ s)) /\ writing_front s'.
Proof using.
  intros [Hg Ha Hc Ht] Hp. pose proof (flush_write s p l Hp) as Hst.
  destruct (lucky_kept _ _ (flush_lucky _ _ Hst) Hg Ha) as [Hg1 Ha1]. eexists.
  set (s1 := set_queue (complete (write_queue_ s) p) (set_pending l s)).
  assert (Ew : on_write hash p (generation_ s) None (set_pending l s) = do_write (Some (generation_ s)) (generation_ s) s1).
  { unfold on_write. rewrite set_pending_generation, Z.eqb_refl. cbn [negb]. unfold s1. by destruct s. }
  assert (H1 : connected_ s1 = true /\ stopped_ s1 = false /\ posted s1 = posted s /\ generation_ s1 = generation_ s
    /\ entries_ (write_queue_ s1) = erase_payload (ptr p) (entries_ (write_queue_ s))) by (by destruct s).
  destruct H1 as (E1 & E2 & E3 & E4 & E5).
  pose proof (do_write_flags (Some (generation_ s)) (generation_ s) s1) as (F1 & F2 & F3 & F4 & _ & F6).
  split; [eapply flushed_step; [exact Hst|congruence|apply flushed_refl; split; [done|done|..]]|]; rewrite ?Ew; [congruence..|].
  split; [congruence|]. split; [congruence|].
  unfold writing_front. rewrite F6, F3. clear Ew Hst Hg1 Ha1. clearbody s1.
  destruct (entries_ (write_queue_ s1)) as [|e rest] eqn:Ee; [done|].
  exists (pending s1). unfold do_write, qempty. rewrite <- E4, Z.eqb_refl, E1, Ee. cbn [negb orb].
  destruct s1; cbn in *. by rewrite Ee.
Qed.

Lemma front_drains s : session s -> writing_front s ->
  exists s', flushed s s' /\ posted s' = posted s /\ entries_ (write_queue_ s') = [].
Proof using.
  remember (length (entries_ (write_queue_ s))) as n eqn:En. revert s En.
  induction n as [|n IH]; intros s En Hs Hf.
  { exists s. split; [by apply flushed_refl|]. split; [done|]. by destruct (entries_ (write_queue_ s)). }
  unfold writing_front in Hf. destruct (entries_ (write_queue_ s)) as [|e rest] eqn:Ee; [done|].
  destruct Hf as (l & Hl). destruct (write_succeeds s _ l Hs Hl) as (s1 & Hf1 & Hp1 & He1 & Hw1).
  rewrite Ee in He1. cbn in He1. rewrite Nat.eqb_refl in He1. injection En as En.
  destruct (IH s1) as (s' & Hr & Hp & He); [congruence|apply Hf1|done|].
  exists s'. split; [by eapply flushed_trans|]. split; [congruence|done].
Qed.

Lemma queue_drains s : session s ->
  exists s', flushed s s' /\ posted s' = posted s /\ entries_ (write_queue_ s') = [].
Proof using.
  intros Hs. destruct (writing_ s) eqn:Ew.
  - pose proof (connected_live 1 s (proj1 (ss_good _ Hs)) (ss_connected _ Hs)) as Hl.
    pose proof (lv_write _ _ _ Hl) as Hn. unfold writes_of in Hn. rewrite Ew in Hn.
    destruct (inflight_some _ _ _ _ Hn) as (p & l & Hpl & Hk & Hg). destruct p as [| | | | |p g| | |]; try done.
    injection Hg as ->. destruct (write_succeeds s p l Hs Hpl) as (s1 & Hf1 & Hp1 & _ & Hw1).
    destruct (front_drains s1) as (s' & Hr & Hp & He); [apply Hf1|done|].
    exists s'. split; [by eapply flushed_trans|]. split; [congruence|done].
  - exists s. split; [by apply flushed_refl|]. split; [done|]. by apply (ss_awake _ Hs); [apply Hs|].
Qed.

(** Queue, then one posted body, then the queue again: nothing is ever refused. *)
Lemma session_drains s : session s ->
  exists s', flushed s s' /\ posted s' = [] /\ entries_ (write_queue_ s') = [].
Proof using.
  remember (length (posted s)) as n eqn:En. revert s En. induction n as [|n IH]; intros s En Hs;
    destruct (queue_drains s Hs) as (s1 & F1 & P1 & E1).
  { exists s1. split; [done|]. split; [|done]. rewrite P1. by destruct (posted s). }
  destruct (posted s) as [|t rest]; [done|]. injection En as En.
  destruct (post_succeeds s1 t rest) as (s2 & F2 & P2); [apply F1|done|done|].
  destruct (IH s2) as (s3 & F3 & P3 & E3); [by rewrite P2|apply F2|].
  exists s3. split; [|done]. by do 2 (eapply flushed_trans; [done|]).
Qed.

(** From wherever a started client is, a session. *)
Lemma session_reached s :
  good s -> awake s -> generation_ s <> 0 -> stopped_ s = false -> sends_only (on_open_ s) ->
  exists s', rtc lucky s s' /\ session s'.
Proof using.
  intros Hg Ha H0 Hs Ho.
  assert (Hopen : forall s1 l, towards s s1 -> pending s1 ≡ₚ PHandshake (generation_ s1) :: l ->
    exists s', rtc lucky s s' /\ session s').
  { intros s1 l [T1 T2 T3] Hp. eexists. split; [eapply rtc_r; [exact T1|by apply lucky_handshake]|].
    destruct (run_kept s s1 T1 Hg Ha). apply handshake_opens; [done|done|congruence|by rewrite T3|done]. }
  assert (Hchain : forall s1 p l, towards s s1 -> pending s1 ≡ₚ p :: l -> pkind p = Some Chain ->
    pgen p = Some (generation_ s1) -> exists s', rtc lucky s s' /\ session s').
  { intros s1 p l T Hp Hk Hpg. destruct (chain_succeeds s1 p l Hp Hk Hpg) as (s2 & l2 & T2 & H2).
    eapply Hopen; [by etrans|exact H2]. }
  destruct (proj2 (proj1 Hg)) as [[_ [Hi|[[Hi _]|Hi]]]|[Hc|Hl]]; [congruence|congruence|..].
  - destruct (timer_succeeds s Hi Hs) as (s1 & l & T & Hp). by eapply Hchain.
  - destruct (inflight_some _ _ _ _ (cg_chain _ _ Hc)) as (p & l & Hp & Hk & Hpg). by eapply Hchain.
  - exists s. split; [done|]. by split; [..|apply Hl|].
Qed.
End Drain.

(** ** The properties *)

Section Claims.
Context (hash : string -> Z).

Lemma reachable_awake h t ki kt om oo fp s :
  rtc (step hash) (make_client h t ki kt om oo fp) s -> good s /\ awake s.
Proof using.
  assert (H : forall a b, rtc (step hash) a b -> good a /\ awake a -> good b /\ awake b).
  { induction 1 as [|a b c Hst _ IH]; [done|]. intros [Hg Ha]. apply IH.
    split; [by eapply step_good|]. eapply step_awake; [apply Hg|done..]. }
  intros Hr. apply (H _ _ Hr). split; [apply make_client_good|done].
Qed.

(** The open callback of a client that was not retired is the owner's. *)
Lemma open_callback h t ki kt om oo fp s :
  rtc (step hash) (make_client h t ki kt om oo fp) s -> stopped_ s = false -> on_open_ s = oo.
Proof using.
  intros Hr Hs. assert (He : evolves (make_client h t ki kt om oo fp) s).
  { clear Hs. induction Hr as [|a b c Hst _ IH]; [reflexivity|]. etrans; [by eapply step_evolves|exact IH]. }
  destruct He as [_ _ [(He & _)|(_ & _ & He)]]; [exact He|congruence].
Qed.

(** C15: no wakeup is lost.  In every reachable state of a connected client
    without a log hook, whatever the open and message callbacks did and whichever pushes were refused, either the
    write queue is empty or exactly one write is in flight on the current
    stream, whose completion starts the next. *)
Theorem no_lost_wakeup h t ki kt om oo fp s :
  rtc (step hash) (make_client h t ki kt om oo fp) s -> connected_ s = true ->
  entries_ (write_queue_ s) = [] \/ inflight Writing (generation_ s) (pending s) = 1%nat.
Proof using.
  intros Hr Hc. destruct (reachable_awake _ _ _ _ _ _ _ _ Hr) as [Hg Ha].
  pose proof (connected_live 1 s (proj1 Hg) Hc) as Hl. pose proof (lv_write _ _ _ Hl) as Hw. unfold writes_of in Hw.
  destruct (writing_ s) eqn:E; [by right|left; by apply Ha].
Qed.

(** C11: what was sent can always still be delivered.  From every reachable
    state of a client without a log hook that was started and not retired, however many
    connections it lost, and if its open callback only sends, there is a run
    without any call by the owner, of successful completions alone, that ends
    connected with nothing posted and nothing queued; every message that was
    retained at the start or accepted on the way has been written, in order. *)
Theorem outbox_drains h t ki kt om oo fp s :
  rtc (step hash) (make_client h t ki kt om oo fp) s ->
  generation_ s <> 0 -> stopped_ s = false -> sends_only oo ->
  exists evs s', rtc (lucky hash) s s' /\ observed_run hash s evs s' /\ connected_ s' = true /\ stopped_ s' = false
    /\ posted s' = [] /\ entries_ (write_queue_ s') = []
    /\ delivered evs = texts (kept s) ++ accepted evs.
Proof using.
  intros Hr H0 Hs Ho. destruct (reachable_awake _ _ _ _ _ _ _ _ Hr) as [Hg Ha].
  assert (Hoo : sends_only (on_open_ s)) by (by rewrite (open_callback _ _ _ _ _ _ _ _ Hr Hs)).
  destruct (session_reached hash s Hg Ha H0 Hs Hoo) as (s1 & R1 & S1).
  destruct (session_drains hash s1 S1) as (s3 & [R3 S3 _] & P3 & E3).
  assert (R : rtc (lucky hash) s s3).
  { etrans; [exact R1|]. eapply rtc_subrel; [|exact R3]. intros a b. apply flush_lucky. }
  destruct (run_observed hash s s3 Hg (lucky_run hash _ _ R)) as (evs & Hev). exists evs, s3.
  split; [done|]. split; [done|]. split; [apply S3|]. split; [apply S3|]. split; [done|]. split; [done|].
  pose proof (observed_run_box hash _ _ _ Hg Hev) as Hb. unfold box_of in Hb. rewrite Hs, (ss_stopped _ S3) in Hb.
  rewrite (box_run_fifo _ _ _ Hb _ _ eq_refl eq_refl). unfold kept. rewrite E3. cbn. by rewrite app_nil_r.
Qed.
End Claims.

(** The client of [Demo]: live with an authentication frame and a subscription
    queued, then lost. *)
Lemma no_lost_wakeup_witness :
  connected_ Demo.live_state = true
  /\ (entries_ (write_queue_ Demo.live_state) = [] \/ inflight Writing 1 (pending Demo.live_state) = 1%nat).
Proof.
  split; [reflexivity|]. exact (no_lost_wakeup Demo.hash7 "ws.example" "/ws" 5000 "PING" None
    (Some [CallSendFirst "auth"]) None Demo.live_state Demo.run_live eq_refl).
Defined.

Lemma outbox_drains_witness :
  connected_ Demo.lost_state = false /\ texts (kept Demo.lost_state) = ["sub"]
  /\ exists evs s', rtc (lucky Demo.hash7) Demo.lost_state s' /\ connected_ s' = true
       /\ entries_ (write_queue_ s') = [] /\ delivered evs = ["sub"] ++ accepted evs.
Proof.
  split; [reflexivity|]. split; [reflexivity|].
  destruct (outbox_drains Demo.hash7 "ws.example" "/ws" 5000 "PING" None (Some [CallSendFirst "auth"]) None
    Demo.lost_state Demo.run_lost) as (evs & s' & H1 & _ & H2 & _ & _ & H3 & H4); [discriminate|reflexivity..|].
  exists evs, s'. split; [exact H1|]. split; [exact H2|]. split; [exact H3|exact H4].
Defined.
