(* ===== verification/FeedSync.v ===== *)
(** * The venue follows the feed ([src/pm/market_ws.cpp] on [src/net/ws_client.cpp])

    The market feed and its client together: what one connection carries to the
    venue.  When a connection opens with nothing left over from an earlier one,
    the messages written on it, those still queued and those still posted are, in
    order, frames that take the venue to the desired set; and the client can
    always get them all out.  The composed step relation has the feed's public
    calls and the completions of the io thread, nothing else: the client is private to
    the feed.  A call is one step; FeedRace.v looks inside. *)

From Stdlib Require Import Ascii String ZArith Lia.
From stdpp Require Import base list sets strings numbers relations.
From S2P Require Import Prelude WriteQueue WsClient Outbox Feeds FeedClients Delivery.

Open Scope Z_scope.

(** ** Completions and what they show *)

(** The body of a [send] runs. *)
Definition post_label (s : WsClient) (t : string) : BoxEvent :=
  if fst (push_retained (write_queue_ s) t) then Accept t else Reject t.
(** A retained message has been written on the current stream. *)
Definition write_label (s : WsClient) (p : Payload) (g : Z) (err : option ErrorInfo) : option BoxEvent :=
  match err with
  | None => if (g =? generation_ s) && bool_decide (ptr p ∈ ptrs (kept s)) then Some (Done (text p)) else None
  | Some _ => None
  end.

Section Completions.
Context (hash : string -> Z).

(** The steps of WsClient.v that no public call makes. *)
Inductive completes : WsClient -> option BoxEvent -> WsClient -> Prop :=
  | cp_posted s t rest : posted s = t :: rest ->
      completes s (Some (post_label s t)) (run_send t (set_posted rest s))
  | cp_resolve s g l err : pending s ≡ₚ PResolve g :: l ->
      completes s None (on_stage hash PConnect g err (set_pending l s))
  | cp_connect s g l err : pending s ≡ₚ PConnect g :: l ->
      completes s None (on_stage hash PTls g err (set_pending l s))
  | cp_tls s g l err : pending s ≡ₚ PTls g :: l ->
      completes s None (on_stage hash PHandshake g err (set_pending l s))
  | cp_handshake s g l err : pending s ≡ₚ PHandshake g :: l ->
      completes s None (on_handshake hash g err (set_pending l s))
  | cp_read s g l res : pending s ≡ₚ PRead g :: l ->
      completes s None (on_read hash g res (set_pending l s))
  | cp_write s p g l err : pending s ≡ₚ PWrite p g :: l ->
      completes s (write_label s p g err) (on_write hash p g err (set_pending l s))
  | cp_stage s g l aborted : pending s ≡ₚ PStage g :: l ->
      completes s None (on_stage_timer hash g aborted (set_pending l s))
  | cp_reconnect s l c aborted tls_ok : pending s ≡ₚ PReconnect c :: l -> (aborted = true -> c = true) ->
      completes s None (on_reconnect_timer hash aborted tls_ok (set_pending l s))
  | cp_keepalive s l aborted : pending s ≡ₚ PKeepalive :: l ->
      completes s None (on_keepalive_timer aborted (set_pending l s)).

Lemma completes_step s ev s' : completes s ev s' -> step hash s s'.
Proof using. intros []; eauto using step. Qed.

(** ** Handlers that send nothing *)

(** The session goes on: same stream, same flags, nothing posted, no open
    callback. *)
Record stays (s s' : WsClient) : Prop := {
  st_gen : generation_ s' = generation_ s;
  st_posted : posted s' = posted s;
  st_connected : connected_ s' = connected_ s;
  st_stopped : stopped_ s' = stopped_ s;
  st_trace : exists new, trace s' = new ++ trace s /\ existsb is_open new = false;
}.

(** The session goes on, or it is over. *)
Definition quietly (s s' : WsClient) : Prop := generation_ s < generation_ s' \/ stays s s'.

#[export] Instance quietly_preorder : PreOrder quietly.
Proof using.
  split.
  - intros s. right. split; try done. by exists [].
  - intros a b c [H|[A1 A2 A3 A4 (n1 & E1 & O1)]] [K|[B1 B2 B3 B4 (n2 & E2 & O2)]]; [left; lia|left; lia|left; lia|].
    right. split; [congruence..|]. exists (n2 ++ n1). rewrite E2, E1, app_assoc, existsb_app, O1, O2. done.
Qed.

(** A handler of field updates, by computation. *)
Ltac stays_put s := right; destruct s; split; try done; first [by exists [] | by eexists [_]].

Lemma set_pending_quietly l s : quietly s (set_pending l s).
Proof using. stays_put s. Qed.
Lemma add_pending_quietly p s : quietly s (add_pending p s).
Proof using. stays_put s. Qed.
Lemma emit_quietly e s : is_open e = false -> quietly s (emit e s).
Proof using. intros He. right. destruct s; split; try done. exists [e]. cbn. by rewrite He. Qed.
Lemma set_queue_quietly q s : quietly s (set_queue q s).
Proof using. stays_put s. Qed.
Lemma do_write_quietly st g s : quietly s (do_write st g s).
Proof using.
  unfold do_write. case_match; [stays_put s|]. cbv zeta.
  repeat case_match; right; destruct s; split; try done; by eexists [_].
Qed.

Lemma schedule_generation f s : generation_ s <= generation_ (schedule_reconnect hash f s).
Proof using.
  unfold schedule_reconnect, arm_reconnect, stop. destruct s. cbn. repeat case_match; cbn; lia.
Qed.

Lemma fail_quietly ei g s : quietly s (fail hash ei g s).
Proof using.
  unfold fail. case_match; [reflexivity|]. left. cbv zeta.
  eapply Z.lt_le_trans; [|apply schedule_generation]. destruct s. cbn. lia.
Qed.
Lemma kick_quietly s : quietly s (kick hash s).
Proof using.
  unfold kick. repeat case_match; try reflexivity. left. cbv zeta.
  eapply Z.lt_le_trans; [|apply schedule_generation]. destruct s. cbn. lia.
Qed.
Lemma stop_quietly s : quietly s (stop s).
Proof using. left. destruct s. cbn. lia. Qed.
Lemma do_connect_quietly tls s : quietly s (do_connect hash tls s).
Proof using.
  unfold do_connect. case_match; [reflexivity|]. cbv zeta. left. case_match.
  - eapply Z.lt_le_trans; [|apply schedule_generation]. destruct s. cbn. lia.
  - destruct s. cbn. lia.
Qed.

(** A callback that only kicks or stops. *)
Definition silent (l : list Call) : bool :=
  forallb (fun c => match c with CallKick | CallStop => true | _ => false end) l.

Lemma run_calls_quietly l s : silent l = true -> quietly s (run_calls hash s l).
Proof using.
  unfold run_calls. revert s. induction l as [|c l IH]; intros s Hl; [reflexivity|]. cbn [fold_left].
  apply andb_true_iff in Hl as [Hc Hl]. etrans; [|by apply IH].
  destruct c; try done; [apply kick_quietly|apply stop_quietly].
Qed.

Lemma on_stage_quietly next g err s : quietly s (on_stage hash next g err s).
Proof using. unfold on_stage. repeat case_match; [reflexivity|apply fail_quietly|apply add_pending_quietly]. Qed.

Lemma on_read_quietly g res s :
  (forall f d, on_message_ s = Some f -> silent (f d) = true) -> quietly s (on_read hash g res s).
Proof using.
  intros Hm. unfold on_read. case_match; [reflexivity|]. destruct res as [|data]; [apply fail_quietly|]. cbv zeta.
  set (s1 := set_delay 500 s). assert (Q1 : quietly s s1) by (unfold s1; stays_put s).
  assert (E1 : on_message_ s1 = on_message_ s) by (by destruct s). rewrite E1.
  set (s2 := match on_message_ s with Some _ => _ | None => _ end).
  assert (Q2 : quietly s1 s2).
  { unfold s2. destruct (on_message_ s) as [f|] eqn:E; [|reflexivity].
    etrans; [by apply (emit_quietly (EMessage g data))|]. apply run_calls_quietly. by eapply Hm. }
  etrans; [exact Q1|]. etrans; [exact Q2|]. case_match; [apply add_pending_quietly|reflexivity].
Qed.

Lemma on_write_quietly p g err s : quietly s (on_write hash p g err s).
Proof using.
  unfold on_write. case_match; [reflexivity|]. destruct err; [apply fail_quietly|].
  etrans; [|apply do_write_quietly]. apply set_queue_quietly.
Qed.

Lemma schedule_keepalive_quietly s : quietly s (schedule_keepalive s).
Proof using. unfold schedule_keepalive. case_match; [reflexivity|apply add_pending_quietly]. Qed.

Lemma on_keepalive_quietly aborted s : quietly s (on_keepalive_timer aborted s).
Proof using.
  unfold on_keepalive_timer. case_match; [reflexivity|]. destruct (push_connection _ _ _ _) as [ok q]. cbv zeta.
  etrans; [apply (set_queue_quietly q)|]. etrans; [|apply schedule_keepalive_quietly].
  set (s1 := set_queue q s). set (s2 := if negb ok then emit ELog s1 else s1).
  transitivity s2; [unfold s2; case_match; [by apply emit_quietly|reflexivity]|].
  destruct (negb (writing_ s2)); [apply do_write_quietly|reflexivity].
Qed.

Lemma on_stage_timer_quietly g aborted s : quietly s (on_stage_timer hash g aborted s).
Proof using.
  unfold on_stage_timer. case_match; [reflexivity|]. left. cbv zeta.
  eapply Z.lt_le_trans; [|apply schedule_generation]. destruct s. cbn. lia.
Qed.

Lemma on_reconnect_timer_quietly aborted tls s : quietly s (on_reconnect_timer hash aborted tls s).
Proof using.
  unfold on_reconnect_timer. case_match; [|reflexivity]. etrans; [|apply do_connect_quietly]. stays_put s.
Qed.

(** Nothing but the open handler runs the open callback, and never on a live
    stream. *)
Lemma handshake_stale s g l err : ws_inv 1 s -> connected_ s = true -> pending s ≡ₚ PHandshake g :: l ->
  on_handshake hash g err (set_pending l s) = set_pending l s.
Proof using.
  intros Hi Hc Hp. unfold on_handshake. rewrite set_pending_generation.
  destruct (Z.eqb_spec g (generation_ s)) as [->|]; [|done].
  destruct (take_current s _ l Chain Hi Hp eq_refl eq_refl) as [_ [_ H _ _ _ _ _ _]]. by destruct s; cbn in *; congruence.
Qed.

Lemma stays_opened s s' : stays s s' -> opened_between s s' = false.
Proof using.
  intros [_ _ _ _ (new & E & Ho)]. unfold opened_between. rewrite E, length_app.
  replace (length new + length (trace s) - length (trace s))%nat with (length new) by lia. by rewrite take_app_length.
Qed.

Lemma run_send_quietly t s : quietly s (run_send t s).
Proof using.
  unfold run_send. destruct (push_retained _ _) as [ok q]. etrans; [apply (set_queue_quietly q)|].
  set (s1 := set_queue q s). destruct (negb ok); [by apply emit_quietly|].
  destruct (connected_ s1 && _); [apply do_write_quietly|reflexivity].
Qed.

(** ** One step of a session *)

(** Nothing is lost between two states: what was taken off the front has been
    written. *)
Definition flows (s : WsClient) (ev : option BoxEvent) (s' : WsClient) : Prop :=
  delivered (option_list ev) ++ texts (kept s') ++ posted s' = texts (kept s) ++ posted s.

Definition goes_on (s : WsClient) (ev : option BoxEvent) (s' : WsClient) : Prop :=
  generation_ s < generation_ s'
  \/ (generation_ s' = generation_ s /\ connected_ s' = true /\ opened_between s s' = false
      /\ ((exists t, ev = Some (Reject t)) \/ flows s ev s')).

(** A handler that is quiet and keeps the box. *)
Lemma steady_goes_on s s' : connected_ s = true -> stopped_ s = false -> steady s s' -> quietly s s' -> goes_on s None s'.
Proof using.
  intros Hc Hs Hst [H|Hq]; [by left|]. right. split; [apply Hq|]. split; [by rewrite (st_connected _ _ Hq)|].
  split; [by apply stays_opened|]. right. unfold flows. cbn.
  rewrite (sd_kept _ _ Hst) by (by rewrite (st_stopped _ _ Hq)). by rewrite (st_posted _ _ Hq).
Qed.

Lemma posted_goes_on s t rest : good s -> connected_ s = true -> posted s = t :: rest ->
  goes_on s (Some (post_label s t)) (run_send t (set_posted rest s)).
Proof using.
  intros [Hi HB] Hc Hp. destruct (run_send_quietly t (set_posted rest s)) as [H|Hq].
  { left. by destruct s. }
  right. split; [rewrite (st_gen _ _ Hq); by destruct s|]. split; [rewrite (st_connected _ _ Hq); by destruct s|].
  split; [rewrite <- (stays_opened _ _ Hq); by destruct s|].
  destruct (posted_box t rest s HB) as (_ & _ & Hk). unfold post_label.
  destruct (fst (push_retained (write_queue_ s) t)); [|left; by eexists].
  right. destruct Hk as [(e & He & Hk) _]. unfold flows. rewrite Hk, Hp, (st_posted _ _ Hq). unfold texts.
  rewrite fmap_app, <- app_assoc. cbn. rewrite He. by destruct s.
Qed.

Lemma write_goes_on s p g l err : good s -> connected_ s = true -> stopped_ s = false -> pending s ≡ₚ PWrite p g :: l ->
  goes_on s (write_label s p g err) (on_write hash p g err (set_pending l s)).
Proof using.
  intros [Hi HB] Hc Hs Hp.
  assert (Hq : quietly s (on_write hash p g err (set_pending l s)))
    by (etrans; [apply set_pending_quietly|apply on_write_quietly]).
  assert (Hst : steady s (set_pending l s)) by (by eapply set_pending_steady). unfold write_label.
  destruct err as [ei|].
  { apply steady_goes_on; try done. etrans; [exact Hst|]. unfold on_write. case_match; [reflexivity|apply fail_steady]. }
  destruct (Z.eqb_spec g (generation_ s)) as [->|Hne]; cbn [andb].
  2: { apply steady_goes_on; try done. etrans; [exact Hst|]. unfold on_write.
       rewrite set_pending_generation, (proj2 (Z.eqb_neq _ _) Hne). reflexivity. }
  destruct (on_write_box hash s p l Hi HB Hp) as (_ & Hsame & Hk).
  destruct Hq as [H|Hq]; [by left|]. right. split; [apply Hq|]. split; [by rewrite (st_connected _ _ Hq)|].
  split; [by apply stays_opened|]. right. unfold flows. rewrite (st_posted _ _ Hq).
  destruct Hk as [[Hk Hni]|(e & <- & He)].
  - rewrite bool_decide_eq_false_2 by done. cbn. by rewrite Hk.
  - rewrite bool_decide_eq_true_2 by (rewrite He; apply list_elem_of_here). cbn. by rewrite He.
Qed.

Lemma completes_goes_on s ev s' :
  good s -> connected_ s = true -> (forall f d, on_message_ s = Some f -> silent (f d) = true) ->
  completes s ev s' -> goes_on s ev s'.
Proof using.
  intros Hg Hc Hm Hst. pose proof (proj1 Hg) as Hi.
  pose proof (lv_stopped _ _ _ (connected_live 1 s Hi Hc)) as Hs.
  assert (Hpend : forall p l s', pending s ≡ₚ p :: l -> steady (set_pending l s) s' -> quietly (set_pending l s) s' ->
    goes_on s None s').
  { intros p l x Hp H1 H2. apply steady_goes_on; [done|done|..].
    - etrans; [by eapply set_pending_steady|done].
    - etrans; [apply set_pending_quietly|done]. }
  destruct Hst as [s t rest Hp|s g l err Hp|s g l err Hp|s g l err Hp|s g l err Hp|s g l res Hp|s p g l err Hp
                  |s g l aborted Hp|s l c aborted tls Hp Ha|s l aborted Hp].
  - by apply posted_goes_on.
  - by eapply Hpend; [exact Hp|apply on_stage_steady|apply on_stage_quietly].
  - by eapply Hpend; [exact Hp|apply on_stage_steady|apply on_stage_quietly].
  - by eapply Hpend; [exact Hp|apply on_stage_steady|apply on_stage_quietly].
  - rewrite handshake_stale by done. by eapply Hpend; [exact Hp|reflexivity..].
  - eapply Hpend; [exact Hp|apply on_read_steady|apply on_read_quietly]. intros f d. destruct s; apply Hm.
  - by apply write_goes_on.
  - eapply Hpend; [exact Hp|apply on_stage_timer_steady|apply on_stage_timer_quietly].
  - eapply Hpend; [exact Hp|apply on_reconnect_timer_steady|apply on_reconnect_timer_quietly].
  - eapply Hpend; [exact Hp|apply on_keepalive_timer_steady|apply on_keepalive_quietly].
Qed.
(** ** Flushing seen as completions *)

Lemma quietly_stays s s' : quietly s s' -> generation_ s' = generation_ s -> stays s s'.
Proof using. intros [H|H] E; [lia|done]. Qed.

Lemma flush_completes s s' : flush hash s s' ->
  exists ev, completes s ev s' /\ (forall t, ev <> Some (Reject t)) /\ opened_between s s' = false.
Proof using.
  intros [x t rest Hp Hroom|x p l Hp].
  - exists (Some (post_label x t)). split; [by constructor|]. split; [unfold post_label; by rewrite Hroom|]. clear Hroom.
    rewrite <- (stays_opened (set_posted rest x) (run_send t (set_posted rest x))); [by destruct x|].
    apply quietly_stays; [apply run_send_quietly|]. unfold run_send. destruct (push_retained (write_queue_ _) t) as [ok q].
    set (y := set_queue q _). assert (E : generation_ y = generation_ (set_posted rest x)) by (by destruct x).
    repeat case_match; [by destruct y| |done]. by destruct (do_write_flags (ws_ y) (generation_ y) y) as (_ & _ & -> & _).
  - exists (write_label x p (generation_ x) None). split; [by apply cp_write|]. split; [unfold write_label; by case_match|].
    apply stays_opened, quietly_stays; [etrans; [apply set_pending_quietly|apply on_write_quietly]|].
    unfold on_write. rewrite set_pending_generation, Z.eqb_refl. cbn [negb].
    match goal with |- generation_ (do_write ?st ?g ?y) = _ => destruct (do_write_flags st g y) as (_ & _ & -> & _) end.
    by destruct x.
Qed.
End Completions.

(** ** The feed on its client *)

(** The application's callbacks only kick or stop: a [MarketWs] gives them nothing
    to send with. *)
Definition silent_feed (f : MarketWs) : Prop :=
  silent (default [] (feed_on_open_ f)) = true /\ silent (default [] (on_activity_ f)) = true
  /\ forall h m, on_raw_ f = Some h -> silent (h m) = true.

Lemma silent_message f d : silent_feed f -> silent (market_on_message f d) = true.
Proof.
  intros (_ & Ha & Hr). unfold market_on_message, silent in *. rewrite forallb_app. apply andb_true_iff. split; [done|].
  destruct (String.eqb d "PONG"); [done|]. destruct (on_raw_ f); [by apply Hr|done].
Qed.

Section Composed.
Context (hash : string -> Z) (write_json : MarketFrame -> option string).

(** Public calls of the feed and completions of its client. *)
Inductive market_step : MarketWs * WsClient -> option BoxEvent -> MarketWs * WsClient -> Prop :=
  | ms_io f s ev s' : completes hash s ev s' ->
      market_step (f, s) ev (if opened_between s s' then set_sets (desired_ f) (desired_ f) f else f, s')
  | ms_subscribe f s d f' frames : subscribe write_json d (market_connected (f, s)) f = Ok (f', frames) ->
      market_step (f, s) None (f', market_refresh write_json f' (send_all (texts_of write_json frames) s))
  | ms_set f s f' :
      (exists h, f' = market_set_on_message h f) \/ (exists h, f' = market_set_on_activity h f)
        \/ (exists h, f' = market_set_on_open h f) -> silent_feed f' ->
      market_step (f, s) None (f', market_refresh write_json f' s)
  | ms_start fs tls_ok : market_step fs None (market_start hash tls_ok fs)
  | ms_stop fs : market_step fs None (market_stop fs)
  | ms_kick fs : market_step fs None (market_kick hash fs).

Inductive market_run (a : MarketWs * WsClient) : list BoxEvent -> MarketWs * WsClient -> Prop :=
  | mr_nil : market_run a [] a
  | mr_snoc evs b ev c : market_run a evs b -> market_step b ev c -> market_run a (evs ++ option_list ev) c.

(** Every step is one of the wider relation of FeedClients.v. *)
Lemma market_step_feed a ev b : market_step a ev b -> feed_step hash write_json a b.
Proof using.
  intros [f s e s' H|f s d f' fr H|f s f' H _|fs tls|fs|fs]; econstructor; eauto using completes_step.
Qed.

(** ** Hosting *)

(** Both invariants of the client, and the feed's callbacks until it retires. *)
Definition market_hosted (fs : MarketWs * WsClient) : Prop :=
  good (snd fs)
  /\ ((on_open_ (snd fs) = Some (open_calls write_json (fst fs)) /\ on_message_ (snd fs) = Some (market_on_message (fst fs)))
      \/ stopped_ (snd fs) = true).

Lemma set_callbacks_good o m s : good s -> good (set_on_message m (set_on_open o s)).
Proof using.
  intros [Hi [B1 B2 B3]]. split; [by apply set_on_message_inv, set_on_open_inv|]. destruct s. by split.
Qed.

Lemma refresh_is f s : exists o m, market_refresh write_json f s = set_on_message m (set_on_open o s).
Proof using.
  unfold market_refresh, refresh. destruct (on_open_ s) eqn:E1; [|exists (on_open_ s)];
    destruct (on_message_ _) eqn:E2; do 2 try eexists; destruct s; cbn in *; subst; reflexivity.
Qed.

Lemma refresh_hosted f f' s : market_hosted (f, s) -> market_hosted (f', market_refresh write_json f' s).
Proof using hash.
  intros [Hg Ho]. cbn [fst snd] in *. split.
  - destruct (refresh_is f' s) as (o & m & E). cbn [snd]. rewrite E. by apply set_callbacks_good.
  - cbn [fst snd]. destruct Ho as [[Eo Em]|Hs]; [left|right].
    + unfold market_refresh, refresh. rewrite Eo. replace (on_message_ (set_on_open _ s)) with (on_message_ s) by (by destruct s).
      rewrite Em. by destruct s.
    + destruct (refresh_is f' s) as (o & m & ->). by destruct s.
Qed.

Lemma io_hosted f f' s s' : step hash s s' ->
  open_calls write_json f' = open_calls write_json f -> market_on_message f' = market_on_message f ->
  market_hosted (f, s) -> market_hosted (f', s').
Proof using.
  intros Hst E1 E2 [Hg Ho]. cbn [fst snd] in *. split; [by eapply step_good|]. cbn [fst snd]. rewrite E1, E2.
  destruct (step_evolves hash s s' Hst) as [_ _ [(-> & -> & Hs)|(_ & _ & ->)]]; [|by right].
  destruct Ho as [?|?]; [by left|right; auto].
Qed.

Lemma send_all_hosted f l s : market_hosted (f, s) -> market_hosted (f, send_all l s).
Proof using hash.
  unfold send_all. revert s. induction l as [|t l IH]; intros s Hi; [done|]. cbn [fold_left]. apply IH.
  by eapply io_hosted; [apply step_send| | |exact Hi].
Qed.

Lemma feed_step_hosted a b : feed_step hash write_json a b -> market_hosted a -> market_hosted b.
Proof using.
  intros [f s s' H|f s d f' fr _|f s f' _|[f s] tls|[f s]|[f s]] Hh.
  - eapply io_hosted; [exact H| | |exact Hh]; by destruct (opened_between s s').
  - eapply refresh_hosted. by apply send_all_hosted.
  - by eapply refresh_hosted.
  - by eapply io_hosted; [apply step_start|reflexivity..|].
  - by eapply io_hosted; [apply step_stop|reflexivity..|].
  - by eapply io_hosted; [apply step_kick|reflexivity..|].
Qed.

Lemma market_step_generation a ev b : market_step a ev b -> generation_ (snd a) <= generation_ (snd b).
Proof using.
  intros [f s e s' H|f s d f' fr _|f s f' _ _|[f s] tls|[f s]|[f s]]; cbn [fst snd].
  - exact (ev_generation _ _ (step_evolves hash _ _ (completes_step hash _ _ _ H))).
  - destruct (refresh_is f' (send_all (texts_of write_json fr) s)) as (o & m & ->).
    transitivity (generation_ (send_all (texts_of write_json fr) s)); [|by destruct (send_all _ s)].
    unfold send_all. generalize (texts_of write_json fr). intros l. revert s.
    induction l as [|t l IH]; intros s; cbn [fold_left]; [lia|]. etrans; [|apply IH]. by destruct s.
  - destruct (refresh_is f' s) as (o & m & ->). by destruct s.
  - exact (ev_generation _ _ (step_evolves hash _ _ (step_start hash s tls))).
  - exact (ev_generation _ _ (step_evolves hash _ _ (step_stop hash s))).
  - exact (ev_generation _ _ (step_evolves hash _ _ (step_kick hash s))).
Qed.

(** ** A session in sync *)

(** What went out on stream [g], what is queued and what is posted lead the venue
    to the desired set. *)
Record in_sync (g : Z) (fs : MarketWs * WsClient) (evs : list BoxEvent) : Prop := {
  sy_connected : connected_ (snd fs) = true;
  sy_generation : generation_ (snd fs) = g;
  sy_active : active_ (fst fs) = desired_ (fst fs);
  sy_frames : exists frames,
    texts_of write_json frames = delivered evs ++ texts (kept (snd fs)) ++ posted (snd fs)
    /\ forall x, x ∈ assets (venue_run frames) <-> x ∈ desired_ (fst fs);
}.

(** A step of the client alone. *)
Lemma goes_on_sync g f s ev s' evs :
  goes_on s ev s' -> (forall t, ev <> Some (Reject t)) -> in_sync g (f, s) evs ->
  g < generation_ s' \/ (opened_between s s' = false /\ in_sync g (f, s') (evs ++ option_list ev)).
Proof using.
  intros [H|(Hg & Hc & Ho & [[t ->]|Hf])] Hr [S1 S2 S3 (fr & F1 & F2)]; cbn [fst snd] in *; [left; lia|by destruct (Hr t)|].
  right. split; [done|]. split; cbn [fst snd]; [done|congruence|done|]. exists fr. split; [|done].
  rewrite F1. unfold delivered. rewrite omap_app, <- app_assoc. f_equal. symmetry. exact Hf.
Qed.

Lemma send_all_is l s : send_all l s = set_posted (posted s ++ l) s.
Proof using.
  unfold send_all. revert s. induction l as [|t l IH]; intros s; cbn [fold_left].
  - destruct s; cbn. by rewrite app_nil_r.
  - rewrite IH. unfold send. destruct s; cbn. by rewrite <- app_assoc.
Qed.

(** A [subscribe] call. *)
Lemma subscribe_sync g f s d f' frames evs :
  subscribe write_json d true f = Ok (f', frames) -> in_sync g (f, s) evs ->
  in_sync g (f', market_refresh write_json f' (send_all (texts_of write_json frames) s)) evs.
Proof using.
  intros Hs%subscribe_live [S1 S2 S3 (fr & F1 & F2)]. injection Hs as -> ->. cbn [fst snd] in *. rewrite send_all_is.
  set (l := texts_of write_json _). destruct (refresh_is (set_sets d d f) (set_posted (posted s ++ l) s)) as (o & m & ->).
  split; cbn [fst snd]; [by destruct s|by destruct s|done|].
  exists (fr ++ op_frames (delta d (active_ f))). split.
  - unfold texts_of. rewrite omap_app. fold (texts_of write_json fr). rewrite F1, <- !app_assoc.
    unfold kept. by destruct s.
  - intros x. rewrite venue_run_app. cbn [desired_ set_sets]. apply ops_track. intros y. by rewrite F2, S3.
Qed.

Lemma refresh_sync g f f' s evs : desired_ f' = desired_ f -> active_ f' = active_ f ->
  in_sync g (f, s) evs -> in_sync g (f', market_refresh write_json f' s) evs.
Proof using.
  intros E1 E2 [S1 S2 S3 (fr & F1 & F2)]. destruct (refresh_is f' s) as (o & m & E). cbn [fst snd] in *.
  split; cbn [fst snd]; rewrite ?E; [by destruct s|by destruct s|congruence|]. exists fr. rewrite E1. split; [|done].
  rewrite F1. unfold kept. by destruct s.
Qed.

Lemma step_in_sync g a ev b evs :
  market_hosted a -> silent_feed (fst a) -> in_sync g a evs -> (forall t, ev <> Some (Reject t)) -> market_step a ev b ->
  g < generation_ (snd b) \/ (silent_feed (fst b) /\ in_sync g b (evs ++ option_list ev)).
Proof using.
  intros Hh Hq Hy Hr Hst. pose proof (sy_connected _ _ _ Hy) as Hc. pose proof (proj1 (proj1 Hh)) as Hi.
  pose proof (lv_stopped _ _ _ (connected_live 1 _ Hi Hc)) as Hns.
  destruct Hst as [f s ev s' H|f s d f' fr H|f s f' H Hf|[f s] tls|[f s]|[f s]]; cbn [fst snd option_list] in *; rewrite ?app_nil_r.
  - destruct (goes_on_sync g f s ev s' evs) as [?|[Ho Hy']]; [|done|done|by left|right; by rewrite Ho].
    eapply completes_goes_on; [apply Hh|done| |exact H]. intros h m Em.
    destruct Hh as [_ [[_ Em']|Hs]]; cbn [fst snd] in *; [|congruence]. rewrite Em' in Em. injection Em as <-. by apply silent_message.
  - right. unfold market_connected, connected in H. cbn [snd] in H. rewrite Hc in H. split; [|by eapply subscribe_sync].
    apply subscribe_live in H. injection H as -> _. exact Hq.
  - right. split; [done|]. eapply refresh_sync; [| |exact Hy]; by destruct H as [[h ->]|[[h ->]|[h ->]]].
  - destruct (goes_on_sync g f s None (do_connect hash tls s) evs) as [?|[_ Hy']]; [|done|done|by left|].
    + apply steady_goes_on; [done|done|apply do_connect_steady|apply do_connect_quietly].
    + right. split; [done|]. by rewrite app_nil_r in Hy'.
  - left. destruct (stop_quietly s) as [Hlt|Hs]; [rewrite <- (sy_generation _ _ _ Hy); exact Hlt|].
    destruct Hs as [_ _ _ Hs _]. destruct s; cbn in *; congruence.
  - destruct (goes_on_sync g f s None (kick hash s) evs) as [?|[_ Hy']]; [|done|done|by left|].
    + apply steady_goes_on; [done|done|apply kick_steady|apply kick_quietly].
    + right. split; [done|]. by rewrite app_nil_r in Hy'.
Qed.

(** ** Opening *)

(** The feed and its client after a successful handshake of the current
    generation, which runs the open callback. *)
Definition opened (f : MarketWs) (s : WsClient) (l : list Pending) : MarketWs * WsClient :=
  (set_sets (desired_ f) (desired_ f) f, on_handshake hash (generation_ s) None (set_pending l s)).

(** What the handshake handler does after the open callback. *)
Lemma opening_tail_quietly g s : quietly s
  (if stopped_ s || negb (g =? generation_ s) then s
   else add_pending (PRead g) (schedule_keepalive
     (if negb (qempty (write_queue_ s)) && negb (writing_ s) then do_write (Some g) g s else s))).
Proof using.
  case_match; [reflexivity|]. etrans; [|apply add_pending_quietly]. etrans; [|apply schedule_keepalive_quietly].
  case_match; [apply do_write_quietly|reflexivity].
Qed.

Lemma initial_frames f : (forall m, is_Some (write_json m)) ->
  exists fr, open_calls write_json f = (CallSend <$> texts_of write_json fr) ++ default [] (feed_on_open_ f)
    /\ forall x, x ∈ assets (venue_run fr) <-> x ∈ desired_ f.
Proof using.
  intros Hj. unfold open_calls, send_initial, market_initial_subscription, write_message. cbv zeta.
  destruct (desired_ f) as [|d ds]; [by exists []|]. destruct (Hj (InitialSub (d :: ds))) as [t Ht]. rewrite Ht. cbn.
  exists [InitialSub (d :: ds)]. split; [unfold texts_of; cbn; by rewrite Ht|]. cbn. intros x. by rewrite app_nil_r.
Qed.

Lemma opening_sync f s l :
  (forall m, is_Some (write_json m)) -> market_hosted (f, s) -> silent_feed f ->
  pending s ≡ₚ PHandshake (generation_ s) :: l -> posted s = [] -> kept s = [] ->
  generation_ s < generation_ (snd (opened f s l)) \/ in_sync (generation_ s) (opened f s l) [].
Proof using.
  intros Hj [Hg Ho] [Hq _] Hp Hpo Hk. cbn [fst snd] in *.
  destruct (take_current s _ l Chain (proj1 Hg) Hp eq_refl eq_refl) as [_ Hcn].
  assert (Hns : stopped_ s = false) by (destruct Hcn as [H _ _ _ _ _ _ _]; by destruct s).
  destruct Ho as [[Eo _]|]; [|congruence]. destruct (initial_frames f Hj) as (fr & Ec & Hv). rewrite Ec in Eo.
  assert (Hst : steady s (on_handshake hash (generation_ s) None (set_pending l s)))
    by (etrans; [by eapply set_pending_steady|apply on_handshake_steady]).
  assert (Hf : generation_ s < generation_ (snd (opened f s l)) \/ (generation_ (snd (opened f s l)) = generation_ s
    /\ connected_ (snd (opened f s l)) = true /\ stopped_ (snd (opened f s l)) = false
    /\ posted (snd (opened f s l)) = texts_of write_json fr)).
  { unfold opened. cbn [snd]. unfold on_handshake. rewrite set_pending_generation, Z.eqb_refl. cbn [negb]. cbv zeta.
    set (s2 := set_queue _ _). assert (E2 : on_open_ s2 = on_open_ s /\ generation_ s2 = generation_ s /\ connected_ s2 = true
      /\ stopped_ s2 = false /\ posted s2 = []) by (unfold s2; by destruct s).
    destruct E2 as (-> & G2 & C2 & T2 & P2). rewrite Eo. clearbody s2. unfold run_calls. rewrite fold_left_app.
    change (fold_left (run_call hash) (CallSend <$> texts_of write_json fr) ?x) with
      (run_calls hash x (CallSend <$> texts_of write_json fr)). rewrite run_sends_posted.
    set (s3 := set_posted _ _). assert (E3 : generation_ s3 = generation_ s /\ connected_ s3 = true /\ stopped_ s3 = false
      /\ posted s3 = texts_of write_json fr) by (unfold s3; destruct s2; cbn in *; by subst).
    clearbody s3. destruct E3 as (G3 & C3 & T3 & P3). set (s4 := fold_left _ _ s3).
    assert (Q4 : quietly s3 s4) by (by apply run_calls_quietly).
    destruct (transitivity Q4 (opening_tail_quietly (generation_ s) s4)) as [H|[A1 A2 A3 A4 _]]; [left; congruence|].
    right. repeat split; congruence. }
  destruct Hf as [H|(G & C & T & P)]; [by left|]. right. split; [done|done|done|]. exists fr. split; [|done].
  rewrite P. unfold opened in *. cbn [snd delivered omap list_omap app] in *. rewrite (sd_kept _ _ Hst T), Hk. done.
Qed.

(** ** A run of a session *)

Lemma run_in_sync g a evs b :
  market_hosted a -> silent_feed (fst a) -> (g < generation_ (snd a) \/ in_sync g a []) -> market_run a evs b ->
  (forall t, Reject t ∉ evs) ->
  market_hosted b /\ (g < generation_ (snd b) \/ (silent_feed (fst b) /\ in_sync g b evs)).
Proof using.
  intros Hh Hq Ha Hrun. induction Hrun as [|evs b ev c _ IH Hst]; intros Hr.
  { split; [done|]. destruct Ha; [by left|by right]. }
  destruct IH as [Hb Hy]; [intros t Ht; apply (Hr t), elem_of_app; by left|].
  split; [by eapply feed_step_hosted; [eapply market_step_feed|]|].
  destruct Hy as [Hlt|[Hqb Hy]].
  - left. pose proof (market_step_generation _ _ _ Hst). lia.
  - eapply step_in_sync; [exact Hb|done|done| |done]. intros t ->. apply (Hr t), elem_of_app. right. apply list_elem_of_here.
Qed.

(** A text says which frame it is. *)
Lemma decoded_frames decode fr :
  (forall m t, write_json m = Some t -> decode t = Some m) -> (forall m, is_Some (write_json m)) ->
  omap decode (texts_of write_json fr) = fr.
Proof using.
  intros Hd Hj. unfold texts_of. induction fr as [|m fr IH]; [done|]. cbn. destruct (Hj m) as [t Ht]. rewrite Ht. cbn.
  rewrite (Hd m t Ht). by f_equal.
Qed.

(** ** Whole sessions *)

Lemma feed_step_awake a b : feed_step hash write_json a b -> good (snd a) -> awake (snd a) -> awake (snd b).
Proof using.
  intros [f s s' H|f s d f' fr _|f s f' _|[f s] tls|[f s]|[f s]] Hg Ha; cbn [fst snd] in *.
  - by eapply (step_awake hash); [apply Hg|..].
  - rewrite send_all_is. set (s' := set_posted _ s). destruct (refresh_is f' s') as (o & m & ->). by destruct s.
  - destruct (refresh_is f' s) as (o & m & ->). by destruct s.
  - by eapply (step_awake hash); [apply Hg|apply step_start|].
  - by eapply (step_awake hash); [apply Hg|apply step_stop|].
  - by eapply (step_awake hash); [apply Hg|apply step_kick|].
Qed.

Lemma market_run_feed a evs b : market_run a evs b -> rtc (feed_step hash write_json) a b.
Proof using. induction 1; [done|]. eapply rtc_r; [done|by eapply market_step_feed]. Qed.

Lemma feed_run_kept a b : rtc (feed_step hash write_json) a b ->
  market_hosted a -> awake (snd a) -> market_hosted b /\ awake (snd b).
Proof using.
  induction 1 as [|a b c Hst _ IH]; [done|]. intros Hh Ha.
  apply IH; [by eapply feed_step_hosted|]. eapply feed_step_awake; [done|apply Hh|done].
Qed.

(** Everything that can be flushed can be flushed by steps of the feed. *)
Lemma flush_run a evs f s s' : market_run a evs (f, s) -> rtc (flush hash) s s' ->
  exists evs', market_run a (evs ++ evs') (f, s') /\ forall t, Reject t ∉ evs'.
Proof using.
  intros Hr Hf. revert evs Hr. induction Hf as [s|s s1 s' Hst _ IH]; intros evs Hr.
  { exists []. rewrite app_nil_r. split; [done|]. intros t. apply not_elem_of_nil. }
  destruct (flush_completes hash s s1 Hst) as (ev & Hc & Hn & Ho).
  destruct (IH (evs ++ option_list ev)) as (evs' & Hr' & Hn').
  { eapply mr_snoc; [exact Hr|]. pose proof (ms_io f s ev s1 Hc) as H. by rewrite Ho in H. }
  exists (option_list ev ++ evs'). rewrite app_assoc. split; [done|]. intros t [Ht|Ht]%elem_of_app; [|by eapply Hn'].
  destruct ev as [e|]; [|by apply not_elem_of_nil in Ht]. apply list_elem_of_singleton in Ht. by apply (Hn t); rewrite Ht.
Qed.

Section Session.
(** Frames can be written and read back; a feed and its client reach a state in which a
    connection opens with nothing retained or posted from an earlier one. *)
Context (decode : string -> option MarketFrame) (f00 f0 : MarketWs) (s0 : WsClient) (l : list Pending).
Hypothesis Hwrites : forall m, is_Some (write_json m).
Hypothesis Hreads : forall m t, write_json m = Some t -> decode t = Some m.
Hypothesis Hreach : rtc (feed_step hash write_json) (f00, market_client write_json f00) (f0, s0).
Hypothesis Hsilent : silent_feed f0.
Hypothesis Hopening : pending s0 ≡ₚ PHandshake (generation_ s0) :: l.
Hypothesis Hposted : posted s0 = [].
Hypothesis Hkept : kept s0 = [].

Lemma session_sync evs f s :
  market_run (opened f0 s0 l) evs (f, s) -> (forall t, Reject t ∉ evs) -> generation_ s = generation_ s0 ->
  session s /\ in_sync (generation_ s0) (f, s) evs.
Proof using All.
  intros Hrun Hroom Hstream. destruct (feed_run_kept _ _ Hreach) as [Hh Ha]; [split; [apply make_client_good|by left]|done|].
  pose proof (step_handshake hash s0 (generation_ s0) l None Hopening) as Hst.
  assert (Hh1 : market_hosted (opened f0 s0 l)) by (eapply io_hosted; [exact Hst|reflexivity|reflexivity|exact Hh]).
  assert (Ha1 : awake (snd (opened f0 s0 l))) by (eapply (step_awake hash); [apply Hh|exact Hst|done]).
  destruct (feed_run_kept _ _ (market_run_feed _ _ _ Hrun) Hh1 Ha1) as [[Hg _] Hw].
  destruct (run_in_sync (generation_ s0) (opened f0 s0 l) evs (f, s)) as [_ [Hlt|[_ Hy]]]; [done|exact Hsilent| |done|done|..].
  - by apply opening_sync.
  - cbn [snd] in Hlt. lia.
  - split; [|done]. pose proof (sy_connected _ _ _ Hy) as Hc. split; [done|done|done|].
    by apply (lv_stopped _ _ _ (connected_live 1 s (proj1 Hg) Hc)).
Qed.

(** A session in sync, read by the venue. *)
Lemma sync_read evs f s : in_sync (generation_ s0) (f, s) evs ->
  forall x, x ∈ assets (venue_run (omap decode (delivered evs ++ texts (kept s) ++ posted s))) <-> x ∈ desired_ f.
Proof using Hwrites Hreads.
  intros [_ _ _ (fr & F1 & F2)]. cbn [fst snd] in *. by rewrite <- F1, (decoded_frames decode fr Hreads Hwrites).
Qed.

Context (f : MarketWs) (s : WsClient) (evs : list BoxEvent).
(** They run on from there, on the same stream, with no message refused by a full
    queue. *)
Hypothesis Hrun : market_run (opened f0 s0 l) evs (f, s).
Hypothesis Hroom : forall t, Reject t ∉ evs.
Hypothesis Hstream : generation_ s = generation_ s0.

End Session.
End Composed.

(** A concrete session: the feed opens on A and moves to B. *)
Module CleanRun.
(** An escaped text form of frames, with its reader. *)
Fixpoint put_id (s rest : string) : string :=
  match s with
  | EmptyString => String ","%char rest
  | String c s => String "."%char (String c (put_id s rest))
  end.
Definition put_ids (l : list string) : string := foldr put_id "" l.
Fixpoint get_ids (t : string) : option (list string) :=
  match t with
  | EmptyString => Some []
  | String ","%char t => l ← get_ids t; Some ("" :: l)
  | String _ (String c t) => l ← get_ids t; match l with s :: l => Some (String c s :: l) | [] => None end
  | String _ EmptyString => None
  end.
Definition json (m : MarketFrame) : option string :=
  Some match m with
       | InitialSub l => String "i"%char (put_ids l)
       | SubscribeOp l => String "s"%char (put_ids l)
       | UnsubscribeOp l => String "u"%char (put_ids l)
       end.
Definition read (t : string) : option MarketFrame :=
  match t with
  | String "i"%char t => InitialSub <$> get_ids t
  | String "s"%char t => SubscribeOp <$> get_ids t
  | String "u"%char t => UnsubscribeOp <$> get_ids t
  | _ => None
  end.

Lemma ids_read_back l : get_ids (put_ids l) = Some l.
Proof.
  assert (H : forall s rest l, get_ids rest = Some l -> get_ids (put_id s rest) = Some (s :: l)).
  { intros s. induction s as [|c s IH]; intros rest l' Hr; cbn; [by rewrite Hr|]. by rewrite (IH rest l' Hr). }
  induction l as [|s l IH]; [done|]. cbn [put_ids foldr]. by apply H.
Qed.
Lemma frame_reads_back m t : json m = Some t -> read t = Some m.
Proof. destruct m; intros [= <-]; cbn; by rewrite ids_read_back. Qed.

Definition hash7 : string -> Z := StaleRun.hash7.
Definition feed0 : MarketWs := set_sets ["A"] [] StaleRun.feed_new.
Definition client0 : WsClient := market_refresh json feed0 (market_client json StaleRun.feed_new).
Definition c0 : WsClient := do_connect hash7 true client0.
(** The handshake is pending. *)
Definition c1 : WsClient := StaleRun.tls_up 1 [] c0.
Definition feedA : MarketWs := set_sets ["A"] ["A"] feed0.
Definition feedB : MarketWs := set_sets ["B"] ["B"] feedA.
Definition c2 : WsClient := snd (opened hash7 feed0 c1 [PStage 1]).
(** The initial subscription is accepted, then the application asks for B. *)
Definition c3 : WsClient := run_send "i.A," (set_posted [] c2).
Definition c4 : WsClient := market_refresh json feedB (send_all (texts_of json [SubscribeOp ["B"]; UnsubscribeOp ["A"]]) c3).

Lemma opening : rtc (feed_step hash7 json) (StaleRun.feed_new, market_client json StaleRun.feed_new) (feed0, c1).
Proof.
  apply (rtc_l _ _ (feed0, client0)); [by apply (feed_subscribe _ _ _ _ ["A"] _ [])|].
  apply (rtc_l _ _ (feed0, c0)); [apply feed_io'; [apply (step_start _ _ true)|reflexivity]|].
  io (step_resolve hash7 _ 1 [PStage 1] None) to feed0 (StaleRun.resolved 1 [] c0).
  io (step_connect hash7 _ 1 [PStage 1] None) to feed0 (StaleRun.tcp_up 1 [] c0).
  io (step_tls hash7 _ 1 [PStage 1] None) to feed0 c1.
  constructor.
Qed.

(** Up to the call that asks for B. *)
Lemma asked_run : market_run hash7 json (opened hash7 feed0 c1 [PStage 1]) [Accept "i.A,"] (feedB, c4).
Proof.
  assert (R2 : market_run hash7 json (opened hash7 feed0 c1 [PStage 1]) [] (feedA, c2)) by apply mr_nil.
  pose proof (mr_snoc _ _ _ _ _ _ _ R2 (ms_io hash7 json feedA c2 _ c3 (cp_posted hash7 c2 "i.A," [] eq_refl))) as R3.
  apply (mr_snoc _ _ _ _ _ None _ R3), (ms_subscribe hash7 json feedA c3 ["B"] feedB [SubscribeOp ["B"]; UnsubscribeOp ["A"]]).
  vm_compute. reflexivity.
Qed.
Lemma silent_feed0 : silent_feed feed0.
Proof. repeat split. discriminate. Qed.
Lemma no_reject l : forallb (fun e => match e with Reject _ => false | _ => true end) l = true -> forall t, Reject t ∉ l.
Proof. intros H t Ht. apply Is_true_true, forallb_True in H. rewrite Forall_forall in H. exact (H _ Ht). Qed.
End CleanRun.

