(* ===== verification/FeedRace.v ===== *)
(** * The market feed between threads ([src/pm/market_ws.cpp])

    [MarketWs] guards its two sets with [mu_], because [subscribe] runs on the caller's
    thread and [send_initial] on the io thread.  Both leave the critical section before
    they post their frames.  Here a thread is inside its critical section for one step and
    posts one frame per step, and threads interleave freely; the question is which orders
    of frames the venue can see. *)

From Stdlib Require Import Ascii String ZArith Lia.
From stdpp Require Import base list sets strings numbers relations.
From S2P Require Import Prelude WriteQueue WsClient Outbox Feeds FeedClients Delivery FeedSync.

Open Scope Z_scope.

(** ** Threads *)

(** Where a thread is: before the critical section of [send_initial] or of
    [subscribe], or past it with frames still to post. *)
Inductive Thread :=
  | Opening
  | Calling (token_ids : list string)
  | Posting (frames : list MarketFrame).

Section Threads.
Context (write_json : MarketFrame -> option string).

Inductive race_step : MarketWs * WsClient * list Thread -> MarketWs * WsClient * list Thread -> Prop :=
  | race_open f s ts i f' frames : ts !! i = Some Opening -> send_initial write_json f = Ok (f', frames) ->
      race_step (f, s, ts) (f', s, <[i := Posting frames]> ts)
  | race_call f s ts i d f' frames : ts !! i = Some (Calling d) ->
      subscribe write_json d (market_connected (f, s)) f = Ok (f', frames) ->
      race_step (f, s, ts) (f', s, <[i := Posting frames]> ts)
  | race_post f s ts i m t rest : ts !! i = Some (Posting (m :: rest)) -> write_json m = Some t ->
      race_step (f, s, ts) (f, send t s, <[i := Posting rest]> ts).
End Threads.

(** ** Interleavings *)

(** The third list is an interleaving of the first two. *)
Inductive merges {A} : list A -> list A -> list A -> Prop :=
  | mg_nil : merges [] [] []
  | mg_left a b c x : merges a b c -> merges (a ++ [x]) b (c ++ [x])
  | mg_right a b c x : merges a b c -> merges a (b ++ [x]) (c ++ [x]).

Lemma merges_left {A} (a : list A) : merges a [] a.
Proof. induction a as [|x a IH] using rev_ind; by constructor. Qed.
Lemma merges_right {A} (b : list A) : merges [] b b.
Proof. induction b as [|x b IH] using rev_ind; by constructor. Qed.

Lemma merges_nil {A} (a b c : list A) : merges a b c -> a = [] -> c = b.
Proof. induction 1 as [|a b c x _ IH|a b c x _ IH]; intros E; [done|by destruct a|by rewrite (IH E)]. Qed.

(** One element lands somewhere in the other list. *)
Lemma merges_one {A} (a b c : list A) x : merges a b c -> a = [x] -> exists b1 b2, b = b1 ++ b2 /\ c = b1 ++ x :: b2.
Proof.
  induction 1 as [|a b c y H IH|a b c y _ IH]; intros E; [done|..].
  - destruct a as [|z a]; [|by destruct a]. injection E as ->. rewrite (merges_nil _ _ _ H eq_refl).
    exists b, []. by rewrite app_nil_r.
  - destruct (IH E) as (b1 & b2 & -> & ->). exists b1, (b2 ++ [y]). by rewrite <- !app_assoc.
Qed.

(** ** What the venue makes of them *)

(** A market session at the venue, as far as the comments of [market_ws.hpp] go:
    a full subscription on a fresh session sets the assets and makes the session
    live; on a live session the operations adjust the set and another full
    subscription has no effect.  Nothing is said of operations that precede the full
    subscription. *)
Class MarketVenue := {
  session : Type;
  fresh : session;
  receive : session -> MarketFrame -> session;
  live : session -> Prop;
  holds : session -> string -> Prop;
}.

Class MarketVenueLaws (V : MarketVenue) := {
  first_live l : live (receive fresh (InitialSub l));
  first_holds l x : holds (receive fresh (InitialSub l)) x <-> x ∈ l;
  stays_live v m : live v -> live (receive v m);
  again_holds v l x : live v -> holds (receive v (InitialSub l)) x <-> holds v x;
  subscribe_holds v l x : live v -> holds (receive v (SubscribeOp l)) x <-> holds v x \/ x ∈ l;
  unsubscribe_holds v l x : live v -> holds (receive v (UnsubscribeOp l)) x <-> holds v x /\ x ∉ l;
}.

Definition init_frames (l : list string) : list MarketFrame := match l with [] => [] | _ => [InitialSub l] end.

Section VenueEffect.
Context {V : MarketVenue} {VL : MarketVenueLaws V}.

Lemma live_ops d v x : live v ->
  holds (fold_left receive (op_frames d) v) x <-> (holds v x \/ x ∈ add d) /\ x ∉ remove d.
Proof using VL.
  intros Hv. unfold op_frames. destruct (add d) as [|a la], (remove d) as [|r lr]; cbn [app fold_left];
    rewrite ?unsubscribe_holds, ?subscribe_holds by auto using stays_live; set_solver.
Qed.

(** After the full subscription of [l], the operations of a call made against [active]
    end at [d] when [l] is [active], or when it is [d] already. *)
Lemma full_then_ops l active d x : l = active \/ l = d ->
  holds (fold_left receive (InitialSub l :: op_frames (delta d active)) fresh) x <-> x ∈ d.
Proof using VL.
  intros Hl. cbn [fold_left]. rewrite live_ops, first_holds by apply first_live. cbn.
  rewrite !elem_of_lfilter, !not_found_spec.
  destruct Hl; subst l; destruct (decide (x ∈ active)), (decide (x ∈ d)); tauto.
Qed.
End VenueEffect.

(** Three venues that do what is documented and differ in the rest: operations before
    the full subscription are kept and the subscription adds to them, or are kept and
    the subscription replaces them, or are dropped. *)
Definition merging_venue : MarketVenue :=
  {| fresh := fresh_session; receive := venue_step; live v := subscribed v = true; holds v x := x ∈ assets v |}.

Definition replacing_step (v : Venue) (m : MarketFrame) : Venue :=
  match m with
  | InitialSub l => if subscribed v then v else {| subscribed := true; assets := l |}
  | _ => venue_step v m
  end.
Definition replacing_venue : MarketVenue :=
  {| fresh := fresh_session; receive := replacing_step; live v := subscribed v = true; holds v x := x ∈ assets v |}.

Definition dropping_step (v : Venue) (m : MarketFrame) : Venue :=
  match m with InitialSub _ => venue_step v m | _ => if subscribed v then venue_step v m else v end.
Definition dropping_venue : MarketVenue :=
  {| fresh := fresh_session; receive := dropping_step; live v := subscribed v = true; holds v x := x ∈ assets v |}.

Ltac venue_laws :=
  split; intros; repeat match goal with m : MarketFrame |- _ => destruct m end;
    cbn in *; unfold replacing_step, dropping_step; cbn;
    try match goal with H : subscribed _ = true |- _ => rewrite H end;
    cbn; rewrite ?app_nil_r, ?elem_of_app, ?elem_of_lfilter, ?not_found_spec; tauto.

#[export] Instance merging_venue_laws : MarketVenueLaws merging_venue.
Proof. venue_laws. Qed.
#[export] Instance replacing_venue_laws : MarketVenueLaws replacing_venue.
Proof. venue_laws. Qed.
#[export] Instance dropping_venue_laws : MarketVenueLaws dropping_venue.
Proof. venue_laws. Qed.

(** ** One opening, one call *)

Section Race.
Context (write_json : MarketFrame -> option string) (f : MarketWs) (s : WsClient) (d : list string).

Lemma send_initial_is g r : send_initial write_json g = Ok r ->
  r = (set_sets (desired_ g) (desired_ g) g, init_frames (desired_ g)).
Proof using.
  unfold send_initial, market_initial_subscription, write_message, init_frames. cbv zeta.
  intros H. destruct (desired_ g); inv_ok; by subst.
Qed.

(** The client once [order] was posted. *)
Definition posting (order : list MarketFrame) : WsClient := set_posted (posted s ++ texts_of write_json order) s.

Lemma posting_nil : posting [] = s.
Proof using. unfold posting. cbn. rewrite app_nil_r. by destruct s. Qed.
Lemma posting_snoc order m t : write_json m = Some t -> send t (posting order) = posting (order ++ [m]).
Proof using.
  intros Hm. unfold posting, send, texts_of. rewrite omap_app. cbn. rewrite Hm. cbn.
  destruct s; cbn. by rewrite <- app_assoc.
Qed.

(** Where the two threads can be, by which of the critical sections ran. *)
Inductive phase : MarketWs * WsClient * list Thread -> Prop :=
  | ph_start : phase (f, s, [Opening; Calling d])
  | ph_open order rest : order ++ rest = init_frames (desired_ f) ->
      phase (set_sets (desired_ f) (desired_ f) f, posting order, [Posting rest; Calling d])
  | ph_call order rest : order ++ rest = op_frames (delta d (active_ f)) ->
      phase (set_sets d d f, posting order, [Opening; Posting rest])
  | ph_both old active a1 r1 a2 r2 order :
      (old = desired_ f /\ active = desired_ f) \/ (old = d /\ active = active_ f) ->
      a1 ++ r1 = init_frames old -> a2 ++ r2 = op_frames (delta d active) -> merges a1 a2 order ->
      phase (set_sets d d f, posting order, [Posting r1; Posting r2]).

Lemma two_lookup (a b t : Thread) i : [a; b] !! i = Some t -> (i = 0%nat /\ a = t) \/ (i = 1%nat /\ b = t).
Proof using. destruct i as [|[|i]]; cbn; intros H; simplify_eq; auto. Qed.

Hypothesis Hconn : connected_ s = true.

Lemma race_phase x y : race_step write_json x y -> phase x -> phase y.
Proof using Hconn.
  assert (Hc : forall g order, market_connected (g, posting order) = true) by (intros; rewrite <- Hconn; clear Hconn; unfold posting; by destruct s).
  intros Hst Hp. destruct Hst as [g c ts i g' fr Hi H|g c ts i e g' fr Hi H|g c ts i m t rest Hi Hm]; inversion Hp; subst;
    apply two_lookup in Hi as [[-> Ht]|[-> Ht]]; simplify_eq; cbn [insert list_insert].
  - apply send_initial_is in H. injection H as -> ->. rewrite <- posting_nil at 1. by apply ph_open.
  - apply send_initial_is in H. injection H as -> ->. cbn [desired_ set_sets].
    eapply (ph_both d (active_ f) []); [by right|done|done|apply merges_right].
  - unfold market_connected, connected in H. cbn [snd] in H. rewrite Hconn in H. apply subscribe_live in H. injection H as -> ->.
    rewrite <- posting_nil at 1. by apply ph_call.
  - rewrite Hc in H. apply subscribe_live in H. injection H as -> ->. cbn [active_ set_sets].
    eapply (ph_both (desired_ f) (desired_ f) _ _ []); [by left|done|done|apply merges_left].
  - rewrite (posting_snoc _ _ _ Hm). apply ph_open. by rewrite <- app_assoc.
  - rewrite (posting_snoc _ _ _ Hm). apply ph_call. by rewrite <- app_assoc.
  - rewrite (posting_snoc _ _ _ Hm). eapply ph_both; [done|..|by apply mg_left]; [by rewrite <- app_assoc|done].
  - rewrite (posting_snoc _ _ _ Hm). eapply ph_both; [done|..|by apply mg_right]; [done|by rewrite <- app_assoc].
Qed.

Lemma race_reaches x : rtc (race_step write_json) (f, s, [Opening; Calling d]) x -> phase x.
Proof using Hconn.
  intros Hr. assert (H : phase (f, s, [Opening; Calling d])) by constructor.
  revert H. induction Hr; eauto using race_phase.
Qed.

(** The set of the full subscription and the operations of the call, by which of the two
    was first in the critical section. *)
Definition race_frames (l : list string) (ops : list MarketFrame) : Prop :=
  (l = desired_ f /\ ops = op_frames (delta d (desired_ f)))
  \/ (l = d /\ ops = op_frames (delta d (active_ f))).

(** Posting the next frames of one thread. *)
Lemma post_some g order fr rest ts i : (forall m, is_Some (write_json m)) ->
  ts !! i = Some (Posting (fr ++ rest)) ->
  rtc (race_step write_json) (g, posting order, ts) (g, posting (order ++ fr), <[i := Posting rest]> ts).
Proof using.
  intros Hj. revert order ts. induction fr as [|m fr IH]; intros order ts Hi.
  { rewrite app_nil_r, list_insert_id by done. reflexivity. }
  destruct (Hj m) as [t Ht]. eapply rtc_l; [by eapply race_post|]. rewrite (posting_snoc _ _ _ Ht).
  replace (order ++ m :: fr) with ((order ++ [m]) ++ fr) by (by rewrite <- app_assoc).
  rewrite <- (list_insert_insert_eq ts i (Posting rest) (Posting (fr ++ rest))). apply IH.
  rewrite list_lookup_insert_eq; [done|by eapply lookup_lt_Some].
Qed.

Lemma opens g : (forall m, is_Some (write_json m)) ->
  send_initial write_json g = Ok (set_sets (desired_ g) (desired_ g) g, init_frames (desired_ g)).
Proof using.
  intros Hj. unfold send_initial, market_initial_subscription, init_frames, write_message. cbv zeta.
  destruct (desired_ g) as [|y l]; [done|]. by destruct (Hj (InitialSub (y :: l))) as [t ->].
Qed.

Lemma calls g : (forall m, is_Some (write_json m)) ->
  subscribe write_json d true g = Ok (set_sets d d g, op_frames (delta d (active_ g))).
Proof using.
  intros Hj. unfold subscribe, market_subscribe_op, market_unsubscribe_op, op_frames, write_message. cbv zeta. cbn [negb].
  destruct (add _) as [|x la], (remove _) as [|y lr];
    repeat match goal with |- context [write_json ?m] => destruct (Hj m) as [? ->]; cbn end; done.
Qed.

(** Both critical sections, in either order. *)
Lemma both_locked l ops : (forall m, is_Some (write_json m)) -> race_frames l ops ->
  rtc (race_step write_json) (f, s, [Opening; Calling d])
    (set_sets d d f, posting [], [Posting (init_frames l); Posting ops]).
Proof using Hconn.
  intros Hj Hl. rewrite posting_nil.
  assert (Hm : forall g, subscribe write_json d (market_connected (g, s)) g
    = Ok (set_sets d d g, op_frames (delta d (active_ g)))).
  { intros g. unfold market_connected, connected. cbn [snd]. rewrite Hconn. by apply calls. }
  destruct Hl as [[-> ->]|[-> ->]].
  - eapply rtc_l; [apply (race_open _ _ _ _ 0); [done|by apply opens]|].
    eapply rtc_l; [apply (race_call _ _ _ _ 1 d); [done|apply Hm]|]. reflexivity.
  - eapply rtc_l; [apply (race_call _ _ _ _ 1 d); [done|apply Hm]|].
    eapply rtc_l; [apply (race_open _ _ _ _ 0); [done|by apply opens]|]. reflexivity.
Qed.

(** Every way to post the full subscription among the operations happens. *)
Lemma every_order l o1 o2 : (forall m, is_Some (write_json m)) -> l <> [] -> race_frames l (o1 ++ o2) ->
  rtc (race_step write_json) (f, s, [Opening; Calling d])
    (set_sets d d f, posting (o1 ++ InitialSub l :: o2), [Posting []; Posting []]).
Proof using Hconn.
  intros Hj Hne Hl. etrans; [by apply both_locked|].
  assert (E : init_frames l = [InitialSub l]) by (by destruct l). rewrite E.
  etrans; [by apply (post_some _ [] o1 o2 _ 1)|]. cbn [app insert list_insert].
  etrans; [by apply (post_some _ o1 [InitialSub l] [] _ 0)|]. cbn [insert list_insert].
  replace (o1 ++ InitialSub l :: o2) with ((o1 ++ [InitialSub l]) ++ o2) by (by rewrite <- app_assoc).
  apply (post_some _ (o1 ++ [InitialSub l]) o2 [] [Posting []; Posting o2] 1); [done|]. by rewrite app_nil_r.
Qed.

(** And nothing else. *)
Lemma only_these f' s' : desired_ f <> [] -> d <> [] ->
  rtc (race_step write_json) (f, s, [Opening; Calling d]) (f', s', [Posting []; Posting []]) ->
  exists l o1 o2, race_frames l (o1 ++ o2) /\ f' = set_sets d d f /\ s' = posting (o1 ++ InitialSub l :: o2).
Proof using Hconn.
  intros Hf Hd Hph%race_reaches. inversion Hph as [| | |old active a1 r1 a2 r2 order Ho E1 E2 Hm]; subst.
  rewrite app_nil_r in E1, E2. subst.
  assert (E : init_frames old = [InitialSub old]) by (destruct Ho as [[-> _]|[-> _]]; [by destruct (desired_ f)|by destruct d]).
  destruct (merges_one _ _ _ _ Hm E) as (o1 & o2 & Eo & ->). exists old, o1, o2. rewrite <- Eo.
  split; [|done]. destruct Ho as [[-> ->]|[-> ->]]; [by left|by right].
Qed.
End Race.

(** C24: the race between [subscribe] and the open callback, exactly.  Let one thread be
    about to run [send_initial] for a connection that has just come up, and another
    [subscribe(d)], with the old set and [d] non-empty.  The executions in which both
    finish are exactly these: the feed records [d] as desired and active, and one full
    subscription is posted at any point among the operations of the call.  If
    [send_initial] was first in the critical section, that is the full subscription of
    the old set, and the operations lead from there to [d]; otherwise it is that of
    [d], and the operations refer to the set recorded before.  When it is posted first,
    every venue that does what is documented ends with exactly [d].  But it can be
    last, because both functions leave the critical section before they post: then the
    old set's full subscription follows every operation, of which nothing is documented,
    and no frame is left to send. *)
Theorem open_race_exact {V : MarketVenue} {VL : MarketVenueLaws V} write_json decode f s d :
  (forall m, is_Some (write_json m)) -> (forall m t, write_json m = Some t -> decode t = Some m) ->
  connected_ s = true -> posted s = [] -> desired_ f <> [] -> d <> [] ->
  let finished f' s' := rtc (race_step write_json) (f, s, [Opening; Calling d]) (f', s', [Posting []; Posting []]) in
  (forall f' s', finished f' s' <->
     exists l o1 o2, race_frames f d l (o1 ++ o2) /\ f' = set_sets d d f
       /\ s' = set_posted (texts_of write_json (o1 ++ InitialSub l :: o2)) s)
  /\ (forall f' s' l o2, finished f' s' -> omap decode (posted s') = InitialSub l :: o2 ->
        forall x, holds (fold_left receive (omap decode (posted s')) fresh) x <-> x ∈ d)
  /\ exists f' s', finished f' s' /\ desired_ f' = d /\ active_ f' = d
     /\ omap decode (posted s') = op_frames (delta d (desired_ f)) ++ [InitialSub (desired_ f)].
Proof.
  intros Hj Hd Hc Hp Hf Hdne finished.
  assert (Hpost : forall order, posting write_json s order = set_posted (texts_of write_json order) s).
  { intros order. unfold posting. by rewrite Hp. }
  assert (Hread : forall order, omap decode (posted (posting write_json s order)) = order).
  { intros order. rewrite Hpost. replace (posted _) with (texts_of write_json order) by (by destruct s). by apply decoded_frames. }
  split; [|split].
  - intros f' s'. split.
    + intros (l & o1 & o2 & Hl & -> & ->)%only_these; [|done..]. exists l, o1, o2. by rewrite <- Hpost.
    + intros (l & o1 & o2 & Hl & -> & ->). rewrite <- Hpost. apply every_order; [done..| |done].
      by destruct Hl as [[-> _]|[-> _]].
  - intros f' s' l o2 (l' & o1 & o2' & Hl & -> & ->)%only_these; [|done..]. rewrite Hread. intros Ho x.
    assert (o1 = []) as ->.
    { destruct o1 as [|m o1]; [done|exfalso]. injection Ho as -> _.
      destruct Hl as [[_ Hl]|[_ Hl]]; unfold op_frames in Hl; destruct (add _), (remove _); cbn in Hl; congruence. }
    cbn [app] in *. destruct Hl as [[-> ->]|[-> ->]]; apply full_then_ops; auto.
  - eexists _, _. split; [apply (every_order write_json f s d Hc (desired_ f) (op_frames (delta d (desired_ f))) []); [done..|]|].
    { rewrite app_nil_r. by left. }
    by rewrite Hread.
Qed.

(** A feed on A that is moved to B while its connection opens, at each of the three
    venues: with the full subscription last, none of them ends with B alone. *)
Lemma open_race_exact_witness :
  (exists f' s', rtc (race_step CleanRun.json) (CleanRun.feed0, CleanRun.c3, [Opening; Calling ["B"]]) (f', s', [Posting []; Posting []])
     /\ desired_ f' = ["B"] /\ active_ f' = ["B"]
     /\ omap CleanRun.read (posted s') = [SubscribeOp ["B"]; UnsubscribeOp ["A"]; InitialSub ["A"]])
  /\ Forall (fun V : MarketVenue =>
       holds (fold_left receive [SubscribeOp ["B"]; UnsubscribeOp ["A"]; InitialSub ["A"]] fresh) "A")
       [merging_venue; replacing_venue; dropping_venue].
Proof.
  split.
  - destruct (open_race_exact (V := merging_venue) CleanRun.json CleanRun.read CleanRun.feed0 CleanRun.c3 ["B"]) as (_ & _ & H);
      [by eexists|exact CleanRun.frame_reads_back|reflexivity|reflexivity|discriminate|discriminate|exact H].
  - repeat constructor.
Defined.
