(* ===== verification/UserSession.v ===== *)
(** * What a user session can carry ([src/pm/user_ws.cpp] on [src/net/ws_client.cpp])

    A concrete run of the user feed on its client.  The authenticated subscription is
    scoped to its connection; the dynamic operations are not: [UserWs::subscribe] queues
    them with [WsClient::send], which retains them across reconnects. *)

From Stdlib Require Import Ascii String ZArith Lia.
From stdpp Require Import base list sets strings numbers relations.
From S2P Require Import Prelude Auth WriteQueue WsClient Feeds FeedClients.

Open Scope Z_scope.

Module LeakRun.
Definition hash7 : string -> Z := StaleRun.hash7.
Definition json (m : UserFrame) : option string :=
  Some match m with
       | UserInitial _ l => "auth " +:+ String.concat "," l
       | UserSubscribe l => "subscribe " +:+ String.concat "," l
       | UserUnsubscribe l => "unsubscribe " +:+ String.concat "," l
       end.
Definition creds : ApiCreds := {| api_key := "k"; secret := "s"; passphrase := "p" |}.
Definition feed (d a : list string) : UserWs :=
  {| u_creds := creds; u_desired := d; u_active := a; u_on_raw := None; u_on_open := None |}.

(** The first session: authenticated with no markets, then A is asked for. *)
Definition client0 : WsClient := user_client json (feed [] []).
Definition s0 : WsClient := do_connect hash7 true client0.
Definition s1 : WsClient := StaleRun.up 1 [] s0.
Definition s2 : WsClient :=
  user_refresh json (feed ["A"] ["A"]) (send_all (omap json [UserSubscribe ["A"]]) s1).
(** The operation is queued behind the authentication still being written. *)
Definition s3 : WsClient := run_send "subscribe A" (set_posted [] s2).
(** [replace_subscription_and_reconnect] asks for B alone. *)
Definition s4 : WsClient := kick hash7 (user_refresh json (feed ["B"] ["A"]) s3).
(** What the first session left pending. *)
Definition stale : list Pending := [PRead 1; PKeepalive; PWrite {| ptr := 0; text := "auth " |} 1; PStage 1].
(** The second session. *)
Definition s5 : WsClient := on_reconnect_timer hash7 false true (set_pending stale s4).
Definition s6 : WsClient := StaleRun.up 3 stale s5.
Definition rest : list Pending := PRead 3 :: PKeepalive :: PStage 3 :: stale.
Definition s7 : WsClient := on_write hash7 {| ptr := 2; text := "auth B" |} 3 None (set_pending rest s6).
Definition s8 : WsClient := on_write hash7 {| ptr := 1; text := "subscribe A" |} 3 None (set_pending rest s7).
End LeakRun.

Lemma user_io' hash json f f' s s' :
  step hash s s' -> (if opened_between s s' then set_user (u_creds f) (u_desired f) (u_desired f) f else f) = f' ->
  user_step hash json (f, s) (f', s').
Proof. intros H <-. by constructor. Qed.

(** One I/O step of the concrete run, to a named state. *)
Tactic Notation "uio" uconstr(rule) "to" uconstr(f) uconstr(s) :=
  apply (rtc_l _ _ (f, s)); [apply user_io'; [apply rule; decided|vm_compute; reflexivity]|].

(** A stream whose resolution is pending comes up: the four stages of one connection. *)
Tactic Notation "comes" "up" constr(g) constr(l) "from" uconstr(f) uconstr(s) "to" uconstr(f') :=
  uio (step_resolve LeakRun.hash7 _ g (PStage g :: l) None) to f (StaleRun.resolved g l s);
  uio (step_connect LeakRun.hash7 _ g (PStage g :: l) None) to f (StaleRun.tcp_up g l s);
  uio (step_tls LeakRun.hash7 _ g (PStage g :: l) None) to f (StaleRun.tls_up g l s);
  uio (step_handshake LeakRun.hash7 _ g (PStage g :: l) None) to f' (StaleRun.up g l s).

(** C25: an operation of a dead session leaks into the next one.  The application,
    connected, asks for A; before the operation is written it replaces its set by B and
    reconnects.  The new session authenticates with B alone and then carries the old
    operation that subscribes to A, although the feed records B as both desired and
    active and never asked for A on this session; nothing is left to send that would take
    it back. *)
Theorem user_operation_leaks :
  exists f s, rtc (user_step LeakRun.hash7 LeakRun.json) (LeakRun.feed [] [], user_client LeakRun.json (LeakRun.feed [] [])) (f, s)
    /\ connected_ s = true /\ posted s = [] /\ entries_ (write_queue_ s) = []
    /\ u_desired f = ["B"] /\ u_active f = ["B"]
    /\ Some <$> written_on (generation_ s) s = LeakRun.json <$> [UserInitial LeakRun.creds ["B"]; UserSubscribe ["A"]].
Proof.
  exists (LeakRun.feed ["B"] ["B"]), LeakRun.s8. split; [|repeat split; vm_compute; reflexivity].
  apply (rtc_l _ _ (LeakRun.feed [] [], LeakRun.s0)); [apply user_io'; [apply (step_start _ _ true)|reflexivity]|].
  comes up 1 (@nil Pending) from (LeakRun.feed [] []) LeakRun.s0 to (LeakRun.feed [] []).
  apply (rtc_l _ _ (LeakRun.feed ["A"] ["A"], LeakRun.s2));
    [by apply (user_resubscribe _ _ _ LeakRun.s1 ["A"] _ [UserSubscribe ["A"]])|].
  uio (step_posted LeakRun.hash7 _ "subscribe A" []) to (LeakRun.feed ["A"] ["A"]) LeakRun.s3.
  apply (rtc_l _ _ (LeakRun.feed ["B"] ["A"], LeakRun.s4));
    [exact (user_replace LeakRun.hash7 LeakRun.json (LeakRun.feed ["A"] ["A"]) LeakRun.s3 ["B"])|].
  uio (step_reconnect LeakRun.hash7 _ LeakRun.stale false false true) to (LeakRun.feed ["B"] ["A"]) LeakRun.s5.
  comes up 3 LeakRun.stale from (LeakRun.feed ["B"] ["A"]) LeakRun.s5 to (LeakRun.feed ["B"] ["B"]).
  uio (step_write LeakRun.hash7 _ {| ptr := 2; text := "auth B" |} 3 LeakRun.rest None) to (LeakRun.feed ["B"] ["B"]) LeakRun.s7.
  uio (step_write LeakRun.hash7 _ {| ptr := 1; text := "subscribe A" |} 3 LeakRun.rest None)
    to (LeakRun.feed ["B"] ["B"]) LeakRun.s8.
  constructor.
Qed.
