(* ===== verification/Rest.v ===== *)
(** * REST targets ([src/pm/account_rest.cpp], [public_rest.cpp], [geoblock.cpp])

    The validators and target builders of the account and public APIs, what
    each operation hands to its transport, and the one-shot geoblock probe.  A
    reader of targets, written from RFC 3986, states what the builders mean. *)

From Stdlib Require Import Ascii String ZArith Lia.
From stdpp Require Import base list sets strings numbers.
From S2P Require Import Prelude Interfaces Keccak Keys Amounts Signing Protocol Auth Runtime Http.

Open Scope Z_scope.

(** ** Validators *)

Definition between (lo hi : Z) (c : ascii) : bool := (lo <=? code c) && (code c <=? hi).
Definition digit (c : ascii) : bool := between 48 57 c.
Definition lower_alpha (c : ascii) : bool := between 97 122 c.
Definition upper_alpha (c : ascii) : bool := between 65 90 c.
Definition hex_alnum (c : ascii) : bool := digit c || between 97 102 c || between 65 70 c.
Definition one_of (cs : string) (c : ascii) : bool := str_contains c cs.

Definition decimal_text (value : string) : bool :=
  negb (str_empty value) && (slen value <=? 80) && str_all digit value.
Definition hex_value (value : string) (digits : Z) : bool :=
  (slen value =? digits + 2) && starts_with "0x" value && str_all hex_alnum (str_drop 2 value).
Definition opaque_id (value : string) : bool :=
  negb (str_empty value) && (slen value <=? 256) && str_all (between 0x21 0x7e) value.
Definition cursor (value : string) : bool :=
  negb (str_empty value) && (slen value <=? 256)
  && str_all (fun c => digit c || lower_alpha c || upper_alpha c || one_of "+/=-_" c) value.

(** ** Query strings *)

Definition upper_hex_digit (i : Z) : ascii :=
  match String.get (Z.to_nat i) "0123456789ABCDEF" with Some c => c | None => "0"%char end.

Definition unreserved (c : ascii) : bool :=
  digit c || lower_alpha c || upper_alpha c || one_of "-_.~" c.

Fixpoint percent_encode (value : string) : string :=
  match value with
  | EmptyString => ""
  | String c rest =>
      if unreserved c then String c (percent_encode rest)
      else String "%" (String (upper_hex_digit (Z.shiftr (code c) 4))
             (String (upper_hex_digit (Z.land (code c) 15)) (percent_encode rest)))
  end.

Definition append_query (tgt name value : string) : string :=
  tgt +:+ (if str_contains "?" tgt then "&" else "?") +:+ name +:+ "=" +:+ percent_encode value.

(** [if (!value.empty()) append_query(target, name, value);] *)
Definition append_some (tgt name value : string) : string :=
  if str_empty value then tgt else append_query tgt name value.

(** ** Account targets *)

Record AccountOpenOrderParams := { o_market : string; o_asset_id : string; o_id : string }.
Record AccountTradeParams := {
  t_market : string; t_asset_id : string; t_after : string; t_before : string;
  t_maker_address : string; t_id : string;
}.
Record AccountPositionV2Params := {
  v_user : string; v_conditions : list string; v_closed : bool; v_include_archived : bool; v_limit : Z;
}.

Definition bad_market (m : string) : bool := negb (str_empty m) && negb (hex_value m 64) && negb (hex_value m 62).
Definition bad_decimal (v : string) : bool := negb (str_empty v) && negb (decimal_text v).

Definition validate_open_order_params (p : AccountOpenOrderParams) : result unit :=
  throw_if (bad_market (o_market p) || bad_decimal (o_asset_id p)
            || (negb (str_empty (o_id p)) && negb (hex_value (o_id p) 64)))
    (InvalidArgument "pm: invalid open-orders query").

Definition validate_trade_params (p : AccountTradeParams) : result unit :=
  throw_if (bad_market (t_market p) || bad_decimal (t_asset_id p) || bad_decimal (t_after p)
            || bad_decimal (t_before p)
            || (negb (str_empty (t_maker_address p)) && negb (hex_value (t_maker_address p) 40))
            || (negb (str_empty (t_id p)) && negb (opaque_id (t_id p))))
    (InvalidArgument "pm: invalid trades query").

Definition open_orders_target (p : AccountOpenOrderParams) (next_cursor : string) : result string :=
  validate_open_order_params p;;
  throw_if (negb (cursor next_cursor)) (InvalidArgument "pm: invalid open-orders cursor");;
  let tgt := "/data/orders" in
  let tgt := append_some tgt "market" (o_market p) in
  let tgt := append_some tgt "asset_id" (o_asset_id p) in
  let tgt := append_some tgt "id" (o_id p) in
  Ok (append_query tgt "next_cursor" next_cursor).

Definition trades_target (p : AccountTradeParams) (next_cursor : string) : result string :=
  validate_trade_params p;;
  throw_if (negb (cursor next_cursor)) (InvalidArgument "pm: invalid trades cursor");;
  let tgt := "/data/trades" in
  let tgt := append_some tgt "market" (t_market p) in
  let tgt := append_some tgt "asset_id" (t_asset_id p) in
  let tgt := append_some tgt "after" (t_after p) in
  let tgt := append_some tgt "before" (t_before p) in
  let tgt := append_some tgt "maker_address" (t_maker_address p) in
  let tgt := append_some tgt "id" (t_id p) in
  Ok (append_query tgt "next_cursor" next_cursor).

Definition exact_order_target (order_id : string) : result string :=
  throw_if (negb (hex_value order_id 64)) (InvalidArgument "pm: invalid exact order identifier");;
  Ok ("/data/order/" +:+ order_id).

Definition balance_allowance_target `{U256Lib} (signature_type : Z) (asset_type token_id : string) : result string :=
  throw_if ((signature_type <? 0) || (3 <? signature_type)
      || (negb (String.eqb asset_type "COLLATERAL") && negb (String.eqb asset_type "CONDITIONAL")
          && negb (String.eqb asset_type "CONDITIONAL-V2"))
      || (String.eqb asset_type "COLLATERAL" && negb (str_empty token_id))
      || (negb (String.eqb asset_type "COLLATERAL") && negb (decimal_text token_id)))
    (InvalidArgument "pm: invalid balance-allowance query");;
  (if String.eqb asset_type "CONDITIONAL-V2" then validate_order_asset token_id position_v3 else Ok tt);;
  let tgt := "/balance-allowance" in
  let tgt := append_query tgt "signature_type" (to_string signature_type) in
  let tgt := append_query tgt "asset_type" asset_type in
  Ok (append_some tgt "token_id" token_id).

Definition positions_target (user : string) (limit offset : Z) : result string :=
  throw_if (negb (hex_value user 40) || (limit =? 0) || (500 <? limit) || (10000 <? offset))
    (InvalidArgument "pm: invalid positions query");;
  let tgt := "/positions" in
  let tgt := append_query tgt "user" user in
  let tgt := append_query tgt "sizeThreshold" "0" in
  let tgt := append_query tgt "limit" (to_string limit) in
  Ok (append_query tgt "offset" (to_string offset)).

Definition normalize_condition (c : string) : string :=
  let n := str_map lower_hex c in
  if slen n =? 64 then n +:+ "00" else n.

(** The loop over the conditions, with the set of normalized ones seen and the
    joined text. *)
Fixpoint join_conditions (l : list string) (unique : list string) (conditions : string) : result string :=
  match l with
  | [] => Ok conditions
  | c :: rest =>
      throw_if (negb (hex_value c 64) && negb (hex_value c 62)) (InvalidArgument "pm: invalid positions-v2 condition");;
      let normalized := normalize_condition c in
      throw_if (existsb (String.eqb normalized) unique) (InvalidArgument "pm: duplicate positions-v2 condition");;
      join_conditions rest (normalized :: unique)
        ((if str_empty conditions then conditions else conditions +:+ ",") +:+ c)
  end.

Definition positions_v2_target (p : AccountPositionV2Params) (next_cursor : string) : result string :=
  throw_if (negb (hex_value (v_user p) 40) || (v_limit p =? 0) || (1000 <? v_limit p)
      || (20 <? Z.of_nat (length (v_conditions p))) || (v_closed p && v_include_archived p)
      || (4096 <? slen next_cursor)
      || negb (str_all (fun c => negb ((code c <? 32) || (code c =? 127))) next_cursor))
    (InvalidArgument "pm: invalid positions-v2 query");;
  conditions ← join_conditions (v_conditions p) [] "";
  let tgt := "/v2/positions" in
  let tgt := append_query tgt "user" (v_user p) in
  let tgt := append_some tgt "condition_id" conditions in
  let tgt := append_query tgt "status" (if v_closed p then "CLOSED" else "OPEN") in
  let tgt := append_query tgt "filter_type" "TOKENS" in
  let tgt := append_query tgt "filter_amount" "0" in
  let tgt := if v_include_archived p then append_query tgt "include_archived" "true" else tgt in
  let tgt := append_query tgt "sort_by" "TOKENS" in
  let tgt := append_query tgt "sort_direction" "DESC" in
  let tgt := append_query tgt "limit" (to_string (v_limit p)) in
  Ok (append_some tgt "cursor" next_cursor).

(** ** The account client *)

(** What an operation hands to its transport; the response passes through. *)
Inductive TransportCall :=
  | ClobGet (tgt : string) (hs : list (string * string))
  | DataGet (tgt : string).

Record AccountRestClient := { creds_ : ApiCreds; signer_address_ : Bytes; signature_type_ : Z }.

Definition account_rest_client (clob_host data_api_host : string) (c : ApiCreds) (signer : Bytes) (sigtype : Z)
    (has_clob_get has_data_get : bool) : result AccountRestClient :=
  throw_if (str_empty clob_host || str_empty data_api_host || str_empty (api_key c) || str_empty (secret c)
      || str_empty (passphrase c) || forallb (fun b => byte_Z b =? 0) signer || (sigtype <? 0) || (3 <? sigtype)
      || negb has_clob_get || negb has_data_get)
    (InvalidArgument "pm: account REST credentials or transports are invalid");;
  Ok {| creds_ := c; signer_address_ := signer; signature_type_ := sigtype |}.

Section Account.
Context `{L : U256Lib} {EI : @Eip712Lib L} `{EC : EcdsaLib} `{SL : SodiumLib}.

(** [clock] is what [unix_seconds_()] returns. *)
Definition l2_get (clock : Z) (c : AccountRestClient) (signed_path tgt : string) : result TransportCall :=
  throw_if (clock =? 0) (RuntimeError "pm: account REST clock is invalid");;
  hs ← l2_headers (creds_ c) (signer_address_ c) clock "GET" signed_path "";
  Ok (ClobGet tgt hs).

Definition get_open_orders_page (clock : Z) (c : AccountRestClient) (p : AccountOpenOrderParams) (next : string) :=
  tgt ← open_orders_target p next;
  l2_get clock c "/data/orders" tgt.
Definition get_trades_page (clock : Z) (c : AccountRestClient) (p : AccountTradeParams) (next : string) :=
  tgt ← trades_target p next;
  l2_get clock c "/data/trades" tgt.
Definition get_order (clock : Z) (c : AccountRestClient) (order_id : string) :=
  tgt ← exact_order_target order_id;
  l2_get clock c tgt tgt.
Definition get_balance_allowance (clock : Z) (c : AccountRestClient) (asset_type token_id : string) :=
  tgt ← balance_allowance_target (signature_type_ c) asset_type token_id;
  l2_get clock c "/balance-allowance" tgt.
Definition get_closed_only_mode (clock : Z) (c : AccountRestClient) :=
  l2_get clock c "/auth/ban-status/closed-only" "/auth/ban-status/closed-only".
Definition get_positions_page (user : string) (limit offset : Z) : result TransportCall :=
  tgt ← positions_target user limit offset;
  Ok (DataGet tgt).
Definition get_positions_v2_page (p : AccountPositionV2Params) (cur : string) : result TransportCall :=
  tgt ← positions_v2_target p cur;
  Ok (DataGet tgt).
End Account.

(** ** Public targets *)

Definition decimal_token_id (value : string) : bool := negb (str_empty value) && str_all digit value.
Definition condition_id (value : string) : bool := hex_value value 64.
Definition event_slug (value : string) : bool :=
  negb (str_empty value) && str_all (fun c => lower_alpha c || upper_alpha c || digit c || one_of "-" c) value.

Definition server_time_target : string := "/time".
Definition book_target (token_id : string) : result string :=
  throw_if (negb (decimal_token_id token_id)) (InvalidArgument "pm: public book token id must be decimal");;
  Ok ("/book?token_id=" +:+ token_id).
Definition fee_rate_target (token_id : string) : result string :=
  throw_if (negb (decimal_token_id token_id)) (InvalidArgument "pm: public fee-rate token id must be decimal");;
  Ok ("/fee-rate/" +:+ token_id).
Definition clob_market_info_target (c : string) : result string :=
  throw_if (negb (condition_id c)) (InvalidArgument "pm: public CLOB market condition id must be 0x-prefixed hex");;
  Ok ("/clob-markets/" +:+ c).
Definition event_by_slug_target (slug : string) : result string :=
  throw_if (negb (event_slug slug)) (InvalidArgument "pm: invalid Gamma event slug");;
  Ok ("/events/slug/" +:+ slug).

(** The clob or the gamma transport of a [PublicRestClient]. *)
Inductive PublicCall :=
  | PublicClob (tgt : string)
  | PublicGamma (tgt : string).

Definition public_rest_client (has_clob_get has_gamma_get : bool) : result unit :=
  throw_if (negb has_clob_get || negb has_gamma_get) (InvalidArgument "pm: public REST transports must be configured").

Definition get_server_time : result PublicCall := Ok (PublicClob server_time_target).
Definition get_book (token_id : string) : result PublicCall :=
  tgt ← book_target token_id; Ok (PublicClob tgt).
Definition get_fee_rate (token_id : string) : result PublicCall :=
  tgt ← fee_rate_target token_id; Ok (PublicClob tgt).
Definition get_clob_market_info (condition : string) : result PublicCall :=
  tgt ← clob_market_info_target condition; Ok (PublicClob tgt).
Definition get_event_by_slug (slug : string) : result PublicCall :=
  tgt ← event_by_slug_target slug; Ok (PublicGamma tgt).

(** ** The geoblock probe *)

Definition kGeoblockPath : string := "/api/geoblock".
Definition kGeoblockHeaderLimit : Z := 64 * 1024.
Definition kGeoblockBodyLimit : Z := 4 * 1024 * 1024.

Record GeoblockConfig := { g_host : string; g_port : string; g_user_agent : string; g_transport : HttpsClientOptions }.

Definition valid_host (v : string) : bool :=
  negb (str_empty v) && (slen v <=? 253)
  && str_all (fun c => lower_alpha c || upper_alpha c || digit c || one_of "-." c) v.
Definition valid_port (v : string) : bool := negb (str_empty v) && (slen v <=? 5) && str_all digit v.
Definition valid_user_agent (v : string) : bool :=
  negb (str_empty v) && (slen v <=? 128) && str_all (between 0x21 0x7e) v.

Definition probe_options (o : HttpsClientOptions) : HttpsClientOptions :=
  {| resolve_timeout := resolve_timeout o; connect_timeout := connect_timeout o;
     handshake_timeout := handshake_timeout o; write_timeout := write_timeout o; read_timeout := read_timeout o;
     retry_count := 0; header_limit := kGeoblockHeaderLimit; body_limit := kGeoblockBodyLimit |}.

(** A fresh client, one [get], then its destructor; [net] is the network. *)
Definition one_shot_get (net : nat -> Attempt) (config : GeoblockConfig) (tgt : string) (live : HttpsRuntime) :
    result HttpResponse * Client * HttpsRuntime :=
  let transport := probe_options (g_transport config) in
  match construct transport live with
  | Throw e => (Throw e, {| m_stream := None; attempts := 0; log := [] |}, live)
  | Ok (client, live) =>
      let '(r, client) := Http.get (g_host config) transport net tgt
        [("User-Agent", g_user_agent config); ("Connection", "close")] client in
      let '(client, live) := destroy client live in
      (r, client, live)
  end.

Definition make_get (config : GeoblockConfig) : result unit :=
  throw_if (negb (valid_host (g_host config)) || negb (valid_port (g_port config))
            || negb (valid_user_agent (g_user_agent config)))
    (InvalidArgument "pm: invalid geoblock transport config").

(** [GeoblockClient(config).check()]. *)
Definition geoblock_check (net : nat -> Attempt) (config : GeoblockConfig) (live : HttpsRuntime) :
    result HttpResponse * Client * HttpsRuntime :=
  match make_get config with
  | Throw e => (Throw e, {| m_stream := None; attempts := 0; log := [] |}, live)
  | Ok _ => one_shot_get net config kGeoblockPath live
  end.

(** The targets the account tests pin. *)
Example targets_pinned :
  open_orders_target {| o_market := ""; o_asset_id := ""; o_id := "" |} "MA==" = Ok "/data/orders?next_cursor=MA%3D%3D"
  /\ balance_allowance_target (H := u256_reference) 3 "COLLATERAL" ""
     = Ok "/balance-allowance?signature_type=3&asset_type=COLLATERAL".
Proof. split; reflexivity. Qed.

(** ** Reading a target

    Written from RFC 3986: the path ends at the first question mark, the query
    is split at ampersands, each part at its first equals sign, and values are
    percent-decoded. *)

Fixpoint percent_decode (s : string) : option string :=
  match s with
  | EmptyString => Some ""
  | String "%" (String a (String b rest)) =>
      if is_hex a && is_hex b then String (chr (16 * nib a + nib b)) <$> percent_decode rest else None
  | String "%" _ => None
  | String c rest => String c <$> percent_decode rest
  end.

Fixpoint split_on (c : ascii) (s : string) : list string :=
  match s with
  | EmptyString => [""]
  | String x rest =>
      if Ascii.eqb x c then "" :: split_on c rest
      else match split_on c rest with
           | h :: t => String x h :: t
           | [] => [String x ""]
           end
  end.

Definition parse_pair (s : string) : option (string * string) :=
  match str_find (is_char "=") s with
  | Some i => pair (str_take i s) <$> percent_decode (str_drop (S i) s)
  | None => None
  end.

Definition parse_target (t : string) : option (string * list (string * string)) :=
  match str_find (is_char "?") t with
  | None => Some (t, [])
  | Some i => pair (str_take i t) <$> mapM parse_pair (split_on "&" (str_drop (S i) t))
  end.

(** A query name or path made of plain characters. *)
Definition plain (c : ascii) : bool := negb (one_of "?&=%" c).

(** *** Characters *)

Lemma unreserved_plain c : unreserved c = true -> plain c = true.
Proof. destruct c as [[] [] [] [] [] [] [] []]; vm_compute; congruence. Qed.

Lemma upper_digit_props i : 0 <= i < 16 ->
  nib (upper_hex_digit i) = i /\ is_hex (upper_hex_digit i) = true /\ plain (upper_hex_digit i) = true.
Proof.
  intros Hi. assert (E : In i (map Z.of_nat (seq 0 16))).
  { rewrite in_map_iff. exists (Z.to_nat i). rewrite in_seq. lia. }
  cbn in E. by repeat destruct E as [<-|E].
Qed.

Lemma code_nibbles c : 0 <= Z.shiftr (code c) 4 < 16 /\ 0 <= Z.land (code c) 15 < 16
  /\ chr (16 * Z.shiftr (code c) 4 + Z.land (code c) 15) = c.
Proof. destruct c as [[] [] [] [] [] [] [] []]; vm_compute; repeat split; congruence. Qed.

Lemma percent_round_trip v : percent_decode (percent_encode v) = Some v.
Proof.
  induction v as [|c v IH]; [done|]. cbn [percent_encode]. destruct (unreserved c) eqn:E.
  - assert (Hc : c <> "%"%char) by (by intros ->). cbn [percent_decode]. rewrite IH.
    destruct c as [[] [] [] [] [] [] [] []]; done.
  - destruct (code_nibbles c) as (H1 & H2 & H3).
    destruct (upper_digit_props _ H1) as (N1 & X1 & _), (upper_digit_props _ H2) as (N2 & X2 & _).
    cbn [percent_decode]. rewrite X1, X2, N1, N2, H3, IH. done.
Qed.

(** Encoded values keep clear of the query syntax. *)
Lemma percent_encode_clean v c :
  one_of "?&=" c = true -> str_all (fun x => negb (Ascii.eqb x c)) (percent_encode v) = true.
Proof.
  intros Hc. assert (Hp : forall x, plain x = true \/ x = "%"%char -> negb (Ascii.eqb x c) = true).
  { intros x Hx. apply negb_true_iff, Ascii.eqb_neq. intros ->.
    destruct Hx as [Hx| ->]; [|by vm_compute in Hc]. revert Hx Hc.
    destruct c as [[] [] [] [] [] [] [] []]; vm_compute; congruence. }
  induction v as [|x v IH]; [done|]. cbn [percent_encode]. destruct (unreserved x) eqn:E; cbn [str_all].
  - by rewrite (Hp x), IH by (left; by apply unreserved_plain).
  - destruct (code_nibbles x) as (H1 & H2 & _).
    destruct (upper_digit_props _ H1) as (_ & _ & P1), (upper_digit_props _ H2) as (_ & _ & P2).
    by rewrite !Hp, IH by auto.
Qed.

Lemma plain_clean s c : str_all plain s = true -> one_of "?&=" c = true ->
  str_all (fun x => negb (Ascii.eqb x c)) s = true.
Proof.
  intros Hs Hc. revert Hs. apply str_all_impl. intros x Hx. apply negb_true_iff, Ascii.eqb_neq. intros ->.
  revert Hx Hc. destruct c as [[] [] [] [] [] [] [] []]; vm_compute; congruence.
Qed.

(** *** Queries *)

Definition pair_text (p : string * string) : string := fst p +:+ "=" +:+ percent_encode (snd p).
Fixpoint query_text (l : list (string * string)) : string :=
  match l with
  | [] => ""
  | [p] => pair_text p
  | p :: rest => pair_text p +:+ "&" +:+ query_text rest
  end.
(** The target a list of parameters is written to. *)
Definition target_text (path : string) (l : list (string * string)) : string :=
  match l with [] => path | _ => path +:+ "?" +:+ query_text l end.

Lemma pair_text_clean p c : str_all plain (fst p) = true -> c = "?"%char \/ c = "&"%char ->
  str_all (fun x => negb (Ascii.eqb x c)) (pair_text p) = true.
Proof.
  intros Hp Hc. assert (Ho : one_of "?&=" c = true) by (by destruct Hc as [-> | ->]).
  unfold pair_text. rewrite !str_all_app, (plain_clean _ c Hp Ho), percent_encode_clean by done.
  by destruct Hc as [-> | ->].
Qed.

Lemma parse_pair_text p : str_all plain (fst p) = true -> parse_pair (pair_text p) = Some p.
Proof.
  intros Hp. unfold parse_pair, pair_text.
  rewrite str_find_app by (by apply plain_clean).
  cbn [str_find is_char Ascii.eqb Bool.eqb String.append fmap option_fmap option_map].
  rewrite Nat.add_0_r, str_take_app.
  replace (str_drop (S (String.length (fst p))) (fst p +:+ String "=" (percent_encode (snd p))))
    with (percent_encode (snd p)).
  - rewrite percent_round_trip. by destruct p.
  - replace (fst p +:+ String "=" (percent_encode (snd p))) with ((fst p +:+ "=") +:+ percent_encode (snd p))
      by (by rewrite <- str_app_assoc).
    replace (S (String.length (fst p))) with (String.length (fst p +:+ "=")) by (rewrite length_str_app; cbn; lia).
    by rewrite str_drop_app.
Qed.

Lemma split_on_clean c s : str_all (fun x => negb (Ascii.eqb x c)) s = true -> split_on c s = [s].
Proof.
  induction s as [|x s IH]; [done|]. cbn. intros [H1 H2]%andb_true_iff. apply negb_true_iff in H1.
  by rewrite H1, IH.
Qed.

Lemma split_on_app c a b : str_all (fun x => negb (Ascii.eqb x c)) a = true ->
  split_on c (a +:+ String c b) = a :: split_on c b.
Proof.
  induction a as [|x a IH]; cbn; [by rewrite Ascii.eqb_refl|].
  intros [H1 H2]%andb_true_iff. apply negb_true_iff in H1. by rewrite H1, IH.
Qed.

Lemma query_text_parse l : Forall (fun p => str_all plain (fst p) = true) l -> l <> [] ->
  mapM parse_pair (split_on "&" (query_text l)) = Some l
  /\ str_all (fun x => negb (Ascii.eqb x "?")) (query_text l) = true.
Proof.
  induction 1 as [|p l Hp Hl IH]; [done|]. intros _. destruct l as [|q l].
  - cbn [query_text]. rewrite split_on_clean by (apply pair_text_clean; auto). cbn.
    rewrite parse_pair_text by done. split; [done|]. apply pair_text_clean; auto.
  - destruct (IH ltac:(done)) as [H1 H2]. change (query_text (p :: q :: l)) with (pair_text p +:+ String "&" (query_text (q :: l))).
    rewrite split_on_app by (apply pair_text_clean; auto). cbn [mapM]. rewrite parse_pair_text by done.
    cbn [mbind option_bind]. rewrite H1. split; [done|].
    rewrite str_all_app. cbn [str_all]. rewrite H2, andb_true_r. rewrite pair_text_clean by auto. done.
Qed.

Lemma target_text_parse path l :
  str_all plain path = true -> Forall (fun p => str_all plain (fst p) = true) l ->
  parse_target (target_text path l) = Some (path, l).
Proof.
  intros Hpath Hl. unfold parse_target. destruct l as [|p l].
  - cbn [target_text]. rewrite (proj2 (str_find_none_all _ _)); [done|]. by apply plain_clean.
  - cbn [target_text]. rewrite str_find_app by (by apply plain_clean).
    destruct (query_text_parse (p :: l) Hl ltac:(done)) as [H1 _].
    cbn [str_find is_char Ascii.eqb Bool.eqb String.append fmap option_fmap option_map].
    rewrite Nat.add_0_r, str_take_app.
    replace (str_drop (S (String.length path)) (path +:+ String "?" (query_text (p :: l)))) with (query_text (p :: l));
      [by rewrite H1|].
    replace (path +:+ String "?" (query_text (p :: l))) with ((path +:+ "?") +:+ query_text (p :: l))
      by (by rewrite <- str_app_assoc).
    replace (S (String.length path)) with (String.length (path +:+ "?")) by (rewrite length_str_app; cbn; lia).
    by rewrite str_drop_app.
Qed.

(** *** The builders write [target_text] *)

Definition opt (name value : string) : list (string * string) := if str_empty value then [] else [(name, value)].
Definition plain_names (l : list (string * string)) : Prop := Forall (fun p => str_all plain (fst p) = true) l.

Lemma query_text_snoc l p : l <> [] -> query_text (l ++ [p]) = query_text l +:+ "&" +:+ pair_text p.
Proof.
  induction l as [|q l IH]; [done|]. intros _. destruct l as [|r l]; [done|].
  change (query_text ((q :: r :: l) ++ [p])) with (pair_text q +:+ "&" +:+ query_text ((r :: l) ++ [p])).
  rewrite IH by done. change (query_text (q :: r :: l)) with (pair_text q +:+ "&" +:+ query_text (r :: l)).
  by rewrite <- !str_app_assoc.
Qed.

Lemma str_contains_clean c s : str_all (fun x => negb (Ascii.eqb x c)) s = true -> str_contains c s = false.
Proof.
  intros H. unfold str_contains. rewrite (proj2 (str_find_none_all _ s)); [done|].
  revert H. apply str_all_impl. intros x. by rewrite Ascii.eqb_sym.
Qed.

Lemma str_contains_app c a b : str_contains c (a +:+ String c b) = true.
Proof.
  unfold str_contains. induction a as [|x a IH]; cbn; [by rewrite Ascii.eqb_refl|].
  destruct (Ascii.eqb c x); [done|]. by destruct (str_find (Ascii.eqb c) (a +:+ String c b)).
Qed.

Lemma append_query_text path l n v : str_all plain path = true ->
  append_query (target_text path l) n v = target_text path (l ++ [(n, v)]).
Proof.
  intros Hp. unfold append_query. destruct l as [|p l].
  - cbn [target_text app]. rewrite str_contains_clean by (by apply plain_clean). done.
  - cbn [target_text]. change (path +:+ "?" +:+ query_text (p :: l)) with (path +:+ String "?" (query_text (p :: l))).
    rewrite str_contains_app. change (target_text path ((p :: l) ++ [(n, v)]))
      with (path +:+ "?" +:+ query_text ((p :: l) ++ [(n, v)])).
    rewrite query_text_snoc by done. unfold pair_text. cbn [fst snd].
    change (path +:+ String "?" (query_text (p :: l))) with (path +:+ "?" +:+ query_text (p :: l)).
    by rewrite <- !str_app_assoc.
Qed.

Lemma append_some_text path l n v : str_all plain path = true ->
  append_some (target_text path l) n v = target_text path (l ++ opt n v).
Proof.
  intros Hp. unfold append_some, opt. destruct (str_empty v); [by rewrite app_nil_r|]. by apply append_query_text.
Qed.

(** Turn a chain of appends into [target_text] of the list of parameters. *)
Ltac to_target path :=
  change path with (target_text path []);
  rewrite ?append_some_text, ?append_query_text by reflexivity;
  repeat first [rewrite append_some_text by reflexivity | rewrite append_query_text by reflexivity].

Lemma plain_names_app a b : plain_names a -> plain_names b -> plain_names (a ++ b).
Proof. intros. by apply Forall_app. Qed.
Lemma plain_names_opt n v : str_all plain n = true -> plain_names (opt n v).
Proof. intros. unfold opt. destruct (str_empty v); by repeat constructor. Qed.
Lemma plain_names_one n v : str_all plain n = true -> plain_names [(n, v)].
Proof. intros. by repeat constructor. Qed.
Ltac names := repeat first [apply plain_names_app | apply plain_names_opt; reflexivity
  | apply plain_names_one; reflexivity | constructor].

Lemma open_orders_text p c t : open_orders_target p c = Ok t ->
  t = target_text "/data/orders" (opt "market" (o_market p) ++ opt "asset_id" (o_asset_id p)
        ++ opt "id" (o_id p) ++ [("next_cursor", c)]).
Proof.
  unfold open_orders_target. intros H. inv_ok. subst t. to_target "/data/orders". by rewrite <- !app_assoc.
Qed.

Lemma trades_text p c t : trades_target p c = Ok t ->
  t = target_text "/data/trades" (opt "market" (t_market p) ++ opt "asset_id" (t_asset_id p)
        ++ opt "after" (t_after p) ++ opt "before" (t_before p) ++ opt "maker_address" (t_maker_address p)
        ++ opt "id" (t_id p) ++ [("next_cursor", c)]).
Proof.
  unfold trades_target. intros H. inv_ok. subst t. to_target "/data/trades". by rewrite <- !app_assoc.
Qed.

Lemma balance_text `{L : U256Lib} st a tok t : balance_allowance_target st a tok = Ok t ->
  t = target_text "/balance-allowance" ([("signature_type", to_string st)] ++ [("asset_type", a)] ++ opt "token_id" tok).
Proof.
  unfold balance_allowance_target. intros Ht. inv_ok. subst t. to_target "/balance-allowance". by rewrite <- !app_assoc.
Qed.

Lemma positions_text u l o t : positions_target u l o = Ok t ->
  t = target_text "/positions" ([("user", u)] ++ [("sizeThreshold", "0")] ++ [("limit", to_string l)]
        ++ [("offset", to_string o)]).
Proof.
  unfold positions_target. intros H. inv_ok. subst t. to_target "/positions". by rewrite <- !app_assoc.
Qed.

Lemma positions_v2_text p c t : positions_v2_target p c = Ok t ->
  exists conds, join_conditions (v_conditions p) [] "" = Ok conds
  /\ t = target_text "/v2/positions" ([("user", v_user p)] ++ opt "condition_id" conds
        ++ [("status", if v_closed p then "CLOSED" else "OPEN")] ++ [("filter_type", "TOKENS")]
        ++ [("filter_amount", "0")] ++ (if v_include_archived p then [("include_archived", "true")] else [])
        ++ [("sort_by", "TOKENS")] ++ [("sort_direction", "DESC")] ++ [("limit", to_string (v_limit p))]
        ++ opt "cursor" c).
Proof.
  unfold positions_v2_target. intros H. apply bind_ok in H as (u & _ & H). apply bind_ok in H as (conds & Hc & H).
  exists conds. split; [done|]. cbv zeta in H. apply Ok_inj in H. subst t.
  destruct (v_include_archived p); to_target "/v2/positions"; by rewrite <- !app_assoc.
Qed.

(** *** Identifiers *)

Lemma hex_value_plain v n : hex_value v n = true -> str_all plain v = true.
Proof.
  unfold hex_value. intros [[_ Hs]%andb_true_iff Ha]%andb_true_iff.
  apply starts_with_split in Hs. rewrite Hs. change (String.length "0x") with 2%nat. rewrite str_all_app. cbn.
  revert Ha. apply str_all_impl. intros c. destruct c as [[] [] [] [] [] [] [] []]; vm_compute; congruence.
Qed.

Lemma hex_value_no_comma v n : hex_value v n = true -> str_all (fun x => negb (Ascii.eqb x ",")) v = true.
Proof.
  unfold hex_value. intros [[_ Hs]%andb_true_iff Ha]%andb_true_iff.
  apply starts_with_split in Hs. rewrite Hs. change (String.length "0x") with 2%nat. rewrite str_all_app. cbn.
  revert Ha. apply str_all_impl. intros c. destruct c as [[] [] [] [] [] [] [] []]; vm_compute; congruence.
Qed.

Lemma str_all_plain p s : (forall c, p c = true -> unreserved c = true) -> str_all p s = true -> str_all plain s = true.
Proof. intros Hp. apply str_all_impl. intros c Hc. apply unreserved_plain. auto. Qed.

Lemma percent_encode_unreserved s : str_all unreserved s = true -> percent_encode s = s.
Proof.
  induction s as [|c s IH]; [done|]. cbn. intros [Hc Hs]%andb_true_iff. by rewrite Hc, IH.
Qed.

Lemma digits_unreserved s : str_all digit s = true -> str_all unreserved s = true.
Proof. apply str_all_impl. intros c Hc. unfold unreserved. by rewrite Hc. Qed.

Lemma path_parse pre s : str_all plain pre = true -> str_all plain s = true ->
  parse_target (pre +:+ s) = Some (pre +:+ s, []).
Proof.
  intros Hp Hs. apply (target_text_parse (pre +:+ s) []); [|constructor]. by rewrite str_all_app, Hp, Hs.
Qed.

Definition condition_ok (c : string) : Prop := hex_value c 64 = true \/ hex_value c 62 = true.

Lemma condition_ok_no_comma c : condition_ok c -> str_all (fun x => negb (Ascii.eqb x ",")) c = true.
Proof. intros [H|H]; by eapply hex_value_no_comma. Qed.

Lemma condition_ok_nonempty c s : condition_ok c -> str_empty (s +:+ c) = false.
Proof.
  intros H. apply str_empty_false. apply slen_nonempty. rewrite slen_app. pose proof (slen_nonneg s).
  unfold condition_ok, hex_value in H. rewrite !andb_true_iff, !Z.eqb_eq in H. lia.
Qed.

(** The comma-joined text of a list. *)
Fixpoint commas (acc : string) (l : list string) : string :=
  match l with
  | [] => acc
  | c :: rest => commas ((if str_empty acc then acc else acc +:+ ",") +:+ c) rest
  end.

(** The loop accepts exactly the lists of identifiers whose normal forms are
    new and pairwise different. *)
Lemma join_conditions_spec l seen acc r :
  join_conditions l seen acc = Ok r <->
  Forall condition_ok l /\ NoDup (normalize_condition <$> l)
  /\ (forall c, c ∈ l -> normalize_condition c ∉ seen) /\ r = commas acc l.
Proof.
  revert seen acc. induction l as [|c l IH]; intros seen acc; cbn [join_conditions commas fmap list_fmap].
  { split; [intros [= <-]; repeat split; [constructor|constructor|set_solver]|intros (_ & _ & _ & ->); done]. }
  assert (Hok : condition_ok c <-> negb (hex_value c 64) && negb (hex_value c 62) = false).
  { unfold condition_ok. destruct (hex_value c 64), (hex_value c 62); naive_solver. }
  assert (Hs : existsb (String.eqb (normalize_condition c)) seen = false <-> normalize_condition c ∉ seen).
  { rewrite <- not_true_iff_false, existsb_exists. split.
    - intros H Hin. apply H. exists (normalize_condition c).
      split; [by apply list_elem_of_In|apply String.eqb_refl].
    - intros H (x & Hx & Hq%String.eqb_eq). subst x. by apply list_elem_of_In in Hx. }
  rewrite list.Forall_cons, list.NoDup_cons, Hok, list_elem_of_fmap.
  destruct (negb (hex_value c 64) && negb (hex_value c 62)); cbn; [naive_solver|].
  destruct (existsb (String.eqb (normalize_condition c)) seen) eqn:E; cbn.
  { split; [done|]. intros (_ & _ & H & _). assert (X : true = false); [|done]. rewrite Hs. apply H. left. }
  rewrite IH. split.
  - intros (H1 & H2 & H3 & ->). repeat split; auto; [intros (y & Hy1 & Hy2); specialize (H3 y); set_solver|].
    intros y [->|Hy]%elem_of_cons; [by apply Hs|]. specialize (H3 y Hy). set_solver.
  - intros ((_ & H1) & (Hn & H2) & H3 & ->). repeat split; auto. intros y Hy [Heq|Hin]%elem_of_cons.
    + apply Hn. eauto.
    + apply (H3 y); [by right|done].
Qed.

Lemma commas_split l acc : Forall condition_ok l -> str_empty acc = false ->
  exists rest, commas acc l = acc +:+ rest
    /\ (rest = "" /\ l = [] \/ exists tl, rest = String "," tl /\ split_on "," tl = l).
Proof.
  intros Hl. revert acc. induction Hl as [|c l Hc Hl IH]; intros acc Ha.
  - exists "". cbn. rewrite str_app_nil_r. auto.
  - cbn [commas]. rewrite Ha. destruct (IH ((acc +:+ ",") +:+ c)) as (rest & Hr & Hcase); [by apply condition_ok_nonempty|].
    exists ("," +:+ c +:+ rest). split; [rewrite Hr; by rewrite <- !str_app_assoc|]. right. eexists. split; [reflexivity|].
    destruct Hcase as [[-> ->]|(tl & -> & <-)].
    + rewrite str_app_nil_r. apply split_on_clean. by apply condition_ok_no_comma.
    + apply split_on_app. by apply condition_ok_no_comma.
Qed.

(** The joined text splits back into the list. *)
Lemma commas_read_back l : Forall condition_ok l -> l <> [] ->
  str_empty (commas "" l) = false /\ split_on "," (commas "" l) = l.
Proof.
  intros Hl Hne. destruct Hl as [|c l Hc Hl]; [done|]. cbn [commas]. change (str_empty "") with true. cbv iota.
  assert (Hce : str_empty ("" +:+ c) = false) by (by apply condition_ok_nonempty).
  destruct (commas_split l ("" +:+ c) Hl Hce) as (rest & -> & Hcase). split.
  - apply str_empty_false. apply str_empty_false in Hce. intros H. apply Hce.
    apply (f_equal slen) in H. rewrite slen_app, slen_nil in H. pose proof (slen_nonneg rest).
    pose proof (slen_nonneg ("" +:+ c)). apply slen_zero. lia.
  - cbn [String.append]. destruct Hcase as [[-> ->]|(tl & -> & <-)].
    + rewrite str_app_nil_r. apply split_on_clean. by apply condition_ok_no_comma.
    + apply split_on_app. by apply condition_ok_no_comma.
Qed.

(** *** Public targets *)

Lemma get_book_target v call : get_book v = Ok call ->
  exists t, call = PublicClob t /\ parse_target t = Some ("/book", [("token_id", v)]).
Proof.
  unfold get_book, book_target, decimal_token_id. intros H. apply bind_ok in H as (t & Ht & H). apply Ok_inj in H.
  apply bind_ok in Ht as (u & Hu & Ht). apply Ok_inj in Ht. subst t call. eexists. split; [done|].
  apply throw_if_ok, negb_false_iff, andb_true_iff in Hu as [_ Hu].
  rewrite <- (percent_encode_unreserved v) at 1 by (by apply digits_unreserved).
  change ("/book?token_id=" +:+ percent_encode v) with (target_text "/book" [("token_id", v)]).
  apply target_text_parse; [done|names].
Qed.

Lemma get_fee_rate_target v call : get_fee_rate v = Ok call ->
  exists t, call = PublicClob t /\ parse_target t = Some ("/fee-rate/" +:+ v, []).
Proof.
  unfold get_fee_rate, fee_rate_target, decimal_token_id. intros H. apply bind_ok in H as (t & Ht & H).
  apply Ok_inj in H. apply bind_ok in Ht as (u & Hu & Ht). apply Ok_inj in Ht. subst t call. eexists. split; [done|].
  apply throw_if_ok, negb_false_iff, andb_true_iff in Hu as [_ Hu].
  apply path_parse; [done|]. revert Hu. apply str_all_plain. intros c Hc. unfold unreserved. by rewrite Hc.
Qed.

Lemma get_clob_market_info_target v call : get_clob_market_info v = Ok call ->
  exists t, call = PublicClob t /\ parse_target t = Some ("/clob-markets/" +:+ v, []).
Proof.
  unfold get_clob_market_info, clob_market_info_target, condition_id. intros H. apply bind_ok in H as (t & Ht & H).
  apply Ok_inj in H. apply bind_ok in Ht as (u & Hu & Ht). apply Ok_inj in Ht. subst t call. eexists. split; [done|].
  apply throw_if_ok, negb_false_iff in Hu. apply path_parse; [done|]. by eapply hex_value_plain.
Qed.

Lemma get_event_by_slug_target v call : get_event_by_slug v = Ok call ->
  exists t, call = PublicGamma t /\ parse_target t = Some ("/events/slug/" +:+ v, []).
Proof.
  unfold get_event_by_slug, event_by_slug_target, event_slug. intros H. apply bind_ok in H as (t & Ht & H).
  apply Ok_inj in H. apply bind_ok in Ht as (u & Hu & Ht). apply Ok_inj in Ht. subst t call. eexists. split; [done|].
  apply throw_if_ok, negb_false_iff, andb_true_iff in Hu as [_ Hu].
  apply path_parse; [done|]. revert Hu. apply str_all_plain. intros c.
  destruct c as [[] [] [] [] [] [] [] []]; vm_compute; congruence.
Qed.

Lemma exact_order_parse id t : exact_order_target id = Ok t -> parse_target t = Some ("/data/order/" +:+ id, []).
Proof.
  unfold exact_order_target. intros H. apply bind_ok in H as (u & Hu & H). apply Ok_inj in H. subst t.
  apply throw_if_ok, negb_false_iff in Hu. apply path_parse; [done|]. by eapply hex_value_plain.
Qed.

(** The condition parameter of a page of V2 positions: the list joined by commas, none for
    the empty list. *)
Definition condition_params (v : string) (l : list string) : list (string * string) :=
  match l with [] => [] | _ => [("condition_id", v)] end.

Lemma positions_v2_parse p c t : positions_v2_target p c = Ok t ->
  exists v, (v_conditions p <> [] -> split_on "," v = v_conditions p)
  /\ parse_target t = Some ("/v2/positions", [("user", v_user p)] ++ condition_params v (v_conditions p)
        ++ [("status", if v_closed p then "CLOSED" else "OPEN")] ++ [("filter_type", "TOKENS")]
        ++ [("filter_amount", "0")] ++ (if v_include_archived p then [("include_archived", "true")] else [])
        ++ [("sort_by", "TOKENS")] ++ [("sort_direction", "DESC")] ++ [("limit", to_string (v_limit p))]
        ++ opt "cursor" c).
Proof.
  intros (conds & Hj & ->)%positions_v2_text.
  apply join_conditions_spec in Hj as (Hok & _ & _ & ->). exists (commas "" (v_conditions p)). split.
  - intros Hne. by apply commas_read_back.
  - rewrite target_text_parse; [|done|destruct (v_include_archived p); names]. do 3 f_equal. f_equal.
    unfold opt. destruct (v_conditions p) as [|d l] eqn:E; [done|].
    destruct (commas_read_back (d :: l)) as [He _]; [done..|]. by rewrite He.
Qed.

(** ** The properties *)

(** C38: what the builders write is what the venue reads.  Every target an
    account builder returns parses to its endpoint's path and exactly the given
    parameters, in order: absent filters leave no parameter, every value, whatever
    bytes it holds (a cursor is free text), is decoded back unchanged, and the
    condition parameter of a page of V2 positions splits at commas into the given
    conditions.  The four public reads that take an identifier, whose targets are
    concatenated without encoding, parse the same way: no identifier that passes
    validation can add a parameter or leave its path. *)
Theorem rest_targets_read_back `{L : U256Lib} :
  (forall p c t, open_orders_target p c = Ok t -> parse_target t =
     Some ("/data/orders", opt "market" (o_market p) ++ opt "asset_id" (o_asset_id p)
           ++ opt "id" (o_id p) ++ [("next_cursor", c)]))
  /\ (forall p c t, trades_target p c = Ok t -> parse_target t =
     Some ("/data/trades", opt "market" (t_market p) ++ opt "asset_id" (t_asset_id p)
           ++ opt "after" (t_after p) ++ opt "before" (t_before p) ++ opt "maker_address" (t_maker_address p)
           ++ opt "id" (t_id p) ++ [("next_cursor", c)]))
  /\ (forall st a tok t, balance_allowance_target st a tok = Ok t -> parse_target t =
     Some ("/balance-allowance", [("signature_type", to_string st); ("asset_type", a)] ++ opt "token_id" tok))
  /\ (forall u l o t, positions_target u l o = Ok t -> parse_target t =
     Some ("/positions", [("user", u); ("sizeThreshold", "0"); ("limit", to_string l); ("offset", to_string o)]))
  /\ (forall p c t, positions_v2_target p c = Ok t ->
     exists v, (v_conditions p <> [] -> split_on "," v = v_conditions p)
     /\ parse_target t = Some ("/v2/positions", [("user", v_user p)] ++ condition_params v (v_conditions p)
           ++ [("status", if v_closed p then "CLOSED" else "OPEN")] ++ [("filter_type", "TOKENS")]
           ++ [("filter_amount", "0")] ++ (if v_include_archived p then [("include_archived", "true")] else [])
           ++ [("sort_by", "TOKENS")] ++ [("sort_direction", "DESC")] ++ [("limit", to_string (v_limit p))]
           ++ opt "cursor" c))
  /\ (forall id t, exact_order_target id = Ok t -> parse_target t = Some ("/data/order/" +:+ id, []))
  /\ (forall v call, get_book v = Ok call -> exists t, call = PublicClob t /\ parse_target t = Some ("/book", [("token_id", v)]))
  /\ (forall v call, get_fee_rate v = Ok call -> exists t, call = PublicClob t /\ parse_target t = Some ("/fee-rate/" +:+ v, []))
  /\ (forall v call, get_clob_market_info v = Ok call ->
        exists t, call = PublicClob t /\ parse_target t = Some ("/clob-markets/" +:+ v, []))
  /\ (forall v call, get_event_by_slug v = Ok call ->
        exists t, call = PublicGamma t /\ parse_target t = Some ("/events/slug/" +:+ v, [])).
Proof.
  split_and!; intros.
  - erewrite (open_orders_text _ _ t) by done. apply target_text_parse; [done|names].
  - erewrite (trades_text _ _ t) by done. apply target_text_parse; [done|names].
  - erewrite (balance_text _ _ _ t) by done. apply target_text_parse; [done|names].
  - erewrite (positions_text _ _ _ t) by done. apply target_text_parse; [done|names].
  - by apply positions_v2_parse.
  - by apply exact_order_parse.
  - by apply get_book_target.
  - by apply get_fee_rate_target.
  - by apply get_clob_market_info_target.
  - by apply get_event_by_slug_target.
Qed.

Lemma rest_targets_read_back_witness :
  exists t, open_orders_target {| o_market := ""; o_asset_id := "7"; o_id := "" |} "MA==" = Ok t
    /\ parse_target t = Some ("/data/orders", [("asset_id", "7"); ("next_cursor", "MA==")]).
Proof.
  eexists. split; [reflexivity|].
  apply (proj1 (rest_targets_read_back (L := u256_reference))
    {| o_market := ""; o_asset_id := "7"; o_id := "" |} "MA=="). reflexivity.
Defined.

(** The five authenticated operations, and the path each of them reads. *)
Inductive L2Operation :=
  | OpOpenOrders (p : AccountOpenOrderParams) (next : string)
  | OpTrades (p : AccountTradeParams) (next : string)
  | OpOrder (order_id : string)
  | OpBalanceAllowance (asset_type token_id : string)
  | OpClosedOnly.

Definition l2_path (op : L2Operation) : string :=
  match op with
  | OpOpenOrders _ _ => "/data/orders"
  | OpTrades _ _ => "/data/trades"
  | OpOrder order_id => "/data/order/" +:+ order_id
  | OpBalanceAllowance _ _ => "/balance-allowance"
  | OpClosedOnly => "/auth/ban-status/closed-only"
  end.

Section Signed.
Context `{L : U256Lib} {EI : @Eip712Lib L} `{EC : EcdsaLib} `{SL : SodiumLib}.

Definition run_l2 (clock : Z) (c : AccountRestClient) (op : L2Operation) : result TransportCall :=
  match op with
  | OpOpenOrders p next => get_open_orders_page clock c p next
  | OpTrades p next => get_trades_page clock c p next
  | OpOrder order_id => get_order clock c order_id
  | OpBalanceAllowance a tok => get_balance_allowance clock c a tok
  | OpClosedOnly => get_closed_only_mode clock c
  end.

Lemma l2_get_ok clock c path tgt call : l2_get clock c path tgt = Ok call ->
  exists hs, l2_headers (creds_ c) (signer_address_ c) clock "GET" path "" = Ok hs /\ call = ClobGet tgt hs
    /\ clock <> 0.
Proof using.
  unfold l2_get. intros H. apply bind_ok in H as (u & Hu & H). apply bind_ok in H as (hs & Hh & H).
  apply throw_if_ok, Z.eqb_neq in Hu. apply Ok_inj in H. eauto.
Qed.

Lemma exact_order_plain order_id t : exact_order_target order_id = Ok t ->
  t = "/data/order/" +:+ order_id /\ parse_target t = Some (t, []).
Proof using.
  unfold exact_order_target. intros H. apply bind_ok in H as (u & Hu & H). apply Ok_inj in H. subst t.
  apply throw_if_ok, negb_false_iff in Hu. split; [done|].
  apply (target_text_parse ("/data/order/" +:+ order_id) []); [|constructor].
  rewrite str_all_app. by apply hex_value_plain in Hu as ->.
Qed.

(** An authenticated read signs the path it requests, and nothing else.
    Whatever the parameters, every authenticated operation that reaches its
    transport hands it a target whose path, as the venue reads it, is the path
    its HMAC header set was computed over, with method GET, the clock's
    timestamp and an empty body: the query string is never part of the signed
    message, and no path is signed for another endpoint. *)
Lemma l2_signs_requested_path clock c op call :
  run_l2 clock c op = Ok call ->
  exists tgt hs params, call = ClobGet tgt hs
    /\ parse_target tgt = Some (l2_path op, params)
    /\ l2_headers (creds_ c) (signer_address_ c) clock "GET" (l2_path op) "" = Ok hs
    /\ clock <> 0.
Proof using.
  destruct op; cbn [run_l2 l2_path]; unfold get_open_orders_page, get_trades_page, get_order, get_balance_allowance,
    get_closed_only_mode; intros Hc; rewrite ?bind_ok in Hc.
  - destruct Hc as (t & Ht & (hs & Hh & -> & Hz)%l2_get_ok). do 3 eexists. split; [done|]. split; [|done].
    rewrite (open_orders_text _ _ _ Ht). apply target_text_parse; [done|names].
  - destruct Hc as (t & Ht & (hs & Hh & -> & Hz)%l2_get_ok). do 3 eexists. split; [done|]. split; [|done].
    rewrite (trades_text _ _ _ Ht). apply target_text_parse; [done|names].
  - destruct Hc as (t & [Ht Hp]%exact_order_plain & (hs & Hh & -> & Hz)%l2_get_ok).
    do 3 eexists. rewrite <- Ht. done.
  - destruct Hc as (t & Ht & (hs & Hh & -> & Hz)%l2_get_ok). do 3 eexists. split; [done|]. split; [|done].
    rewrite (balance_text _ _ _ _ Ht). apply target_text_parse; [done|names].
  - destruct (l2_get_ok _ _ _ _ _ Hc) as (hs & Hh & -> & Hz). by exists "/auth/ban-status/closed-only", hs, [].
Qed.
End Signed.

Lemma opt_elem n v x y : (x, y) ∈ opt n v <-> x = n /\ y = v /\ str_empty v = false.
Proof.
  unfold opt. destruct (str_empty v); [rewrite elem_of_nil; naive_solver|].
  rewrite list_elem_of_singleton. naive_solver.
Qed.

(** A page of V2 positions asks for exactly the conditions it was given.
    A query is sent only when the conditions, normalized to 33-byte lower-case
    hex, are pairwise different; the target then parses to the positions path,
    and its condition parameter splits at commas into the given list, or is
    absent when the list is empty, which asks for every condition.  A list with
    two spellings of one condition is refused. *)
Theorem positions_v2_conditions p c t :
  positions_v2_target p c = Ok t ->
  NoDup (normalize_condition <$> v_conditions p)
  /\ exists params, parse_target t = Some ("/v2/positions", params)
    /\ ("user", v_user p) ∈ params /\ ("limit", to_string (v_limit p)) ∈ params
    /\ (forall v, ("condition_id", v) ∈ params -> split_on "," v = v_conditions p)
    /\ (v_conditions p <> [] -> exists v, ("condition_id", v) ∈ params).
Proof.
  intros (conds & Hj & ->)%positions_v2_text.
  apply join_conditions_spec in Hj as (Hok & Hnd & _ & ->). split; [done|].
  eexists. split; [apply target_text_parse; [done|destruct (v_include_archived p); names]|].
  rewrite !elem_of_app, !list_elem_of_singleton. split; [auto|]. split; [auto 20|]. split.
  - intros v Hv. rewrite !elem_of_app, !list_elem_of_singleton, !opt_elem in Hv.
    assert (Hv' : v = commas "" (v_conditions p) /\ str_empty (commas "" (v_conditions p)) = false)
      by (destruct (v_include_archived p); rewrite ?list_elem_of_singleton, ?elem_of_nil in Hv;
          repeat destruct Hv as [Hv|Hv]; (done || (by destruct Hv as [? _]) || by destruct Hv as [_ Hv])).
    destruct Hv' as [-> He]. destruct (v_conditions p) as [|d l]; [done|]. by apply commas_read_back.
  - intros Hne. exists (commas "" (v_conditions p)). rewrite !elem_of_app. right. left. apply opt_elem.
    split; [done|]. split; [done|]. by apply commas_read_back.
Qed.

(** Nothing happened: every bound holds. *)
Ltac idle :=
  match goal with H : _ /\ _ /\ _ /\ _ /\ is_ok ?r = false |- _ =>
    destruct H as (-> & -> & -> & -> & ?); repeat split; cbn; [lia|lia|set_solver|by destruct r]
  end.

(** The geoblock probe is one shot.  Whatever the network does, the probe
    makes at most one attempt and none at all under an invalid configuration, at
    most one request is transmitted and it is the probe's GET with the configured
    agent on a closing connection, the process-wide client count is what it was,
    and no stream outlives the call; a response is the one the first attempt
    read. *)
Theorem geoblock_one_shot net config live r c live' :
  in_u64 (m_live_clients live) ->
  geoblock_check net config live = (r, c, live') ->
  live' = live /\ m_stream c = None /\ (attempts c <= 1)%nat
  /\ (length (List.filter transmitted (log c)) <= 1)%nat
  /\ (forall st q n, Sent st q n ∈ log c -> q = build_request (g_host config) get_ kGeoblockPath ""
        [("User-Agent", g_user_agent config); ("Connection", "close")] "application/json")
  /\ (is_ok (make_get config) = false -> attempts c = 0%nat)
  /\ match r with
     | Ok res => is_ok (make_get config) = true /\ exists p, read_outcome (net 0%nat) = ReadOk p
          /\ res = {| status := p_status p; body := p_body p; headers := p_fields p |}
     | Throw _ => True
     end.
Proof.
  intros Hrt. unfold geoblock_check, one_shot_get, construct, destroy. cbv zeta.
  assert (Hidle : forall e, (Throw e, {| m_stream := None; attempts := 0; log := [] |}, live) = (r, c, live') ->
    live' = live /\ m_stream c = None /\ attempts c = 0%nat /\ log c = [] /\ is_ok r = false)
    by (intros e [= <- <- <-]; done).
  destruct (make_get config) as [u|e] eqn:Em; [|by intros H%Hidle; idle].
  destruct (throw_if _ _) as [v|e]; cbn [mbind result_bind]; [|by intros H%Hidle; idle].
  unfold Http.get, request. cbn [retry_count probe_options request_loop].
  destruct (do_request _ _ _ _ _ _ _ _ _) as [r1 c1] eqn:E1.
  destruct (do_request_log _ _ _ _ _ _ _ _ _ _ _ E1) as (Hn & (new & Hl & Ht & Hq) & Ho).
  cbn [attempts log] in Hn, Hl, Ho, Ht. rewrite app_nil_r in Hl.
  assert (Ht1 : (length (List.filter transmitted (log c1)) <= 1)%nat)
    by (rewrite Hl; destruct (written (net 0%nat) =? 0); lia).
  rewrite <- Hl in Hq. destruct r1 as [res|e]; intros [= <- <- <-]; cbn [close m_stream attempts log];
    (split; [by apply add_remove_client|]; split; [done|]; split; [lia|]; split; [done|]; split; [done|];
     split; [done|]); [|done].
  split; [done|]. apply Ho.
Qed.

(** ** A concrete account *)

Module DemoAccount.
Definition creds : ApiCreds := {| api_key := "key"; secret := "00ff"; passphrase := "pass" |}.
Definition account : AccountRestClient :=
  {| creds_ := creds; signer_address_ := repeat Byte.x01 20; signature_type_ := 3 |}.
Definition probe : GeoblockConfig :=
  {| g_host := "polymarket.com"; g_port := "443"; g_user_agent := "agent"; g_transport := default_options |}.
Definition condition : string := "0x" +:+ str_repeat 62 "a"%char.
Definition query : AccountPositionV2Params :=
  {| v_user := "0x" +:+ str_repeat 40 "1"%char; v_conditions := [condition]; v_closed := false;
     v_include_archived := false; v_limit := 100 |}.
End DemoAccount.

Lemma l2_signs_requested_path_witness :
  exists tgt hs params,
    run_l2 (L := u256_reference) (SL := sodium_reference) 1752900000 DemoAccount.account
      (OpBalanceAllowance "COLLATERAL" "") = Ok (ClobGet tgt hs)
    /\ parse_target tgt = Some ("/balance-allowance", params).
Proof.
  destruct (run_l2 (L := u256_reference) (SL := sodium_reference) 1752900000 DemoAccount.account
      (OpBalanceAllowance "COLLATERAL" "")) as [call|e] eqn:E; [|vm_compute in E; discriminate E].
  destruct (l2_signs_requested_path (L := u256_reference) (SL := sodium_reference) _ _ _ _ E)
    as (tgt & hs & params & -> & Hp & _).
  exists tgt, hs, params. split; [reflexivity|exact Hp].
Defined.

Lemma positions_v2_conditions_witness :
  exists t params, positions_v2_target DemoAccount.query "" = Ok t
    /\ parse_target t = Some ("/v2/positions", params)
    /\ (forall v, ("condition_id", v) ∈ params -> split_on "," v = [DemoAccount.condition]).
Proof.
  destruct (positions_v2_target DemoAccount.query "") as [t|e] eqn:E; [|vm_compute in E; discriminate E].
  destruct (positions_v2_conditions _ _ _ E) as (_ & params & Hp & _ & _ & Hc & _).
  exists t, params. split; [reflexivity|]. split; [exact Hp|exact Hc].
Defined.

Lemma geoblock_one_shot_witness :
  let '(r, c, live) := geoblock_check (fun _ => DemoNet.fine DemoNet.created) DemoAccount.probe make_runtime in
  is_ok r = true /\ live = make_runtime /\ m_stream c = None /\ (attempts c <= 1)%nat.
Proof.
  destruct (geoblock_check _ _ _) as [[r c] live] eqn:E.
  assert (H0 : in_u64 (m_live_clients make_runtime)) by (by split).
  destruct (geoblock_one_shot _ _ _ _ _ _ H0 E) as (H1 & H2 & H3 & _).
  split; [by injection E as <- _ _|]. by repeat split.
Defined.
