(* ===== verification/RestClients.v ===== *)
(** * REST clients over HTTPS ([src/pm/account_rest.cpp], [public_rest.cpp])

    The production constructors: an [AccountRestClient] owns one HTTPS client
    for the CLOB and one for the data API, a [PublicRestClient] one for the CLOB
    and one for Gamma.  The operations of Rest.v run over them, and the
    theorems say what each host gets to see. *)

From Stdlib Require Import Ascii String ZArith Lia.
From stdpp Require Import base list sets strings numbers.
From S2P Require Import Prelude Interfaces Keccak Keys Amounts Signing Protocol Auth Runtime Http Rest.

Open Scope Z_scope.

(** ** Clocks *)

(** What the outside world answers while one operation runs: the system clock
    in ticks of a nanosecond, and the clock seam of the configuration. *)
Record Moment := { system_ticks : Z; seam_answer : Z }.

(** [duration_cast] truncates; the count is cast to [uint64_t]. *)
Definition now_seconds (ticks : Z) : Z := u64 (Z.quot ticks 1000000000).

(** ** A [get] of one client *)

(** The handlers of [make_clob_get] and [make_data_get] capture a client that
    was made with the default options. *)
Definition new_transport (rt : HttpsRuntime) : result (Client * HttpsRuntime) := construct default_options rt.

Definition client_get (host : string) (net : nat -> Attempt) (tgt : string) (hs : Headers) (c : Client) :
    result HttpResponse * Client := Http.get host default_options net tgt hs c.

(** ** The account client *)

Record AccountRestConfig := {
  clob_host : string;
  data_api_host : string;
  cfg_creds : ApiCreds;
  signer_address : Bytes;
  signature_type : Z;
  has_seam : bool;
}.

Record AccountRest := {
  config : AccountRestConfig;
  api : AccountRestClient;
  clob_get_ : Client;
  data_get_ : Client;
}.

(** The delegating constructor: both transports exist before the checks, and
    go away again when a check throws. *)
Definition account_rest (cfg : AccountRestConfig) (rt : HttpsRuntime) : result AccountRest * HttpsRuntime :=
  match new_transport rt with
  | Throw e => (Throw e, rt)
  | Ok (clob, rt) =>
      match new_transport rt with
      | Throw e => (Throw e, snd (destroy clob rt))
      | Ok (data, rt) =>
          match account_rest_client (clob_host cfg) (data_api_host cfg) (cfg_creds cfg) (signer_address cfg)
                  (signature_type cfg) true true with
          | Ok a => (Ok {| config := cfg; api := a; clob_get_ := clob; data_get_ := data |}, rt)
          | Throw e => (Throw e, snd (destroy clob (snd (destroy data rt))))
          end
      end
  end.

(** [unix_seconds_()] *)
Definition unix_seconds (c : AccountRest) (m : Moment) : Z :=
  if has_seam (config c) then seam_answer m else now_seconds (system_ticks m).

Inductive AccountOp :=
  | Authenticated (op : L2Operation)
  | Positions (user : string) (limit offset : Z)
  | PositionsV2 (p : AccountPositionV2Params) (cur : string).

Section Account.
Context `{L : U256Lib} {EI : @Eip712Lib L} `{EC : EcdsaLib} `{SL : SodiumLib}.
(** What the network does to the attempts of either client. *)
Context (clob_net data_net : nat -> Attempt).

Definition account_call (m : Moment) (op : AccountOp) (c : AccountRest) : result TransportCall :=
  match op with
  | Authenticated op => run_l2 (unix_seconds c m) (api c) op
  | Positions user limit offset => get_positions_page user limit offset
  | PositionsV2 p cur => get_positions_v2_page p cur
  end.

Definition run_account (m : Moment) (op : AccountOp) (c : AccountRest) : result HttpResponse * AccountRest :=
  match account_call m op c with
  | Throw e => (Throw e, c)
  | Ok (ClobGet tgt hs) =>
      let '(r, k) := client_get (clob_host (config c)) clob_net tgt hs (clob_get_ c) in
      (r, {| config := config c; api := api c; clob_get_ := k; data_get_ := data_get_ c |})
  | Ok (DataGet tgt) =>
      let '(r, k) := client_get (data_api_host (config c)) data_net tgt [] (data_get_ c) in
      (r, {| config := config c; api := api c; clob_get_ := clob_get_ c; data_get_ := k |})
  end.

Definition run_accounts (ops : list (Moment * AccountOp)) (c : AccountRest) : AccountRest :=
  fold_left (fun c mo => snd (run_account (fst mo) (snd mo) c)) ops c.
End Account.

(** ** The public client *)

Record PublicRest := { p_clob_host : string; p_gamma_host : string; p_clob : Client; p_gamma : Client }.

Definition public_rest (clob_host gamma_host : string) (rt : HttpsRuntime) : result PublicRest * HttpsRuntime :=
  match new_transport rt with
  | Throw e => (Throw e, rt)
  | Ok (clob, rt) =>
      match new_transport rt with
      | Throw e => (Throw e, snd (destroy clob rt))
      | Ok (gamma, rt) =>
          (Ok {| p_clob_host := clob_host; p_gamma_host := gamma_host; p_clob := clob; p_gamma := gamma |}, rt)
      end
  end.

Inductive PublicOp :=
  | OpServerTime | OpBook (token_id : string) | OpFeeRate (token_id : string)
  | OpMarketInfo (condition : string) | OpEvent (slug : string).

Definition public_call (op : PublicOp) : result PublicCall :=
  match op with
  | OpServerTime => get_server_time
  | OpBook t => get_book t
  | OpFeeRate t => get_fee_rate t
  | OpMarketInfo c => get_clob_market_info c
  | OpEvent s => get_event_by_slug s
  end.

Definition run_public (clob_net gamma_net : nat -> Attempt) (op : PublicOp) (c : PublicRest) :
    result HttpResponse * PublicRest :=
  match public_call op with
  | Throw e => (Throw e, c)
  | Ok (PublicClob tgt) =>
      let '(r, k) := client_get (p_clob_host c) clob_net tgt [] (p_clob c) in
      (r, {| p_clob_host := p_clob_host c; p_gamma_host := p_gamma_host c; p_clob := k; p_gamma := p_gamma c |})
  | Ok (PublicGamma tgt) =>
      let '(r, k) := client_get (p_gamma_host c) gamma_net tgt [] (p_gamma c) in
      (r, {| p_clob_host := p_clob_host c; p_gamma_host := p_gamma_host c; p_clob := p_clob c; p_gamma := k |})
  end.

(** ** What one client has sent *)

(** Everything on the wire satisfies [P], in at most [n] transmissions. *)
Record wire (P : Request -> Prop) (n : nat) (c : Client) : Prop := {
  wire_sent st q k : Sent st q k ∈ log c -> P q;
  wire_count : (length (List.filter transmitted (log c)) <= n)%nat;
}.

Lemma wire_weaken (P Q : Request -> Prop) n m c : (forall q, P q -> Q q) -> (n <= m)%nat -> wire P n c -> wire Q m c.
Proof. intros HPQ Hle [H1 H2]. split; [|lia]. eauto. Qed.

Lemma wire_fresh P : wire P 0 {| m_stream := None; attempts := 0; log := [] |}.
Proof. split; [by intros ??? ?%elem_of_nil|done]. Qed.

(** One operation adds two transmissions at most: the attempt and its retry. *)
Lemma client_get_wire P n host net tgt hs c r c' :
  client_get host net tgt hs c = (r, c') -> wire P n c ->
  wire (fun q => P q \/ q = build_request host get_ tgt "" hs "application/json") (n + 2) c'.
Proof.
  unfold client_get, Http.get, request. intros H%request_loop_adds [H1 H2].
  destruct H as (new & Hl & Ht & Hq). change (retry_count default_options) with 1%nat in Ht. split; rewrite Hl.
  - intros st q k [Hin|Hin]%elem_of_app; [right; by eapply Hq|left; by eapply H1].
  - rewrite List.filter_app, length_app. lia.
Qed.

Lemma transport_fresh rt : new_transport rt = Ok ({| m_stream := None; attempts := 0; log := [] |}, add_client rt).
Proof. done. Qed.

(** ** What each host sees *)

(** The header fields every request has, and nothing else. *)
Definition plain_get (host tgt : string) : Request :=
  {| r_verb := get_; r_target := tgt; r_payload := None;
     r_fields := [("Host", host); ("User-Agent", "polymarket-cpp/0.1"); ("Accept", "application/json")] |}.

Lemma plain_get_built host tgt : build_request host get_ tgt "" [] "application/json" = plain_get host tgt.
Proof. done. Qed.

Section Isolation.
Context `{L : U256Lib} {EI : @Eip712Lib L} `{EC : EcdsaLib} `{SL : SodiumLib}.
Context (clob_net data_net : nat -> Attempt) (cfg : AccountRestConfig).

(** A request the CLOB may see after [ops]: a GET whose L2 headers sign the
    path of one of the authenticated operations at the moment it ran. *)
Definition clob_request (clock : Moment -> Z) (ops : list (Moment * AccountOp)) (q : Request) : Prop :=
  exists m op tgt hs params, (m, Authenticated op) ∈ ops /\ clock m <> 0
    /\ parse_target tgt = Some (l2_path op, params)
    /\ l2_headers (cfg_creds cfg) (signer_address cfg) (clock m) "GET" (l2_path op) "" = Ok hs
    /\ q = build_request (clob_host cfg) get_ tgt "" hs "application/json".

(** A request the data API may see: a plain GET for positions. *)
Definition data_request (ops : list (Moment * AccountOp)) (q : Request) : Prop :=
  exists m tgt, q = plain_get (data_api_host cfg) tgt
    /\ ((exists user limit offset, (m, Positions user limit offset) ∈ ops /\ positions_target user limit offset = Ok tgt)
        \/ (exists p cur, (m, PositionsV2 p cur) ∈ ops /\ positions_v2_target p cur = Ok tgt)).

Lemma clob_request_more clock ops mo q : clob_request clock ops q -> clob_request clock (ops ++ [mo]) q.
Proof using. intros (m & op & tgt & hs & params & H & Hr). exists m, op, tgt, hs, params. split; [set_solver|done]. Qed.

Lemma data_request_more ops mo q : data_request ops q -> data_request (ops ++ [mo]) q.
Proof using.
  intros (m & tgt & -> & H). exists m, tgt. split; [done|]. destruct H as [(u & l & o & H & Ht)|(p & cur & H & Ht)];
    [left; exists u, l, o|right; exists p, cur]; (split; [set_solver|done]).
Qed.

(** The client after [ops]: what it was configured with, and what went out. *)
Record account_trace (c0 c : AccountRest) (ops : list (Moment * AccountOp)) : Prop := {
  at_config : config c = cfg;
  at_api : api c = api c0;
  at_sent : exists n k, (n + k <= 2 * length ops)%nat
    /\ wire (clob_request (unix_seconds c0) ops) n (clob_get_ c) /\ wire (data_request ops) k (data_get_ c);
}.

Lemma data_call m op c tgt : account_call m op c = Ok (DataGet tgt) ->
  forall ops, data_request (ops ++ [(m, op)]) (plain_get (data_api_host cfg) tgt).
Proof using.
  intros H ops. exists m, tgt. split; [done|]. destruct op as [op|u l o|p cur]; cbn [account_call] in H.
  - by apply l2_signs_requested_path in H as (? & ? & ? & ? & _).
  - unfold get_positions_page in H. apply bind_ok in H as (t & Ht & H). apply Ok_inj in H. injection H as <-.
    left. exists u, l, o. split; [set_solver|done].
  - unfold get_positions_v2_page in H. apply bind_ok in H as (t & Ht & H). apply Ok_inj in H. injection H as <-.
    right. exists p, cur. split; [set_solver|done].
Qed.

Lemma clob_call m op c tgt hs :
  creds_ (api c) = cfg_creds cfg -> signer_address_ (api c) = signer_address cfg ->
  account_call m op c = Ok (ClobGet tgt hs) ->
  forall ops, clob_request (unix_seconds c) (ops ++ [(m, op)])
    (build_request (clob_host cfg) get_ tgt "" hs "application/json").
Proof using.
  intros Hc Hs H ops. destruct op as [op|u l o|p cur]; cbn [account_call] in H.
  - apply l2_signs_requested_path in H as (t & h & params & Hcall & Hp & Hh & Hz). injection Hcall as <- <-.
    exists m, op, tgt, hs, params. rewrite Hc, Hs in Hh. split; [set_solver|done].
  - unfold get_positions_page in H. apply bind_ok in H as (t & _ & H). by apply Ok_inj in H.
  - unfold get_positions_v2_page in H. apply bind_ok in H as (t & _ & H). by apply Ok_inj in H.
Qed.

Lemma run_account_trace c0 c ops m op :
  config c0 = cfg -> creds_ (api c0) = cfg_creds cfg -> signer_address_ (api c0) = signer_address cfg ->
  account_trace c0 c ops -> account_trace c0 (snd (run_account clob_net data_net m op c)) (ops ++ [(m, op)]).
Proof using.
  intros Hcfg Hc Hs [T1 T2 (n & k & Hn & W1 & W2)].
  assert (Hclock : unix_seconds c = unix_seconds c0) by (unfold unix_seconds; by rewrite T1, Hcfg).
  unfold run_account. destruct (account_call m op c) as [[tgt hs|tgt]|e] eqn:E.
  - destruct (client_get _ _ _ _ _) as [r x] eqn:Eg. apply (client_get_wire _ _ _ _ _ _ _ _ _ Eg) in W1.
    split; cbn; [done|done|]. exists (n + 2)%nat, k. rewrite length_app. cbn. split; [lia|]. split.
    + eapply wire_weaken; [|done|exact W1]. intros q [Hq| ->]; [by apply clob_request_more|].
      rewrite T1, <- Hclock. apply (clob_call m op c); by rewrite ?T2.
    + eapply wire_weaken; [|done|exact W2]. intros q. apply data_request_more.
  - destruct (client_get _ _ _ _ _) as [r x] eqn:Eg. apply (client_get_wire _ _ _ _ _ _ _ _ _ Eg) in W2.
    split; cbn; [done|done|]. exists n, (k + 2)%nat. rewrite length_app. cbn. split; [lia|]. split.
    + eapply wire_weaken; [|done|exact W1]. intros q. apply clob_request_more.
    + eapply wire_weaken; [|done|exact W2]. intros q [Hq| ->]; [by apply data_request_more|].
      rewrite T1, plain_get_built. by apply (data_call m op c).
  - split; cbn; [done|done|]. exists n, k. rewrite length_app. split; [lia|].
    split; (eapply wire_weaken; [|done|eassumption]); intros q; [apply clob_request_more|apply data_request_more].
Qed.

Lemma account_rest_made rt c rt' : account_rest cfg rt = (Ok c, rt') ->
  account_trace c c [] /\ creds_ (api c) = cfg_creds cfg /\ signer_address_ (api c) = signer_address cfg.
Proof using.
  unfold account_rest. rewrite !transport_fresh. unfold account_rest_client. case_match; [|done].
  match goal with H : mbind _ _ = Ok _ |- _ => apply bind_ok in H as (u & _ & H); apply Ok_inj in H; subst end.
  intros [= <- <-]. split; [|done]. split; [done..|]. exists 0%nat, 0%nat. split; [done|]. split; apply wire_fresh.
Qed.

(** C27: each host sees only what it may.  However an account client is used,
    whatever the network does, every request that reaches the CLOB host is a
    GET whose L2 headers sign, for the configured key and signer, the path that
    it asks for at the clock reading of the operation that made it; every
    request that reaches the data host is a plain GET for positions that carries
    no credential header at all; and an operation puts at most two requests on
    the wire, both hosts together. *)
Theorem account_hosts_isolated rt c rt' ops :
  account_rest cfg rt = (Ok c, rt') ->
  let c' := run_accounts clob_net data_net ops c in
  (forall st q k, Sent st q k ∈ log (clob_get_ c') -> clob_request (unix_seconds c) ops q)
  /\ (forall st q k, Sent st q k ∈ log (data_get_ c') -> data_request ops q)
  /\ (length (List.filter transmitted (log (clob_get_ c')))
      + length (List.filter transmitted (log (data_get_ c'))) <= 2 * length ops)%nat.
Proof using.
  intros Hmade c'. destruct (account_rest_made _ _ _ Hmade) as (T0 & Hc & Hs).
  assert (HT : account_trace c c' ops).
  { subst c'. unfold run_accounts. induction ops as [|[m op] ops IH] using rev_ind; [done|].
    rewrite fold_left_app. cbn [fold_left fst snd]. apply run_account_trace; [by apply T0|done..]. }
  destruct HT as [_ _ (n & k & Hn & [W1 W2] & [W3 W4])]. split; [done|]. split; [done|]. lia.
Qed.
End Isolation.

(** A rejected configuration leaves no client behind. *)
Lemma account_rest_rejected cfg rt e rt' :
  in_u64 (m_live_clients rt) -> account_rest cfg rt = (Throw e, rt') -> rt' = rt.
Proof.
  intros Hrt. unfold account_rest. rewrite !transport_fresh. case_match; [done|]. intros [= _ <-].
  unfold destroy. cbn [snd]. rewrite add_remove_client; [by apply add_remove_client|]. apply u64_range.
Qed.

(** The public client sends plain requests, at most two per operation. *)
Lemma public_requests_plain clob_net gamma_net ops c0 c rt rt' host host2 :
  public_rest host host2 rt = (Ok c0, rt') ->
  c = fold_left (fun c op => snd (run_public clob_net gamma_net op c)) ops c0 ->
  wire (fun q => exists tgt, q = plain_get host tgt) (2 * length ops) (p_clob c)
  /\ wire (fun q => exists tgt, q = plain_get host2 tgt) (2 * length ops) (p_gamma c).
Proof.
  unfold public_rest. rewrite !transport_fresh. intros [= <- <-] Hrun.
  set (c0 := {| p_clob_host := host; p_gamma_host := host2; p_clob := _; p_gamma := _ |}) in Hrun.
  enough (H : p_clob_host c = host /\ p_gamma_host c = host2
    /\ wire (fun q => exists tgt, q = plain_get host tgt) (2 * length ops) (p_clob c)
    /\ wire (fun q => exists tgt, q = plain_get host2 tgt) (2 * length ops) (p_gamma c)) by apply H.
  subst c. induction ops as [|op ops IH] using rev_ind.
  { split; [done|]. split; [done|]. split; apply wire_fresh. }
  rewrite fold_left_app, length_app. cbn [fold_left length]. set (c := fold_left _ ops c0) in *.
  destruct IH as (H1 & H2 & W1 & W2). unfold run_public. destruct (public_call op) as [[tgt|tgt]|e].
  - destruct (client_get _ _ _ _ _) as [r x] eqn:Eg. apply (client_get_wire _ _ _ _ _ _ _ _ _ Eg) in W1. cbn.
    split; [done|]. split; [done|]. split; (eapply wire_weaken; [|..|eassumption]); [|lia|done|lia].
    intros q [Hq| ->]; [done|]. exists tgt. by rewrite H1, plain_get_built.
  - destruct (client_get _ _ _ _ _) as [r x] eqn:Eg. apply (client_get_wire _ _ _ _ _ _ _ _ _ Eg) in W2. cbn.
    split; [done|]. split; [done|]. split; (eapply wire_weaken; [|..|eassumption]); [done|lia| |lia].
    intros q [Hq| ->]; [done|]. exists tgt. by rewrite H2, plain_get_built.
  - cbn. split; [done|]. split; [done|]. split; (eapply wire_weaken; [|..|eassumption]); done || lia.
Qed.

(** ** A concrete account *)

Module DemoHosts.
Definition cfg : AccountRestConfig :=
  {| clob_host := "clob.example"; data_api_host := "data.example"; cfg_creds := DemoAccount.creds;
     signer_address := repeat Byte.x01 20; signature_type := 3; has_seam := true |}.
Definition now : Moment := {| system_ticks := 0; seam_answer := 1752900000 |}.
Definition net (_ : nat) : Attempt := DemoNet.fine DemoNet.created.
Definition ops : list (Moment * AccountOp) :=
  [(now, Authenticated OpClosedOnly); (now, PositionsV2 DemoAccount.query "")].
Definition made : result AccountRest * HttpsRuntime := account_rest cfg make_runtime.
Definition used (c : AccountRest) : AccountRest :=
  run_accounts (L := u256_reference) (SL := sodium_reference) net net ops c.
End DemoHosts.

Lemma account_hosts_isolated_witness :
  exists c, fst DemoHosts.made = Ok c
    /\ length (log (clob_get_ (DemoHosts.used c))) = 2%nat /\ length (log (data_get_ (DemoHosts.used c))) = 2%nat
    /\ (forall st q k, Sent st q k ∈ log (data_get_ (DemoHosts.used c)) -> data_request DemoHosts.cfg DemoHosts.ops q).
Proof.
  destruct DemoHosts.made as [[c|e] rt'] eqn:E; [|vm_compute in E; discriminate E].
  exists c. pose proof E as E'. vm_compute in E'. split; [reflexivity|].
  split; [injection E' as <- _; vm_compute; reflexivity|]. split; [injection E' as <- _; vm_compute; reflexivity|].
  exact (proj1 (proj2 (account_hosts_isolated (L := u256_reference) (SL := sodium_reference)
    DemoHosts.net DemoHosts.net DemoHosts.cfg make_runtime c rt' DemoHosts.ops E))).
Defined.
