(* ===== verification/Clob.v ===== *)
(** * The trading client ([src/pm/clob.cpp], [clob.hpp])

    [ClobClient] ties the other components together: it validates and prices an
    order, signs it, authenticates and posts it.  A method is a function of the
    client that returns a result and the client it leaves, also when it throws;
    the network, the clock and the random bytes are a [World]. *)

From Stdlib Require Import Ascii String ZArith Lia.
From Stdlib Require Import Strings.Byte.
From stdpp Require Import base list sets strings numbers.
From S2P Require Import Prelude Interfaces Keccak Double Json Amounts Keys Signing Protocol Auth Http Rest.

Open Scope Z_scope.

(** ** Configuration and wire data *)

Record ClobConfig := {
  rest_host : string;
  gamma_host : string;
  private_key_hex : string;
  funder : string;
  c_signature_type : Z;
  c_builder : string;
  c_creds : ApiCreds;
}.

Record PlaceOrderArgs := {
  a_token_id : string;
  a_side : Side;
  a_price : double;
  a_size : double;
  a_order_type : string;
  a_post_only : bool;
  a_defer_exec : bool;
  a_expiration_s : Z;
  a_tick_size : option string;
  a_neg_risk : option bool;
  a_protocol : OrderProtocol;
  a_protect_market_buy_price : bool;
}.

Record PreparedOrder := { order_id : string; p_body_text : string }.

Record OrderJson := {
  j_salt : Z;
  j_maker : string;
  j_signer : string;
  j_tokenId : string;
  j_makerAmount : string;
  j_takerAmount : string;
  j_side : string;
  j_expiration : string;
  j_signatureType : Z;
  j_timestamp : string;
  j_metadata : string;
  j_builder : string;
  j_signature : string;
}.

Record PostOrderBody := {
  b_order : OrderJson;
  b_owner : string;
  b_orderType : string;
  b_deferExec : bool;
  b_postOnly : bool;
}.

(** glaze on the client's own types: [None] is a failure. *)
Record ClobJson := {
  write_order : PostOrderBody -> option string;
  write_cancel : string -> option string;
  write_heartbeat : string -> option string;
  (** [error_msg] and [heartbeat_id] of a [HeartbeatMismatchWire] *)
  read_mismatch : string -> option (option string * option string);
}.

(** What the n-th attempt on each host meets, the n-th reading of the system
    clock in milliseconds, and the n-th eight random bytes. *)
Record World := {
  clob_net : nat -> Attempt;
  gamma_net : nat -> Attempt;
  clock_ms : nat -> Z;
  random_u64 : nat -> Z;
}.

Record ClobClient := {
  cfg_ : ClobConfig;
  http_ : Client;
  gamma_ : Client;
  signer_ : PrivKey;
  signer_addr_ : Bytes;
  funder_addr_ : Bytes;
  builder_ : Bytes;
  l2_creds_ : ApiCreds;
  clock_reads : nat;
  random_draws : nat;
}.

Definition set_http (h : Client) (c : ClobClient) : ClobClient :=
  {| cfg_ := cfg_ c; http_ := h; gamma_ := gamma_ c; signer_ := signer_ c; signer_addr_ := signer_addr_ c;
     funder_addr_ := funder_addr_ c; builder_ := builder_ c; l2_creds_ := l2_creds_ c;
     clock_reads := clock_reads c; random_draws := random_draws c |}.
Definition set_gamma (h : Client) (c : ClobClient) : ClobClient :=
  {| cfg_ := cfg_ c; http_ := http_ c; gamma_ := h; signer_ := signer_ c; signer_addr_ := signer_addr_ c;
     funder_addr_ := funder_addr_ c; builder_ := builder_ c; l2_creds_ := l2_creds_ c;
     clock_reads := clock_reads c; random_draws := random_draws c |}.
Definition set_creds (v : ApiCreds) (c : ClobClient) : ClobClient :=
  {| cfg_ := cfg_ c; http_ := http_ c; gamma_ := gamma_ c; signer_ := signer_ c; signer_addr_ := signer_addr_ c;
     funder_addr_ := funder_addr_ c; builder_ := builder_ c; l2_creds_ := v;
     clock_reads := clock_reads c; random_draws := random_draws c |}.
Definition count_reads (clk rnd : nat) (c : ClobClient) : ClobClient :=
  {| cfg_ := cfg_ c; http_ := http_ c; gamma_ := gamma_ c; signer_ := signer_ c; signer_addr_ := signer_addr_ c;
     funder_addr_ := funder_addr_ c; builder_ := builder_ c; l2_creds_ := l2_creds_ c;
     clock_reads := clk; random_draws := rnd |}.

(** ** Methods *)

Definition M (A : Type) : Type := ClobClient -> result A * ClobClient.
#[export] Instance M_ret : MRet M := fun A a c => (Ok a, c).
#[export] Instance M_bind : MBind M := fun A B k m c =>
  match m c with
  | (Ok a, c) => k a c
  | (Throw e, c) => (Throw e, c)
  end.

(** A computation that leaves the client alone. *)
Definition lift {A} (r : result A) : M A := fun c => (r, c).
(** A member of the client. *)
Definition member {A} (f : ClobClient -> A) : M A := fun c => (Ok (f c), c).

Definition require_200 (res : HttpResponse) (what : string) : result string :=
  throw_if (negb (status res =? 200))
    (RuntimeError ("pm " +:+ what +:+ " " +:+ to_string (status res) +:+ ": " +:+ body res));;
  Ok (body res).

Definition kBytes32Zero : string := "0x0000000000000000000000000000000000000000000000000000000000000000".
Definition kHeartbeatPath : string := "/v1/heartbeats".

Definition parse_bytes32 (hex : string) : result Bytes :=
  b ← from_hex hex;
  throw_if (negb (length b =? 32)%nat) (InvalidArgument "pm: builder code must be 32 bytes");;
  Ok b.

Definition to_json (text : option string) : result string :=
  of_option (RuntimeError "pm: json serialize failed") text.

Definition heartbeat_char (c : ascii) : bool :=
  digit c || lower_alpha c || upper_alpha c || one_of "-_:." c.

Section Clob.
Context `{L : U256Lib} {EI : @Eip712Lib L} `{EC : EcdsaLib} `{SL : SodiumLib} `{JL : JsonLib}.
Context (W : World) (J : ClobJson).

Definition heartbeat_mismatch_id (response : HttpResponse) : option string :=
  if negb (status response =? 400) || str_empty (body response) || (4096 <? slen (body response)) then None
  else match read_mismatch J (body response) with
       | Some (Some error_msg, Some id) =>
           if negb (String.eqb error_msg "Invalid Heartbeat ID") || (128 <? slen id) then None
           else if negb (str_all heartbeat_char id) then None else Some id
       | _ => None
       end.

Definition build_heartbeat_request (heartbeat_id : string) : result string :=
  to_json (write_heartbeat J heartbeat_id).

(** The two transports are fresh; a key or address that does not parse throws. *)
Definition clob_client (cfg : ClobConfig) : result ClobClient :=
  let fresh := {| m_stream := None; attempts := 0; log := [] |} in
  key ← PrivKey_from_hex (private_key_hex cfg);
  let addr := address key in
  fund ← (if str_empty (funder cfg) then Ok addr else eth_address_from_hex (funder cfg));
  bld ← (if str_empty (c_builder cfg) then Ok (repeat x00 32) else parse_bytes32 (c_builder cfg));
  Ok {| cfg_ := cfg; http_ := fresh; gamma_ := fresh; signer_ := key; signer_addr_ := addr; funder_addr_ := fund;
        builder_ := bld; l2_creds_ := c_creds cfg; clock_reads := 0; random_draws := 0 |}.

(** *** Clock, random bytes and transports *)

Definition now_ms : M Z := fun c =>
  (Ok (clock_ms W (clock_reads c)), count_reads (S (clock_reads c)) (random_draws c) c).
Definition randombytes : M Z := fun c =>
  (Ok (random_u64 W (random_draws c)), count_reads (clock_reads c) (S (random_draws c)) c).

Definition on_http (op : string -> Client -> result HttpResponse * Client) : M HttpResponse := fun c =>
  let '(r, h) := op (rest_host (cfg_ c)) (http_ c) in (r, set_http h c).
Definition on_gamma (op : string -> Client -> result HttpResponse * Client) : M HttpResponse := fun c =>
  let '(r, h) := op (gamma_host (cfg_ c)) (gamma_ c) in (r, set_gamma h c).

Definition http_get (tgt : string) (hs : Headers) : M HttpResponse :=
  on_http (fun hst => Http.get hst default_options (clob_net W) tgt hs).
Definition http_post (tgt bdy : string) (hs : Headers) : M HttpResponse :=
  on_http (fun hst => Http.post hst default_options (clob_net W) tgt bdy hs "application/json").
Definition http_request (v : verb) (tgt bdy : string) (hs : Headers) : M HttpResponse :=
  on_http (fun hst => Http.request hst default_options (clob_net W) v tgt bdy hs "application/json").
Definition http_request_once (v : verb) (tgt bdy : string) (hs : Headers) : M HttpResponse :=
  on_http (fun hst => Http.request_once hst default_options (clob_net W) v tgt bdy hs "application/json").

(** *** Credentials *)

Definition parse_creds (text : string) : result ApiCreds :=
  j ← of_option (RuntimeError "pm: creds parse") (read_json text);
  k ← (v ← field j "apiKey"; get_string v);
  s ← (v ← field j "secret"; get_string v);
  p ← (v ← field j "passphrase"; get_string v);
  Ok {| api_key := k; secret := s; passphrase := p |}.

(** [uint64_t(now_ms() / 1000)] *)
Definition now_s : M Z := ms ← now_ms; mret (u64 (Z.quot ms 1000)).

Definition l1_now (nonce : Z) : M Headers :=
  ts ← now_s;
  key ← member signer_;
  lift (l1_headers key ts nonce).

Definition create_api_key (nonce : Z) : M ApiCreds :=
  hs ← l1_now nonce;
  res ← http_post "/auth/api-key" "" hs;
  lift (text ← require_200 res "create-api-key"; parse_creds text).

Definition derive_api_key (nonce : Z) : M ApiCreds :=
  hs ← l1_now nonce;
  res ← http_get "/auth/derive-api-key" hs;
  lift (text ← require_200 res "derive-api-key"; parse_creds text).

(** [creds_ = v; return creds_;] *)
Definition store_creds (v : ApiCreds) : M ApiCreds := fun c => (Ok v, set_creds v c).

Definition ensure_l2_creds : M ApiCreds :=
  creds ← member l2_creds_;
  if str_empty (api_key creds)
  then fresh ← derive_api_key 0; store_creds fresh
  else mret creds.

Definition l2_now (method path bdy : string) : M Headers :=
  ensure_l2_creds;;
  creds ← member l2_creds_;
  addr ← member signer_addr_;
  ts ← now_s;
  lift (l2_headers creds addr ts method path bdy).

(** *** Public data *)

Definition server_time_ms : M Z :=
  t0 ← now_ms;
  res ← http_get "/time" [];
  t1 ← now_ms;
  lift (throw_if (negb (status res =? 200)) (RuntimeError ("pm /time " +:+ to_string (status res)));;
        sec ← stoll (body res);
        let ms := sec * 1000 + Z.quot (t1 - t0) 2 in
        throw_if ((sec * 1000 <? - 2 ^ 63) || (2 ^ 63 - 1 <? sec * 1000) || (ms <? - 2 ^ 63) || (2 ^ 63 - 1 <? ms))
          (Undefined "int64_t overflow");;
        Ok ms).

(** [require_200(http_.get(target), what)] *)
Definition get_text (tgt what : string) : M string :=
  res ← http_get tgt [];
  lift (require_200 res what).

Definition side_name (s : Side) : string := if bool_decide (s = Buy) then "BUY" else "SELL".

Definition clob_get_book (token : string) : M string := get_text ("/book?token_id=" +:+ token) "book".
Definition get_midpoint (token : string) : M string := get_text ("/midpoint?token_id=" +:+ token) "midpoint".
Definition get_price (token : string) (s : Side) : M string :=
  get_text ("/price?token_id=" +:+ token +:+ "&side=" +:+ side_name s) "price".

Definition tick_keys : list string := ["0.1"; "0.01"; "0.005"; "0.0025"; "0.001"; "0.0001"].

(** The loop over the known ticks, against a number. *)
Fixpoint match_tick (keys : list string) (d : double) : result string :=
  match keys with
  | [] => Throw (RuntimeError "pm: unknown tick size")
  | k :: rest =>
      t ← tick_double k;
      if dbl_ltb (dbl_abs (dbl_sub t d)) (round_ratio 1 (10 ^ 12)) then Ok k else match_tick rest d
  end.

Definition get_tick_size (token : string) : M string :=
  text ← get_text ("/tick-size?token_id=" +:+ token) "tick-size";
  lift (j ← of_option (RuntimeError "pm: tick-size parse") (read_json text);
        v ← field j "minimum_tick_size";
        if is_string v then get_string v
        else d ← get_number v; match_tick tick_keys d).

Definition get_neg_risk (token : string) : M bool :=
  text ← get_text ("/neg-risk?token_id=" +:+ token) "neg-risk";
  lift (j ← of_option (RuntimeError "pm: neg-risk parse") (read_json text);
        v ← field j "neg_risk";
        get_boolean v).

(** *** Account reads *)

Definition clob_balance_allowance (asset_type token : string) : M string :=
  cfg ← member cfg_;
  q ← lift (balance_allowance_target (c_signature_type cfg) asset_type token);
  hs ← l2_now "GET" "/balance-allowance" "";
  res ← http_get q hs;
  lift (require_200 res "balance-allowance").

(** [q.insert(size of "/balance-allowance", "/update")] *)
Definition update_target (q : string) : string :=
  let n := String.length "/balance-allowance" in str_take n q +:+ "/update" +:+ str_drop n q.

Definition update_balance_allowance (asset_type token : string) : M string :=
  cfg ← member cfg_;
  q ← lift (balance_allowance_target (c_signature_type cfg) asset_type token);
  hs ← l2_now "GET" "/balance-allowance/update" "";
  res ← http_get (update_target q) hs;
  lift (require_200 res "balance-allowance/update").

Definition get_open_orders : M string :=
  q ← lift (open_orders_target {| o_market := ""; o_asset_id := ""; o_id := "" |} "MA==");
  hs ← l2_now "GET" "/data/orders" "";
  res ← http_get q hs;
  lift (require_200 res "orders").

Definition gamma_get (path_query : string) : M string :=
  res ← on_gamma (fun hst => Http.get hst default_options (gamma_net W) path_query []);
  lift (require_200 res "gamma").
Definition gamma_markets (query : string) : M string := gamma_get ("/markets?" +:+ query).

(** *** Orders *)

Definition generate_salt : M Z :=
  r ← randombytes;
  ms ← now_ms;
  let ms := u64 ms in
  mret (r mod (if ms =? 0 then 1 else ms)).

Definition is_market_buy (args : PlaceOrderArgs) : bool :=
  bool_decide (a_side args = Buy)
  && (String.eqb (a_order_type args) "FOK" || String.eqb (a_order_type args) "FAK").

(** The amounts the order type asks for, and the last price check. *)
Definition choose_amounts (args : PlaceOrderArgs) (tick : string) : result (Z * Z) :=
  price ← snap_price (a_price args) tick;
  amounts ← (if is_market_buy args
             then if a_protect_market_buy_price args
                  then protected_market_buy_amounts (a_size args) (a_price args) tick
                  else market_buy_amounts (a_size args) price
             else order_amounts (a_side args) (a_size args) price tick);
  (if is_market_buy args && a_protect_market_buy_price args
   then validate_protected_market_buy_price (fst amounts) (snd amounts) (a_price args) tick else Ok tt);;
  Ok amounts.

(** The signature text, by signature type. *)
Definition sign_prepared (c : ClobClient) (o : OrderV2) (protocol : OrderProtocol) (neg_risk : bool) : result string :=
  if c_signature_type (cfg_ c) =? 3
  then sig ← sign_order_1271 (signer_ c) o (funder_addr_ c) protocol neg_risk; Ok (to_hex0x sig)
  else sig ← sign_order (signer_ c) o protocol neg_risk; Ok (to_hex0x sig).

Definition order_json (c : ClobClient) (args : PlaceOrderArgs) (o : OrderV2) (signature_hex : string) : OrderJson :=
  {| j_salt := salt o; j_maker := to_hex0x (maker o); j_signer := to_hex0x (signer o);
     j_tokenId := a_token_id args; j_makerAmount := to_string (maker_amount o);
     j_takerAmount := to_string (taker_amount o); j_side := side_name (a_side args);
     j_expiration := to_string (a_expiration_s args); j_signatureType := c_signature_type (cfg_ c);
     j_timestamp := to_string (timestamp_ms o); j_metadata := kBytes32Zero;
     j_builder := if str_empty (c_builder (cfg_ c)) then kBytes32Zero else to_hex0x (builder_ c);
     j_signature := signature_hex |}.

Definition prepare_order (args : PlaceOrderArgs) : M PreparedOrder :=
  lift (validate_order_asset (a_token_id args) (a_protocol args));;
  tick ← match a_tick_size args with Some t => mret t | None => get_tick_size (a_token_id args) end;
  lift (throw_if (negb (valid_tick_size tick)) (InvalidArgument ("pm: bad tick size: " +:+ tick)));;
  ts_d ← lift (tick_double tick);
  lift (throw_if (dbl_ltb (a_price args) ts_d || dbl_ltb (dbl_sub dbl_one ts_d) (a_price args))
          (InvalidArgument "pm: price out of range for tick size"));;
  neg_risk ← match a_neg_risk args with Some b => mret b | None => get_neg_risk (a_token_id args) end;
  amounts ← lift (choose_amounts args tick);
  new_salt ← generate_salt;
  token ← lift (u256_from_dec (a_token_id args));
  ms ← now_ms;
  c ← member id;
  let o := {| salt := new_salt; maker := funder_addr_ c;
              signer := if c_signature_type (cfg_ c) =? 3 then funder_addr_ c else signer_addr_ c;
              token_id := token; maker_amount := fst amounts; taker_amount := snd amounts; side := a_side args;
              signature_type := u8 (c_signature_type (cfg_ c)); timestamp_ms := u64 ms;
              metadata := repeat x00 32; builder := builder_ c |} in
  signature_hex ← lift (sign_prepared c o (a_protocol args) neg_risk);
  creds ← ensure_l2_creds;
  let b := {| b_order := order_json c args o signature_hex; b_owner := api_key creds;
              b_orderType := a_order_type args; b_deferExec := a_defer_exec args; b_postOnly := a_post_only args |} in
  lift (digest ← order_digest o (a_protocol args) neg_risk;
        text ← to_json (write_order J b);
        Ok {| order_id := to_hex0x digest; p_body_text := text |}).

Definition prepared_invalid (p : PreparedOrder) : bool :=
  negb (slen (order_id p) =? 66) || negb (starts_with "0x" (order_id p))
  || negb (str_all hex_alnum (str_drop 2 (order_id p)))
  || str_empty (p_body_text p) || (64 * 1024 <? slen (p_body_text p)).

Definition post_prepared_order (p : PreparedOrder) : M string :=
  lift (throw_if (prepared_invalid p) (InvalidArgument "pm: invalid prepared order"));;
  hs ← l2_now "POST" "/order" (p_body_text p);
  res ← http_request_once post_ "/order" (p_body_text p) hs;
  lift (require_200 res "order").

Definition place_order (args : PlaceOrderArgs) : M string :=
  p ← prepare_order args;
  post_prepared_order p.

Definition cancel_order_once (id : string) : M string :=
  text ← lift (to_json (write_cancel J id));
  hs ← l2_now "DELETE" "/order" text;
  res ← http_request_once delete_ "/order" text hs;
  lift (require_200 res "cancel").

Definition cancel_order (id : string) : M string :=
  text ← lift (to_json (write_cancel J id));
  hs ← l2_now "DELETE" "/order" text;
  res ← http_request delete_ "/order" text hs;
  lift (require_200 res "cancel").

Definition cancel_all : M string :=
  hs ← l2_now "DELETE" "/cancel-all" "";
  res ← http_request delete_ "/cancel-all" "" hs;
  lift (require_200 res "cancel-all").

Definition post_heartbeat (heartbeat_id : string) : M string :=
  text ← lift (build_heartbeat_request heartbeat_id);
  hs ← l2_now "POST" kHeartbeatPath text;
  res ← http_post kHeartbeatPath text hs;
  lift (match heartbeat_mismatch_id res with
        | Some expected => Throw (HeartbeatIdMismatchError (body res) expected)
        | None => require_200 res "heartbeat"
        end).
End Clob.

(** ** Reasoning about methods *)

Lemma M_bind_ok {A B} (m : M A) (k : A -> M B) c b c' :
  (m ≫= k) c = (Ok b, c') <-> exists a c1, m c = (Ok a, c1) /\ k a c1 = (Ok b, c').
Proof. unfold mbind, M_bind. destruct (m c) as [[a|e] c1]; naive_solver. Qed.

Lemma lift_ok {A} (r : result A) c a c' : lift r c = (Ok a, c') <-> r = Ok a /\ c' = c.
Proof. unfold lift. naive_solver. Qed.

Lemma ret_ok {A} (x : A) c a c' : (mret x : M A) c = (Ok a, c') <-> a = x /\ c' = c.
Proof. unfold mret, M_ret. naive_solver. Qed.

(** The first method of a chain that returned, and the rest of it. *)
Ltac inv_m H a c1 H1 := apply M_bind_ok in H as (a & c1 & H1 & H); cbv beta zeta in H.

(** Two states of a client between which it only read: every request sent is a
    GET, and who the client is has not changed. *)
Record reads (c c' : ClobClient) : Prop := {
  rd_log : exists new, log (http_ c') = new ++ log (http_ c) /\ (forall st q n, Sent st q n ∈ new -> r_verb q = get_);
  rd_cfg : cfg_ c' = cfg_ c;
  rd_signer : signer_ c' = signer_ c;
  rd_signer_addr : signer_addr_ c' = signer_addr_ c;
  rd_funder_addr : funder_addr_ c' = funder_addr_ c;
  rd_builder : builder_ c' = builder_ c;
}.

#[export] Instance reads_preorder : PreOrder reads.
Proof.
  split.
  - intros c. split; try done. exists []. split; [done|]. intros st q n H. by apply elem_of_nil in H.
  - intros a b c [(n1 & L1 & V1) A1 A2 A3 A4 A5] [(n2 & L2 & V2) B1 B2 B3 B4 B5]. split; try congruence.
    exists (n2 ++ n1). split; [by rewrite L2, L1, app_assoc|]. intros st q n [H|H]%elem_of_app; eauto.
Qed.

Definition only_reads {A} (m : M A) : Prop := forall c r c', m c = (r, c') -> reads c c'.

Lemma only_reads_bind {A B} (m : M A) (k : A -> M B) :
  only_reads m -> (forall a, only_reads (k a)) -> only_reads (m ≫= k).
Proof.
  intros Hm Hk c r c'. unfold mbind, M_bind. destruct (m c) as [[a|e] c1] eqn:E; apply Hm in E.
  - intros H%Hk. by etrans.
  - by intros [= <- <-].
Qed.

Lemma only_reads_lift {A} (r : result A) : only_reads (lift r).
Proof. by intros c r' c' [= <- <-]. Qed.
Lemma only_reads_ret {A} (a : A) : only_reads (mret a).
Proof. by intros c r' c' [= <- <-]. Qed.
Lemma only_reads_member {A} (f : ClobClient -> A) : only_reads (member f).
Proof. by intros c r' c' [= <- <-]. Qed.

Lemma same_http_reads c c' : http_ c' = http_ c -> cfg_ c' = cfg_ c -> signer_ c' = signer_ c ->
  signer_addr_ c' = signer_addr_ c -> funder_addr_ c' = funder_addr_ c -> builder_ c' = builder_ c -> reads c c'.
Proof.
  intros H ? ? ? ? ?. split; try done. exists []. rewrite H. split; [done|]. intros st q n Hq. by apply elem_of_nil in Hq.
Qed.

Lemma build_request_verb h v t b hs ct : r_verb (build_request h v t b hs ct) = v.
Proof. unfold build_request. by case_match. Qed.

Section Reading.
Context `{L : U256Lib} {EI : @Eip712Lib L} `{EC : EcdsaLib} `{SL : SodiumLib} `{JL : JsonLib}.
Context (W : World) (J : ClobJson).

Lemma only_reads_now : only_reads (now_ms W).
Proof using. intros c r c' [= <- <-]. by apply same_http_reads. Qed.
Lemma only_reads_random : only_reads (randombytes W).
Proof using. intros c r c' [= <- <-]. by apply same_http_reads. Qed.
Lemma only_reads_store v : only_reads (store_creds v).
Proof using. intros c r c' [= <- <-]. by apply same_http_reads. Qed.

Lemma only_reads_get tgt hs : only_reads (http_get W tgt hs).
Proof using.
  intros c r c'. unfold http_get, on_http, Http.get, request.
  destruct (request_loop _ _ _ _ _ _ _ _ _ _) as [r1 h] eqn:E. intros [= <- <-].
  apply request_loop_adds in E as (new & Hl & _ & Hq). split; try done. exists new. split; [done|].
  intros st q n ->%Hq. apply build_request_verb.
Qed.

(** Walk through a method made of reads. *)
Ltac walk := repeat first
  [ apply only_reads_bind; intros | apply only_reads_lift | apply only_reads_ret | apply only_reads_member
  | apply only_reads_now | apply only_reads_random | apply only_reads_store | apply only_reads_get ].

Lemma only_reads_ensure : only_reads (ensure_l2_creds W).
Proof using. unfold ensure_l2_creds. walk. case_match; walk. Qed.
Lemma only_reads_l2_now m p b : only_reads (l2_now W m p b).
Proof using. unfold l2_now. apply only_reads_bind; [apply only_reads_ensure|]. intros. walk. Qed.

(** The tick and the neg-risk flag, given or looked up, and the salt. *)
Lemma only_reads_tick args :
  only_reads (match a_tick_size args with Some t => mret t | None => get_tick_size W (a_token_id args) end).
Proof using. case_match; walk. Qed.
Lemma only_reads_neg_risk args :
  only_reads (match a_neg_risk args with Some b => mret b | None => get_neg_risk W (a_token_id args) end).
Proof using. case_match; walk. Qed.
Lemma only_reads_salt : only_reads (generate_salt W).
Proof using. walk. Qed.

Lemma only_reads_prepare args : only_reads (prepare_order W J args).
Proof using.
  unfold prepare_order. walk; [apply only_reads_tick|apply only_reads_neg_risk|]. case_match; walk.
Qed.
End Reading.

(** With credentials in place, a method that uses no transport leaves the HTTPS
    client alone. *)
Definition with_creds (c : ClobClient) : bool := negb (str_empty (api_key (l2_creds_ c))).
Definition offline {A} (m : M A) : Prop :=
  forall c r c', with_creds c = true -> m c = (r, c') -> http_ c' = http_ c /\ with_creds c' = true.

Lemma offline_bind {A B} (m : M A) (k : A -> M B) : offline m -> (forall a, offline (k a)) -> offline (m ≫= k).
Proof.
  intros Hm Hk c r c' Hc. unfold mbind, M_bind. destruct (m c) as [[a|e] c1] eqn:E; apply Hm in E as [E1 E2]; try done.
  - intros [H1 H2]%Hk; [|done]. by rewrite H1.
  - by intros [= <- <-].
Qed.
Lemma offline_http {A} (m : M A) c r c' :
  offline m -> with_creds c = true -> m c = (r, c') -> http_ c' = http_ c.
Proof. intros Hm Hc H. by apply (Hm c r c' Hc H). Qed.
(** Methods that only touch the counters. *)
Lemma offline_same {A} (m : M A) :
  (forall c, http_ (snd (m c)) = http_ c /\ l2_creds_ (snd (m c)) = l2_creds_ c) -> offline m.
Proof.
  intros H c r c' Hc E. specialize (H c). rewrite E in H. destruct H as [H1 H2]. split; [done|].
  unfold with_creds in *. by rewrite <- H2 in Hc.
Qed.

Lemma offline_ensure W `{L : U256Lib} {EI : @Eip712Lib L} `{EC : EcdsaLib} `{JL : JsonLib} :
  offline (ensure_l2_creds W).
Proof.
  intros c r c' Hc. unfold ensure_l2_creds, mbind, M_bind, member. unfold with_creds in Hc.
  apply negb_true_iff in Hc. rewrite Hc. intros [= <- <-]. split; [done|]. unfold with_creds. by rewrite Hc.
Qed.

Ltac walk_offline := repeat first [apply offline_ensure | apply offline_same; intros; split; reflexivity
  | apply offline_bind; intros].

(** ** Posting *)

Definition sent_post (e : NetEvent) : bool :=
  transmitted e && match e with Sent _ q _ => bool_decide (r_verb q = post_) | Connected _ => false end.

Lemma gets_no_post new : (forall st q n, Sent st q n ∈ new -> r_verb q = get_) -> List.filter sent_post new = [].
Proof.
  induction new as [|e new IH]; [done|]. intros H. cbn [List.filter]. rewrite IH by (intros st q n Hq; apply (H st q n); by right).
  destruct e as [|st q n]; [done|]. unfold sent_post. rewrite (H st q n (list_elem_of_here _ _)).
  by rewrite bool_decide_eq_false_2, andb_false_r.
Qed.

Lemma sent_post_transmitted new : (length (List.filter sent_post new) <= length (List.filter transmitted new))%nat.
Proof.
  induction new as [|e new IH]; [done|]. cbn [List.filter]. unfold sent_post at 1.
  destruct (transmitted e); cbn [andb]; [|done]. destruct e; [cbn; lia|]. case_match; cbn; lia.
Qed.

Section Posting.
Context `{L : U256Lib} {EI : @Eip712Lib L} `{EC : EcdsaLib} `{SL : SodiumLib} `{JL : JsonLib} (W : World).

Lemma l2_now_ok m p b c hs c' : l2_now W m p b c = (Ok hs, c') ->
  exists creds ts, l2_headers creds (signer_addr_ c) ts m p b = Ok hs.
Proof using.
  unfold l2_now. intros H. inv_m H u c1 H1. apply only_reads_ensure in H1 as [_ _ _ E _ _].
  inv_m H creds c2 H2. injection H2 as <- <-. inv_m H addr c3 H3. injection H3 as <- <-.
  inv_m H ts c4 H4. apply lift_ok in H as [H _]. rewrite E in H. eauto.
Qed.

(** What posting a prepared order does: reads, then perhaps one post. *)
Lemma post_prepared_steps p c r c' : post_prepared_order W p c = (r, c') ->
  exists c1, reads c c1 /\ (c' = c1 \/ exists creds ts hs,
    l2_headers creds (signer_addr_ c) ts "POST" "/order" (p_body_text p) = Ok hs
    /\ adds 1 (build_request (rest_host (cfg_ c)) post_ "/order" (p_body_text p) hs "application/json")
         (http_ c1) (http_ c')).
Proof using.
  unfold post_prepared_order. unfold mbind at 1, M_bind at 1. cbn [lift].
  destruct (throw_if _ _); [|intros [= <- <-]; exists c; split; [reflexivity|by left]].
  unfold mbind at 1, M_bind at 1. destruct (l2_now _ _ _ _ c) as [[hs|e] c1] eqn:E1;
    pose proof (only_reads_l2_now _ _ _ _ _ _ _ E1) as Hr; [|intros [= <- <-]; by eauto].
  apply l2_now_ok in E1 as (creds & ts & Hh).
  unfold mbind, M_bind, http_request_once, on_http, lift.
  destruct (request_once _ _ _ _ _ _ _ _ _) as [res h] eqn:E2. apply request_once_adds in E2.
  intros H. exists c1. split; [done|]. right. exists creds, ts, hs. split; [done|].
  rewrite (rd_cfg _ _ Hr) in E2. destruct res; by injection H as <- <-.
Qed.
End Posting.

(** ** The properties *)

Section ClobClaims.
Context `{L : U256Lib} {EI : @Eip712Lib L} {EL : Eip712Laws L EI} `{EC : EcdsaLib} {ECL : EcdsaLaws EC}.
Context `{SL : SodiumLib} `{JL : JsonLib} (W : World) (J : ClobJson).

(** What the venue, or the wallet for signature type 3, checks of a signature. *)
Definition signature_checks (c : ClobClient) (h sig : Bytes) : Prop :=
  if c_signature_type (cfg_ c) =? 3
  then verify_1271 (address (signer_ c)) (funder_addr_ c) h sig = true
  else recover_eth_address sig h = Ok (address (signer_ c)).

(** The amounts rule of each order type, at a tick. *)
Definition amounts_rule (args : PlaceOrderArgs) (tick : string) (mk tk : Z) : Prop :=
  let market := a_side args = Buy /\ (a_order_type args = "FOK" \/ a_order_type args = "FAK") in
  exists price, snap_price (a_price args) tick = Ok price
  /\ ((~ market /\ order_amounts (a_side args) (a_size args) price tick = Ok (mk, tk))
      \/ (market /\ a_protect_market_buy_price args = false /\ market_buy_amounts (a_size args) price = Ok (mk, tk))
      \/ (market /\ a_protect_market_buy_price args = true
          /\ protected_market_buy_amounts (a_size args) (a_price args) tick = Ok (mk, tk)
          /\ validate_protected_market_buy_price mk tk (a_price args) tick = Ok tt)).

Lemma choose_amounts_rule args tick mk tk :
  choose_amounts args tick = Ok (mk, tk) -> amounts_rule args tick mk tk.
Proof using.
  unfold choose_amounts, amounts_rule. intros H. apply bind_ok in H as (price & Hp & H).
  apply bind_ok in H as ([mk' tk'] & Ham & H). apply bind_ok in H as ([] & Hv & H). apply Ok_inj in H.
  injection H as -> ->. exists price. split; [done|].
  assert (Hm : is_market_buy args = true <->
            a_side args = Buy /\ (a_order_type args = "FOK" \/ a_order_type args = "FAK")).
  { unfold is_market_buy. rewrite andb_true_iff, orb_true_iff, !String.eqb_eq, bool_decide_eq_true. done. }
  rewrite <- Hm. destruct (is_market_buy args); [|by left]. cbn [andb] in Hv.
  destruct (a_protect_market_buy_price args); [do 2 right|right; left]; done.
Qed.

Lemma sign_prepared_ok c o p nr t h :
  sign_prepared c o p nr = Ok t -> order_digest o p nr = Ok h ->
  exists sig, t = to_hex0x sig /\ signature_checks c h sig.
Proof using EL ECL.
  unfold sign_prepared, signature_checks. intros Hs Hd. case_match.
  - apply bind_ok in Hs as (sig & Hs & Ht). apply Ok_inj in Ht. exists sig. split; [done|].
    by eapply sign_order_1271_accepted.
  - apply bind_ok in Hs as (sig & Hs & Ht). apply Ok_inj in Ht. exists sig. split; [done|].
    unfold sign_order in Hs. rewrite Hd in Hs. cbn in Hs. by apply signed_recovers in Hs as [_ Hs].
Qed.

Lemma ensure_creds_ok c v c' : ensure_l2_creds W c = (Ok v, c') -> v = l2_creds_ c'.
Proof using.
  unfold ensure_l2_creds. intros H. inv_m H creds c1 H1. injection H1 as <- <-. case_match.
  - inv_m H cr c2 H2. injection H as <- <-. done.
  - by injection H as <- <-.
Qed.

Lemma asset_text asset p u : validate_order_asset asset p = Ok tt -> u256_from_dec asset = Ok u ->
  u256_to_dec u = asset.
Proof using.
  unfold validate_order_asset, require. intros H Hu. inv_ok.
  match goal with H1 : u256_from_dec asset = Ok ?a, H2 : String.eqb (u256_to_dec ?a) asset = true |- _ =>
    rewrite Hu in H1; apply Ok_inj in H1; subst a; by apply String.eqb_eq in H2 end.
Qed.

(** C1: a prepared order is one signed order, shown three ways.  Whenever
    [prepare_order] returns, there is an order whose digest is the returned
    identifier, whose fields are the ones the JSON body carries (for the token, its
    decimal text), whose amounts are the ones the order type's rule gives for a
    tick the rounding table knows, and whose signature in the body is accepted:
    it recovers the client's address from that digest, or, for a deposit wallet,
    passes the wallet's check of that digest.  The order is funded by the
    configured funder and the body's owner is the client's API key. *)
Theorem prepared_order_is_signed args c p c' :
  prepare_order W J args c = (Ok p, c') ->
  exists o tick nr h sig,
    order_digest o (a_protocol args) nr = Ok h /\ order_id p = to_hex0x h
    /\ write_order J
         {| b_order := {| j_salt := salt o; j_maker := to_hex0x (maker o); j_signer := to_hex0x (signer o);
              j_tokenId := u256_to_dec (token_id o); j_makerAmount := to_string (maker_amount o);
              j_takerAmount := to_string (taker_amount o); j_side := side_name (side o);
              j_expiration := to_string (a_expiration_s args); j_signatureType := c_signature_type (cfg_ c);
              j_timestamp := to_string (timestamp_ms o); j_metadata := to_hex0x (metadata o);
              j_builder := if str_empty (c_builder (cfg_ c)) then kBytes32Zero else to_hex0x (builder o);
              j_signature := to_hex0x sig |};
            b_owner := api_key (l2_creds_ c'); b_orderType := a_order_type args;
            b_deferExec := a_defer_exec args; b_postOnly := a_post_only args |} = Some (p_body_text p)
    /\ signature_checks c h sig
    /\ valid_tick_size tick = true /\ amounts_rule args tick (maker_amount o) (taker_amount o)
    /\ maker o = funder_addr_ c /\ side o = a_side args /\ u256_to_dec (token_id o) = a_token_id args
    /\ signature_type o = u8 (c_signature_type (cfg_ c))
    /\ signer o = (if c_signature_type (cfg_ c) =? 3 then funder_addr_ c else signer_addr_ c)
    /\ builder o = builder_ c /\ default tick (a_tick_size args) = tick /\ default nr (a_neg_risk args) = nr.
Proof using EL ECL.
  unfold prepare_order. intros H.
  inv_m H u1 c1 H1. apply lift_ok in H1 as [Hasset ->]. destruct u1. inv_m H tick c2 Htick.
  inv_m H u3 c3 H3. apply lift_ok in H3 as [Hvalid ->]. apply throw_if_ok, negb_false_iff in Hvalid.
  inv_m H ts c4 H4. apply lift_ok in H4 as [_ ->]. inv_m H u5 c5 H5. apply lift_ok in H5 as [_ ->].
  inv_m H nr c6 Hnr. inv_m H am c7 H7. apply lift_ok in H7 as [Ham ->].
  inv_m H sl c8 H8. inv_m H tok c9 H9. apply lift_ok in H9 as [Htok ->]. inv_m H ms c10 H10.
  inv_m H c11 c11' H11. injection H11 as <- <-. set (o := {| salt := sl |}) in *.
  inv_m H sg c12 H12. apply lift_ok in H12 as [Hsign ->]. inv_m H cr c13 Hcr.
  apply lift_ok in H as [H ->]. apply bind_ok in H as (h & Hh & H). apply bind_ok in H as (text & Htext & H).
  apply Ok_inj in H. subst p.
  assert (Hr : reads c c10).
  { apply only_reads_tick in Htick. apply only_reads_neg_risk in Hnr. apply only_reads_salt in H8.
    apply only_reads_now in H10. repeat (etrans; [eassumption|]). done. }
  destruct (sign_prepared_ok _ _ _ _ _ _ Hsign Hh) as (sig & -> & Hsig). destruct Hr as [_ E1 E2 E3 E4 E5].
  exists o, tick, nr, h, sig. unfold signature_checks, order_json in *. rewrite E1, E2, E4, E5 in *.
  apply ensure_creds_ok in Hcr. subst cr. unfold to_json in Htext.
  destruct (write_order J _) as [t|] eqn:Ew; [|done]. apply Ok_inj in Htext. subst t.
  pose proof (asset_text _ _ _ Hasset Htok) as Hdec.
  split; [done|]. split; [done|]. split; [unfold o; cbn [token_id builder]; rewrite Hdec, E5; exact Ew|].
  repeat split; try done.
  - destruct am. by apply choose_amounts_rule.
  - cbn. by rewrite E1.
  - cbn. by rewrite E1, E3, E4.
  - destruct (a_tick_size args); [by injection Htick as <- _|done].
  - destruct (a_neg_risk args); [by injection Hnr as <- _|done].
Qed.

(** Preparing an order sends no order.  Whatever happens, including a
    failure half way, every request [prepare_order] sends is a GET.  An asset the
    protocol does not accept is refused before anything else: no request is made
    and the client is unchanged.  With the tick size and the neg-risk flag given
    and credentials in place, no request is made at all. *)
Theorem prepare_order_only_reads args c r c' :
  prepare_order W J args c = (r, c') ->
  (exists new, log (http_ c') = new ++ log (http_ c) /\ forall st q n, Sent st q n ∈ new -> r_verb q = get_)
  /\ (is_ok (validate_order_asset (a_token_id args) (a_protocol args)) = false -> is_ok r = false /\ c' = c)
  /\ (is_Some (a_tick_size args) -> is_Some (a_neg_risk args) -> str_empty (api_key (l2_creds_ c)) = false ->
      http_ c' = http_ c).
Proof using.
  intros H. split; [apply (only_reads_prepare W J args c r c' H)|]. split.
  - intros Hv. unfold prepare_order, mbind, M_bind, lift in H. cbn in H.
    destruct (validate_order_asset _ _); [done|]. by injection H as <- <-.
  - intros [t Ht] [b Hb] Hk. revert H. unfold prepare_order. rewrite Ht, Hb. intros H.
    eapply (offline_http _ c r c'); [|by unfold with_creds; rewrite Hk|exact H]. walk_offline.
Qed.

(** C2: an order is posted at most once.  Whatever the network does,
    [place_order] sends GET requests and transmits at most one POST; any POST it
    sends is the prepared body to the order endpoint, under headers computed over
    exactly that method, path and body. *)
Theorem place_order_posts_once args c r c' :
  place_order W J args c = (r, c') ->
  exists new, log (http_ c') = new ++ log (http_ c)
    /\ (length (List.filter sent_post new) <= 1)%nat
    /\ forall st q n, Sent st q n ∈ new -> r_verb q = get_ \/
         exists p c1 ts creds hs,
           prepare_order W J args c = (Ok p, c1)
           /\ q = build_request (rest_host (cfg_ c)) post_ "/order" (p_body_text p) hs "application/json"
           /\ l2_headers creds (signer_addr_ c) ts "POST" "/order" (p_body_text p) = Ok hs.
Proof using.
  unfold place_order, mbind, M_bind. destruct (prepare_order W J args c) as [[p|e] c1] eqn:Ep;
    pose proof (only_reads_prepare _ _ _ _ _ _ Ep) as Hr.
  - intros (c2 & Hr2 & Hc)%post_prepared_steps. pose proof (transitivity Hr Hr2) as [(new & Hl & Hg) _ _ _ _ _].
    destruct Hc as [->|(creds & ts & hs & Hh & (new2 & Hl2 & Ht2 & Hq2))].
    + exists new. rewrite gets_no_post by done. split; [done|]. split; [cbn; lia|]. eauto.
    + rewrite (rd_cfg _ _ Hr), (rd_signer_addr _ _ Hr) in *.
      exists (new2 ++ new). split; [by rewrite Hl2, Hl, app_assoc|]. split.
      * rewrite List.filter_app, length_app, (gets_no_post new) by done. pose proof (sent_post_transmitted new2).
        cbn [length]. lia.
      * intros st q n [H|H]%elem_of_app; [|by eauto]. right. exists p, c1, ts, creds, hs.
        split; [done|]. split; [by eapply Hq2|done].
  - intros [= <- <-]. destruct Hr as [(new & Hl & Hg) _ _ _ _ _]. exists new. rewrite gets_no_post by done.
    split; [done|]. split; [cbn; lia|]. eauto.
Qed.
End ClobClaims.

(** ** A concrete client *)

Module DemoClob.
Definition world : World :=
  {| clob_net := fun _ => DemoNet.fine {| p_status := 200; p_body := "{}"; p_fields := []; p_need_eof := false;
                                          p_keep_alive := true |};
     gamma_net := fun _ => DemoNet.dead; clock_ms := fun n => 1752900000000 + Z.of_nat n;
     random_u64 := fun _ => 479249096354 |}.
Definition json : ClobJson :=
  {| write_order := fun b => Some ("order " +:+ j_signature (b_order b)); write_cancel := Some;
     write_heartbeat := Some; read_mismatch := fun _ => None |}.
Definition cfg : ClobConfig :=
  {| rest_host := "clob.polymarket.com"; gamma_host := "gamma-api.polymarket.com";
     private_key_hex := "0x" +:+ str_repeat 64 "1"%char; funder := ""; c_signature_type := 0; c_builder := "";
     c_creds := {| api_key := "key"; secret := "00ff"; passphrase := "pass" |} |}.
Definition args : PlaceOrderArgs :=
  {| a_token_id := "7"; a_side := Buy; a_price := round_ratio 1 2; a_size := dbl_of_Z 10; a_order_type := "GTC";
     a_post_only := false; a_defer_exec := false; a_expiration_s := 0; a_tick_size := Some "0.01";
     a_neg_risk := Some false; a_protocol := ctf_v2; a_protect_market_buy_price := false |}.
Definition client : ClobClient :=
  {| cfg_ := cfg; http_ := {| m_stream := None; attempts := 0; log := [] |};
     gamma_ := {| m_stream := None; attempts := 0; log := [] |}; signer_ := {| k_ := repeat x11 32 |};
     signer_addr_ := repeat x22 20; funder_addr_ := repeat x22 20; builder_ := repeat x00 32;
     l2_creds_ := c_creds cfg; clock_reads := 0; random_draws := 0 |}.
Definition prepared : result PreparedOrder * ClobClient :=
  prepare_order (L := u256_reference) (EI := eip712_cut) (JL := json_reference) world json args client.
Definition placed : result string * ClobClient :=
  place_order (L := u256_reference) (EI := eip712_cut) (SL := sodium_reference) (JL := json_reference)
    world json args client.
End DemoClob.

Lemma prepared_order_is_signed_witness :
  exists p c' h sig, DemoClob.prepared = (Ok p, c') /\ order_id p = to_hex0x h
    /\ signature_checks (EI := eip712_cut) DemoClob.client h sig.
Proof.
  destruct DemoClob.prepared as [[p|e] c'] eqn:E; [|vm_compute in E; discriminate E].
  destruct (prepared_order_is_signed (EI := eip712_cut) (EL := eip712_cut_laws) _ _ _ _ _ _ E)
    as (o & tick & nr & h & sig & _ & H1 & _ & H2 & _).
  exists p, c', h, sig. auto.
Defined.

Lemma prepare_order_only_reads_witness :
  exists r c', DemoClob.prepared = (r, c') /\ http_ c' = http_ DemoClob.client.
Proof.
  destruct DemoClob.prepared as [r c'] eqn:E. exists r, c'. split; [reflexivity|].
  apply (proj2 (proj2 (prepare_order_only_reads (EI := eip712_cut) _ _ _ _ _ _ E))); [by eexists|by eexists|].
  reflexivity.
Defined.

Lemma place_order_posts_once_witness :
  exists r c' new, DemoClob.placed = (r, c') /\ is_ok r = true
    /\ log (http_ c') = new ++ [] /\ (length (List.filter sent_post new) <= 1)%nat.
Proof.
  destruct DemoClob.placed as [r c'] eqn:E.
  assert (Hr : is_ok r = true) by (change r with (fst (r, c')); rewrite <- E; vm_compute; reflexivity).
  destruct (place_order_posts_once (EI := eip712_cut) _ _ _ _ _ _ E) as (new & Hl & Hn & _).
  exists r, c', new. auto.
Defined.
