(* ===== verification/ClobOps.v ===== *)
(** * Every operation of the trading client ([src/pm/clob.cpp])

    The public methods of [ClobClient] as one set of operations, and what any
    sequence of them may put on the wire: which requests carry which
    authentication, over what. *)

From Stdlib Require Import Ascii String ZArith Lia.
From Stdlib Require Import Strings.Byte.
From stdpp Require Import base list sets strings numbers.
From S2P Require Import Prelude Interfaces Keccak Double Json Amounts Keys Signing Protocol Auth Http Rest Clob.

Open Scope Z_scope.

(** Accessors. *)
Definition signer_address (c : ClobClient) : Bytes := signer_addr_ c.
Definition funder_address (c : ClobClient) : Bytes := funder_addr_ c.

(** [HeartbeatIdMismatchError]: its text and the id the venue expects. *)
Definition mismatch_what (e : exn) : option (string * string) :=
  match e with
  | HeartbeatIdMismatchError bdy expected => Some ("pm heartbeat 400: " +:+ bdy, expected)
  | _ => None
  end.

(** The public methods of the header, in its order. *)
Inductive ClobOp :=
  | ServerTime | GetBook (token : string) | GetMidpoint (token : string) | GetPrice (token : string) (s : Side)
  | GetTickSize (token : string) | GetNegRisk (token : string)
  | CreateApiKey (nonce : Z) | DeriveApiKey (nonce : Z)
  | PrepareOrder (args : PlaceOrderArgs) | PostPrepared (p : PreparedOrder) | PlaceOrder (args : PlaceOrderArgs)
  | CancelOrder (id : string) | CancelOrderOnce (id : string) | CancelAll | PostHeartbeat (id : string)
  | GetOpenOrders | GetBalanceAllowance (asset_type token : string) | UpdateBalanceAllowance (asset_type token : string)
  | GammaMarkets (query : string) | GammaGet (path_query : string).

(** How a request was authenticated. *)
Inductive Credential :=
  | Unauthenticated
  | Level1 (timestamp nonce : Z)
  | Level2 (creds : ApiCreds) (timestamp : Z) (path : string).

Definition verb_name (v : verb) : string :=
  match v with get_ => "GET" | post_ => "POST" | delete_ => "DELETE" | put_ => "PUT" end.

Section Traffic.
Context `{L : U256Lib} {EI : @Eip712Lib L} `{EC : EcdsaLib} `{SL : SodiumLib} `{JL : JsonLib}.
Context (W : World) (J : ClobJson).

Definition discard {A} (m : M A) : M unit := m;; mret tt.

Definition run_op (op : ClobOp) : M unit :=
  match op with
  | ServerTime => discard (server_time_ms W)
  | GetBook t => discard (clob_get_book W t)
  | GetMidpoint t => discard (get_midpoint W t)
  | GetPrice t s => discard (get_price W t s)
  | GetTickSize t => discard (get_tick_size W t)
  | GetNegRisk t => discard (get_neg_risk W t)
  | CreateApiKey n => discard (create_api_key W n)
  | DeriveApiKey n => discard (derive_api_key W n)
  | PrepareOrder a => discard (prepare_order W J a)
  | PostPrepared p => discard (post_prepared_order W p)
  | PlaceOrder a => discard (place_order W J a)
  | CancelOrder id => discard (cancel_order W J id)
  | CancelOrderOnce id => discard (cancel_order_once W J id)
  | CancelAll => discard (cancel_all W)
  | PostHeartbeat id => discard (post_heartbeat W J id)
  | GetOpenOrders => discard (get_open_orders W)
  | GetBalanceAllowance a t => discard (clob_balance_allowance W a t)
  | UpdateBalanceAllowance a t => discard (update_balance_allowance W a t)
  | GammaMarkets q => discard (gamma_markets W q)
  | GammaGet q => discard (gamma_get W q)
  end.

(** A program: an operation that throws is caught by the caller, which goes on
    with the next one. *)
Definition run_all (ops : list ClobOp) (c : ClobClient) : ClobClient :=
  fold_left (fun c op => snd (run_op op c)) ops c.

(** [q] went to the venue's host under [cred]: nothing is attached to public
    reads, the attestation of the signing key only to the two credential
    endpoints, and the HMAC headers are over the method, the path and the body
    of the very request they are attached to. *)
Definition authorised (host : string) (key : PrivKey) (addr : Bytes) (q : Request) : Prop :=
  exists v tgt bdy hs cred, q = build_request host v tgt bdy hs "application/json"
    /\ match cred with
       | Unauthenticated => v = get_ /\ bdy = "" /\ hs = []
       | Level1 ts nonce =>
           (v = post_ /\ tgt = "/auth/api-key" \/ v = get_ /\ tgt = "/auth/derive-api-key")
           /\ bdy = "" /\ l1_headers key ts nonce = Ok hs
       | Level2 creds ts path =>
           (exists params, parse_target tgt = Some (path, params))
           /\ l2_headers creds addr ts (verb_name v) path bdy = Ok hs
       end.

(** What one or more calls added to the two transports. *)
Record traffic (c c' : ClobClient) : Prop := {
  tf_http : exists new, log (http_ c') = new ++ log (http_ c)
    /\ forall st q n, Sent st q n ∈ new -> authorised (rest_host (cfg_ c)) (signer_ c) (signer_addr_ c) q;
  tf_gamma : exists new, log (gamma_ c') = new ++ log (gamma_ c)
    /\ forall st q n, Sent st q n ∈ new ->
         exists tgt, q = build_request (gamma_host (cfg_ c)) get_ tgt "" [] "application/json";
  tf_cfg : cfg_ c' = cfg_ c;
  tf_signer : signer_ c' = signer_ c;
  tf_signer_addr : signer_addr_ c' = signer_addr_ c;
  tf_funder_addr : funder_addr_ c' = funder_addr_ c;
  tf_builder : builder_ c' = builder_ c;
}.

#[local] Instance traffic_preorder : PreOrder traffic.
Proof using.
  split.
  - intros c. split; try done; exists []; (split; [done|]); by intros st q n ?%elem_of_nil.
  - intros a b c [(n1 & L1 & V1) (g1 & G1 & X1) A1 A2 A3 A4 A5] [(n2 & L2 & V2) (g2 & G2 & X2) B1 B2 B3 B4 B5].
    rewrite A1, A2, A3 in *. split; try congruence.
    + exists (n2 ++ n1). split; [by rewrite L2, L1, app_assoc|]. intros st q n [H|H]%elem_of_app; eauto.
    + exists (g2 ++ g1). split; [by rewrite G2, G1, app_assoc|]. intros st q n [H|H]%elem_of_app; eauto.
Qed.

Definition emits {A} (m : M A) : Prop := forall c r c', m c = (r, c') -> traffic c c'.

Lemma emits_bind {A B} (m : M A) (k : A -> M B) : emits m -> (forall a, emits (k a)) -> emits (m ≫= k).
Proof using.
  intros Hm Hk c r c'. unfold mbind, M_bind. destruct (m c) as [[a|e] c1] eqn:E; apply Hm in E.
  - intros H%Hk. by etrans.
  - by intros [= <- <-].
Qed.

Lemma same_transports c c' : http_ c' = http_ c -> gamma_ c' = gamma_ c -> cfg_ c' = cfg_ c -> signer_ c' = signer_ c ->
  signer_addr_ c' = signer_addr_ c -> funder_addr_ c' = funder_addr_ c -> builder_ c' = builder_ c -> traffic c c'.
Proof using.
  intros H1 H2 ? ? ? ? ?. split; try done; exists []; rewrite ?H1, ?H2; (split; [done|]); by intros st q n ?%elem_of_nil.
Qed.

Lemma emits_lift {A} (r : result A) : emits (lift r).
Proof using. intros c r' c' [= <- <-]. by apply same_transports. Qed.
Lemma emits_ret {A} (a : A) : emits (mret a).
Proof using. intros c r' c' [= <- <-]. by apply same_transports. Qed.
Lemma emits_member {A} (f : ClobClient -> A) : emits (member f).
Proof using. intros c r' c' [= <- <-]. by apply same_transports. Qed.
Lemma emits_now : emits (now_ms W).
Proof using. intros c r c' [= <- <-]. by apply same_transports. Qed.
Lemma emits_random : emits (randombytes W).
Proof using. intros c r c' [= <- <-]. by apply same_transports. Qed.
Lemma emits_store v : emits (store_creds v).
Proof using. intros c r c' [= <- <-]. by apply same_transports. Qed.

(** One request on the venue's transport. *)
Lemma http_traffic k v tgt bdy hs c r c' op :
  (forall hst h r h', op hst h = (r, h') -> adds k (build_request hst v tgt bdy hs "application/json") h h') ->
  authorised (rest_host (cfg_ c)) (signer_ c) (signer_addr_ c)
    (build_request (rest_host (cfg_ c)) v tgt bdy hs "application/json") ->
  on_http op c = (r, c') -> traffic c c'.
Proof using.
  intros Hop Ha. unfold on_http. destruct (op (rest_host (cfg_ c)) (http_ c)) as [r' h] eqn:E.
  intros [= <- <-]. apply Hop in E as (new & Hl & _ & Hq). split; try done.
  - exists new. split; [done|]. intros st q n Hin. by rewrite (Hq _ _ _ Hin).
  - exists []. split; [done|]. by intros st q n ?%elem_of_nil.
Qed.

(** The four ways the client sends. *)
Inductive Sender := SGet | SPost | SRequest (v : verb) | SOnce (v : verb).
Definition sender_verb (s : Sender) : verb :=
  match s with SGet => get_ | SPost => post_ | SRequest v | SOnce v => v end.
Definition send_with (s : Sender) (tgt bdy : string) (hs : Headers) : M HttpResponse :=
  match s with
  | SGet => http_get W tgt hs
  | SPost => http_post W tgt bdy hs
  | SRequest v => http_request W v tgt bdy hs
  | SOnce v => http_request_once W v tgt bdy hs
  end.

Lemma send_traffic s tgt bdy hs c r c' :
  (s = SGet -> bdy = "") ->
  authorised (rest_host (cfg_ c)) (signer_ c) (signer_addr_ c)
    (build_request (rest_host (cfg_ c)) (sender_verb s) tgt bdy hs "application/json") ->
  send_with s tgt bdy hs c = (r, c') -> traffic c c'.
Proof using.
  intros Hb Ha H. destruct s; cbn [send_with sender_verb] in *; try rewrite Hb in Ha by done;
    (eapply http_traffic; [|exact Ha|exact H]); intros hst h r1 h'.
  - apply request_loop_adds.
  - apply request_loop_adds.
  - apply request_loop_adds.
  - intros E%request_once_adds. destruct E as (new & ? & ? & ?). exists new. split; [done|]. split; [|done].
    etrans; [eassumption|]. instantiate (1 := 2%nat). lia.
Qed.

(** A request under headers computed just before. *)
Lemma emits_under {A} (hdrs : M Headers) s tgt bdy (k : HttpResponse -> M A) :
  emits hdrs -> (s = SGet -> bdy = "") ->
  (forall c hs c1, hdrs c = (Ok hs, c1) ->
     authorised (rest_host (cfg_ c)) (signer_ c) (signer_addr_ c)
       (build_request (rest_host (cfg_ c)) (sender_verb s) tgt bdy hs "application/json")) ->
  (forall res, emits (k res)) ->
  emits (hs ← hdrs; res ← send_with s tgt bdy hs; k res).
Proof using.
  intros He Hb Ha Hk c r c'. unfold mbind at 1, M_bind at 1. destruct (hdrs c) as [[hs|e] c1] eqn:E;
    pose proof (He _ _ _ E) as Ht; [|by intros [= <- <-]].
  pose proof (Ha _ _ _ E) as Hauth. rewrite <- (tf_cfg _ _ Ht), <- (tf_signer _ _ Ht), <- (tf_signer_addr _ _ Ht) in Hauth.
  unfold mbind, M_bind. destruct (send_with s tgt bdy hs c1) as [[res|e] c2] eqn:E2;
    pose proof (send_traffic _ _ _ _ _ _ _ Hb Hauth E2) as Ht2.
  - intros H%Hk. etrans; [exact Ht|]. by etrans.
  - intros [= <- <-]. by etrans.
Qed.

(** A public read. *)
Lemma emits_public tgt : emits (http_get W tgt []).
Proof using.
  intros c r c' H. apply (send_traffic SGet tgt "" []  c r c'); [done| |exact H].
  by exists get_, tgt, "", [], Unauthenticated.
Qed.

Ltac emit_walk := repeat first
  [ apply emits_bind; intros | apply emits_lift | apply emits_ret | apply emits_member | apply emits_now
  | apply emits_random | apply emits_store | apply emits_public ].

Lemma emits_l1_now nonce : emits (l1_now W nonce).
Proof using. unfold l1_now, now_s. emit_walk. Qed.

Lemma l1_now_ok nonce c hs c1 : l1_now W nonce c = (Ok hs, c1) -> exists ts, l1_headers (signer_ c) ts nonce = Ok hs.
Proof using.
  unfold l1_now. intros H. inv_m H ts c2 H2. inv_m H key c3 H3. injection H3 as <- <-.
  apply lift_ok in H as [H _]. exists ts. unfold now_s in H2. inv_m H2 ms c4 H4. injection H4 as _ <-.
  injection H2 as _ <-. exact H.
Qed.

Lemma emits_l1 {A} nonce s tgt (k : HttpResponse -> M A) :
  (sender_verb s = post_ /\ tgt = "/auth/api-key" \/ sender_verb s = get_ /\ tgt = "/auth/derive-api-key") ->
  (forall res, emits (k res)) -> emits (hs ← l1_now W nonce; res ← send_with s tgt "" hs; k res).
Proof using.
  intros Hs Hk. apply emits_under; [apply emits_l1_now|done| |done]. intros c hs c1 (ts & H)%l1_now_ok.
  by exists (sender_verb s), tgt, "", hs, (Level1 ts nonce).
Qed.

Lemma emits_create nonce : emits (create_api_key W nonce).
Proof using. apply (emits_l1 nonce SPost); [by left|intros; apply emits_lift]. Qed.
Lemma emits_derive nonce : emits (derive_api_key W nonce).
Proof using. apply (emits_l1 nonce SGet); [by right|intros; apply emits_lift]. Qed.
Lemma emits_ensure : emits (ensure_l2_creds W).
Proof using. unfold ensure_l2_creds. emit_walk. case_match; [|emit_walk]. apply emits_bind; [apply emits_derive|intros; emit_walk]. Qed.
Lemma emits_l2_now m p b : emits (l2_now W m p b).
Proof using. unfold l2_now. apply emits_bind; [apply emits_ensure|]. intros. unfold now_s. emit_walk. Qed.

(** A request under HMAC headers over its own method, path and body. *)
Lemma emits_l2 {A} s path tgt bdy params (k : HttpResponse -> M A) :
  (s = SGet -> bdy = "") -> parse_target tgt = Some (path, params) -> (forall res, emits (k res)) ->
  emits (hs ← l2_now W (verb_name (sender_verb s)) path bdy; res ← send_with s tgt bdy hs; k res).
Proof using.
  intros Hb Hp Hk. apply emits_under; [apply emits_l2_now|done| |done]. intros c hs c1 (creds & ts & H)%l2_now_ok.
  exists (sender_verb s), tgt, bdy, hs, (Level2 creds ts path). split; [done|]. split; [by eexists|done].
Qed.

Lemma emits_gamma_get q : emits (gamma_get W q).
Proof using.
  unfold gamma_get. apply emits_bind; [|intros; apply emits_lift]. intros c r c'. unfold on_gamma, Http.get, request.
  destruct (request_loop _ _ _ _ _ _ _ _ _ _) as [r1 h] eqn:E. intros [= <- <-].
  apply request_loop_adds in E as (new & Hl & _ & Hq). split; try done.
  - exists []. split; [done|]. by intros st x n ?%elem_of_nil.
  - exists new. split; [done|]. intros st x n ->%Hq. by eexists.
Qed.
(** Inserting "/update" turns the target of one path into that of the other. *)
Lemma update_target_text st a tok t :
  balance_allowance_target st a tok = Ok t ->
  (exists params, parse_target t = Some ("/balance-allowance", params))
  /\ exists params, parse_target (update_target t) = Some ("/balance-allowance/update", params).
Proof using.
  intros ->%balance_text. split.
  - eexists. apply target_text_parse; [done|names].
  - set (l := [("asset_type", a)] ++ opt "token_id" tok). exists (("signature_type", to_string st) :: l).
    replace (update_target _) with (target_text "/balance-allowance/update" (("signature_type", to_string st) :: l)).
    + apply target_text_parse; [done|]. unfold l. constructor; [done|names].
    + cbn [app target_text]. unfold update_target. cbv zeta. by rewrite str_take_app, str_drop_app.
Qed.

Lemma emits_balance upd a tok :
  emits (if upd : bool then update_balance_allowance W a tok else clob_balance_allowance W a tok).
Proof using.
  destruct upd; unfold update_balance_allowance, clob_balance_allowance;
    (apply emits_bind; [apply emits_member|intros cfg]);
    intros c r c'; unfold mbind at 1, M_bind at 1, lift at 1;
    destruct (balance_allowance_target (c_signature_type cfg) a tok) as [t|e] eqn:E;
    try (intros [= <- <-]; by apply same_transports);
    destruct (update_target_text _ _ _ _ E) as [[p1 H1] [p2 H2]].
  - revert c r c'. eapply (emits_l2 SGet _ (update_target t) "" p2); [done|exact H2|intros; apply emits_lift].
  - revert c r c'. eapply (emits_l2 SGet _ t "" p1); [done|exact H1|intros; apply emits_lift].
Qed.

Lemma emits_open_orders : emits (get_open_orders W).
Proof using.
  unfold get_open_orders. intros c r c'. unfold mbind at 1, M_bind at 1, lift at 1.
  destruct (open_orders_target _ _) as [t|e] eqn:E; [|intros [= <- <-]; by apply same_transports].
  apply open_orders_text in E. subst t. revert c r c'.
  eapply (emits_l2 SGet "/data/orders" _ ""); [done|apply target_text_parse; [done|names]|intros; apply emits_lift].
Qed.

(** A request with a fixed path and a serialised body. *)
Lemma emits_fixed s path (text : result string) (k : HttpResponse -> M string) :
  (s = SGet -> False) -> parse_target path = Some (path, []) -> (forall res, emits (k res)) ->
  emits (t ← lift text; hs ← l2_now W (verb_name (sender_verb s)) path t; res ← send_with s path t hs; k res).
Proof using.
  intros Hs Hp Hk. apply emits_bind; [apply emits_lift|intros t]. by eapply emits_l2; [by intros ?%Hs|exact Hp|].
Qed.

Lemma emits_text tgt what : emits (get_text W tgt what).
Proof using. unfold get_text. emit_walk. Qed.

Lemma emits_prepare args : emits (prepare_order W J args).
Proof using.
  unfold prepare_order, generate_salt. emit_walk.
  - case_match; [emit_walk|]. apply emits_bind; [apply emits_text|intros; emit_walk].
  - case_match; [emit_walk|]. apply emits_bind; [apply emits_text|intros; emit_walk].
  - case_match; [|emit_walk]. apply emits_bind; [apply emits_derive|intros; emit_walk].
Qed.

Lemma emits_post_prepared p : emits (post_prepared_order W p).
Proof using.
  unfold post_prepared_order. apply emits_bind; [apply emits_lift|intros _].
  apply (emits_l2 (SOnce post_) "/order" "/order" (p_body_text p) []); [done|done|intros; apply emits_lift].
Qed.

Lemma emits_cancel_all : emits (cancel_all W).
Proof using.
  unfold cancel_all.
  apply (emits_l2 (SRequest delete_) "/cancel-all" "/cancel-all" "" []); [done|done|intros; apply emits_lift].
Qed.

Lemma run_op_emits op : emits (run_op op).
Proof using.
  assert (Hd : forall A (m : M A), emits m -> emits (discard m)).
  { intros A m Hm. apply emits_bind; [exact Hm|intros; apply emits_ret]. }
  destruct op; cbn [run_op]; apply Hd.
  - unfold server_time_ms. emit_walk.
  - apply emits_text.
  - apply emits_text.
  - apply emits_text.
  - apply emits_bind; [apply emits_text|intros; emit_walk].
  - apply emits_bind; [apply emits_text|intros; emit_walk].
  - apply emits_create.
  - apply emits_derive.
  - apply emits_prepare.
  - apply emits_post_prepared.
  - apply emits_bind; [apply emits_prepare|apply emits_post_prepared].
  - apply (emits_fixed (SRequest delete_) "/order"); [done|done|intros; apply emits_lift].
  - apply (emits_fixed (SOnce delete_) "/order"); [done|done|intros; apply emits_lift].
  - apply emits_cancel_all.
  - apply (emits_fixed SPost kHeartbeatPath); [done|done|intros; apply emits_lift].
  - apply emits_open_orders.
  - apply (emits_balance false).
  - apply (emits_balance true).
  - apply emits_gamma_get.
  - apply emits_gamma_get.
Qed.

Lemma run_all_traffic ops c : traffic c (run_all ops c).
Proof using.
  unfold run_all. induction ops as [|op ops IH] using rev_ind; [reflexivity|].
  rewrite fold_left_app. cbn [fold_left]. etrans; [exact IH|].
  destruct (run_op op _) as [r c2] eqn:E. by eapply run_op_emits.
Qed.

(** C5: authentication of the whole client.  Whatever sequence of operations a
    program runs, failures included, every request the client sent to the venue
    carries either nothing and is a plain GET, or the key's attestation and is
    one of the two credential requests, or HMAC headers computed over exactly
    the method, path and body of that request (the query string is never part
    of the signed path); and every request to the market catalogue is a GET
    without any credential. *)
Theorem every_request_authorised cfg c ops :
  clob_client cfg = Ok c ->
  let c' := run_all ops c in
  (forall st q n, Sent st q n ∈ log (http_ c') -> authorised (rest_host cfg) (signer_ c) (signer_addr_ c) q)
  /\ (forall st q n, Sent st q n ∈ log (gamma_ c') ->
       exists tgt, q = build_request (gamma_host cfg) get_ tgt "" [] "application/json").
Proof using.
  intros Hc. cbv zeta.
  assert (Hfresh : cfg_ c = cfg /\ log (http_ c) = [] /\ log (gamma_ c) = []).
  { unfold clob_client in Hc. inv_ok. by subst c. }
  destruct Hfresh as (Hcfg & Hh & Hg).
  destruct (run_all_traffic ops c) as [(new & -> & Hn) (g & -> & Hgn) _ _ _ _ _]. rewrite Hh, Hg, !app_nil_r, Hcfg in *. auto.
Qed.
End Traffic.

Module DemoOps.
Definition client : result ClobClient :=
  clob_client (EI := eip712_cut) DemoClob.cfg.
Definition ops : list ClobOp := [GetTickSize "7"; CancelAll].
Definition after (c : ClobClient) : ClobClient :=
  run_all (L := u256_reference) (EI := eip712_cut) (SL := sodium_reference) (JL := json_reference)
    DemoClob.world DemoClob.json ops c.
Definition sent (c : ClobClient) : list Request :=
  omap (fun e => match e with Sent _ q _ => Some q | _ => None end) (log (http_ (after c))).
End DemoOps.

Lemma every_request_authorised_witness :
  exists c q, DemoOps.client = Ok c /\ q ∈ DemoOps.sent c /\ r_verb q = delete_
    /\ authorised (EI := eip712_cut) (SL := sodium_reference) "clob.polymarket.com" (signer_ c) (signer_addr_ c) q.
Proof.
  destruct DemoOps.client as [c|e] eqn:E; [|vm_compute in E; discriminate E].
  assert (Hq : exists q, head (DemoOps.sent c) = Some q /\ r_verb q = delete_).
  { vm_compute in E. injection E as <-. eexists. split; vm_compute; reflexivity. }
  destruct Hq as (q & Hq & Hv). exists c, q. split; [reflexivity|].
  assert (Hin : q ∈ DemoOps.sent c) by (destruct (DemoOps.sent c); [done|]; injection Hq as ->; apply list_elem_of_here).
  split; [exact Hin|]. split; [exact Hv|]. unfold DemoOps.sent in Hin.
  apply list_elem_of_omap in Hin as (ev & Hev & Hx). destruct ev as [|st q' n]; [done|]. injection Hx as ->.
  apply (proj1 (every_request_authorised (EI := eip712_cut) (SL := sodium_reference) (JL := json_reference)
    DemoClob.world DemoClob.json DemoClob.cfg c DemoOps.ops E) st q n Hev).
Defined.
