(* ===== verification/PreparedOrders.v ===== *)
(** * What a prepared order is ([src/pm/clob.cpp], [signing.cpp])

    The order [prepare_order] builds and signs, taken out of the method: it is well
    formed, and the returned identifier names it. *)

From Stdlib Require Import Ascii String ZArith Lia.
From Stdlib Require Import Strings.Byte.
From stdpp Require Import base list sets strings numbers.
From S2P Require Import Prelude Interfaces Keccak Double Json Amounts Monotone PricePath Keys Signing Protocol Auth Http Rest Clob ClobOps.

Open Scope Z_scope.

Lemma eth_address_length s a : eth_address_from_hex s = Ok a -> length a = 20%nat.
Proof.
  unfold eth_address_from_hex. intros H. apply bind_ok in H as (b & _ & H). apply bind_ok in H as (u & Ht & H).
  apply Ok_inj in H. subst b. apply throw_if_ok, negb_false_iff, Nat.eqb_eq in Ht. done.
Qed.

Section Prepared.
Context `{L : U256Lib} {UL : U256Laws L} {EI : @Eip712Lib L} {EL : Eip712Laws L EI} `{EC : EcdsaLib}.
Context `{SL : SodiumLib} `{JL : JsonLib} (W : World) (J : ClobJson).

(** The byte strings of a client that was constructed from a configuration. *)
Record client_ok (c : ClobClient) : Prop := {
  co_signer : length (signer_addr_ c) = 20%nat;
  co_funder : length (funder_addr_ c) = 20%nat;
  co_builder : length (builder_ c) = 32%nat;
}.

Lemma address_length key : length (address key) = 20%nat.
Proof using EL. unfold address, address_of_pub. by rewrite length_drop, keccak256_length. Qed.

Lemma clob_client_ok cfg c : clob_client cfg = Ok c -> client_ok c.
Proof using EL.
  unfold clob_client. intros H. apply bind_ok in H as (key & _ & H). cbv zeta in H.
  apply bind_ok in H as (fund & Hf & H). apply bind_ok in H as (bld & Hb & H). apply Ok_inj in H. subst c.
  split; cbn [signer_addr_ funder_addr_ builder_]; [apply address_length|..].
  - destruct (str_empty (funder cfg)); [apply Ok_inj in Hf; subst; apply address_length|by eapply eth_address_length].
  - destruct (str_empty (c_builder cfg)); [apply Ok_inj in Hb; by subst|].
    unfold parse_bytes32 in Hb. apply bind_ok in Hb as (b & _ & Hb). apply bind_ok in Hb as (u & Ht & Hb).
    apply Ok_inj in Hb. subst b. by apply throw_if_ok, negb_false_iff, Nat.eqb_eq in Ht.
Qed.

(** A client in use is still well typed: the operations leave its identity
    alone. *)
Lemma client_ok_traffic c c' : client_ok c -> traffic c c' -> client_ok c'.
Proof using. intros [H1 H2 H3] Ht. split; by rewrite ?(tf_signer_addr _ _ Ht), ?(tf_funder_addr _ _ Ht), ?(tf_builder _ _ Ht). Qed.

Lemma salt_range c z c' : generate_salt W c = (Ok z, c') -> in_u64 z.
Proof using.
  unfold generate_salt. intros H. inv_m H r c1 H1. inv_m H ms c2 H2. injection H as <- <-.
  pose proof (u64_range ms) as Hr. set (d := if u64 ms =? 0 then 1 else u64 ms).
  assert (0 < d < 2 ^ 64) by (unfold d, in_u64 in *; destruct (Z.eqb_spec (u64 ms) 0); lia).
  pose proof (Z.mod_pos_bound r d). unfold in_u64. lia.
Qed.

(** The chosen amounts fit, and only a real side gets this far. *)
Lemma choose_amounts_typed args tick mk tk :
  choose_amounts args tick = Ok (mk, tk) -> in_u64 mk /\ in_u64 tk /\ (a_side args = Buy \/ a_side args = Sell).
Proof using.
  intros H. apply choose_amounts_rule in H as (price & _ & [[_ H]|[[[Hs _] [_ H]]|[[Hs _] [_ [H _]]]]]).
  - destruct (amounts_u64 (a_side args) (a_size args) price tick mk tk (or_introl H)) as [H1 H2].
    split; [done|]. split; [done|]. unfold order_amounts in H.
    do 2 (apply bind_ok in H as (? & _ & H)). apply bind_ok in H as (u & Ht & _). apply throw_if_ok in Ht.
    destruct (bool_decide_reflect (a_side args = Buy)); [by left|].
    destruct (bool_decide_reflect (a_side args = Sell)); [by right|done].
  - destruct (amounts_u64 (a_side args) (a_size args) price tick mk tk (or_intror (or_introl H))). auto.
  - destruct (amounts_u64 (a_side args) (a_size args) (a_price args) tick mk tk (or_intror (or_intror H))). auto.
Qed.

(** *** The order inside

    [prepare_order] up to the order it builds, with the neg-risk flag it found, and the
    rest of it: signing, serialising, naming. *)
Definition built_order (args : PlaceOrderArgs) : M (OrderV2 * bool) :=
  lift (validate_order_asset (a_token_id args) (a_protocol args));;
  tick ← match a_tick_size args with Some t => mret t | None => get_tick_size W (a_token_id args) end;
  lift (throw_if (negb (valid_tick_size tick)) (InvalidArgument ("pm: bad tick size: " +:+ tick)));;
  ts_d ← lift (tick_double tick);
  lift (throw_if (dbl_ltb (a_price args) ts_d || dbl_ltb (dbl_sub dbl_one ts_d) (a_price args))
          (InvalidArgument "pm: price out of range for tick size"));;
  neg_risk ← match a_neg_risk args with Some b => mret b | None => get_neg_risk W (a_token_id args) end;
  amounts ← lift (choose_amounts args tick);
  new_salt ← generate_salt W;
  token ← lift (u256_from_dec (a_token_id args));
  ms ← now_ms W;
  c ← member id;
  mret ({| salt := new_salt; maker := funder_addr_ c;
           signer := if c_signature_type (cfg_ c) =? 3 then funder_addr_ c else signer_addr_ c;
           token_id := token; maker_amount := fst amounts; taker_amount := snd amounts; side := a_side args;
           signature_type := u8 (c_signature_type (cfg_ c)); timestamp_ms := u64 ms;
           metadata := repeat x00 32; builder := builder_ c |}, neg_risk).

Definition seal_order (args : PlaceOrderArgs) (o : OrderV2) (neg_risk : bool) : M PreparedOrder :=
  c ← member id;
  signature_hex ← lift (sign_prepared c o (a_protocol args) neg_risk);
  creds ← ensure_l2_creds W;
  let b := {| b_order := order_json c args o signature_hex; b_owner := api_key creds;
              b_orderType := a_order_type args; b_deferExec := a_defer_exec args; b_postOnly := a_post_only args |} in
  lift (digest ← order_digest o (a_protocol args) neg_risk;
        text ← to_json (write_order J b);
        Ok {| order_id := to_hex0x digest; p_body_text := text |}).

Lemma M_bind_assoc {A B C} (m : M A) (f : A -> M B) (g : B -> M C) c :
  ((m ≫= f) ≫= g) c = (m ≫= fun a => f a ≫= g) c.
Proof using. unfold mbind, M_bind. by destruct (m c) as [[a|e] c1]. Qed.
Lemma M_bind_ext {A B} (m : M A) (f g : A -> M B) c : (forall a c, f a c = g a c) -> (m ≫= f) c = (m ≫= g) c.
Proof using. intros H. unfold mbind, M_bind. destruct (m c) as [[a|e] c1]; [apply H|done]. Qed.

(** The two halves are the method. *)
Lemma prepare_order_halves args c :
  prepare_order W J args c = (built_order args ≫= fun r => seal_order args (fst r) (snd r)) c.
Proof using.
  unfold prepare_order, built_order, seal_order.
  do 10 (rewrite M_bind_assoc; apply M_bind_ext; intros ? ?). reflexivity.
Qed.

(** Never more than a dollar a share: a buyer pays no more cash than the tokens it
    receives, and a seller asks for no more. *)
Definition dollar_a_share (o : OrderV2) : Prop :=
  (side o = Buy /\ maker_amount o <= taker_amount o) \/ (side o = Sell /\ taker_amount o <= maker_amount o).

Lemma choose_amounts_dollar args tick mk tk :
  dbl_valid (a_size args) = true -> dbl_valid (a_price args) = true -> choose_amounts args tick = Ok (mk, tk) ->
  (a_side args = Buy /\ mk <= tk) \/ (a_side args = Sell /\ tk <= mk).
Proof using UL.
  intros Hvs Hvp H. apply choose_amounts_rule in H as (price & Hsnap & H).
  assert (Hv : dbl_valid price = true).
  { pose proof Hsnap as Hs. unfold snap_price in Hs. apply bind_ok in Hs as ([] & Hval & Hs).
    apply bind_ok in Hs as (rc & Hrc & Hs). apply bind_ok in Hs as (d & Hd & _).
    destruct (snap_price_ratio _ _ _ _ Hvp Hval Hrc Hd) as (_ & E & Hst). rewrite E in Hsnap. apply Ok_inj in Hsnap.
    subst price. apply Hst. }
  destruct H as [[_ H]|[[[Hs _] [_ H]]|[[Hs _] [_ [H _]]]]].
  - by apply (order_amounts_dollar _ _ _ _ _ _ Hvs Hv H).
  - left. split; [done|]. by apply (market_buy_dollar _ _ _ _ Hvs Hv H).
  - left. split; [done|]. by apply (protected_dollar _ _ _ _ _ Hvs Hvp H).
Qed.

Lemma built_order_ok args c o nr c' :
  client_ok c -> built_order args c = (Ok (o, nr), c') ->
  order_ok o /\ (side o = Buy \/ side o = Sell)
  /\ (dbl_valid (a_size args) = true -> dbl_valid (a_price args) = true -> dollar_a_share o).
Proof using EL UL.
  intros Hok. unfold built_order. intros H.
  inv_m H u1 c1 H1. apply lift_ok in H1 as [_ ->]. inv_m H tick c2 Htick.
  inv_m H u3 c3 H3. apply lift_ok in H3 as [_ ->].
  inv_m H ts c4 H4. apply lift_ok in H4 as [_ ->]. inv_m H u5 c5 H5. apply lift_ok in H5 as [_ ->].
  inv_m H nr' c6 Hnr. inv_m H am c7 H7. apply lift_ok in H7 as [Ham ->].
  inv_m H sl c8 H8. inv_m H tok c9 H9. apply lift_ok in H9 as [_ ->]. inv_m H ms c10 H10.
  inv_m H c11 c11' H11. injection H11 as <- <-. apply ret_ok in H as [H ->]. injection H as -> ->.
  apply salt_range in H8 as Hsalt.
  assert (Hr : reads c c10).
  { apply only_reads_tick in Htick. apply only_reads_neg_risk in Hnr. apply only_reads_salt in H8.
    apply only_reads_now in H10. repeat (etrans; [eassumption|]). done. }
  destruct Hr as [_ E1 E2 E3 E4 E5], Hok as [K1 K2 K3], am as [mk tk].
  split; [|split].
  - pose proof Ham as Ham'. apply choose_amounts_typed in Ham' as (Hmk & Htk & Hside).
    split; cbn; rewrite ?E4, ?E5; try done.
    + destruct (_ =? 3); [exact K2|]. rewrite E3. exact K1.
    + by destruct Hside as [-> | ->].
    + apply Z.mod_pos_bound. lia.
    + apply u64_range.
  - by apply choose_amounts_typed in Ham as (_ & _ & Hside).
  - intros Hvs Hvp. by eapply choose_amounts_dollar.
Qed.

Lemma built_order_side args c o nr c' : built_order args c = (Ok (o, nr), c') -> side o = a_side args.
Proof using.
  unfold built_order. intros H. do 11 (apply M_bind_ok in H as (? & ? & _ & H); cbv beta in H).
  apply ret_ok in H as [H _]. by injection H as ->.
Qed.

(** What a prepared order is named after. *)
Lemma sealed_id args o nr c p c' : seal_order args o nr c = (Ok p, c') ->
  exists h, order_digest o (a_protocol args) nr = Ok h /\ order_id p = to_hex0x h.
Proof using.
  unfold seal_order. intros H. inv_m H c1 c1' H1. injection H1 as <- <-. inv_m H sg c2 H2. apply lift_ok in H2 as [_ ->].
  inv_m H cr c3 Hcr. apply lift_ok in H as [H ->]. apply bind_ok in H as (h & Hh & H). apply bind_ok in H as (text & _ & H).
  apply Ok_inj in H. subst p. by exists h.
Qed.

Lemma used_client_ok cfg c ops : clob_client cfg = Ok c -> client_ok (run_all W J ops c).
Proof using EL. intros Hc. eapply client_ok_traffic; [by eapply clob_client_ok|apply run_all_traffic]. Qed.

(** C18: what an order that is prepared is.  Whatever a client built from a
    configuration did before, when [prepare_order] returns, the order it built is a
    buy or a sell, by the side that was asked for; it never pays or asks more than a
    dollar a share, whichever of the three amount rules and roundings applied; its
    amounts, salt and timestamp fit [uint64_t], its addresses 20 bytes and its words
    32; and the returned identifier is the digest of that order. *)
Theorem prepared_order_well_typed cfg c ops args p c' :
  clob_client cfg = Ok c -> dbl_valid (a_size args) = true -> dbl_valid (a_price args) = true ->
  prepare_order W J args (run_all W J ops c) = (Ok p, c') ->
  exists o nr c1, built_order args (run_all W J ops c) = (Ok (o, nr), c1)
    /\ side o = a_side args /\ (side o = Buy \/ side o = Sell) /\ dollar_a_share o /\ order_ok o
    /\ exists h, order_digest o (a_protocol args) nr = Ok h /\ order_id p = to_hex0x h.
Proof using EL UL.
  intros Hc Hvs Hvp Hp. rewrite prepare_order_halves in Hp. inv_m Hp r c1 H1. destruct r as [o nr]. cbn [fst snd] in Hp.
  exists o, nr, c1. split; [done|]. destruct (built_order_ok _ _ _ _ _ (used_client_ok _ _ _ Hc) H1) as (H2 & H3 & H4).
  split; [by eapply built_order_side|]. split; [done|]. split; [auto|]. split; [done|]. by eapply sealed_id.
Qed.

(** C19: an identifier names one order.  Take two orders built and prepared by clients
    made from configurations, at any time and for any arguments.  If the identifiers
    are the same, the two orders agree in all eleven fields and are for the same exchange,
    unless two of the texts hashed for them are a Keccak collision. *)
Theorem order_ids_identify cfg cfg2 c c2 ops ops2 args args2 o o2 nr nr2 e e2 p p2 d d2 :
  clob_client cfg = Ok c -> clob_client cfg2 = Ok c2 ->
  built_order args (run_all W J ops c) = (Ok (o, nr), e) -> prepare_order W J args (run_all W J ops c) = (Ok p, d) ->
  built_order args2 (run_all W J ops2 c2) = (Ok (o2, nr2), e2) -> prepare_order W J args2 (run_all W J ops2 c2) = (Ok p2, d2) ->
  order_id p = order_id p2 ->
  (same_order o o2 /\ exchange_of (a_protocol args) nr = exchange_of (a_protocol args2) nr2)
  \/ order_collision o o2 (a_protocol args) (a_protocol args2) nr nr2.
Proof using EL UL.
  intros Hc Hc2 Hb Hp Hb2 Hp2 Hid.
  assert (Hof : forall args c o nr e p d, built_order args c = (Ok (o, nr), e) -> prepare_order W J args c = (Ok p, d) ->
    exists h, order_digest o (a_protocol args) nr = Ok h /\ order_id p = to_hex0x h).
  { clear. intros args c o nr e p d Hb Hp. rewrite prepare_order_halves in Hp. inv_m Hp r c1 H1. rewrite Hb in H1.
    injection H1 as <- <-. by eapply sealed_id. }
  destruct (Hof _ _ _ _ _ _ _ Hb Hp) as (h & Hh & E1), (Hof _ _ _ _ _ _ _ Hb2 Hp2) as (h2 & Hh2 & E2).
  rewrite E1, E2 in Hid. apply to_hex0x_inj in Hid. subst h2.
  destruct (built_order_ok _ _ _ _ _ (used_client_ok _ _ _ Hc) Hb) as [Ho _].
  destruct (built_order_ok _ _ _ _ _ (used_client_ok _ _ _ Hc2) Hb2) as [Ho2 _].
  by eapply order_digest_inj.
Qed.
End Prepared.

Module DemoPrepared.
Definition prepared (c : ClobClient) : result PreparedOrder * ClobClient :=
  prepare_order (L := u256_reference) (EI := eip712_cut) (JL := json_reference) DemoClob.world DemoClob.json
    DemoClob.args (run_all (L := u256_reference) (EI := eip712_cut) (SL := sodium_reference) (JL := json_reference)
      DemoClob.world DemoClob.json [GetTickSize "7"] c).
Lemma runs : exists c p c', DemoOps.client = Ok c /\ prepared c = (Ok p, c').
Proof.
  destruct DemoOps.client as [c|e] eqn:E; [|vm_compute in E; discriminate E]. exists c.
  assert (Hok : is_ok (fst (prepared c)) = true) by (vm_compute in E; injection E as <-; vm_compute; reflexivity).
  destruct (prepared c) as [[p|e] c']; [|done]. by exists p, c'.
Qed.
End DemoPrepared.

Lemma prepared_order_well_typed_witness :
  exists c p c' (o : @OrderV2 u256_reference) h, DemoOps.client = Ok c /\ DemoPrepared.prepared c = (Ok p, c')
    /\ side o = Buy /\ maker_amount o <= taker_amount o /\ order_ok o /\ order_id p = to_hex0x h.
Proof.
  destruct DemoPrepared.runs as (c & p & c' & Hc & Hp).
  assert (Hvs : dbl_valid (a_size DemoClob.args) = true) by (vm_compute; reflexivity).
  assert (Hvp : dbl_valid (a_price DemoClob.args) = true) by (vm_compute; reflexivity).
  pose proof Hp as Hp'. unfold DemoPrepared.prepared in Hp'.
  destruct (prepared_order_well_typed (EI := eip712_cut) (EL := eip712_cut_laws) (UL := u256_reference_laws) (SL := sodium_reference)
    (JL := json_reference) DemoClob.world DemoClob.json _ c [GetTickSize "7"] DemoClob.args p c' Hc Hvs Hvp Hp')
    as (o & nr & c1 & _ & Hs & _ & Hd & Ho & h & _ & Hid).
  exists c, p, c', o, h. split; [exact Hc|]. split; [exact Hp|]. split; [exact Hs|].
  split; [|split; [exact Ho|exact Hid]]. destruct Hd as [[_ Hd]|[Hd _]]; [exact Hd|]. rewrite Hs in Hd. discriminate Hd.
Defined.

Lemma order_ids_identify_witness :
  exists c p c' (o : @OrderV2 u256_reference) nr, DemoOps.client = Ok c /\ DemoPrepared.prepared c = (Ok p, c')
    /\ ((same_order o o /\ exchange_of ctf_v2 nr = exchange_of ctf_v2 nr)
        \/ order_collision (E := eip712_cut) o o ctf_v2 ctf_v2 nr nr).
Proof.
  destruct DemoPrepared.runs as (c & p & c' & Hc & Hp).
  pose proof Hp as Hb. unfold DemoPrepared.prepared in Hb. rewrite prepare_order_halves in Hb.
  apply M_bind_ok in Hb as ([o nr] & e & Hb & _).
  exists c, p, c', o, nr. split; [exact Hc|]. split; [exact Hp|].
  exact (order_ids_identify (EI := eip712_cut) (EL := eip712_cut_laws) (UL := u256_reference_laws) (SL := sodium_reference)
    (JL := json_reference) _ _ _ _ _ _ _ _ _ _ _ _ _ _ _ _ _ _ _ _ Hc Hc Hb Hp Hb Hp eq_refl).
Defined.
