(* ===== verification/Relayer.v ===== *)
(** * The relayer client ([src/pm/relayer.cpp], [relayer.hpp])

    Deposit wallets are created and operated through a relayer: the request
    texts, the header sets that authorize them, and the client that submits
    them over its own HTTPS client or a transport of the caller. *)

From Stdlib Require Import Ascii String ZArith Lia.
From Stdlib Require Import Strings.Byte.
From stdpp Require Import base list sets strings numbers.
From S2P Require Import Prelude Interfaces Keccak Double Json Amounts Keys Signing Auth DepositWallet Http.

Open Scope Z_scope.

(** ** Data *)

Record BuilderApiCreds := { bk_key : string; bk_secret : string; bk_passphrase : string }.
Record RelayerApiCreds := { rk_key : string; rk_address : string }.
Record RelayerConfig := { url : string; builder_creds : BuilderApiCreds; relayer_creds : RelayerApiCreds }.
Record RelayerTransaction := { transaction_id : string; transaction_hash : string }.

Definition builder_complete (c : BuilderApiCreds) : bool :=
  negb (str_empty (bk_key c)) && negb (str_empty (bk_secret c)) && negb (str_empty (bk_passphrase c)).
Definition relayer_complete (c : RelayerApiCreds) : bool :=
  negb (str_empty (rk_key c)) && negb (str_empty (rk_address c)).

(** What reached the transport. *)
Record RelayerCall := { rc_method : string; rc_target : string; rc_body : string; rc_headers : Headers }.

(** [custom_] tells whether a transport was supplied. *)
Record RelayerClient := {
  config_ : RelayerConfig;
  endpoint_ : HttpsUrl;
  custom_ : bool;
  r_http : Client;
  r_calls : list RelayerCall;
}.

(** ** Request texts *)

Definition build_deposit_wallet_create_request (own : Bytes) : result string :=
  factory ← eth_address_from_hex kDepositWalletFactory;
  Ok ("{" +:+ quoted "type" +:+ ":" +:+ quoted "WALLET-CREATE" +:+ "," +:+ quoted "from" +:+ ":"
      +:+ quoted (to_hex0x own) +:+ "," +:+ quoted "to" +:+ ":" +:+ quoted (to_hex0x factory) +:+ "}").

Definition call_json `{U256Lib} (call : DepositWalletCall) : string :=
  "{" +:+ quoted "target" +:+ ":" +:+ quoted (to_hex0x (DepositWallet.target call)) +:+ "," +:+ quoted "value" +:+ ":"
  +:+ quoted (u256_to_dec (value call)) +:+ "," +:+ quoted "data" +:+ ":" +:+ quoted (to_hex0x (data call)) +:+ "}".

(** The loop over the calls; a comma goes before every call but the first. *)
Fixpoint calls_loop `{U256Lib} (index : nat) (calls : list DepositWalletCall) (calls_json : string) : string :=
  match calls with
  | [] => calls_json
  | call :: rest =>
      calls_loop (S index) rest
        ((match index with O => calls_json | S _ => calls_json +:+ "," end) +:+ call_json call)
  end.

Definition build_deposit_wallet_batch_request `{U256Lib} (own wallet : Bytes) (nonce deadline : Z)
    (calls : list DepositWalletCall) (signature : Bytes) : result string :=
  let calls_json := calls_loop 0 calls "" in
  factory ← eth_address_from_hex kDepositWalletFactory;
  Ok ("{" +:+ quoted "type" +:+ ":" +:+ quoted "WALLET" +:+ "," +:+ quoted "from" +:+ ":" +:+ quoted (to_hex0x own)
      +:+ "," +:+ quoted "to" +:+ ":" +:+ quoted (to_hex0x factory)
      +:+ "," +:+ quoted "nonce" +:+ ":" +:+ quoted (to_string nonce)
      +:+ "," +:+ quoted "signature" +:+ ":" +:+ quoted (to_hex0x signature)
      +:+ "," +:+ quoted "depositWalletParams" +:+ ":{" +:+ quoted "depositWallet" +:+ ":" +:+ quoted (to_hex0x wallet)
      +:+ "," +:+ quoted "deadline" +:+ ":" +:+ quoted (to_string deadline)
      +:+ "," +:+ quoted "calls" +:+ ":[" +:+ calls_json +:+ "]}}").

Definition build_builder_headers `{SodiumLib} (creds : BuilderApiCreds) (timestamp_s : Z)
    (method request_path bdy : string) : result Headers :=
  throw_if (negb (builder_complete creds)) (InvalidArgument "incomplete builder credentials");;
  let timestamp := to_string timestamp_s in
  let message := timestamp +:+ method +:+ request_path +:+ bdy in
  key ← b64url_decode (bk_secret creds);
  let signature := b64url_encode (hmac_sha256 key message) in
  Ok [("POLY_BUILDER_API_KEY", bk_key creds); ("POLY_BUILDER_TIMESTAMP", timestamp);
      ("POLY_BUILDER_PASSPHRASE", bk_passphrase creds); ("POLY_BUILDER_SIGNATURE", signature)].

(** ** The client *)

Definition relayer_client (config : RelayerConfig) (custom : bool) : result RelayerClient :=
  endpoint ← parse_https_url (url config);
  throw_if (negb (String.eqb (Http.target endpoint) "/")) (InvalidArgument "relayer URL must not contain a path");;
  Ok {| config_ := config; endpoint_ := endpoint; custom_ := custom;
        r_http := {| m_stream := None; attempts := 0; log := [] |}; r_calls := [] |}.

Definition require_success (response : HttpResponse) (action : string) : result string :=
  throw_if ((status response <? 200) || (300 <=? status response))
    (RuntimeError ("relayer " +:+ action +:+ " HTTP " +:+ to_string (status response) +:+ ": " +:+ body response));;
  Ok (body response).

(** [timestamp_s ? timestamp_s : now_s()], with [clock] the clock's reading. *)
Definition submit_headers `{SodiumLib} (clock : Z) (config : RelayerConfig) (bdy : string) (timestamp_s : Z) :
    result Headers :=
  let timestamp := if timestamp_s =? 0 then clock else timestamp_s in
  if builder_complete (builder_creds config) then
    build_builder_headers (builder_creds config) timestamp "POST" "/submit" bdy
  else if relayer_complete (relayer_creds config) then
    a ← eth_address_from_hex (rk_address (relayer_creds config));
    Ok [("RELAYER_API_KEY", rk_key (relayer_creds config)); ("RELAYER_API_KEY_ADDRESS", to_hex0x a)]
  else Throw (RuntimeError "relayer submit credentials unavailable").

Section Relayer.
Context `{L : U256Lib} {EI : @Eip712Lib L} `{EC : EcdsaLib} `{SL : SodiumLib} `{JL : JsonLib}.
(** The network under the HTTPS client, the answer of a supplied transport to its
    n-th call, the clock, and the typed reader of a [TransactionEnvelope]. *)
Context (net : nat -> Attempt) (transport : nat -> result HttpResponse) (clock : Z).
Context (read_envelope : string -> option (string * string)).

Definition relay_request (method tgt bdy : string) (hs : Headers) (c : RelayerClient) :
    result HttpResponse * RelayerClient :=
  let n := length (r_calls c) in
  let called := {| rc_method := method; rc_target := tgt; rc_body := bdy; rc_headers := hs |} :: r_calls c in
  let leave h := {| config_ := config_ c; endpoint_ := endpoint_ c; custom_ := custom_ c; r_http := h;
                    r_calls := called |} in
  if custom_ c then (transport n, leave (r_http c))
  else if String.eqb method "GET" then
    let '(r, h) := Http.get (host (endpoint_ c)) default_options net tgt hs (r_http c) in (r, leave h)
  else if String.eqb method "POST" then
    let '(r, h) := Http.post (host (endpoint_ c)) default_options net tgt bdy hs "application/json" (r_http c) in
    (r, leave h)
  else (Throw (InvalidArgument "unsupported relayer HTTP method"), c).

Definition parse_transaction (text : string) : result RelayerTransaction :=
  e ← of_option (RuntimeError "relayer transaction response invalid") (read_envelope text);
  throw_if (str_empty (fst e) && str_empty (snd e)) (RuntimeError "relayer transaction identifiers missing");;
  Ok {| transaction_id := fst e; transaction_hash := snd e |}.

Definition number_nonce (v : generic) : result Z := d ← get_number v; u64_of_double d.

Definition parse_nonce (text : string) : result Z :=
  v ← of_option (RuntimeError "relayer nonce response invalid") (read_json text);
  if is_object v && contains v "nonce" then
    nonce ← field v "nonce";
    if is_string nonce then t ← get_string nonce; stoull t else number_nonce nonce
  else if is_string v then t ← get_string v; stoull t
  else if is_number v then number_nonce v
  else Throw (RuntimeError "relayer nonce missing").

Definition parse_deployed (text : string) : result bool :=
  let missing := RuntimeError "relayer deployed flag missing" in
  v ← of_option (RuntimeError "relayer deployed response invalid") (read_json text);
  if is_boolean v then get_boolean v
  else if is_object v && contains v "deployed" then
    deployed ← field v "deployed";
    if is_boolean deployed then get_boolean deployed
    else if is_string deployed then t ← get_string deployed; Ok (String.eqb t "true")
    else Throw missing
  else Throw missing.

Definition get_nonce (own : Bytes) (c : RelayerClient) : result Z * RelayerClient :=
  let tgt := "/nonce?address=" +:+ to_hex0x own +:+ "&type=WALLET" in
  let '(r, c) := relay_request "GET" tgt "" [] c in
  (res ← r; text ← require_success res "nonce"; parse_nonce text, c).

Definition get_deployed (wallet : Bytes) (c : RelayerClient) : result bool * RelayerClient :=
  let tgt := "/deployed?address=" +:+ to_hex0x wallet +:+ "&type=WALLET" in
  let '(r, c) := relay_request "GET" tgt "" [] c in
  (res ← r; text ← require_success res "deployed"; parse_deployed text, c).

Definition get_transaction (id : string) (c : RelayerClient) : result string * RelayerClient :=
  let '(r, c) := relay_request "GET" ("/transaction?id=" +:+ id) "" [] c in
  (res ← r; require_success res "transaction status", c).

Definition submit (bdy : string) (timestamp_s : Z) (c : RelayerClient) : result RelayerTransaction * RelayerClient :=
  match submit_headers clock (config_ c) bdy timestamp_s with
  | Throw e => (Throw e, c)
  | Ok hs =>
      let '(r, c) := relay_request "POST" "/submit" bdy hs c in
      (res ← r; text ← require_success res "submit"; parse_transaction text, c)
  end.

Definition deploy_deposit_wallet (own : Bytes) (timestamp_s : Z) (c : RelayerClient) :
    result RelayerTransaction * RelayerClient :=
  match build_deposit_wallet_create_request own with
  | Throw e => (Throw e, c)
  | Ok text => submit text timestamp_s c
  end.

Definition execute_deposit_wallet_batch (owner_key : PrivKey) (wallet : Bytes) (nonce deadline : Z)
    (calls : list DepositWalletCall) (timestamp_s : Z) (c : RelayerClient) :
    result RelayerTransaction * RelayerClient :=
  let request :=
    signature ← sign_deposit_wallet_batch owner_key kChainId wallet nonce deadline calls;
    build_deposit_wallet_batch_request (address owner_key) wallet nonce deadline calls signature in
  match request with
  | Throw e => (Throw e, c)
  | Ok text => submit text timestamp_s c
  end.
End Relayer.

(** ** Reading a request back *)

Definition unquoted (s : string) : bool := str_all (fun c => negb (Ascii.eqb c (ascii_of_nat 34))) s.

(** Text up to a quote is determined. *)
Lemma quote_split a b x y : unquoted a = true -> unquoted b = true ->
  a +:+ quote +:+ x = b +:+ quote +:+ y -> a = b /\ x = y.
Proof.
  unfold unquoted. revert b. induction a as [|c a IH]; intros [|d b]; cbn; intros Ha Hb H; injection H; auto.
  - intros _ <-. by vm_compute in Hb.
  - intros _ ->. by vm_compute in Ha.
  - intros Heq ->. apply andb_true_iff in Ha as [_ Ha], Hb as [_ Hb]. destruct (IH b Ha Hb Heq) as [-> ->]. done.
Qed.

Lemma unquoted_digits s : str_all is_digit s = true -> unquoted s = true.
Proof. apply str_all_impl. intros c. destruct c as [[] [] [] [] [] [] [] []]; vm_compute; congruence. Qed.

Lemma to_hex_digits d : str_all is_hex (to_hex d) = true.
Proof.
  induction d as [|b d IH]; [done|]. cbn [to_hex str_all]. destruct (nibbles b) as (H1 & H2 & _).
  unfold is_hex. rewrite !nib_digit by done. rewrite !(proj2 (Z.leb_le 0 _)) by lia. done.
Qed.

Lemma unquoted_hex d : unquoted (to_hex0x d) = true.
Proof.
  unfold to_hex0x, unquoted. rewrite str_all_app. apply andb_true_iff. split; [done|].
  generalize (to_hex_digits d). apply str_all_impl. intros c.
  destruct c as [[] [] [] [] [] [] [] []]; vm_compute; congruence.
Qed.

Section ReadBack.
Context `{L : U256Lib} {UL : U256Laws L}.

Lemma unquoted_dec x : unquoted (u256_to_dec x) = true.
Proof using UL.
  rewrite u256_to_dec_val. apply unquoted_digits, to_string_digits. apply u256_val_range.
Qed.

Lemma u256_to_dec_inj x y : u256_to_dec x = u256_to_dec y -> u256_be x = u256_be y.
Proof using UL.
  rewrite !u256_to_dec_val. intros H%to_string_inj; [|apply u256_val_range..].
  apply be_val_inj; [by rewrite !u256_be_length|exact H].
Qed.

(** Peel [n] pieces of two equal texts, each ending at a quote. *)
Tactic Notation "peel" integer(n) hyp(H) := do n (apply quote_split in H as [? H];
  [|first [done | apply unquoted_hex | apply unquoted_dec | by apply unquoted_digits, to_string_digits]..]).

Lemma call_json_inj c c' x y : call_json c +:+ x = call_json c' +:+ y -> same_call c c' /\ x = y.
Proof using UL.
  unfold call_json, quoted. rewrite <- !str_app_assoc. intros H.
  peel 12 H.
  apply str_app_inj_l in H. split; [|done].
  repeat split; first [by apply to_hex0x_inj | by apply u256_to_dec_inj].
Qed.
(** The text after the first call. *)
Fixpoint more_calls (l : list DepositWalletCall) : string :=
  match l with [] => "" | c :: rest => "," +:+ call_json c +:+ more_calls rest end.

Lemma calls_loop_more i l acc : calls_loop (S i) l acc = acc +:+ more_calls l.
Proof using.
  revert i acc. induction l as [|c l IH]; intros i acc; cbn [calls_loop more_calls]; [by rewrite str_app_nil_r|].
  rewrite IH. by rewrite <- !str_app_assoc.
Qed.

Lemma more_calls_inj l l' : more_calls l +:+ "]}}" = more_calls l' +:+ "]}}" -> Forall2 same_call l l'.
Proof using UL.
  revert l'. induction l as [|c l IH]; intros [|c' l']; cbn [more_calls]; [constructor|discriminate|discriminate|].
  rewrite <- !str_app_assoc. intros H%str_app_inj_l. apply call_json_inj in H as [Hc H]. constructor; auto.
Qed.

Lemma calls_text_inj l l' :
  calls_loop 0 l "" +:+ "]}}" = calls_loop 0 l' "" +:+ "]}}" -> Forall2 same_call l l'.
Proof using UL.
  destruct l as [|c l], l' as [|c' l']; cbn [calls_loop]; rewrite ?calls_loop_more; cbn [String.append];
    [constructor|discriminate|discriminate|].
  rewrite <- !str_app_assoc. intros [Hc H]%call_json_inj. constructor; [done|]. by apply more_calls_inj.
Qed.

(** C28: the batch text says what it authorizes.  Two batch requests with the
    same text have the same owner, wallet, nonce, deadline, signature and, call by
    call, the same target, value and data: no content can imitate the structure
    of the text. *)
Theorem batch_request_injective own wallet nonce deadline calls sig own' wallet' nonce' deadline' calls' sig' t :
  0 <= nonce -> 0 <= nonce' -> 0 <= deadline -> 0 <= deadline' ->
  build_deposit_wallet_batch_request own wallet nonce deadline calls sig = Ok t ->
  build_deposit_wallet_batch_request own' wallet' nonce' deadline' calls' sig' = Ok t ->
  own = own' /\ wallet = wallet' /\ nonce = nonce' /\ deadline = deadline' /\ sig = sig'
  /\ Forall2 same_call calls calls'.
Proof using UL.
  intros Hn Hn' Hd Hd'. unfold build_deposit_wallet_batch_request. cbv zeta. intros H H'.
  apply bind_ok in H as (f & Hf & H). apply bind_ok in H' as (f' & Hf' & H').
  rewrite Hf in Hf'. apply Ok_inj in Hf'. subst f'. apply Ok_inj in H. apply Ok_inj in H'. rewrite <- H' in H.
  unfold quoted in H. rewrite <- !str_app_assoc in H. peel 32 H. apply str_app_inj_l in H.
  repeat split; first [by apply to_hex0x_inj | by apply to_string_inj | by apply calls_text_inj].
Qed.
End ReadBack.

(** ** Submission *)

Section Submission.
Context `{L : U256Lib} {EI : @Eip712Lib L} `{EC : EcdsaLib} {ECL : EcdsaLaws EC} `{SL : SodiumLib}.
Context (net : nat -> Attempt) (transport : nat -> result HttpResponse) (clock : Z).
Context (read_envelope : string -> option (string * string)).

Lemma relay_request_calls v t b hs c r c' : relay_request net transport v t b hs c = (r, c') ->
  v = "GET" \/ v = "POST" ->
  r_calls c' = {| rc_method := v; rc_target := t; rc_body := b; rc_headers := hs |} :: r_calls c.
Proof using.
  unfold relay_request. intros H Hv. destruct (custom_ c); [by injection H as <- <-|].
  destruct Hv as [-> | ->]; cbn [String.eqb Ascii.eqb Bool.eqb] in H;
    [destruct (Http.get _ _ _ _ _ _)|destruct (Http.post _ _ _ _ _ _ _ _)]; by injection H as <- <-.
Qed.

(** A wallet batch is submitted once, with the owner's authorization.
    Whatever the relayer answers, executing a batch calls the transport at most
    once (the HTTPS client, when it is the transport, has its own retry), with a
    POST to the submit endpoint; its body is the batch request of the given wallet,
    nonce, deadline and calls from the key's own address, the signature in it
    recovers that address from the digest of exactly that batch on the configured
    chain, and the headers are the ones computed over that body.  When no call is
    made the operation throws. *)
Theorem batch_submitted_signed key wallet nonce deadline calls ts c r c' :
  execute_deposit_wallet_batch net transport clock read_envelope key wallet nonce deadline calls ts c = (r, c') ->
  (r_calls c' = r_calls c /\ is_ok r = false)
  \/ exists sig text hs,
      r_calls c' = {| rc_method := "POST"; rc_target := "/submit"; rc_body := text; rc_headers := hs |} :: r_calls c
      /\ build_deposit_wallet_batch_request (address key) wallet nonce deadline calls sig = Ok text
      /\ recover_eth_address sig (deposit_wallet_batch_digest kChainId wallet nonce deadline calls) = Ok (address key)
      /\ submit_headers clock (config_ c) text ts = Ok hs.
Proof using ECL.
  unfold execute_deposit_wallet_batch. cbv zeta.
  destruct (sign_deposit_wallet_batch _ _ _ _ _ _) as [sig|e] eqn:Es; cbn [mbind result_bind];
    [|intros [= <- <-]; by left].
  destruct (build_deposit_wallet_batch_request _ _ _ _ _ _) as [text|e] eqn:Eb; [|intros [= <- <-]; by left].
  unfold submit. destruct (submit_headers _ _ _ _) as [hs|e] eqn:Eh; [|intros [= <- <-]; by left].
  destruct (relay_request _ _ _ _ _ _ _) as [r1 c1] eqn:Er. intros [= <- <-]. right. exists sig, text, hs.
  split; [apply (relay_request_calls _ _ _ _ _ _ _ Er); by right|]. split; [done|]. split; [|done].
  exact (proj2 (signed_recovers key _ _ Es)).
Qed.
End Submission.

(** ** A concrete batch *)

Module DemoRelay.
Definition config : RelayerConfig :=
  {| url := "https://relayer.example"; builder_creds := {| bk_key := "k"; bk_secret := "00ff"; bk_passphrase := "p" |};
     relayer_creds := {| rk_key := ""; rk_address := "" |} |}.
Definition client : RelayerClient :=
  Vectors.get {| config_ := config; endpoint_ := {| host := ""; port := ""; Http.target := "" |}; custom_ := true;
                 r_http := DemoNet.client; r_calls := [] |} (relayer_client config true).
Definition call : @DepositWalletCall u256_reference :=
  @Build_DepositWalletCall u256_reference (repeat x11 20) 5 [x0a; x0b].
Definition answer (n : nat) : result HttpResponse := Ok {| status := 200; body := "{}"; headers := [] |}.
Definition key : PrivKey := {| k_ := repeat x01 32 |}.
Definition wallet : Bytes := repeat x22 20.
Definition executed : result RelayerTransaction * RelayerClient :=
  execute_deposit_wallet_batch (L := u256_reference) (EI := eip712_cut) (SL := sodium_reference)
    DemoNet.net answer 0 (fun _ => Some ("tx", "")) key wallet 7 1234567890 [call] 1752900000 client.
End DemoRelay.

Lemma batch_request_injective_witness :
  exists t, build_deposit_wallet_batch_request (H := u256_reference) DemoRelay.wallet DemoRelay.wallet 7 9
      [DemoRelay.call] [x01] = Ok t
    /\ Forall2 same_call [DemoRelay.call] [DemoRelay.call].
Proof.
  eexists. split; [reflexivity|].
  apply (batch_request_injective (L := u256_reference) DemoRelay.wallet DemoRelay.wallet 7 9 [DemoRelay.call] [x01]
    DemoRelay.wallet DemoRelay.wallet 7 9 [DemoRelay.call] [x01] _ ltac:(lia) ltac:(lia) ltac:(lia) ltac:(lia) eq_refl eq_refl).
Defined.

Lemma batch_submitted_signed_witness :
  exists r c' sig, DemoRelay.executed = (r, c') /\ length (r_calls c') = 1%nat
    /\ recover_eth_address (EI := eip712_cut) sig (deposit_wallet_batch_digest (EI := eip712_cut) kChainId DemoRelay.wallet 7 1234567890
          [DemoRelay.call]) = Ok (address (EI := eip712_cut) DemoRelay.key).
Proof.
  destruct DemoRelay.executed as [r c'] eqn:E.
  destruct (batch_submitted_signed (EI := eip712_cut) _ _ _ _ _ _ _ _ _ _ _ _ _ E) as [[_ Hr]|(sig & text & hs & Hc & _ & Hs & _)].
  - exfalso. assert (Ht : is_ok (fst DemoRelay.executed) = true) by (vm_compute; reflexivity).
    rewrite E in Ht. cbn [fst] in Ht. congruence.
  - exists r, c', sig. split; [reflexivity|]. split; [by rewrite Hc|exact Hs].
Defined.
