(* ===== verification/RelayerOps.v ===== *)
(** * The traffic of a relayer client ([src/pm/relayer.cpp])

    The public methods of [RelayerClient] as one set of operations, and what any
    sequence of them may hand to the transport: reads without a credential, and
    submissions under headers computed over their own text. *)

From Stdlib Require Import Ascii String ZArith Lia.
From Stdlib Require Import Strings.Byte.
From stdpp Require Import base list sets strings numbers.
From S2P Require Import Prelude Interfaces Keccak Double Json Amounts Keys Signing Auth DepositWallet Http RestClients Relayer.

Open Scope Z_scope.

(** [now_s] reads the system clock, in ticks of a nanosecond. *)
Definition now_s (ticks : Z) : Z := u64 (Z.quot ticks 1000000000).

(** The public methods of the header, in its order. *)
Inductive RelayerOp `{U256Lib} :=
  | GetNonce (own : Bytes) | GetDeployed (wallet : Bytes) | GetTransaction (id : string)
  | DeployWallet (own : Bytes) (timestamp_s : Z)
  | ExecuteBatch (key : PrivKey) (wallet : Bytes) (nonce deadline : Z) (calls : list DepositWalletCall) (timestamp_s : Z).

(** The request [RelayerClient::request] makes of a call on its own client. *)
Definition on_wire (host : string) (call : RelayerCall) : Request :=
  if String.eqb (rc_method call) "POST"
  then build_request host post_ (rc_target call) (rc_body call) (rc_headers call) "application/json"
  else build_request host get_ (rc_target call) "" (rc_headers call) "application/json".

Section Traffic.
Context `{L : U256Lib} {EI : @Eip712Lib L} `{EC : EcdsaLib} `{SL : SodiumLib} `{JL : JsonLib}.
Context (net : nat -> Attempt) (transport : nat -> result HttpResponse).
Context (read_envelope : string -> option (string * string)).

(** One operation at a reading of the clock. *)
Definition run_relay (ticks : Z) (op : RelayerOp) (c : RelayerClient) : RelayerClient :=
  match op with
  | GetNonce own => snd (get_nonce net transport own c)
  | GetDeployed wallet => snd (get_deployed net transport wallet c)
  | GetTransaction id => snd (get_transaction net transport id c)
  | DeployWallet own ts => snd (deploy_deposit_wallet net transport (now_s ticks) read_envelope own ts c)
  | ExecuteBatch key wallet nonce deadline calls ts =>
      snd (execute_deposit_wallet_batch net transport (now_s ticks) read_envelope key wallet nonce deadline calls ts c)
  end.

(** A program that catches what an operation throws. *)
Definition run_relays (ops : list (Z * RelayerOp)) (c : RelayerClient) : RelayerClient :=
  fold_left (fun c o => run_relay (fst o) (snd o) c) ops c.

(** ** What a call may be *)

Definition read_target (op : RelayerOp) : option string :=
  match op with
  | GetNonce own => Some ("/nonce?address=" +:+ to_hex0x own +:+ "&type=WALLET")
  | GetDeployed wallet => Some ("/deployed?address=" +:+ to_hex0x wallet +:+ "&type=WALLET")
  | GetTransaction id => Some ("/transaction?id=" +:+ id)
  | _ => None
  end.

(** The operation submits [text] for the timestamp [ts]: the creation of the
    owner's wallet, or a batch that the owner's key signed. *)
Definition submits (op : RelayerOp) (ts : Z) (text : string) : Prop :=
  match op with
  | DeployWallet own ts' => ts = ts' /\ build_deposit_wallet_create_request own = Ok text
  | ExecuteBatch key wallet nonce deadline calls ts' =>
      ts = ts' /\ exists sig,
        recover_eth_address sig (deposit_wallet_batch_digest kChainId wallet nonce deadline calls) = Ok (address key)
        /\ build_deposit_wallet_batch_request (address key) wallet nonce deadline calls sig = Ok text
  | _ => False
  end.

Definition relayed (cfg : RelayerConfig) (ticks : Z) (op : RelayerOp) (call : RelayerCall) : Prop :=
  (exists tgt, read_target op = Some tgt
     /\ call = {| rc_method := "GET"; rc_target := tgt; rc_body := ""; rc_headers := [] |})
  \/ (exists ts text hs, submits op ts text /\ submit_headers (now_s ticks) cfg text ts = Ok hs
       /\ call = {| rc_method := "POST"; rc_target := "/submit"; rc_body := text; rc_headers := hs |}).

(** ** One step *)

(** What an operation did: at most one call, which satisfies [P], and on the
    client's own transport at most two transmissions of it. *)
Record relays (P : RelayerCall -> Prop) (c c' : RelayerClient) : Prop := {
  rl_config : config_ c' = config_ c;
  rl_endpoint : endpoint_ c' = endpoint_ c;
  rl_custom : custom_ c' = custom_ c;
  rl_calls : exists calls new, r_calls c' = calls ++ r_calls c /\ log (r_http c') = new ++ log (r_http c)
    /\ (length calls <= 1)%nat /\ (length (List.filter transmitted new) <= 2 * length calls)%nat
    /\ (forall call, call ∈ calls -> P call)
    /\ (forall st q k, Sent st q k ∈ new -> exists call, call ∈ calls /\ q = on_wire (host (endpoint_ c)) call)
    /\ (custom_ c = true -> new = []);
}.

Lemma relays_nothing P c : relays P c c.
Proof using.
  split; [done..|]. exists [], []. repeat split; try done; try (cbn; lia); [by intros ? ?%elem_of_nil|].
  by intros ??? ?%elem_of_nil.
Qed.

Lemma relay_request_relays (P : RelayerCall -> Prop) v t b hs c r c' :
  relay_request net transport v t b hs c = (r, c') -> v = "GET" /\ b = "" \/ v = "POST" ->
  P {| rc_method := v; rc_target := t; rc_body := b; rc_headers := hs |} -> relays P c c'.
Proof using.
  intros H Hv HP. unfold relay_request in H. set (call := {| rc_method := v; rc_target := t; rc_body := b; rc_headers := hs |}) in *.
  assert (Hgo : forall cu new h, custom_ c = cu -> log h = new ++ log (r_http c) -> (length (List.filter transmitted new) <= 2)%nat ->
    (forall st q k, Sent st q k ∈ new -> q = on_wire (host (endpoint_ c)) call) -> (cu = true -> new = []) ->
    relays P c {| config_ := config_ c; endpoint_ := endpoint_ c; custom_ := cu; r_http := h;
                  r_calls := call :: r_calls c |}).
  { intros cu new h H0 H1 H2 H3 H4. split; [done..|]. rewrite H0. exists [call], new. repeat split; try done; try (cbn; lia).
    - by intros x ->%list_elem_of_singleton.
    - intros st q k ->%H3. exists call. split; [apply list_elem_of_here|done]. }
  destruct (custom_ c) eqn:Ec.
  { injection H as <- <-. apply (Hgo _ []); [done|done|cbn; lia|by intros ??? ?%elem_of_nil|done]. }
  destruct Hv as [[-> ->]| ->]; cbn [String.eqb Ascii.eqb Bool.eqb] in H;
    [destruct (Http.get _ _ _ _ _ _) as [r1 h] eqn:E | destruct (Http.post _ _ _ _ _ _ _ _) as [r1 h] eqn:E];
    injection H as <- <-; apply request_loop_adds in E as (new & Hl & Ht & Hq); by apply (Hgo _ new).
Qed.

Section Submission.
Context (ECL : EcdsaLaws EC).

Lemma submit_relays (P : RelayerCall -> Prop) ticks text ts c r c' :
  submit net transport (now_s ticks) read_envelope text ts c = (r, c') ->
  (forall hs, submit_headers (now_s ticks) (config_ c) text ts = Ok hs ->
    P {| rc_method := "POST"; rc_target := "/submit"; rc_body := text; rc_headers := hs |}) -> relays P c c'.
Proof using.
  unfold submit. intros H HP. destruct (submit_headers _ _ _ _) as [hs|e] eqn:E; [|injection H as <- <-; apply relays_nothing].
  destruct (relay_request _ _ _ _ _ _ _) as [r1 c1] eqn:Er. injection H as <- <-.
  eapply relay_request_relays; [exact Er|by right|by apply HP].
Qed.

Lemma run_relay_relays ticks op c : relays (relayed (config_ c) ticks op) c (run_relay ticks op c).
Proof using ECL.
  destruct op as [own|wallet|id|own ts|key wallet nonce deadline calls ts]; cbn [run_relay];
    unfold get_nonce, get_deployed, get_transaction; try (
    destruct (relay_request _ _ _ _ _ _ _) as [r1 c1] eqn:Er; cbn [snd];
    eapply relay_request_relays; [exact Er|by left|left; by eexists]).
  - unfold deploy_deposit_wallet. destruct (build_deposit_wallet_create_request own) as [text|e] eqn:Et; [|apply relays_nothing].
    destruct (submit _ _ _ _ _ _ _) as [r1 c1] eqn:Er. eapply submit_relays; [exact Er|]. intros hs Hh.
    right. by exists ts, text, hs.
  - unfold execute_deposit_wallet_batch. cbv zeta.
    destruct (sign_deposit_wallet_batch _ _ _ _ _ _) as [sig|e] eqn:Es; cbn [mbind result_bind]; [|apply relays_nothing].
    destruct (build_deposit_wallet_batch_request _ _ _ _ _ _) as [text|e] eqn:Et; [|apply relays_nothing].
    destruct (submit _ _ _ _ _ _ _) as [r1 c1] eqn:Er. eapply submit_relays; [exact Er|]. intros hs Hh.
    right. exists ts, text, hs. split; [|done]. cbn. split; [done|]. exists sig. split; [|done].
    exact (proj2 (signed_recovers key _ _ Es)).
Qed.

(** ** Any program *)

(** The client after a program. *)
Record relay_trace (cfg : RelayerConfig) (c0 c : RelayerClient) (ops : list (Z * RelayerOp)) : Prop := {
  rt_config : config_ c = cfg;
  rt_endpoint : endpoint_ c = endpoint_ c0;
  rt_custom : custom_ c = custom_ c0;
  rt_calls call : call ∈ r_calls c -> exists ticks op, (ticks, op) ∈ ops /\ relayed cfg ticks op call;
  rt_sent st q k : Sent st q k ∈ log (r_http c) -> exists call, call ∈ r_calls c /\ q = on_wire (host (endpoint_ c0)) call;
  rt_count : (length (r_calls c) <= length ops)%nat;
  rt_transmitted : (length (List.filter transmitted (log (r_http c))) <= 2 * length (r_calls c))%nat;
  rt_silent : custom_ c0 = true -> log (r_http c) = [];
}.

Lemma relay_trace_step cfg c0 c ops ticks op :
  relay_trace cfg c0 c ops -> relay_trace cfg c0 (run_relay ticks op c) (ops ++ [(ticks, op)]).
Proof using ECL.
  intros [T1 T2 T3 T4 T5 T6 T7 T8].
  destruct (run_relay_relays ticks op c) as [R1 R2 R3 (calls & new & Hc & Hl & N1 & N2 & HP & Hs & Hcu)].
  split; rewrite ?Hc, ?Hl, ?length_app; try congruence.
  - intros call [H|H]%elem_of_app.
    + exists ticks, op. split; [set_solver|]. rewrite <- T1. by apply HP.
    + destruct (T4 call H) as (t & o & Ho & Hr). exists t, o. split; [set_solver|done].
  - intros st q k [H|H]%elem_of_app.
    + apply Hs in H as (call & Hin & ->). exists call. rewrite T2. split; [set_solver|done].
    + apply T5 in H as (call & Hin & ->). exists call. split; [set_solver|done].
  - cbn. lia.
  - rewrite List.filter_app, length_app. lia.
  - intros H. rewrite (T8 H), Hcu by congruence. done.
Qed.

Lemma relayer_client_made cfg custom c : relayer_client cfg custom = Ok c ->
  relay_trace cfg c c [] /\ custom_ c = custom.
Proof using.
  unfold relayer_client. intros H. apply bind_ok in H as (ep & _ & H). apply bind_ok in H as (u & _ & H).
  apply Ok_inj in H. subst c. split; [|done]. split; cbn; try done; try lia; intros *; by intros ?%elem_of_nil.
Qed.

(** C17: what a relayer client says.  Whatever sequence of operations a program
    runs, failures included, every call it makes of its transport is either a
    GET of the endpoint its operation reads, without body or credential, or a
    POST to the submit endpoint whose text creates the given owner's wallet or
    carries a batch signed by the given key, under headers computed over that
    very text at that operation's clock; an operation makes one call at most.
    On the client's own HTTPS transport nothing else is put on the wire, each
    call at most twice, and with a supplied transport nothing at all. *)
Theorem relayer_requests_authorised cfg custom c ops :
  relayer_client cfg custom = Ok c ->
  let c' := run_relays ops c in
  (forall call, call ∈ r_calls c' -> exists ticks op, (ticks, op) ∈ ops /\ relayed cfg ticks op call)
  /\ (length (r_calls c') <= length ops)%nat
  /\ (forall st q k, Sent st q k ∈ log (r_http c') ->
       exists call, call ∈ r_calls c' /\ q = on_wire (host (endpoint_ c)) call)
  /\ (length (List.filter transmitted (log (r_http c'))) <= 2 * length (r_calls c'))%nat
  /\ (custom = true -> log (r_http c') = []).
Proof using ECL.
  intros (T0 & Hcu)%relayer_client_made. cbv zeta. rewrite <- Hcu.
  assert (HT : relay_trace cfg c (run_relays ops c) ops).
  { unfold run_relays. induction ops as [|[t op] ops IH] using rev_ind; [done|].
    rewrite fold_left_app. cbn [fold_left fst snd]. by apply relay_trace_step. }
  destruct HT. auto.
Qed.
End Submission.
End Traffic.

(** ** A concrete program *)

Module DemoRelays.
Definition made : result RelayerClient := relayer_client DemoRelay.config false.
Definition ops : list (Z * @RelayerOp u256_reference) :=
  [(1752900000000000000, GetNonce DemoRelay.wallet);
   (1752900001000000000, ExecuteBatch DemoRelay.key DemoRelay.wallet 7 1234567890 [DemoRelay.call] 0)].
Definition net (_ : nat) : Attempt := DemoNet.fine DemoNet.created.
Definition used (c : RelayerClient) : RelayerClient :=
  run_relays (L := u256_reference) (EI := eip712_cut) (SL := sodium_reference) (JL := json_reference)
    net DemoRelay.answer (fun _ => Some ("tx", "")) ops c.
End DemoRelays.

Lemma relayer_requests_authorised_witness :
  exists c, DemoRelays.made = Ok c
    /\ map rc_method (r_calls (DemoRelays.used c)) = ["POST"; "GET"]
    /\ (forall call, call ∈ r_calls (DemoRelays.used c) -> exists ticks op, (ticks, op) ∈ DemoRelays.ops
         /\ relayed (EI := eip712_cut) (SL := sodium_reference) DemoRelay.config ticks op call).
Proof.
  destruct DemoRelays.made as [c|e] eqn:E; [|vm_compute in E; discriminate E].
  exists c. split; [reflexivity|]. split.
  - vm_compute in E. injection E as <-. vm_compute. reflexivity.
  - exact (proj1 (relayer_requests_authorised (L := u256_reference) (EI := eip712_cut) (SL := sodium_reference)
      (JL := json_reference) DemoRelays.net DemoRelay.answer (fun _ => Some ("tx", "")) _ DemoRelay.config false c
      DemoRelays.ops E)).
Defined.
